(* ===== verification/_CoqProject ===== *)
-Q . S2P
Prelude.v
Chars.v
Wire.v
WireProps.v
Decoder.v
DecoderFacts.v
DecoderSpec.v
DecoderProps.v
DecoderRepair.v
Catalog.v
Codec.v
CodecProps.v
Operation.v
Text.v
TextProps.v
Identity.v
Process.v
Control.v
Configuration.v
Information.v
OperationLaws.v
OperationProps.v
ReplyProps.v
ProcessProps.v
EchoProps.v
Transfer.v
TransferProps.v
Tables.v
Inspect.v
InspectProps.v
QueueSet.v
QueueRuns.v
QueueSched.v
QueueProps.v
Burst.v
BurstProps.v
Link.v
LinkRunner.v
ExchangeProps.v
LinkProps.v
RunMoves.v
RunProps.v
Ip.v
IpProps.v
Security.v
Topology.v
MeshProps.v
RouteProps.v
MeshManager.v
ManagerProps.v
Service.v
Session.v
Health.v
HealthProps.v
Profile.v
ProfileProps.v
Discovery.v
DiscoveryProps.v
DiscoveryLink.v
Client.v
ClientProps.v
Services.v
ServicesProps.v
Trace.v
TraceProps.v
Schema.v
SchemaProps.v
DeviceCatalog.v
PackageProps.v
Emulator.v
EmulatorProps.v
Bench.v
BenchProps.v
System.v
SystemProps.v
RunBench.v
SystemDiscovery.v
SystemSession.v
Ports.v
Cli.v
