(* ===== verification/Prelude.v ===== *)
(** * HartLink: a verification development

    HartLink (src/) is a host-side stack for the HART field protocol in Rust: a codec
    for link-layer frames, typed device operations, and the services that share one
    physical link among many callers. This library models its own logic as executable
    Rocq definitions and proves the properties that make it correct.

    ** The program and the files that model it

    - Frames. [Wire] models src/src/wire/address.rs and frame.rs: masters, addresses,
      delimiters, [Frame], [Frame_encode] and the XOR checksum. [Decoder] models
      wire/decoder.rs: the streaming [FrameDecoder] with its bounded buffer, the search
      for a candidate behind preambles, checksum policies and repairs, the statistics and
      the limit on events of one [push]. [DecoderSpec] gives the reference semantics of a
      stream; [DecoderFacts], [DecoderProps], [DecoderRepair] and [WireProps] hold the
      lemmas and properties.
    - Operations. [Catalog] models src/src/catalog.rs; [Codec] operation/codec.rs;
      [Operation] operation/mod.rs, the trait [Operation] being a class with its default
      methods and [LawfulOperation] what every typed operation promises to its callers.
      [Text], [Identity], [Process], [Control], [Configuration] and [Information] model
      the files of src/src/operation/ of those names (diagnostics.rs with Information),
      one instance per operation; [OperationLaws] discharges [LawfulOperation] for the
      thirty typed operations. Properties: [CodecProps], [TextProps], [OperationProps],
      [ReplyProps], [ProcessProps], [EchoProps].
    - Block transfer ([Transfer], [TransferProps]: service/transfer.rs), common tables
      ([Tables]: tables.rs) and inspection ([Inspect], [InspectProps]:
      inspect.rs). [Chars] holds the part of Rust's string functions they use.
    - Queues. [QueueSet] models service/queue_set.rs: priorities in their atomic word,
      slots with permits, counters and entries, pushes, the scheduled pops and closing.
      [QueueRuns] interleaves the atomic actions of producers and runner, closing slot by
      slot included, as a step relation, with its invariant; [QueueSched] analyses the scheduler; [QueueProps]
      holds the properties.
    - Unsolicited messages. [Burst], [BurstProps]: service/burst.rs.
    - Links. [Link] models the client side of service/link.rs: command policies and
      routing, retry policies, configuration and building, admission. [LinkRunner] models
      the runner: one exchange with retries, reception, idle input, coalescing, serving
      and stopping. [ExchangeProps] and [LinkProps] hold the properties of one exchange, of
      coalescing and of admission; [RunMoves] follows the jobs through every operation of
      the runner, [RunProps] through a whole run.
    - Services over a link. [Service] is the interface the services use, one request with a
      prefix, a queue and a policy, with the typed conveniences of [LinkClient] and
      [QueueClient] on top; [Watched] is any such link with the log of what it was asked.
      [Client] models the rest of the client side of service/link.rs: the setters, building
      a link, snapshots, queue handles and waiting. [Session] and [Health] model
      service/session.rs and health.rs; [Profile] profile.rs; [Discovery]
      service/discovery.rs; [Services] planner.rs, recovery.rs, snapshot.rs of service/,
      verification.rs and telemetry.rs. The files of those names with [Props] hold the
      properties ([HealthProps] those of sessions too).
    - HART-IP. [Ip], [IpProps]: ip.rs, packets, sessions and the packet channel.
    - Mesh. [Security], [Topology] and [MeshManager] model the files of src/src/mesh/;
      [Security], [MeshProps], [RouteProps] and [ManagerProps] hold the properties.
    - Traces. [Trace], [TraceProps]: trace.rs, the bounded recorder, its PCAP-NG export,
      recording and replay; [ByteChannel] is the trait of channel/mod.rs as a class.
    - Device descriptions. [Schema], [SchemaProps]: device/schema.rs; [DeviceCatalog],
      [PackageProps]: device/catalog.rs and package.rs.
    - Emulator. [Emulator], [EmulatorProps]: emulator.rs, the in-memory link with its faults
      and the emulated device. [Bench] joins it to the link runner as the crate's tests do
      and describes what the line carries; [BenchProps] follows exchanges over it, lost
      transmissions included.
    - The whole stack. [System] composes client, queues, runner, line and device into one
      world that implements the interface [Service]; [LinkContract] is what a service may
      rely on of the link below it. [SystemProps] proves what a request comes
      to; [DiscoveryLink] proves what a scan needs of the contract and [SystemDiscovery]
      discharges it; [SystemSession] runs sessions, managed sessions, snapshots, recovery
      and campaigns on top of it. [RunBench] runs the runner's own loop over the line and
      the device, from whatever waits in the queues to its end.
    - Edges. [Ports]: channel/serial.rs and tcp.rs over native streams, and
      the contract of byte channels; [Cli]: bin/hart-link.rs.

    A request travels through these parts: an operation builds a [Request]; the client
    admits it as a [Job] into a queue; the runner pops it, encodes its frame, exchanges
    it over the channel and its decoder, and answers; the operation decodes the reply.
    Unsolicited replies met on the way go to the burst hub.

    ** Conventions

    Machine integers are [Z] with their width written out ([is_u8], saturating and
    checked arithmetic, wrapping counters); [usize] has 64 bits. Bytes are [list Z] with
    [all_u8] where a theorem needs it; text is a list of code points. [Result] is
    [result], with [let? ..] for the question mark and [return_if .. err ..] for an early
    return. Mutable state is passed explicitly; a method that changes state and can fail
    returns both. Durations and instants are nanoseconds.

    Third-party code is a parameter with named laws: tokio's semaphore ([Semaphore],
    [SemaphoreLaws]), its bounded channel ([Mpsc], [MpscLaws]), the channel under tokio's
    timeouts and the clocks ([Runtime], with [FiniteInput] for termination, and [FiniteErrors],
    that reads which time out use up what the channel has left), the base64 decoder (an
    argument of [inspect_base64]), the parser of the command line (of [cli_main]), the stream
    of a HART-IP session ([IpStream]), the verifier of a mesh join, the JSON parser and the ZIP reader (arguments
    of [DeviceCatalog_load_json] and [import_package]) and the text of an error in a
    snapshot. The link under the services is the class [Service] and the channel under
    recorder, replay and emulator the class [ByteChannel]. Each has an implementation in the
    development ([CountingSemaphore], [ListChannel], [Script], [ScriptLink], [ReplayChannel],
    [Feed] and the like) at which the witnesses evaluate.

    ** What the theorems show

    - Decoding: pushing fragments that fit is decoding the whole stream; encoded frames
      come back exactly; strictly accepted frames are parts of the input in their
      own encoding, but for the burst bit of the address, which a frame does not keep; one
      corrupted byte behind the delimiter, other than the payload count, is detected; every byte is accounted for; repairs are declared.
    - Operations: requests reach the wire unambiguously and survive it; replies and the
      typed decoders accept exactly their layouts; confirmed writes return what was
      written; text and payload codecs are inverse to each other.
    - Transfer, tables, inspection: delivery and integrity of transfers, exact books of
      the repository, inspection of exactly the given frame.
    - Queues: bounds and conservation along every interleaving, closing, selection by
      rank, the waiting bound of a weighted queue, reconfiguration.
    - Burst hub: bounded memory in every run, exact delivery and suppression.
    - Links: the retry budget and its safety for actions, what a returned reply is, that
      an exchange ends, order under coalescing, configuration, admission, and that the
      handles of a built link are safe; a run ends, leaves no job behind and settles each
      of the waiting ones exactly once.
    - Services: the cooldown is a circuit breaker under every interleaving of callers, whose
      clocks are read before they get the lock: a call that passes meets no cooldown then, a
      call refused met one by its own reading; a managed execution makes requests exactly
      outside a cooldown, and a second one with what the clock leaves of the policy's total
      timeout (the diary of [HealthProps] holds calls and readings in their order); a scan reports exactly the answers
      and asks no identified address again; plans stop at the first failure; snapshots only
      read; profiles are validated exactly.
    - HART-IP: packets are coded exactly, sessions stay bounded in every run, an exchange
      returns the response to its own request, the packet channel delivers bodies in order.
    - Mesh: the 64-bit replay window refines the set of accepted counters, routes have the
      fewest hops, schedules are conflict-free, the manager's tables agree in every run of its
      own operations and joins are decided exactly; nodes put straight into the graph it hands
      out ([upsert_node]) are outside of that ([upserted_node_bypasses_admission]).
    - Traces: the recorder keeps the longest suffix that fits; the export reads back exactly
      when its records fit the snap length it declares; a recording replays.
    - Descriptions: schemas decode exactly their payloads to well-typed records, packed text as
      the code reads it, which is not how the tag operations do; imports are all or nothing
      and bounded.
    - Emulator: the in-memory link is a pair of queues with exact faults, the device answers
      exactly the requests for it, and its identification leads back to it; over a line that
      fragments and echoes, the link runner answers every request with what the device says,
      and repeats a request exactly as often as its transmissions are lost and its policy
      allows.
    - The whole stack, over a line without latency: every request through client, queues, runner, decoder and line is
      answered with what the device has to say to it, or with a missing response when the
      device does not listen to the address, within the total timeout of its own policy and
      the guard against late responses; discovery finds exactly the
      device that is there, and a session reads exactly the values the device holds, also a
      managed one, which never cools down a device that answers; a snapshot shows them, and
      recovery tells the device from another in its place. A runner with a full backlog
      answers each waiter once, with what the device says to that waiter's own request.

    ** Fuel

    Recursion that is not structural takes fuel. The decoder's loops take the length of
    the buffer, which every pass shortens ([next_event_unfold]); a transfer takes its
    number of blocks ([transfer_delivers]); the loops of the runner over one queue take
    its length. The reception loop ends with the channel, so running out of fuel is a
    separate result there, and [exchange_ends] proves how much is enough. The route search
    takes one unit per node and one more, as every pass marks one ([visited_size]); HART-IP
    exchanges and the emulated device take one unit per packet or read
    ([ip_exchange_exact], [emulator_answers_requests]), and on the bench two encoded frames
    bound the reads ([bench_answers_every_request]). A run of the runner takes one pass per
    waiting job and one more, and as many reads as the channel will deliver and one
    ([every_request_is_settled_once], [queued_requests_are_answered]); a turn of the whole
    stack takes more than the decoder's capacity, which [steady] asks for
    ([link_answers_for_the_device]). Six-bit text takes three units per byte, of
    which two are used ([packed_codes_spec]).

    ** What is not modelled

    The parsing of arguments and pretty printing are third-party code; src/src/lib.rs and
    the module files only declare and re-export. Accessors that return a field are the
    fields of the records, and the formatting of values for debugging is not modelled.
    Interleavings are those of atomic actions on the queues and of the locked sections of a device's health;
    memory orderings weaker than that are not distinguished. The runner's own loop runs over
    the queues as they stand, its interleaving with producers being that of [QueueRuns]; in
    [System] one task of the application waits for one request at a time. A send of the
    in-memory link that waits for capacity is given as it completes. The latency of a plan is
    modelled in [Emulator] and not on the bench: the theorems about bench, link and stack ask
    for plans without it ([serving]). Serialisation by derive is third-party code.

    Beyond these, the development could grow by lost transmissions below the whole stack,
    which [BenchProps] treats for one exchange, and by several devices on one line. *)
From Stdlib Require Export ZArith Lia.
From stdpp Require Export base tactics list numbers option strings.

#[global] Open Scope Z_scope.

(** ** Results: Rust's [Result<A, E>] with [?] and guarded early returns *)

Inductive result (E A : Type) : Type :=
  | Ok (a : A)
  | Err (e : E).
Arguments Ok {E A} a.
Arguments Err {E A} e.

Definition result_bind {E A B} (m : result E A) (k : A -> result E B) : result E B :=
  match m with Ok a => k a | Err e => Err e end.

Definition result_map_err {E F A} (f : E -> F) (m : result E A) : result F A :=
  match m with Ok a => Ok a | Err e => Err (f e) end.

Definition is_ok {E A} (m : result E A) : bool :=
  match m with Ok _ => true | Err _ => false end.

(** [ok_or]: [Option::ok_or]. *)
Definition ok_or {E A} (o : option A) (e : E) : result E A :=
  match o with Some a => Ok a | None => Err e end.

Declare Scope hart_scope.
Delimit Scope hart_scope with hart.

Notation "'let?' p := m ;; k" := (result_bind m (fun p => k))
  (at level 10, p pattern, m at level 99, k at level 200) : hart_scope.
Notation "'return_if' c 'err' e ;; k" := (if c then Err e else k)
  (at level 10, c at level 99, e at level 99, k at level 200) : hart_scope.

#[global] Open Scope hart_scope.

#[global] Instance result_eq_dec {E A} `{EqDecision E, EqDecision A} : EqDecision (result E A).
Proof.
  intros [a|e] [a'|e'];
    [destruct (decide (a = a')) | | | destruct (decide (e = e'))];
    solve [left; congruence | right; congruence].
Defined.

Lemma result_bind_Ok {E A B} (m : result E A) (k : A -> result E B) b :
  result_bind m k = Ok b <-> exists a, m = Ok a /\ k a = Ok b.
Proof. destruct m; simpl; naive_solver. Qed.

(** ** Machine integers

    A [uN] is a [Z] in [0 .. 2^N).  Saturating and checked arithmetic is
    written out; [usize] is 64 bits wide. *)

(** [lo..=hi] in a pattern or [(lo..=hi).contains(&x)]. *)
Definition in_range (lo hi x : Z) : bool := (lo <=? x) && (x <=? hi).

Definition u8_max : Z := 255.
Definition u16_max : Z := 65535.
Definition u32_max : Z := 4294967295.
Definition u64_max : Z := 18446744073709551615.
Definition usize_max : Z := u64_max.
Definition isize_max : Z := 9223372036854775807.

Definition is_u8 (x : Z) : Prop := 0 <= x < 256.
Definition is_u16 (x : Z) : Prop := 0 <= x < 65536.
Definition is_u32 (x : Z) : Prop := 0 <= x < 4294967296.
Definition is_u64 (x : Z) : Prop := 0 <= x < 18446744073709551616.
Abbreviation is_usize := is_u64.

Definition saturating_add (max a b : Z) : Z := Z.min max (a + b).
Definition saturating_sub (a b : Z) : Z := Z.max 0 (a - b).
Definition checked_add (max a b : Z) : option Z :=
  if (a + b <=? max) then Some (a + b) else None.
Definition checked_sub (a b : Z) : option Z :=
  if (b <=? a) then Some (a - b) else None.
Definition clamp (x lo hi : Z) : Z := Z.max lo (Z.min hi x).

Definition zlen {A} (l : list A) : Z := Z.of_nat (length l).

Lemma zlen_nonneg {A} (l : list A) : 0 <= zlen l.
Proof. unfold zlen. lia. Qed.

Lemma zlen_cons {A} (x : A) l : zlen (x :: l) = 1 + zlen l.
Proof. unfold zlen. cbn [length]. lia. Qed.

Lemma zlen_app {A} (l k : list A) : zlen (l ++ k) = zlen l + zlen k.
Proof. unfold zlen. rewrite length_app. lia. Qed.

Lemma saturating_add_assoc max a b c :
  0 <= b -> 0 <= c ->
  saturating_add max (saturating_add max a b) c = saturating_add max a (b + c).
Proof. unfold saturating_add. lia. Qed.

Lemma saturating_add_0_r max a : a <= max -> saturating_add max a 0 = a.
Proof. unfold saturating_add. lia. Qed.

(** ** Bytes *)

Abbreviation bytes := (list Z).
Abbreviation all_u8 := (Forall is_u8).

(** Exhaustive reasoning over one or two bytes: a boolean fact about every byte
    is checked by evaluation. *)
Lemma u8_forall (P : Z -> bool) :
  forallb P (seqZ 0 256) = true -> forall b, is_u8 b -> P b = true.
Proof.
  rewrite forallb_forall. intros H b Hb. apply H, list_elem_of_In, elem_of_seqZ.
  unfold is_u8 in Hb. lia.
Qed.

Lemma u8_forall2 (P : Z -> Z -> bool) :
  forallb (fun a => forallb (P a) (seqZ 0 256)) (seqZ 0 256) = true ->
  forall a b, is_u8 a -> is_u8 b -> P a b = true.
Proof.
  intros H a b Ha Hb. apply u8_forall; [|done].
  exact (u8_forall (fun a => forallb (P a) (seqZ 0 256)) H a Ha).
Qed.

(** [u8_decide H]: closes a decidable goal about the single byte [b] by trying
    every value; [H : is_u8 b]. *)
Ltac u8_decide b H :=
  pattern b;
  match goal with |- ?P b =>
    let Q := constr:(fun x : Z => bool_decide (P x)) in
    refine (proj1 (bool_decide_eq_true (P b)) (u8_forall Q _ b H));
    vm_compute; reflexivity
  end.

Ltac u8_decide2 a b Ha Hb :=
  pattern a, b;
  match goal with |- ?P a b =>
    let Q := constr:(fun x y : Z => bool_decide (P x y)) in
    refine (proj1 (bool_decide_eq_true (P a b)) (u8_forall2 Q _ a b Ha Hb));
    vm_compute; reflexivity
  end.

#[global] Instance is_u8_dec b : Decision (is_u8 b).
Proof. unfold is_u8. apply _. Defined.

(** [solve_bytes]: closes [is_u8] and [all_u8] goals about literal bytes, and
    bounds on the length of literal lists. *)
Ltac solve_bytes :=
  solve [ unfold is_u8, is_u16, is_u32, zlen; cbn; lia
        | repeat (apply List.Forall_cons; [unfold is_u8; lia|]); apply List.Forall_nil ].

(** ** Big-endian encodings ([to_be_bytes] / [from_be_bytes]) *)

Fixpoint to_be_bytes (n : nat) (x : Z) : bytes :=
  match n with
  | O => []
  | S n => (x / 256 ^ Z.of_nat n) mod 256 :: to_be_bytes n x
  end.

Definition from_be_bytes (l : bytes) : Z :=
  foldl (fun acc b => acc * 256 + b) 0 l.

Lemma length_to_be_bytes n x : length (to_be_bytes n x) = n.
Proof. induction n; simpl; congruence. Qed.

Lemma to_be_bytes_u8 n x : all_u8 (to_be_bytes n x).
Proof.
  induction n; simpl; constructor; [|done].
  unfold is_u8. pose proof (Z.mod_pos_bound (x / 256 ^ Z.of_nat n) 256). lia.
Qed.

Lemma from_be_bytes_acc l acc :
  foldl (fun acc b => acc * 256 + b) acc l = acc * 256 ^ zlen l + from_be_bytes l.
Proof.
  unfold from_be_bytes, zlen. revert acc. induction l as [|b l IH]; intros acc; cbn [foldl length]; [lia|].
  rewrite (IH (acc * 256 + b)), (IH (0 * 256 + b)), Nat2Z.inj_succ, Z.pow_succ_r by lia. lia.
Qed.

Lemma from_be_bytes_cons b l :
  from_be_bytes (b :: l) = b * 256 ^ zlen l + from_be_bytes l.
Proof. exact (from_be_bytes_acc l b). Qed.

Lemma from_be_bytes_snoc l b : from_be_bytes (l ++ [b]) = from_be_bytes l * 256 + b.
Proof. unfold from_be_bytes. by rewrite foldl_app. Qed.

Lemma from_be_bytes_bound l : all_u8 l -> 0 <= from_be_bytes l < 256 ^ zlen l.
Proof.
  induction 1 as [|b l Hb Hl IH]; [done|].
  rewrite from_be_bytes_cons. unfold zlen in *. simpl length.
  rewrite Nat2Z.inj_succ, Z.pow_succ_r by lia. unfold is_u8 in Hb. nia.
Qed.

Lemma from_to_be_bytes n x :
  from_be_bytes (to_be_bytes n x) = x mod 256 ^ Z.of_nat n.
Proof.
  induction n as [|n IH]; [by rewrite Z.mod_1_r|].
  simpl to_be_bytes. rewrite from_be_bytes_cons, IH.
  unfold zlen. rewrite length_to_be_bytes, Nat2Z.inj_succ, Z.pow_succ_r by lia.
  rewrite (Z.mul_comm 256), Z.rem_mul_r by (try apply Z.pow_nonzero; lia). ring.
Qed.

Lemma to_from_be_bytes l : all_u8 l -> to_be_bytes (length l) (from_be_bytes l) = l.
Proof.
  assert (Hk : forall n x k, to_be_bytes n (k * 256 ^ Z.of_nat n + x) = to_be_bytes n x).
  { induction n as [|n IHn]; intros x k; [done|]. simpl to_be_bytes.
    rewrite Nat2Z.inj_succ, Z.pow_succ_r by lia. f_equal.
    - replace (k * (256 * 256 ^ Z.of_nat n) + x)
        with (x + (k * 256) * 256 ^ Z.of_nat n) by ring.
      rewrite Z.div_add by (apply Z.pow_nonzero; lia).
      by rewrite Z.mod_add.
    - rewrite <-(IHn x (k * 256)). f_equal. ring. }
  induction 1 as [|b l Hb Hl IH]; [done|].
  simpl length. simpl to_be_bytes. rewrite from_be_bytes_cons. unfold zlen. f_equal.
  - rewrite Z.div_add_l by (apply Z.pow_nonzero; lia).
    rewrite (Z.div_small (from_be_bytes l)) by (by apply from_be_bytes_bound).
    rewrite Z.add_0_r. by apply Z.mod_small.
  - by rewrite Hk.
Qed.

(** [a << n | b] when [b] fits in [n] bits. *)
Lemma testbit_high b n i : 0 <= b < 2 ^ n -> n <= i -> Z.testbit b i = false.
Proof.
  intros Hb Hi. destruct (Z.eq_dec b 0) as [->|]; [apply Z.bits_0|].
  apply Z.bits_above_log2; [lia|].
  assert (Z.log2 b < n) by (apply Z.log2_lt_pow2; lia). lia.
Qed.

Lemma land_shiftl_low a b n :
  0 <= n -> 0 <= b < 2 ^ n -> Z.land (Z.shiftl a n) b = 0.
Proof.
  intros Hn Hb. apply Z.bits_inj'. intros i Hi. rewrite Z.land_spec, Z.bits_0.
  destruct (Z.ltb_spec i n); [by rewrite Z.shiftl_spec_low|].
  by rewrite (testbit_high b n i), andb_false_r.
Qed.

Lemma lor_shiftl_add a b n :
  0 <= n -> 0 <= b < 2 ^ n -> Z.lor (Z.shiftl a n) b = a * 2 ^ n + b.
Proof.
  intros Hn Hb. rewrite <-Z.lxor_lor by (by apply land_shiftl_low).
  rewrite <-Z.add_nocarry_lxor by (by apply land_shiftl_low).
  by rewrite Z.shiftl_mul_pow2.
Qed.

(** ** Eviction from a bounded queue

    The loop [while full(len, total) { let Some(x) = queue.pop_front() else { break };
    total = total.saturating_sub(size(x)); note(x) }] of the bounded queues. *)
Section Evict.
Context {A D : Type} (size : A -> Z) (note : D -> A -> D).

Fixpoint evict_while (full : Z -> Z -> bool) (q : list A) (total : Z) (d : D) : list A * Z * D :=
  if full (zlen q) total then
    match q with
    | [] => (q, total, d)
    | x :: q => evict_while full q (saturating_sub total (size x)) (note d x)
    end
  else (q, total, d).

Definition total_size (q : list A) : Z := foldr (fun x n => size x + n) 0 q.

Lemma total_size_app q q' : total_size (q ++ q') = total_size q + total_size q'.
Proof. induction q as [|x q IH]; cbn; [done|]. fold (total_size q). fold (total_size (q ++ q')). lia. Qed.

Context (size_nonneg : forall x, 0 <= size x).

Lemma total_size_nonneg q : 0 <= total_size q.
Proof using size_nonneg. induction q as [|x q IH]; cbn; [lia|]. fold (total_size q). pose proof (size_nonneg x). lia. Qed.

(** What stays is a suffix with its exact total; the rest was noted in order. *)
Lemma evict_while_spec full q d q' total' d' :
  evict_while full q (total_size q) d = (q', total', d') ->
  exists evicted, q = evicted ++ q' /\ total' = total_size q' /\ d' = foldl note d evicted
    /\ (q' = [] \/ full (zlen q') total' = false).
Proof using size_nonneg.
  revert d. induction q as [|x q IH]; intros d; cbn [evict_while].
  - destruct (full (zlen []) _) eqn:Ef; intros E; simplify_eq; exists []; eauto.
  - destruct (full (zlen (x :: q)) _) eqn:Ef; [|intros E; simplify_eq; exists []; eauto].
    replace (saturating_sub (total_size (x :: q)) (size x)) with (total_size q).
    + intros (ev & -> & Ht & Hd & Hf)%IH. exists (x :: ev). eauto.
    + unfold saturating_sub. cbn. fold (total_size q). pose proof (total_size_nonneg q). lia.
Qed.
End Evict.
