(* ===== verification/Chars.v ===== *)
(** * Strings

    A [String] or [&str] is the list of its characters, a character its Unicode
    scalar value; the methods of the standard library the sources use. *)
From S2P Require Import Prelude.

Abbreviation text := (list Z).

(** [char::is_whitespace]: the Unicode property White_Space. *)
Definition char_is_whitespace (c : Z) : bool :=
  in_range 9 13 c || (c =? 0x20) || (c =? 0x85) || (c =? 0xa0) || (c =? 0x1680)
  || in_range 0x2000 0x200a c || (c =? 0x2028) || (c =? 0x2029) || (c =? 0x202f)
  || (c =? 0x205f) || (c =? 0x3000).

Fixpoint drop_while (p : Z -> bool) (l : text) : text :=
  match l with
  | [] => []
  | c :: l' => if p c then drop_while p l' else l
  end.

(** [str::trim_end_matches]. *)
Definition trim_end_matches (p : Z -> bool) (l : text) : text := rev (drop_while p (rev l)).

(** [str::trim_end]. *)
Definition trim_end (l : text) : text := trim_end_matches char_is_whitespace l.

(** [str::trim], and [str::len], the number of UTF-8 bytes. *)
Definition trim (l : text) : text := trim_end (drop_while char_is_whitespace l).

Definition utf8_char_len (c : Z) : Z :=
  if c <? 0x80 then 1 else if c <? 0x800 then 2 else if c <? 0x10000 then 3 else 4.

Definition str_len (l : text) : Z := foldr (fun c n => utf8_char_len c + n) 0 l.
