(* ===== verification/Wire.v ===== *)
(** * Wire layer: addresses, delimiters, frames and the checksum

    Models [src/src/wire/mod.rs], [src/src/wire/address.rs] and
    [src/src/wire/frame.rs].  A byte is a [Z] in [0 .. 256); the byte-range side
    conditions that Rust's types give are the [_typed] predicates below. *)
From S2P Require Import Prelude.

(** ** Checksum *)

(** [xor_checksum]: [bytes.iter().fold(0, |sum, byte| sum ^ byte)]. *)
Definition xor_checksum (l : bytes) : Z := foldl Z.lxor 0 l.

(** ** Masters and addresses *)

Inductive Master := Primary | Secondary.

#[global] Instance Master_eq_dec : EqDecision Master.
Proof. solve_decision. Defined.

Definition Master_address_bit (m : Master) : Z :=
  match m with Primary => 0x80 | Secondary => 0 end.

Definition Master_from_address_byte (byte : Z) : Master :=
  if Z.land byte 0x80 =? 0 then Secondary else Primary.

Inductive Address :=
  | Polling (node : Z) (master : Master)
  | Unique (expanded_type device_id : Z) (master : Master).

#[global] Instance Address_eq_dec : EqDecision Address.
Proof. solve_decision. Defined.

Inductive WireError :=
  | WirePollingAddress (node : Z)
  | WireExpandedDeviceType (expanded_type : Z)
  | WireDeviceIdentifier (device_id : Z)
  | WireExpansionLength (len : Z)
  | WirePayloadLength (len : Z)
  | WireTruncated
  | WireDelimiter (delimiter : Z)
  | WireChecksum (expected actual : Z).

#[global] Instance WireError_eq_dec : EqDecision WireError.
Proof. solve_decision. Defined.

Definition Address_polling (node : Z) (master : Master) : result WireError Address :=
  return_if 63 <? node err WirePollingAddress node ;;
  Ok (Polling node master).

Definition Address_unique (expanded_type device_id : Z) (master : Master)
    : result WireError Address :=
  return_if 0x3fff <? expanded_type err WireExpandedDeviceType expanded_type ;;
  return_if 0x00ffffff <? device_id err WireDeviceIdentifier device_id ;;
  Ok (Unique expanded_type device_id master).

Definition Address_encoded_len (a : Address) : nat :=
  match a with Polling _ _ => 1 | Unique _ _ _ => 5 end.

Definition Address_master (a : Address) : Master :=
  match a with Polling _ m => m | Unique _ _ m => m end.

Definition Address_polling_node (a : Address) : option Z :=
  match a with Polling node _ => Some node | Unique _ _ _ => None end.

Definition Address_unique_parts (a : Address) : option (Z * Z) :=
  match a with Unique ty id _ => Some (ty, id) | Polling _ _ => None end.

(** [write_to] appends to its output buffer; the model returns the bytes it
    appends. *)
Definition Address_write_to (a : Address) (burst : bool) : bytes :=
  let burst_bit := Z.shiftl (if burst then 1 else 0) 6 in
  match a with
  | Polling node master => [Z.lor (Z.lor (Master_address_bit master) burst_bit) node]
  | Unique expanded_type device_id master =>
      let type_bytes := to_be_bytes 2 expanded_type in
      [Z.lor (Z.lor (Master_address_bit master) burst_bit)
             (Z.land (nth 0 type_bytes 0) 0x3f);
       nth 1 type_bytes 0]
      ++ drop 1 (to_be_bytes 4 device_id)
  end.

Definition Address_read_from (l : bytes) (long : bool) : result WireError Address :=
  let? first := ok_or (l !! 0%nat) WireTruncated ;;
  let master := Master_from_address_byte first in
  if negb long then Address_polling (Z.land first 0x3f) master
  else
    return_if (length l <? 5)%nat err WireTruncated ;;
    let expanded_type := Z.lor (Z.shiftl (Z.land first 0x3f) 8) (nth 1 l 0) in
    let device_id :=
      Z.lor (Z.lor (Z.shiftl (nth 2 l 0) 16) (Z.shiftl (nth 3 l 0) 8)) (nth 4 l 0) in
    Address_unique expanded_type device_id master.

(** ** Delimiters *)

Inductive PhysicalLayer := Fsk | Psk.

#[global] Instance PhysicalLayer_eq_dec : EqDecision PhysicalLayer.
Proof. solve_decision. Defined.

Definition PhysicalLayer_delimiter_bit (p : PhysicalLayer) : Z :=
  match p with Fsk => 0 | Psk => 0x08 end.

Definition PhysicalLayer_from_delimiter (delimiter : Z) : PhysicalLayer :=
  if Z.land delimiter 0x08 =? 0 then Fsk else Psk.

Inductive FrameKind := KindRequest | KindResponse | KindBurst.

#[global] Instance FrameKind_eq_dec : EqDecision FrameKind.
Proof. solve_decision. Defined.

Inductive FrameRepair :=
  | DelimiterBit
  | ShortAddressRewrite (checksum_source_node : Z).

#[global] Instance FrameRepair_eq_dec : EqDecision FrameRepair.
Proof. solve_decision. Defined.

Definition FrameKind_delimiter_base (k : FrameKind) : Z :=
  match k with KindRequest => 0x02 | KindResponse => 0x06 | KindBurst => 0x01 end.

Definition FrameKind_from_delimiter (delimiter : Z) : option FrameKind :=
  let d := Z.land delimiter 0x1f in
  if (d =? 0x02) || (d =? 0x0a) then Some KindRequest
  else if (d =? 0x06) || (d =? 0x0e) then Some KindResponse
  else if (d =? 0x01) || (d =? 0x09) then Some KindBurst
  else None.

(** ** Frames *)

Definition MAX_ENCODED_FRAME_SIZE : Z := 522.

Record Frame := mkFrame {
  frame_preambles : Z;
  frame_kind : FrameKind;
  frame_physical_layer : PhysicalLayer;
  frame_address : Address;
  frame_expansion : bytes;
  frame_wire_command : Z;
  frame_payload : bytes;
  frame_repair : option FrameRepair;
}.

#[global] Instance Frame_eq_dec : EqDecision Frame.
Proof. solve_decision. Defined.

Definition Frame_long_bit (f : Frame) : Z :=
  if (Address_encoded_len (frame_address f) =? 5)%nat then 0x80 else 0.

(** [u8::try_from(len).unwrap_or(0)]. *)
Definition u8_try_from_or (default len : Z) : Z :=
  if len <=? u8_max then len else default.

(** The delimiter expression shared by [encode] and [delimiter]; the shift is
    on a [u8]. *)
Definition Frame_delimiter_byte (f : Frame) : Z :=
  Z.lor (Z.lor (Z.lor (FrameKind_delimiter_base (frame_kind f))
                      (PhysicalLayer_delimiter_bit (frame_physical_layer f)))
               (Frame_long_bit f))
        (Z.land (Z.shiftl (u8_try_from_or 0 (zlen (frame_expansion f))) 5) 0xff).

Definition Frame_delimiter (f : Frame) : result WireError Z :=
  return_if 3 <? zlen (frame_expansion f) err WireExpansionLength (zlen (frame_expansion f)) ;;
  Ok (Frame_delimiter_byte f).

(** The bytes covered by the checksum: delimiter, address, expansion, command,
    count and payload. *)
Definition Frame_body (f : Frame) : bytes :=
  [Frame_delimiter_byte f]
  ++ Address_write_to (frame_address f) (bool_decide (frame_kind f = KindBurst))
  ++ frame_expansion f
  ++ [frame_wire_command f; zlen (frame_payload f)]
  ++ frame_payload f.

Definition Frame_encode (f : Frame) : result WireError bytes :=
  return_if 3 <? zlen (frame_expansion f) err WireExpansionLength (zlen (frame_expansion f)) ;;
  return_if u8_max <? zlen (frame_payload f) err WirePayloadLength (zlen (frame_payload f)) ;;
  Ok (replicate (Z.to_nat (frame_preambles f)) 0xff
      ++ Frame_body f ++ [xor_checksum (Frame_body f)]).

(** ** Well-formedness

    [_typed] is what the Rust field types guarantee; [_valid] is what the
    validating constructors guarantee on top. *)

Definition Address_typed (a : Address) : Prop :=
  match a with
  | Polling node _ => is_u8 node
  | Unique ty id _ => is_u16 ty /\ is_u32 id
  end.

Definition Address_valid (a : Address) : Prop :=
  match a with
  | Polling node _ => 0 <= node <= 63
  | Unique ty id _ => 0 <= ty <= 0x3fff /\ 0 <= id <= 0x00ffffff
  end.

Record Frame_wf (f : Frame) : Prop := {
  wf_preambles : is_u8 (frame_preambles f);
  wf_address : Address_valid (frame_address f);
  wf_expansion : all_u8 (frame_expansion f);
  wf_expansion_len : zlen (frame_expansion f) <= 3;
  wf_command : is_u8 (frame_wire_command f);
  wf_payload : all_u8 (frame_payload f);
  wf_payload_len : zlen (frame_payload f) <= 255;
}.

(** ** Checksum lemmas *)

Lemma xor_checksum_acc l acc : foldl Z.lxor acc l = Z.lxor acc (xor_checksum l).
Proof.
  unfold xor_checksum. revert acc. induction l as [|b l IH]; intros acc; cbn [foldl].
  - by rewrite Z.lxor_0_r.
  - by rewrite (IH (Z.lxor acc b)), (IH (Z.lxor 0 b)), Z.lxor_0_l, Z.lxor_assoc.
Qed.

Lemma xor_checksum_cons b l : xor_checksum (b :: l) = Z.lxor b (xor_checksum l).
Proof. unfold xor_checksum at 1. cbn [foldl]. by rewrite xor_checksum_acc, Z.lxor_0_l. Qed.

Lemma xor_checksum_app l k :
  xor_checksum (l ++ k) = Z.lxor (xor_checksum l) (xor_checksum k).
Proof. unfold xor_checksum at 1. rewrite foldl_app. apply xor_checksum_acc. Qed.

Lemma lxor_u8 a b : is_u8 a -> is_u8 b -> is_u8 (Z.lxor a b).
Proof. intros Ha Hb. u8_decide2 a b Ha Hb. Qed.

Lemma xor_checksum_u8 l : all_u8 l -> is_u8 (xor_checksum l).
Proof.
  induction 1 as [|b l Hb Hl IH]; [by vm_compute|].
  rewrite xor_checksum_cons. by apply lxor_u8.
Qed.

Lemma lxor_cancel a b c : Z.lxor a c = Z.lxor b c -> a = b.
Proof.
  intros H. assert (Z.lxor (Z.lxor a c) c = Z.lxor (Z.lxor b c) c) as H' by congruence.
  by rewrite !Z.lxor_assoc, Z.lxor_nilpotent, !Z.lxor_0_r in H'.
Qed.

(** ** Address lemmas *)

Lemma Address_write_to_length a burst :
  length (Address_write_to a burst) = Address_encoded_len a.
Proof. by destruct a. Qed.

Lemma lor_u8 a b : is_u8 a -> is_u8 b -> is_u8 (Z.lor a b).
Proof. intros Ha Hb. u8_decide2 a b Ha Hb. Qed.

Lemma land_mask_u8 a m : is_u8 m -> is_u8 (Z.land a m).
Proof.
  intros Hm. assert (0 <= Z.land a m) by (apply Z.land_nonneg; unfold is_u8 in Hm; lia).
  assert (H' : Z.land (Z.land a m) 255 = Z.land a m).
  { rewrite <-Z.land_assoc. f_equal. u8_decide m Hm. }
  change 255 with (Z.ones 8) in H'. rewrite Z.land_ones in H' by lia.
  unfold is_u8. rewrite <-H'. apply Z.mod_pos_bound. lia.
Qed.

(** The first address byte: master bit, burst bit and a six-bit field. *)
Definition address_byte (m : Master) (burst : bool) (low : Z) : Z :=
  Z.lor (Z.lor (Master_address_bit m) (Z.shiftl (if burst then 1 else 0) 6)) low.

Lemma address_byte_spec m burst low :
  0 <= low <= 63 ->
  is_u8 (address_byte m burst low) /\
  Z.land (address_byte m burst low) 0x3f = low /\
  Master_from_address_byte (address_byte m burst low) = m.
Proof.
  intros Hlow. assert (H : is_u8 low) by (unfold is_u8; lia). revert Hlow.
  unfold is_u8 at 1.
  destruct m, burst; u8_decide low H.
Qed.

Lemma Address_write_to_u8 a burst : Address_typed a -> all_u8 (Address_write_to a burst).
Proof.
  assert (Hbits : forall m : Master,
    is_u8 (Z.lor (Master_address_bit m) (Z.shiftl (if burst then 1 else 0) 6))).
  { destruct burst; intros []; by vm_compute. }
  destruct a as [node m|ty id m]; cbn [Address_typed Address_write_to]; intros Ht.
  - apply Forall_singleton, lor_u8; [apply Hbits|done].
  - apply Forall_app; split; [|apply Forall_drop, to_be_bytes_u8].
    pose proof (to_be_bytes_u8 2 ty) as H.
    cbn [to_be_bytes] in H. apply Forall_cons_iff in H as [_ [Hlow _]%Forall_cons_iff].
    apply Forall_cons_iff; split; [|by apply Forall_singleton].
    apply lor_u8; [apply Hbits|]. by apply land_mask_u8.
Qed.

Lemma Address_valid_typed a : Address_valid a -> Address_typed a.
Proof. destruct a; unfold Address_valid, Address_typed, is_u8, is_u16, is_u32; lia. Qed.

Lemma Address_polling_ok node m :
  0 <= node <= 63 -> Address_polling node m = Ok (Polling node m).
Proof. intros H. unfold Address_polling. by rewrite (proj2 (Z.ltb_ge _ _)) by lia. Qed.

Lemma Address_unique_ok ty id m :
  Address_valid (Unique ty id m) -> Address_unique ty id m = Ok (Unique ty id m).
Proof.
  intros [H1 H2]. unfold Address_unique. by rewrite !(proj2 (Z.ltb_ge _ _)) by lia.
Qed.

Lemma be3_lor a b c : is_u8 b -> is_u8 c ->
  Z.lor (Z.lor (Z.shiftl a 16) (Z.shiftl b 8)) c = from_be_bytes [a; b; c].
Proof.
  intros Hb Hc. unfold is_u8 in *.
  replace (Z.lor (Z.shiftl a 16) (Z.shiftl b 8)) with (Z.shiftl (Z.lor (Z.shiftl a 8) b) 8).
  - rewrite !lor_shiftl_add by lia. unfold from_be_bytes. cbn [foldl]. lia.
  - by rewrite Z.shiftl_lor, Z.shiftl_shiftl by lia.
Qed.

Lemma to_be_bytes_2 x :
  0 <= x < 65536 -> to_be_bytes 2 x = [x / 256; x mod 256].
Proof.
  intros Hx. cbn [to_be_bytes]. change (256 ^ Z.of_nat 1) with 256.
  change (256 ^ Z.of_nat 0) with 1. rewrite Z.div_1_r.
  rewrite (Z.mod_small (x / 256)); [done|].
  split; [apply Z.div_pos|apply Z.div_lt_upper_bound]; lia.
Qed.

Lemma Address_read_write a burst :
  Address_valid a ->
  Address_read_from (Address_write_to a burst) (Address_encoded_len a =? 5)%nat = Ok a.
Proof.
  destruct a as [node m|ty id m]; intros Hv; unfold Address_read_from;
    cbn [Address_write_to Address_encoded_len Nat.eqb negb ok_or lookup list_lookup
         result_bind app].
  - fold (address_byte m burst node).
    destruct (address_byte_spec m burst node Hv) as (_ & -> & ->).
    by apply Address_polling_ok.
  - pose proof Hv as [Hty Hid]. rewrite to_be_bytes_2 by lia.
    change (drop 1 (to_be_bytes 4 id)) with (to_be_bytes 3 id).
    pose proof (from_to_be_bytes 3 id) as H3. rewrite Z.mod_small in H3 by lia.
    pose proof (to_be_bytes_u8 3 id) as H3u.
    destruct (to_be_bytes 3 id) as [|b2 [|b3 [|b4 [|]]]] eqn:Hd; try discriminate Hd.
    apply Forall_cons_iff in H3u as [_ [Hb3 [Hb4 _]%Forall_cons_iff]%Forall_cons_iff].
    cbn [nth app length Nat.ltb Nat.leb].
    assert (Hhi : 0 <= ty / 256 <= 63).
    { split; [apply Z.div_pos; lia|]. apply Z.lt_succ_r, Z.div_lt_upper_bound; lia. }
    assert (Hmask : Z.land (ty / 256) 0x3f = ty / 256).
    { change 0x3f with (Z.ones 6). rewrite Z.land_ones by lia. apply Z.mod_small. lia. }
    rewrite Hmask. fold (address_byte m burst (ty / 256)).
    destruct (address_byte_spec m burst (ty / 256) Hhi) as (_ & -> & ->).
    rewrite be3_lor by done. rewrite H3.
    pose proof (Z.mod_pos_bound ty 256).
    rewrite lor_shiftl_add by lia. change (2 ^ 8) with 256.
    rewrite (Z.mul_comm (ty / 256)), <-Z.div_mod by lia.
    by apply Address_unique_ok.
Qed.

(** The burst flag carried by bit 6 of the first address byte. *)
Definition address_burst_bit (l : bytes) : bool := Z.testbit (nth 0 l 0) 6.

Lemma address_byte_of_byte b :
  is_u8 b ->
  address_byte (Master_from_address_byte b) (Z.testbit b 6) (Z.land b 0x3f) = b /\
  0 <= Z.land b 0x3f <= 63.
Proof. intros H. u8_decide b H. Qed.

(** [read_from] succeeds on every long enough slice, and what it returns is the
    valid address whose encoding is exactly the bytes read. *)
Lemma Address_write_read (l : bytes) (long : bool) :
  all_u8 l -> (if long then 5 else 1) <= zlen l ->
  exists a, Address_read_from l long = Ok a /\ Address_valid a /\
    Address_encoded_len a = (if long then 5 else 1)%nat /\
    Address_write_to a (address_burst_bit l) = take (Address_encoded_len a) l.
Proof.
  unfold zlen. intros Hu Hlen.
  destruct l as [|b0 l]; [destruct long; simpl in Hlen; lia|].
  apply Forall_cons_iff in Hu as [H0 Hu].
  destruct (address_byte_of_byte b0 H0) as [Hbyte Hlow].
  unfold Address_read_from, address_burst_bit.
  destruct long; cbn [lookup list_lookup ok_or result_bind negb nth].
  - destruct l as [|b1 [|b2 [|b3 [|b4 l]]]]; simpl in Hlen; try lia.
    apply Forall_cons_iff in Hu as [H1 [H2 [H3 [H4 _]%Forall_cons_iff]%Forall_cons_iff]%Forall_cons_iff].
    cbn [length Nat.ltb Nat.leb nth].
    rewrite be3_lor, lor_shiftl_add by (unfold is_u8 in *; lia). change (2 ^ 8) with 256.
    pose proof (from_be_bytes_bound [b2; b3; b4]) as Hid.
    assert (Hid' : all_u8 [b2; b3; b4]) by (repeat (apply Forall_cons_iff; split); done).
    specialize (Hid Hid'). change (256 ^ zlen [b2; b3; b4]) with 16777216 in Hid.
    unfold is_u8 in H1.
    set (ty := Z.land b0 63 * 256 + b1).
    exists (Unique ty (from_be_bytes [b2; b3; b4]) (Master_from_address_byte b0)).
    assert (Hv : Address_valid
      (Unique ty (from_be_bytes [b2; b3; b4]) (Master_from_address_byte b0))).
    { unfold Address_valid, ty. lia. }
    rewrite Address_unique_ok by done. split_and!; try done.
    cbn [Address_write_to Address_encoded_len firstn].
    rewrite to_be_bytes_2 by (unfold ty; lia).
    change (drop 1 (to_be_bytes 4 (from_be_bytes [b2; b3; b4])))
      with (to_be_bytes (length [b2; b3; b4]) (from_be_bytes [b2; b3; b4])).
    rewrite to_from_be_bytes by done. cbn [nth app].
    unfold ty. rewrite Z.div_add_l, Z.div_small, Z.add_0_r by lia.
    rewrite Z.add_comm, Z.mod_add, Z.mod_small by lia.
    rewrite <-Z.land_assoc, Z.land_diag.
    fold (address_byte (Master_from_address_byte b0) (Z.testbit b0 6) (Z.land b0 63)).
    by rewrite Hbyte.
  - rewrite Address_polling_ok by done.
    eexists; split_and!; [done|exact Hlow|done|].
    cbn [Address_write_to Address_encoded_len firstn].
    fold (address_byte (Master_from_address_byte b0) (Z.testbit b0 6) (Z.land b0 63)).
    by rewrite Hbyte.
Qed.

(** ** Frame lemmas *)

Lemma Frame_long_bit_cases f :
  Frame_long_bit f =
    if bool_decide (Address_encoded_len (frame_address f) = 5%nat) then 0x80 else 0.
Proof. unfold Frame_long_bit. by destruct (frame_address f). Qed.

Definition is_long (a : Address) : bool := (Address_encoded_len a =? 5)%nat.

(** What the decoder reads back from the delimiter of a representable frame. *)
Lemma Frame_delimiter_byte_spec f :
  zlen (frame_expansion f) <= 3 ->
  let d := Frame_delimiter_byte f in
  is_u8 d /\
  FrameKind_from_delimiter d = Some (frame_kind f) /\
  PhysicalLayer_from_delimiter d = frame_physical_layer f /\
  negb (Z.land d 0x80 =? 0) = is_long (frame_address f) /\
  Z.land (Z.shiftr d 5) 0x03 = zlen (frame_expansion f).
Proof.
  unfold Frame_delimiter_byte, Frame_long_bit, is_long, zlen.
  destruct f as [p k ph a ex c pl r];
    cbn [frame_expansion frame_kind frame_physical_layer frame_address].
  intros Hlen.
  destruct ex as [|e1 [|e2 [|e3 [|e4 ex]]]];
    [..|cbn [length] in Hlen; lia];
    destruct k, ph, a; vm_compute; split_and!; congruence.
Qed.

Lemma Frame_body_length f :
  length (Frame_body f) =
    (4 + (Address_encoded_len (frame_address f) - 1) + length (frame_expansion f)
       + length (frame_payload f))%nat.
Proof.
  unfold Frame_body. rewrite !length_app, Address_write_to_length.
  destruct (frame_address f); simpl; lia.
Qed.

Lemma Frame_body_u8 f : Frame_wf f -> all_u8 (Frame_body f).
Proof.
  intros []. unfold Frame_body.
  repeat first [apply Forall_app; split | apply Forall_cons_iff; split | apply Forall_nil_2]; try done.
  - by apply Frame_delimiter_byte_spec.
  - by apply Address_write_to_u8, Address_valid_typed.
  - unfold is_u8. pose proof (zlen_nonneg (frame_payload f)). lia.
Qed.

Lemma Frame_encode_ok f :
  zlen (frame_expansion f) <= 3 -> zlen (frame_payload f) <= 255 ->
  Frame_encode f =
    Ok (replicate (Z.to_nat (frame_preambles f)) 0xff
        ++ Frame_body f ++ [xor_checksum (Frame_body f)]).
Proof.
  intros H1 H2. unfold Frame_encode, u8_max.
  by rewrite !(proj2 (Z.ltb_ge _ _)) by lia.
Qed.

(** [encode] succeeds exactly on frames whose expansion and payload fit. *)
Lemma Frame_encode_Ok_inv f l :
  Frame_encode f = Ok l ->
  zlen (frame_expansion f) <= 3 /\ zlen (frame_payload f) <= 255 /\
  l = replicate (Z.to_nat (frame_preambles f)) 0xff
      ++ Frame_body f ++ [xor_checksum (Frame_body f)].
Proof.
  unfold Frame_encode, u8_max.
  destruct (Z.ltb_spec 3 (zlen (frame_expansion f))); [done|].
  destruct (Z.ltb_spec 255 (zlen (frame_payload f))); [done|].
  intros [= <-]. split_and!; (lia || done).
Qed.
