(* ===== verification/WireProps.v ===== *)
(** * Properties of addresses and frames

    The theorems about src/src/wire/address.rs and src/src/wire/frame.rs that a
    user of the wire layer relies on. *)
From S2P Require Import Prelude Wire.

(** Addresses and their wire form correspond one to one. Every address the
    validating constructors accept is read back from its encoding with either
    burst flag, in one byte (polling) or five (unique); and every byte string
    long enough for the form announced by the delimiter is read as the one valid
    address whose encoding, with the burst bit received, is those very bytes. *)
Theorem address_roundtrip :
  (forall a node master, Address_polling node master = Ok a -> is_u8 node ->
     forall burst, Address_read_from (Address_write_to a burst) false = Ok a) /\
  (forall a ty id master, Address_unique ty id master = Ok a -> is_u16 ty -> is_u32 id ->
     forall burst, Address_read_from (Address_write_to a burst) true = Ok a) /\
  (forall (l : bytes) (long : bool), all_u8 l -> (if long then 5 else 1) <= zlen l ->
     exists a, Address_read_from l long = Ok a /\ Address_valid a /\
       Address_write_to a (address_burst_bit l) = take (if long then 5 else 1)%nat l).
Proof.
  split_and!.
  - intros a node m. unfold Address_polling. destruct (Z.ltb_spec 63 node); [done|].
    intros [= <-] Hn burst. apply (Address_read_write (Polling node m)).
    unfold is_u8 in Hn. cbn. lia.
  - intros a ty id m. unfold Address_unique. destruct (Z.ltb_spec 0x3fff ty); [done|].
    destruct (Z.ltb_spec 0x00ffffff id); [done|]. intros [= <-] Ht Hi burst.
    apply (Address_read_write (Unique ty id m)).
    unfold is_u16, u16_max in Ht. unfold is_u32, u32_max in Hi. cbn. lia.
  - intros l long Hu Hl. destruct (Address_write_read l long Hu Hl) as (a & ? & ? & Hlen & Hw).
    exists a. rewrite Hlen in Hw. done.
Qed.

Lemma address_roundtrip_witness :
  Address_read_from (Address_write_to (Unique 0x3fff 0xffffff Secondary) true) true =
    Ok (Unique 0x3fff 0xffffff Secondary) /\
  exists a, Address_read_from [0xc5; 9] false = Ok a /\ Address_valid a /\
    Address_write_to a (address_burst_bit [0xc5; 9]) = [0xc5].
Proof.
  split.
  - apply (proj1 (proj2 address_roundtrip) _ 0x3fff 0xffffff Secondary); [done| |];
      unfold is_u16, is_u32, u16_max, u32_max; lia.
  - apply (proj2 (proj2 address_roundtrip) [0xc5; 9] false); solve_bytes.
Defined.

(** [Frame::encode] fails exactly on the two length faults, the expansion
    being checked first; every encoding it produces is a byte string of at most
    [MAX_ENCODED_FRAME_SIZE] bytes for a well-formed frame, of the size the
    vector is reserved with; and the bound is attained. *)
Theorem encode_bounded (f : Frame) :
  match Frame_encode f with
  | Err e => 3 < zlen (frame_expansion f) /\ e = WireExpansionLength (zlen (frame_expansion f)) \/
      zlen (frame_expansion f) <= 3 /\ 255 < zlen (frame_payload f) /\
      e = WirePayloadLength (zlen (frame_payload f))
  | Ok l => zlen (frame_expansion f) <= 3 /\ zlen (frame_payload f) <= 255 /\
      (is_u8 (frame_preambles f) ->
       zlen l = frame_preambles f + 1 + Z.of_nat (Address_encoded_len (frame_address f))
                + zlen (frame_expansion f) + 3 + zlen (frame_payload f) /\
       zlen l <= MAX_ENCODED_FRAME_SIZE) /\
      (Frame_wf f -> all_u8 l)
  end /\
  exists g l, Frame_wf g /\ Frame_encode g = Ok l /\ zlen l = MAX_ENCODED_FRAME_SIZE.
Proof.
  split.
  - destruct (Frame_encode f) as [l|e] eqn:He.
    + apply Frame_encode_Ok_inv in He as (? & ? & ->). split_and!; try done.
      * intros Hp. unfold is_u8 in Hp. pose proof (Frame_body_length f) as Hb.
        unfold zlen, MAX_ENCODED_FRAME_SIZE in *.
        rewrite !length_app, length_replicate. cbn [length].
        destruct (frame_address f); cbn [Address_encoded_len] in *; lia.
      * intros Hwf. apply Forall_app; split; [|apply Forall_app; split; [|apply List.Forall_cons]].
        -- apply Forall_replicate. unfold is_u8. lia.
        -- by apply Frame_body_u8.
        -- by apply xor_checksum_u8, Frame_body_u8.
        -- done.
    + revert He. unfold Frame_encode, u8_max.
      destruct (Z.ltb_spec 3 (zlen (frame_expansion f))); [intros [= <-]; by left|].
      destruct (Z.ltb_spec 255 (zlen (frame_payload f))); [intros [= <-]|done].
      right. split_and!; (lia || done).
  - exists (mkFrame 255 KindBurst Psk (Unique 0x3fff 0xffffff Primary) [1; 2; 3] 255
      (replicate 255 0) None).
    eexists. split_and!; [constructor; cbn; solve_bytes|by vm_compute|by vm_compute].
Qed.
