(* ===== verification/Decoder.v ===== *)
(** * The streaming frame decoder

    Models [src/src/wire/decoder.rs]: the limits, the statistics, the one-step
    analysis of the buffered bytes and the event loop of [FrameDecoder].  The
    decoder is an explicit state; every [&mut self] method returns the new one.
    The [VecDeque] buffer is a list, and slice indexing after the bounds checks
    of [analyze] is [nth]/[slice]. *)
From S2P Require Import Prelude Wire.

Definition MAXIMUM_DECODE_BUFFER_CAPACITY : Z := 16 * 1024 * 1024.
Definition MAXIMUM_DECODE_EVENTS_PER_PUSH : nat := 4096.

Inductive ChecksumPolicy :=
  | Strict
  | KnownGateway (delimiter_bit : bool) (checksum_source_node : option Z).

#[global] Instance ChecksumPolicy_eq_dec : EqDecision ChecksumPolicy.
Proof. solve_decision. Defined.

Record DecodeLimits := mkLimits {
  buffer_capacity : Z;
  minimum_preambles : Z;
  checksum_policy : ChecksumPolicy;
}.

Definition DecodeLimits_default : DecodeLimits := mkLimits 4096 2 Strict.

Definition with_buffer_capacity (l : DecodeLimits) (capacity : Z) : DecodeLimits :=
  mkLimits capacity (minimum_preambles l) (checksum_policy l).
Definition with_minimum_preambles (l : DecodeLimits) (preambles : Z) : DecodeLimits :=
  mkLimits (buffer_capacity l) preambles (checksum_policy l).
Definition with_checksum_policy (l : DecodeLimits) (policy : ChecksumPolicy) : DecodeLimits :=
  mkLimits (buffer_capacity l) (minimum_preambles l) policy.

Inductive DecodeLimitsError :=
  | EmptyBuffer
  | BufferLimit (capacity : Z)
  | NoPreambles
  | ChecksumSourceNode (node : Z).

Definition DecodeLimits_validate (l : DecodeLimits) : result DecodeLimitsError unit :=
  return_if buffer_capacity l =? 0 err EmptyBuffer ;;
  return_if MAXIMUM_DECODE_BUFFER_CAPACITY <? buffer_capacity l
    err BufferLimit (buffer_capacity l) ;;
  return_if minimum_preambles l =? 0 err NoPreambles ;;
  match checksum_policy l with
  | KnownGateway _ (Some node) =>
      return_if 63 <? node err ChecksumSourceNode node ;; Ok tt
  | _ => Ok tt
  end.

Record DecodeStatistics := mkStatistics {
  stat_frames : Z;
  stat_discarded_bytes : Z;
  stat_checksum_failures : Z;
  stat_overflow_bytes : Z;
  stat_repaired_frames : Z;
  stat_event_limit_hits : Z;
}.

Definition DecodeStatistics_default : DecodeStatistics := mkStatistics 0 0 0 0 0 0.

Inductive DecodeEvent :=
  | EventFrame (frame : Frame)
  | EventRejected (error : WireError).

#[global] Instance DecodeEvent_eq_dec : EqDecision DecodeEvent.
Proof. solve_decision. Defined.

Record FrameDecoder := mkDecoder {
  dec_bytes : bytes;
  dec_limits : DecodeLimits;
  dec_statistics : DecodeStatistics;
}.

Inductive DecoderStep :=
  | NoCandidate
  | NeedMore
  | Discard (count : nat)
  | Rejected (error : WireError) (consumed : nat) (checksum_failure : bool)
  | StepFrame (frame : Frame) (consumed : nat) (repaired : bool).

(** ** Construction *)

Definition FrameDecoder_new (limits : DecodeLimits) : FrameDecoder :=
  mkDecoder []
    (mkLimits (clamp (buffer_capacity limits) 1 MAXIMUM_DECODE_BUFFER_CAPACITY)
              (Z.max (minimum_preambles limits) 1)
              (checksum_policy limits))
    DecodeStatistics_default.

Definition FrameDecoder_default : FrameDecoder := FrameDecoder_new DecodeLimits_default.

Definition FrameDecoder_try_new (limits : DecodeLimits)
    : result DecodeLimitsError FrameDecoder :=
  let? _ := DecodeLimits_validate limits ;;
  Ok (FrameDecoder_new limits).

Definition FrameDecoder_buffered_len (d : FrameDecoder) : Z := zlen (dec_bytes d).

Definition FrameDecoder_clear (d : FrameDecoder) : FrameDecoder :=
  mkDecoder [] (dec_limits d) (dec_statistics d).

(** ** Candidate search *)

Definition allow_delimiter_repair (policy : ChecksumPolicy) : bool :=
  match policy with KnownGateway true _ => true | _ => false end.

Definition is_possible_delimiter (byte : Z) (policy : ChecksumPolicy) : bool :=
  bool_decide (is_Some (FrameKind_from_delimiter byte))
  || (allow_delimiter_repair policy
      && bool_decide (is_Some (FrameKind_from_delimiter (Z.lxor byte 0x10)))).

(** [Iterator::rposition] on a slice. *)
Fixpoint rposition (p : Z -> bool) (l : bytes) : option nat :=
  match l with
  | [] => None
  | x :: l =>
      match rposition p l with
      | Some i => Some (S i)
      | None => if p x then Some 0%nat else None
      end
  end.

(** [iter().enumerate().find_map(f)], started at index [i]. *)
Fixpoint find_map_from {B} (f : nat -> Z -> option B) (i : nat) (l : bytes) : option B :=
  match l with
  | [] => None
  | x :: l => match f i x with Some b => Some b | None => find_map_from f (S i) l end
  end.

(** Start of the run of [0xff] bytes that ends just before [index]. *)
Definition preamble_start_of (l : bytes) (index : nat) : nat :=
  match rposition (fun value => negb (value =? 0xff)) (take index l) with
  | Some position => S position
  | None => 0%nat
  end.

Definition candidate_at (l : bytes) (limits : DecodeLimits) (index : nat) (byte : Z)
    : option (nat * nat * nat) :=
  if negb (is_possible_delimiter byte (checksum_policy limits)) then None
  else
    let preamble_start := preamble_start_of l index in
    let preamble_count := (index - preamble_start)%nat in
    let retained_count := (preamble_count `min` 255)%nat in
    let retained_start := (index - retained_count)%nat in
    if minimum_preambles limits <=? Z.of_nat preamble_count
    then Some (index, retained_start, retained_count)
    else None.

Definition find_candidate (l : bytes) (limits : DecodeLimits) : option (nat * nat * nat) :=
  find_map_from (candidate_at l limits) 0 l.

(** ** One analysis step *)

Definition slice (l : bytes) (first last : nat) : bytes := take (last - first) (drop first l).

Definition short_address_repair (policy : ChecksumPolicy)
    (received_address expected actual : Z) : option FrameRepair :=
  match policy with
  | KnownGateway _ (Some source) =>
      if 63 <? source then None
      else
        let reconstructed := Z.lxor (Z.lxor received_address expected) actual in
        if (Z.land reconstructed 0xc0 =? Z.land received_address 0xc0)
           && (Z.land reconstructed 0x3f =? source)
        then Some (ShortAddressRewrite source)
        else None
  | _ => None
  end.

(** The part of [analyze] after a candidate delimiter was found right after its
    preambles. *)
Definition analyze_candidate (l : bytes) (limits : DecodeLimits)
    (delimiter_index preamble_count : nat) : DecoderStep :=
  let policy := checksum_policy limits in
  let delimiter0 := nth delimiter_index l 0 in
  let repair_delimiter :=
    negb (bool_decide (is_Some (FrameKind_from_delimiter delimiter0)))
    && allow_delimiter_repair policy
    && bool_decide (is_Some (FrameKind_from_delimiter (Z.lxor delimiter0 0x10))) in
  let delimiter := if repair_delimiter then Z.lxor delimiter0 0x10 else delimiter0 in
  let repair0 := if repair_delimiter then Some DelimiterBit else None in
  let long := negb (Z.land delimiter 0x80 =? 0) in
  let address_len := (if long then 5 else 1)%nat in
  let expansion_len := Z.to_nat (Z.land (Z.shiftr delimiter 5) 0x03) in
  let command_index := (delimiter_index + 1 + address_len + expansion_len)%nat in
  let count_index := (command_index + 1)%nat in
  if (length l <=? count_index)%nat then NeedMore
  else
  let payload_len := Z.to_nat (nth count_index l 0) in
  let checksum_index := (count_index + 1 + payload_len)%nat in
  if (length l <=? checksum_index)%nat then NeedMore
  else
  let expected := xor_checksum (slice l delimiter_index checksum_index) in
  let actual := nth checksum_index l 0 in
  let delimiter_checksum_matches :=
    allow_delimiter_repair policy && (Z.lxor expected 0x10 =? actual) in
  let address_repair :=
    if negb (expected =? actual) && negb delimiter_checksum_matches && negb long
    then short_address_repair policy (nth (delimiter_index + 1) l 0) expected actual
    else None in
  if negb (expected =? actual) && negb delimiter_checksum_matches
     && negb (bool_decide (is_Some address_repair))
  then Rejected (WireChecksum expected actual) (delimiter_index + 1) true
  else
  let repair1 := if delimiter_checksum_matches then Some DelimiterBit else repair0 in
  let repair := match address_repair with Some r => Some r | None => repair1 end in
  let address_start := (delimiter_index + 1)%nat in
  let address_end := (address_start + address_len)%nat in
  match Address_read_from (slice l address_start address_end) long with
  | Err error => Rejected error (checksum_index + 1) false
  | Ok address =>
    match FrameKind_from_delimiter delimiter with
    | None => Rejected (WireDelimiter delimiter) (delimiter_index + 1) false
    | Some kind =>
      StepFrame
        {| frame_preambles := u8_try_from_or u8_max (Z.of_nat preamble_count);
           frame_kind := kind;
           frame_physical_layer := PhysicalLayer_from_delimiter delimiter;
           frame_address := address;
           frame_expansion := slice l address_end command_index;
           frame_wire_command := nth command_index l 0;
           frame_payload := slice l (count_index + 1) checksum_index;
           frame_repair := repair |}
        (checksum_index + 1)
        (bool_decide (is_Some repair))
    end
  end.

Definition analyze (l : bytes) (limits : DecodeLimits) : DecoderStep :=
  match find_candidate l limits with
  | None => NoCandidate
  | Some (delimiter_index, preamble_start, preamble_count) =>
    if (0 <? preamble_start)%nat then Discard preamble_start
    else analyze_candidate l limits delimiter_index preamble_count
  end.

(** ** Buffer operations *)

Definition u64_add : Z -> Z -> Z := saturating_add u64_max.

Definition stats_add_discarded (s : DecodeStatistics) (count : Z) : DecodeStatistics :=
  mkStatistics (stat_frames s) (u64_add (stat_discarded_bytes s) count)
    (stat_checksum_failures s) (stat_overflow_bytes s) (stat_repaired_frames s)
    (stat_event_limit_hits s).

Definition stats_add_checksum_failure (s : DecodeStatistics) (failure : bool)
    : DecodeStatistics :=
  mkStatistics (stat_frames s) (stat_discarded_bytes s)
    (if failure then u64_add (stat_checksum_failures s) 1 else stat_checksum_failures s)
    (stat_overflow_bytes s) (stat_repaired_frames s) (stat_event_limit_hits s).

Definition stats_add_frame (s : DecodeStatistics) (repaired : bool) : DecodeStatistics :=
  mkStatistics (u64_add (stat_frames s) 1) (stat_discarded_bytes s)
    (stat_checksum_failures s) (stat_overflow_bytes s)
    (if repaired then u64_add (stat_repaired_frames s) 1 else stat_repaired_frames s)
    (stat_event_limit_hits s).

Definition stats_add_overflow (s : DecodeStatistics) (count : Z) : DecodeStatistics :=
  mkStatistics (stat_frames s) (stat_discarded_bytes s) (stat_checksum_failures s)
    (u64_add (stat_overflow_bytes s) count) (stat_repaired_frames s)
    (stat_event_limit_hits s).

Definition stats_add_limit_hit (s : DecodeStatistics) : DecodeStatistics :=
  mkStatistics (stat_frames s) (stat_discarded_bytes s) (stat_checksum_failures s)
    (stat_overflow_bytes s) (stat_repaired_frames s)
    (u64_add (stat_event_limit_hits s) 1).

Definition FrameDecoder_discard (d : FrameDecoder) (count : nat) : FrameDecoder :=
  mkDecoder (drop (count `min` length (dec_bytes d)) (dec_bytes d)) (dec_limits d)
    (stats_add_discarded (dec_statistics d) (Z.of_nat count)).

(** [iter().rev().take_while(|byte| **byte == 0xff).count()]. *)
Fixpoint leading_ff (l : bytes) : nat :=
  match l with
  | [] => 0
  | x :: l => if x =? 0xff then S (leading_ff l) else 0
  end.
Definition trailing_ff (l : bytes) : nat := leading_ff (reverse l).

Definition retain_possible_preambles (d : FrameDecoder) : FrameDecoder :=
  let keep := (trailing_ff (dec_bytes d) `min` 255)%nat in
  let discarded := (length (dec_bytes d) - keep)%nat in
  FrameDecoder_discard d discarded.

Definition append_bounded (d : FrameDecoder) (fragment : bytes) : FrameDecoder :=
  let overflow :=
    saturating_sub (saturating_add usize_max (zlen (dec_bytes d)) (zlen fragment))
                   (buffer_capacity (dec_limits d)) in
  if overflow =? 0 then
    mkDecoder (dec_bytes d ++ fragment) (dec_limits d) (dec_statistics d)
  else
    let from_buffer := Z.min overflow (zlen (dec_bytes d)) in
    let from_fragment := Z.min (saturating_sub overflow from_buffer) (zlen fragment) in
    mkDecoder (drop (Z.to_nat from_buffer) (dec_bytes d)
               ++ drop (Z.to_nat from_fragment) fragment)
              (dec_limits d)
              (stats_add_overflow (dec_statistics d) (Z.min overflow u64_max)).

(** ** Event loop *)

(** The [loop] of [next_event]; each [Discard] removes at least one byte, so
    [S (length bytes)] rounds are enough ([next_event_unfold]). *)
Fixpoint next_event_loop (fuel : nat) (d : FrameDecoder) : option DecodeEvent * FrameDecoder :=
  match fuel with
  | O => (None, d)
  | S fuel =>
    match analyze (dec_bytes d) (dec_limits d) with
    | NoCandidate => (None, retain_possible_preambles d)
    | NeedMore => (None, d)
    | Discard count => next_event_loop fuel (FrameDecoder_discard d count)
    | Rejected error consumed checksum_failure =>
        let d := mkDecoder (dec_bytes d) (dec_limits d)
                   (stats_add_checksum_failure (dec_statistics d) checksum_failure) in
        (Some (EventRejected error), FrameDecoder_discard d consumed)
    | StepFrame frame consumed repaired =>
        (Some (EventFrame frame),
         mkDecoder (drop consumed (dec_bytes d)) (dec_limits d)
                   (stats_add_frame (dec_statistics d) repaired))
    end
  end.

Definition next_event (d : FrameDecoder) : option DecodeEvent * FrameDecoder :=
  next_event_loop (S (length (dec_bytes d))) d.

(** The [while] loop of [push]: at most [budget] further events. *)
Fixpoint drain_events (budget : nat) (d : FrameDecoder) : list DecodeEvent * FrameDecoder :=
  match budget with
  | O => ([], d)
  | S budget =>
    match next_event d with
    | (None, d) => ([], d)
    | (Some event, d) =>
        let '(events, d) := drain_events budget d in (event :: events, d)
    end
  end.

Definition FrameDecoder_push (d : FrameDecoder) (fragment : bytes)
    : list DecodeEvent * FrameDecoder :=
  let '(events, d) := drain_events MAXIMUM_DECODE_EVENTS_PER_PUSH (append_bounded d fragment) in
  if (length events =? MAXIMUM_DECODE_EVENTS_PER_PUSH)%nat
     && negb (bool_decide (dec_bytes d = []))
  then
    (events,
     retain_possible_preambles
       (mkDecoder (dec_bytes d) (dec_limits d) (stats_add_limit_hit (dec_statistics d))))
  else (events, d).
