(* ===== verification/DecoderFacts.v ===== *)
(** * Facts about the candidate search, the analysis step and the event loop

    The lemmas behind the properties of [Decoder]: preamble runs, stability of
    the analysis under more input, shifting of the candidate when a prefix is
    dropped, and the loop equations of [next_event]. *)
From S2P Require Import Prelude Wire Decoder.

(** ** Preamble runs *)

Lemma leading_ff_app a b :
  leading_ff (a ++ b) =
    if (leading_ff a =? length a)%nat then (length a + leading_ff b)%nat else leading_ff a.
Proof.
  induction a as [|x a IH]; [done|]. cbn [app leading_ff length].
  destruct (x =? 0xff); [|done]. rewrite IH. simpl.
  destruct (_ =? _)%nat; done.
Qed.

Lemma leading_ff_le l : (leading_ff l <= length l)%nat.
Proof. induction l as [|x l IH]; simpl; [lia|]. destruct (x =? _); lia. Qed.

Lemma trailing_ff_le l : (trailing_ff l <= length l)%nat.
Proof. unfold trailing_ff. rewrite <-(length_reverse l). apply leading_ff_le. Qed.

Lemma trailing_ff_app a b :
  trailing_ff (a ++ b) =
    if (trailing_ff b =? length b)%nat then (length b + trailing_ff a)%nat else trailing_ff b.
Proof. unfold trailing_ff. by rewrite reverse_app, leading_ff_app, length_reverse. Qed.

(** Dropping a prefix truncates a run at the cut. *)
Lemma trailing_ff_suffix a b :
  trailing_ff b = (trailing_ff (a ++ b) `min` length b)%nat.
Proof.
  rewrite trailing_ff_app. pose proof (trailing_ff_le b).
  destruct (Nat.eqb_spec (trailing_ff b) (length b)); lia.
Qed.

Lemma trailing_ff_replicate n : trailing_ff (replicate n 0xff) = n.
Proof.
  unfold trailing_ff. rewrite reverse_replicate. induction n; simpl; congruence.
Qed.

Lemma leading_ff_take l i : (i < leading_ff l)%nat -> nth i l 0 = 0xff.
Proof.
  revert i. induction l as [|x l IH]; simpl; intros i Hi; [lia|].
  destruct (Z.eqb_spec x 0xff); [|lia]. destruct i; [done|]. apply IH. lia.
Qed.

(** The last [trailing_ff l] bytes are preambles. *)
Lemma trailing_ff_nth l i :
  (length l - trailing_ff l <= i < length l)%nat -> nth i l 0 = 0xff.
Proof.
  intros Hi. pose proof (leading_ff_take (reverse l) (length l - S i)) as H.
  assert (Hrev : reverse l = rev l) by (symmetry; apply rev_alt).
  unfold trailing_ff in Hi. rewrite Hrev in *. rewrite rev_nth in H by lia.
  replace (length l - S (length l - S i))%nat with i in H by lia. apply H. lia.
Qed.

Lemma rposition_trailing l :
  match rposition (fun value => negb (value =? 0xff)) l with
  | Some p => S p
  | None => 0%nat
  end = (length l - trailing_ff l)%nat.
Proof.
  induction l as [|x l IH]; [done|].
  change (trailing_ff (x :: l)) with (trailing_ff ([x] ++ l)).
  rewrite trailing_ff_app. cbn [rposition length].
  pose proof (trailing_ff_le l).
  destruct (rposition _ l) as [p|] eqn:Hp.
  - destruct (Nat.eqb_spec (trailing_ff l) (length l)); lia.
  - destruct (Nat.eqb_spec (trailing_ff l) (length l)); [|lia].
    unfold trailing_ff. simpl. destruct (x =? 255); simpl; lia.
Qed.

Lemma preamble_start_of_spec l i :
  (i <= length l)%nat ->
  (i - preamble_start_of l i)%nat = trailing_ff (take i l) /\ (preamble_start_of l i <= i)%nat.
Proof.
  intros Hi. unfold preamble_start_of. rewrite rposition_trailing, length_take.
  pose proof (trailing_ff_le (take i l)) as H. rewrite length_take in H. lia.
Qed.

(** ** [find_map] *)

Section find_map.
Context {B : Type}.
Implicit Types (f : nat -> Z -> option B).

Lemma find_map_from_Some f i l b :
  find_map_from f i l = Some b <->
  exists j, (j < length l)%nat /\ f (i + j)%nat (nth j l 0) = Some b /\
    forall j', (j' < j)%nat -> f (i + j')%nat (nth j' l 0) = None.
Proof.
  revert i. induction l as [|x l IH]; intros i; cbn [find_map_from length].
  - split; [done|]. intros (j & ? & _). lia.
  - destruct (f i x) as [b'|] eqn:Hf.
    + split.
      * intros [= ->]. exists 0%nat. rewrite Nat.add_0_r. split_and!; [lia|done|lia].
      * intros ([|j] & Hj & Hb & Hn); [rewrite Nat.add_0_r in Hb; simpl in Hb; congruence|].
        specialize (Hn 0%nat ltac:(lia)). rewrite Nat.add_0_r in Hn. simpl in Hn. congruence.
    + rewrite IH. split.
      * intros (j & Hj & Hb & Hn). exists (S j). rewrite <-plus_n_Sm. split_and!; [lia|done|].
        intros [|j'] Hj'; [by rewrite Nat.add_0_r|]. rewrite <-plus_n_Sm. apply Hn. lia.
      * intros ([|j] & Hj & Hb & Hn); [rewrite Nat.add_0_r in Hb; simpl in Hb; congruence|].
        exists j. split_and!; [lia|by rewrite <-plus_n_Sm in Hb|].
        intros j' Hj'. specialize (Hn (S j') ltac:(lia)). by rewrite <-plus_n_Sm in Hn.
Qed.

Lemma find_map_from_None f i l :
  find_map_from f i l = None <->
  forall j, (j < length l)%nat -> f (i + j)%nat (nth j l 0) = None.
Proof.
  split.
  - intros H j Hj. revert i j Hj H.
    induction l as [|x l IH]; intros i j Hj H; simpl in *; [lia|].
    destruct (f i x) eqn:Hf; [done|]. destruct j; [by rewrite Nat.add_0_r|].
    rewrite <-plus_n_Sm. apply (IH (S i)); [lia|done].
  - intros H. destruct (find_map_from f i l) eqn:Hf; [|done].
    apply find_map_from_Some in Hf as (j & Hj & Hb & _). rewrite H in Hb; [done|lia].
Qed.
End find_map.

(** ** Candidates *)

Definition run_before (l : bytes) (i : nat) : nat := trailing_ff (take i l).

Lemma candidate_at_spec l limits i b :
  (i <= length l)%nat ->
  candidate_at l limits i b =
    if is_possible_delimiter b (checksum_policy limits)
       && (minimum_preambles limits <=? Z.of_nat (run_before l i))
    then Some (i, i - run_before l i `min` 255, run_before l i `min` 255)%nat
    else None.
Proof.
  intros Hi. unfold candidate_at.
  destruct (preamble_start_of_spec l i Hi) as [-> _]. fold (run_before l i).
  destruct (is_possible_delimiter _ _); simpl; [|done]. by destruct (_ <=? _).
Qed.

Lemma run_before_le l i : (run_before l i <= i)%nat.
Proof.
  unfold run_before. pose proof (trailing_ff_le (take i l)) as H.
  rewrite length_take in H. lia.
Qed.

Lemma run_before_app_l l k i : (i <= length l)%nat -> run_before (l ++ k) i = run_before l i.
Proof. intros Hi. unfold run_before. by rewrite take_app_le. Qed.

(** The run in front of a position, after dropping the prefix [pre]. *)
Lemma run_before_app_r pre l i :
  (i <= length l)%nat -> run_before l i = (run_before (pre ++ l) (length pre + i) `min` i)%nat.
Proof.
  intros Hi. unfold run_before. rewrite take_app_add.
  rewrite (trailing_ff_suffix pre (take i l)), length_take. lia.
Qed.

Lemma ff_not_delimiter policy : is_possible_delimiter 0xff policy = false.
Proof. destruct policy as [|[] ?]; by vm_compute. Qed.

Definition limits_ok (limits : DecodeLimits) : Prop := minimum_preambles limits <= 255.

Lemma find_candidate_Some l limits di ps pc :
  find_candidate l limits = Some (di, ps, pc) <->
  (di < length l)%nat /\
  is_possible_delimiter (nth di l 0) (checksum_policy limits) = true /\
  minimum_preambles limits <= Z.of_nat (run_before l di) /\
  ps = (di - run_before l di `min` 255)%nat /\ pc = (run_before l di `min` 255)%nat /\
  forall j, (j < di)%nat -> candidate_at l limits j (nth j l 0) = None.
Proof.
  unfold find_candidate. rewrite find_map_from_Some. split.
  - intros (j & Hj & Hc & Hn). simpl in *. rewrite candidate_at_spec in Hc by lia.
    destruct (is_possible_delimiter (nth j l 0) _) eqn:Hd; [|done].
    destruct (Z.leb_spec (minimum_preambles limits) (Z.of_nat (run_before l j))); [|done].
    simpl in Hc. simplify_eq. split_and!; try done.
  - intros (Hd & Hp & Hm & -> & -> & Hn). exists di. simpl. split_and!; [done| |done].
    rewrite candidate_at_spec, Hp by lia. by rewrite (proj2 (Z.leb_le _ _)).
Qed.

Lemma find_candidate_None l limits :
  find_candidate l limits = None <->
  forall j, (j < length l)%nat -> candidate_at l limits j (nth j l 0) = None.
Proof. unfold find_candidate. by rewrite find_map_from_None. Qed.

Lemma candidate_at_None_iff l limits i b :
  (i <= length l)%nat ->
  candidate_at l limits i b = None <->
  (is_possible_delimiter b (checksum_policy limits) = true ->
   Z.of_nat (run_before l i) < minimum_preambles limits).
Proof.
  intros Hi. rewrite candidate_at_spec by done.
  destruct (is_possible_delimiter _ _); simpl; [|naive_solver].
  destruct (Z.leb_spec (minimum_preambles limits) (Z.of_nat (run_before l i))); naive_solver lia.
Qed.

(** More input never changes a candidate already found. *)
Lemma find_candidate_app l k limits c :
  find_candidate l limits = Some c -> find_candidate (l ++ k) limits = Some c.
Proof.
  destruct c as [[di ps] pc]. rewrite !find_candidate_Some, length_app.
  intros (Hd & Hp & Hm & -> & -> & Hn).
  rewrite app_nth1, run_before_app_l by lia. split_and!; try done; [lia|].
  intros j Hj. specialize (Hn j Hj). rewrite app_nth1 by lia.
  rewrite candidate_at_spec in Hn |- * by (rewrite ?length_app; lia).
  by rewrite run_before_app_l by lia.
Qed.

(** Dropping bytes in front of the retained preambles shifts the candidate. *)
Lemma find_candidate_drop pre l limits di ps pc :
  limits_ok limits ->
  find_candidate (pre ++ l) limits = Some (di, ps, pc) -> (length pre <= ps)%nat ->
  find_candidate l limits = Some (di - length pre, ps - length pre, pc)%nat.
Proof.
  unfold limits_ok. rewrite !find_candidate_Some, length_app.
  intros Hok (Hd & Hp & Hm & -> & -> & Hn) Hps.
  pose proof (run_before_le (pre ++ l) di).
  assert (Hrun : run_before l (di - length pre) =
    (run_before (pre ++ l) di `min` (di - length pre))%nat).
  { rewrite (run_before_app_r pre) by lia. do 2 f_equal. lia. }
  rewrite app_nth2 in Hp by lia. rewrite Hrun. split_and!; try done; try lia.
  intros j Hj. specialize (Hn (length pre + j)%nat ltac:(lia)).
  rewrite app_nth2_plus in Hn. rewrite candidate_at_None_iff in Hn |- *
    by (rewrite ?length_app; lia).
  intros Hj'. specialize (Hn Hj'). rewrite (run_before_app_r pre) by lia. lia.
Qed.

Lemma find_candidate_drop_None pre l limits :
  find_candidate (pre ++ l) limits = None -> find_candidate l limits = None.
Proof.
  rewrite !find_candidate_None, length_app. intros Hn j Hj.
  specialize (Hn (length pre + j)%nat ltac:(lia)). rewrite app_nth2_plus in Hn.
  rewrite candidate_at_None_iff in Hn |- * by (rewrite ?length_app; lia).
  intros Hj'. specialize (Hn Hj'). rewrite (run_before_app_r pre) by lia. lia.
Qed.

(** A candidate that appears only with more input keeps the trailing preambles
    of the old input. *)
Lemma find_candidate_new l k limits di ps pc :
  find_candidate l limits = None ->
  find_candidate (l ++ k) limits = Some (di, ps, pc) ->
  (length l <= di)%nat /\ (length l - trailing_ff l `min` 255 <= ps)%nat.
Proof.
  rewrite find_candidate_None, find_candidate_Some, length_app.
  intros Hn (Hd & Hp & Hm & -> & -> & _).
  assert (length l <= di)%nat.
  { destruct (Nat.le_gt_cases (length l) di); [done|].
    specialize (Hn di ltac:(lia)). rewrite app_nth1 in Hp by lia.
    rewrite candidate_at_None_iff in Hn by lia. specialize (Hn Hp).
    rewrite run_before_app_l in Hm by lia. lia. }
  split; [done|]. unfold run_before.
  replace di with (length l + (di - length l))%nat at 2 by lia.
  rewrite take_app_add, trailing_ff_app, length_take.
  pose proof (trailing_ff_le (take (di - length l) k)) as Hle. rewrite length_take in Hle.
  destruct (Nat.eqb_spec (trailing_ff (take (di - length l) k))
    ((di - length l) `min` length k)); lia.
Qed.

(** ** Stability of the analysis *)

Lemma slice_app l k first last :
  (last <= length l)%nat -> slice (l ++ k) first last = slice l first last.
Proof.
  intros H. unfold slice. destruct (Nat.le_gt_cases first last).
  - rewrite drop_app_le by lia. apply take_app_le. rewrite length_drop. lia.
  - by replace (last - first)%nat with 0%nat by lia.
Qed.

Lemma length_slice l first last :
  (last <= length l)%nat -> length (slice l first last) = (last - first)%nat.
Proof. intros H. unfold slice. rewrite length_take, length_drop. lia. Qed.

Lemma analyze_candidate_app l k limits di pc :
  (di < length l)%nat -> analyze_candidate l limits di pc <> NeedMore ->
  analyze_candidate (l ++ k) limits di pc = analyze_candidate l limits di pc.
Proof.
  intros Hdi. unfold analyze_candidate. rewrite (app_nth1 l k 0 (n:=di)) by done.
  set (d0 := nth di l 0).
  set (rep := negb _ && _ && _).
  set (d := if rep then Z.lxor d0 16 else d0).
  set (long := negb (Z.land d 128 =? 0)).
  set (alen := (if long then 5 else 1)%nat).
  set (elen := Z.to_nat (Z.land (Z.shiftr d 5) 3)).
  set (ci := (di + 1 + alen + elen)%nat).
  assert (Halen : (1 <= alen)%nat) by (unfold alen; destruct long; lia).
  rewrite !length_app.
  destruct (Nat.leb_spec (length l) (ci + 1)); [done|].
  destruct (Nat.leb_spec (length l + length k) (ci + 1)); [lia|].
  rewrite (app_nth1 l k 0 (n:=ci + 1)) by lia.
  set (ki := (ci + 1 + 1 + Z.to_nat (nth (ci + 1) l 0%Z))%nat).
  destruct (Nat.leb_spec (length l) ki); [done|].
  destruct (Nat.leb_spec (length l + length k) ki); [lia|]. intros _.
  rewrite !slice_app by (unfold ki, ci in *; lia).
  rewrite !(app_nth1 l k 0) by (unfold ki, ci in *; lia). done.
Qed.

Lemma analyze_app l k limits :
  analyze l limits <> NoCandidate -> analyze l limits <> NeedMore ->
  analyze (l ++ k) limits = analyze l limits.
Proof.
  unfold analyze. destruct (find_candidate l limits) as [[[di ps] pc]|] eqn:Hc; [|done].
  rewrite (find_candidate_app _ k _ _ Hc).
  destruct (0 <? ps)%nat; [done|]. intros _. apply analyze_candidate_app.
  by apply find_candidate_Some in Hc as [? _].
Qed.

(** ** Bounds on the bytes a step removes *)

Lemma analyze_candidate_consumed l limits di pc :
  match analyze_candidate l limits di pc with
  | Discard _ | NoCandidate => False
  | NeedMore => True
  | Rejected _ n _ | StepFrame _ n _ => (di < n <= length l)%nat
  end.
Proof.
  unfold analyze_candidate. cbv zeta.
  set (delimiter := if _ : bool then Z.lxor _ _ else _).
  repeat match goal with
  | |- context [if (?a <=? ?b)%nat then NeedMore else _] =>
      destruct (Nat.leb_spec a b); [done|]
  end.
  destruct (_ && _ && negb (bool_decide _)); [lia|].
  destruct (Address_read_from _ _); [|lia].
  destruct (FrameKind_from_delimiter delimiter); lia.
Qed.

Lemma analyze_consumed l limits :
  match analyze l limits with
  | NoCandidate | NeedMore => True
  | Discard n | Rejected _ n _ | StepFrame _ n _ => (0 < n <= length l)%nat
  end.
Proof.
  unfold analyze. destruct (find_candidate l limits) as [[[di ps] pc]|] eqn:Hc; [|done].
  apply find_candidate_Some in Hc as (Hd & _ & _ & -> & -> & _).
  destruct (Nat.ltb_spec 0 (di - run_before l di `min` 255)); [lia|].
  pose proof (analyze_candidate_consumed l limits di (run_before l di `min` 255)) as H'.
  destruct (analyze_candidate _ _ _ _); (done || lia).
Qed.

(** ** Loop equations *)

Lemma next_event_loop_enough fuel d :
  (length (dec_bytes d) < fuel)%nat -> next_event_loop fuel d = next_event d.
Proof.
  unfold next_event. revert d. induction fuel as [fuel IH] using lt_wf_ind.
  intros d Hf. destruct fuel as [|fuel]; [lia|]. cbn [next_event_loop].
  pose proof (analyze_consumed (dec_bytes d) (dec_limits d)) as Hc.
  destruct (analyze _ _) as [| |n| |] eqn:Ha; try done.
  assert (Hlen : (length (dec_bytes (FrameDecoder_discard d n)) < length (dec_bytes d))%nat).
  { cbn. rewrite length_drop. lia. }
  rewrite (IH fuel) by lia. destruct (length (dec_bytes d)) as [|m] eqn:Hm; [lia|].
  symmetry. apply IH; lia.
Qed.

Lemma next_event_unfold d :
  next_event d =
    match analyze (dec_bytes d) (dec_limits d) with
    | NoCandidate => (None, retain_possible_preambles d)
    | NeedMore => (None, d)
    | Discard count => next_event (FrameDecoder_discard d count)
    | Rejected error consumed checksum_failure =>
        (Some (EventRejected error),
         FrameDecoder_discard
           (mkDecoder (dec_bytes d) (dec_limits d)
              (stats_add_checksum_failure (dec_statistics d) checksum_failure)) consumed)
    | StepFrame frame consumed repaired =>
        (Some (EventFrame frame),
         mkDecoder (drop consumed (dec_bytes d)) (dec_limits d)
                   (stats_add_frame (dec_statistics d) repaired))
    end.
Proof.
  unfold next_event at 1. cbn [next_event_loop].
  pose proof (analyze_consumed (dec_bytes d) (dec_limits d)) as Hc.
  destruct (analyze _ _) as [| |n| |] eqn:Ha; try done.
  apply next_event_loop_enough. cbn. rewrite length_drop. lia.
Qed.

(** ** Feeding more bytes behind the buffer *)

Definition extend (d : FrameDecoder) (k : bytes) : FrameDecoder :=
  mkDecoder (dec_bytes d ++ k) (dec_limits d) (dec_statistics d).

Record decoder_ok (d : FrameDecoder) : Prop := {
  ok_limits : limits_ok (dec_limits d);
  ok_minimum : 1 <= minimum_preambles (dec_limits d);
  ok_discarded : is_u64 (stat_discarded_bytes (dec_statistics d));
}.

Lemma u64_add_range a b : is_u64 a -> 0 <= b -> is_u64 (u64_add a b).
Proof. unfold is_u64, u64_add, saturating_add, u64_max. lia. Qed.

Lemma FrameDecoder_discard_ok d n : decoder_ok d -> decoder_ok (FrameDecoder_discard d n).
Proof. intros []; constructor; cbn; try done. apply u64_add_range; [done|lia]. Qed.

Lemma FrameDecoder_discard_0 d : decoder_ok d -> FrameDecoder_discard d 0 = d.
Proof.
  intros [_ _ H]. destruct d as [l li [f di c o r e]]. unfold FrameDecoder_discard. cbn in *.
  unfold stats_add_discarded, u64_add. cbn. by rewrite saturating_add_0_r
    by (unfold is_u64, u64_max in *; lia).
Qed.

Lemma FrameDecoder_discard_discard d a b :
  (a + b <= length (dec_bytes d))%nat ->
  FrameDecoder_discard (FrameDecoder_discard d a) b = FrameDecoder_discard d (a + b).
Proof.
  intros Hab. unfold FrameDecoder_discard. cbn. f_equal.
  - rewrite !length_drop, drop_drop. f_equal. lia.
  - unfold stats_add_discarded, u64_add. cbn.
    rewrite saturating_add_assoc by lia. do 2 f_equal. lia.
Qed.

Lemma FrameDecoder_discard_eq d n :
  (n <= length (dec_bytes d))%nat ->
  FrameDecoder_discard d n =
    mkDecoder (drop n (dec_bytes d)) (dec_limits d)
      (stats_add_discarded (dec_statistics d) (Z.of_nat n)).
Proof. intros Hn. unfold FrameDecoder_discard. by rewrite Nat.min_l. Qed.

Lemma discard_extend d k n :
  (n <= length (dec_bytes d))%nat ->
  FrameDecoder_discard (extend d k) n = extend (FrameDecoder_discard d n) k.
Proof.
  intros Hn. unfold FrameDecoder_discard, extend. cbn. f_equal.
  rewrite length_app, !Nat.min_l by lia. by rewrite drop_app_le.
Qed.

Lemma retain_discard d k :
  (k + trailing_ff (dec_bytes d) `min` 255 <= length (dec_bytes d))%nat ->
  retain_possible_preambles (FrameDecoder_discard d k) = retain_possible_preambles d.
Proof.
  intros Hk. unfold retain_possible_preambles.
  assert (Hb : dec_bytes (FrameDecoder_discard d k) = drop k (dec_bytes d)).
  { by rewrite FrameDecoder_discard_eq by lia. }
  rewrite Hb.
  pose proof (trailing_ff_suffix (take k (dec_bytes d)) (drop k (dec_bytes d))) as Ht.
  rewrite take_drop, length_drop in Ht. rewrite Ht, length_drop.
  rewrite FrameDecoder_discard_discard by lia. f_equal. lia.
Qed.

(** Bytes in front of the retained preambles do not influence the next event. *)
Lemma next_event_predrop d k :
  decoder_ok d ->
  match find_candidate (dec_bytes d) (dec_limits d) with
  | None => (k + trailing_ff (dec_bytes d) `min` 255 <= length (dec_bytes d))%nat
  | Some (_, ps, _) => (k <= ps)%nat
  end ->
  next_event (FrameDecoder_discard d k) = next_event d.
Proof.
  intros Hok Hk. rewrite (next_event_unfold d). unfold analyze.
  destruct (find_candidate _ _) as [[[di ps] pc]|] eqn:Hc.
  - pose proof Hc as (Hd & _ & _ & Hps & _)%find_candidate_Some.
    destruct (Nat.ltb_spec 0 ps) as [Hpos|]; [|].
    + rewrite <-(take_drop k (dec_bytes d)) in Hc.
      apply find_candidate_drop in Hc; [|apply Hok|rewrite length_take; lia].
      destruct (Nat.eq_dec k ps) as [->|Hne]; [done|].
      rewrite next_event_unfold. unfold analyze.
      rewrite (FrameDecoder_discard_eq d k) at 1 2 by lia. cbn [dec_bytes dec_limits].
      rewrite Hc, length_take, Nat.min_l by lia.
      destruct (Nat.ltb_spec 0 (ps - k)); [|lia].
      rewrite FrameDecoder_discard_discard by lia. do 2 f_equal. lia.
    + replace k with 0%nat by lia. rewrite FrameDecoder_discard_0 by done.
      rewrite next_event_unfold. unfold analyze. rewrite Hc.
      destruct (Nat.ltb_spec 0 ps); [lia|]. done.
  - rewrite <-(take_drop k (dec_bytes d)) in Hc. apply find_candidate_drop_None in Hc.
    rewrite next_event_unfold. unfold analyze.
    rewrite (FrameDecoder_discard_eq d k) at 1 2 by lia. cbn [dec_bytes dec_limits].
    by rewrite Hc, retain_discard.
Qed.

Lemma next_event_limits d : dec_limits (next_event d).2 = dec_limits d.
Proof.
  remember (length (dec_bytes d)) as n eqn:Hn. revert d Hn.
  induction n as [n IH] using lt_wf_ind. intros d ->. rewrite next_event_unfold.
  pose proof (analyze_consumed (dec_bytes d) (dec_limits d)) as Hc.
  destruct (analyze _ _) as [| |c| |]; try done.
  rewrite (IH (length (dec_bytes (FrameDecoder_discard d c)))); [done| |done].
  cbn. rewrite length_drop. lia.
Qed.

Lemma next_event_ok d : decoder_ok d -> decoder_ok (next_event d).2.
Proof.
  remember (length (dec_bytes d)) as n eqn:Hn. revert d Hn.
  induction n as [n IH] using lt_wf_ind. intros d -> Hok. rewrite next_event_unfold.
  pose proof (analyze_consumed (dec_bytes d) (dec_limits d)) as Hc.
  destruct (analyze _ _) as [| |c|e c f|f c r]; cbn [snd]; try done.
  - by apply FrameDecoder_discard_ok.
  - apply (IH (length (dec_bytes (FrameDecoder_discard d c)))); [|done|].
    + cbn. rewrite length_drop. lia.
    + by apply FrameDecoder_discard_ok.
  - apply FrameDecoder_discard_ok. by destruct Hok; constructor.
  - by destruct Hok; constructor.
Qed.

(** An event found in the buffer is found with more input behind it. *)
Lemma next_event_extend_Some d k e d' :
  next_event d = (Some e, d') -> next_event (extend d k) = (Some e, extend d' k).
Proof.
  remember (length (dec_bytes d)) as n eqn:Hn. revert d Hn.
  induction n as [n IH] using lt_wf_ind. intros d -> H. rewrite next_event_unfold in H |- *.
  pose proof (analyze_consumed (dec_bytes d) (dec_limits d)) as Hc.
  pose proof (analyze_app (dec_bytes d) k (dec_limits d)) as Happ.
  cbn [extend dec_bytes dec_limits].
  destruct (analyze (dec_bytes d) (dec_limits d)) as [| |c|er c fl|fr c rp]; try done;
    rewrite Happ by done.
  - fold (extend d k). rewrite discard_extend by lia.
    eapply IH; [|done|done]. cbn. rewrite length_drop. lia.
  - simplify_eq. f_equal.
    rewrite <-(discard_extend (mkDecoder _ _ _)) by (cbn; lia). done.
  - simplify_eq. f_equal. unfold extend. cbn. f_equal. by rewrite drop_app_le by lia.
Qed.

(** When the buffer holds no further event, what is retained is all that
    matters for the input still to come. *)
Lemma next_event_extend_None d k d' :
  decoder_ok d -> next_event d = (None, d') ->
  next_event (extend d k) = next_event (extend d' k).
Proof.
  remember (length (dec_bytes d)) as n eqn:Hn. revert d Hn.
  induction n as [n IH] using lt_wf_ind. intros d -> Hok H. rewrite next_event_unfold in H.
  pose proof (analyze_consumed (dec_bytes d) (dec_limits d)) as Hc.
  pose proof (analyze_app (dec_bytes d) k (dec_limits d)) as Happ.
  destruct (analyze (dec_bytes d) (dec_limits d)) as [| |c| |] eqn:Ha; try done.
  - injection H as <-.
    unfold retain_possible_preambles. rewrite <-discard_extend by lia. symmetry.
    pose proof (trailing_ff_le (dec_bytes d)).
    assert (Hnone : find_candidate (dec_bytes d) (dec_limits d) = None).
    { unfold analyze in Ha. destruct (find_candidate _ _) as [[[di ps] pc]|]; [|done].
      destruct (0 <? ps)%nat; [done|].
      pose proof (analyze_candidate_consumed (dec_bytes d) (dec_limits d) di pc) as Hx.
      by rewrite Ha in Hx. }
    apply next_event_predrop; [by destruct Hok|]. cbn [extend dec_bytes dec_limits].
    destruct (find_candidate (dec_bytes d ++ k) _) as [[[di ps] pc]|] eqn:Hf.
    + by apply (find_candidate_new _ _ _ _ _ _ Hnone) in Hf as [_ ?].
    + rewrite length_app, trailing_ff_app. pose proof (trailing_ff_le k).
      destruct (Nat.eqb_spec (trailing_ff k) (length k)); lia.
  - by injection H as <-.
  - rewrite (next_event_unfold (extend d k)). cbn [extend dec_bytes dec_limits].
    rewrite Happ by done. fold (extend d k). rewrite discard_extend by lia.
    eapply IH; [|done|by apply FrameDecoder_discard_ok|done].
    cbn. rewrite length_drop. lia.
Qed.

(** Draining with more input behind the buffer: the events already found come
    first, then the events of the retained tail followed by the new input. *)
Lemma drain_events_extend b1 b2 d k es d' :
  decoder_ok d -> drain_events b1 d = (es, d') -> (length es < b1)%nat -> (0 < b2)%nat ->
  drain_events (length es + b2) (extend d k) =
    let '(es2, d2) := drain_events b2 (extend d' k) in (es ++ es2, d2).
Proof.
  revert d es d'. induction b1 as [|b1 IH]; intros d es d' Hok H Hlen Hb2; [lia|].
  cbn [drain_events] in H. pose proof (next_event_ok d Hok) as Hok'.
  destruct (next_event d) as [[e|] d1] eqn:Hne.
  - destruct (drain_events b1 d1) as [es1 d1'] eqn:Hd. injection H as <- <-.
    cbn [length Nat.add drain_events]. rewrite (next_event_extend_Some _ _ _ _ Hne).
    cbn [length] in Hlen.
    rewrite (IH d1 es1 d1' Hok' Hd) by lia. by destruct (drain_events b2 _).
  - injection H as <- <-. destruct b2 as [|b2]; [lia|]. cbn [length Nat.add app drain_events].
    rewrite (next_event_extend_None _ _ _ Hok Hne).
    destruct (next_event (extend d1 k)) as [[e|] d2]; [|done]. by destruct (drain_events b2 d2).
Qed.
