(* ===== verification/DecoderSpec.v ===== *)
(** * What the streaming decoder promises

    [decode_stream] is the abstract decoder: it sees the whole byte stream at
    once and has no buffer bound.  The properties: every fragmentation of a
    stream refines it, encoded frames come back unchanged, what is accepted under
    the strict policy is the canonical encoding, only checksum mismatches are
    rejected, and the bytes are accounted for. *)
From S2P Require Import Prelude Wire Decoder DecoderFacts.

(** ** The abstract decoder and fragmented input *)

Definition decode_stream (limits : DecodeLimits) (stream : bytes)
    : list DecodeEvent * FrameDecoder :=
  drain_events (S (length stream)) (extend (FrameDecoder_new limits) stream).

Fixpoint push_all (d : FrameDecoder) (fragments : list bytes)
    : list DecodeEvent * FrameDecoder :=
  match fragments with
  | [] => ([], d)
  | fragment :: rest =>
      let '(events, d) := FrameDecoder_push d fragment in
      let '(events', d) := push_all d rest in (events ++ events', d)
  end.

(** No fragment overflows the buffer or hits the event limit. *)
Fixpoint fits (d : FrameDecoder) (fragments : list bytes) : bool :=
  match fragments with
  | [] => true
  | fragment :: rest =>
      let '(events, d') := FrameDecoder_push d fragment in
      (zlen (dec_bytes d) + zlen fragment <=? buffer_capacity (dec_limits d))
      && (length events <? MAXIMUM_DECODE_EVENTS_PER_PUSH)%nat
      && fits d' rest
  end.

Definition quiescent (d : FrameDecoder) : Prop := next_event d = (None, d).

Lemma extend_nil d : extend d [] = d.
Proof. destruct d. unfold extend. cbn. by rewrite app_nil_r. Qed.

Lemma extend_extend d k k' : extend (extend d k) k' = extend d (k ++ k').
Proof. unfold extend. cbn. by rewrite app_assoc. Qed.

Lemma next_event_quiescent d d' :
  decoder_ok d -> next_event d = (None, d') -> quiescent d'.
Proof.
  intros Hok H. pose proof (next_event_extend_None d [] d' Hok H) as H'.
  rewrite !extend_nil in H'. unfold quiescent. by rewrite <-H'.
Qed.

Lemma FrameDecoder_new_ok limits :
  minimum_preambles limits <= 255 -> decoder_ok (FrameDecoder_new limits).
Proof. intros H. constructor; cbn; unfold limits_ok, is_u64; cbn; lia. Qed.

Lemma FrameDecoder_new_quiescent limits :
  minimum_preambles limits <= 255 -> quiescent (FrameDecoder_new limits).
Proof.
  intros H. unfold quiescent. rewrite next_event_unfold. cbn [analyze].
  change (retain_possible_preambles (FrameDecoder_new limits))
    with (FrameDecoder_discard (FrameDecoder_new limits) 0).
  by rewrite FrameDecoder_discard_0 by (by apply FrameDecoder_new_ok).
Qed.

Lemma drain_events_ok b d es d' :
  decoder_ok d -> drain_events b d = (es, d') ->
  decoder_ok d' /\ dec_limits d' = dec_limits d /\ (length es <= b)%nat /\
  ((length es < b)%nat -> quiescent d').
Proof.
  revert d es d'. induction b as [|b IH]; intros d es d' Hok H.
  - cbn in H. simplify_eq. split_and!; try done. simpl. lia.
  - cbn [drain_events] in H. pose proof (next_event_ok d Hok). pose proof (next_event_limits d) as Hl.
    destruct (next_event d) as [[e|] d1] eqn:Hne; cbn [snd] in *.
    + destruct (drain_events b d1) as [es1 d2] eqn:Hd. injection H as <- <-.
      destruct (IH _ _ _ ltac:(done) Hd) as (Hok2 & Hl2 & Hle & Hq). cbn [length].
      split; [done|]. split; [by rewrite Hl2|]. split; [lia|]. intros. apply Hq. lia.
    + injection H as <- <-. split_and!; try done; [simpl; lia|].
      intros _. exact (next_event_quiescent d d1 Hok Hne).
Qed.

Lemma drain_events_budget b b' d es d' :
  drain_events b d = (es, d') -> (length es < b)%nat -> (length es < b')%nat ->
  drain_events b' d = (es, d').
Proof.
  revert b' d es d'. induction b as [|b IH]; intros b' d es d' H Hb Hb'; [lia|].
  destruct b' as [|b']; [lia|]. cbn [drain_events] in *.
  destruct (next_event d) as [[e|] d1]; [|done].
  destruct (drain_events b d1) as [es1 d2] eqn:Hd. simplify_eq. cbn [length] in *.
  by rewrite (IH b' d1 es1 d') by (done || lia).
Qed.

Lemma next_event_shrinks d e d' :
  next_event d = (Some e, d') -> (length (dec_bytes d') < length (dec_bytes d))%nat.
Proof.
  remember (length (dec_bytes d)) as n eqn:Hn. revert d Hn.
  induction n as [n IH] using lt_wf_ind. intros d -> H. rewrite next_event_unfold in H.
  pose proof (analyze_consumed (dec_bytes d) (dec_limits d)) as Hc.
  destruct (analyze _ _) as [| |c| |]; try done.
  - assert (Hl : (length (dec_bytes (FrameDecoder_discard d c)) < length (dec_bytes d))%nat)
      by (cbn; rewrite length_drop; lia).
    specialize (IH _ Hl _ eq_refl H). lia.
  - simplify_eq. cbn. rewrite length_drop. lia.
  - simplify_eq. cbn. rewrite length_drop. lia.
Qed.

Lemma next_event_length d : (length (dec_bytes (next_event d).2) <= length (dec_bytes d))%nat.
Proof.
  remember (length (dec_bytes d)) as n eqn:Hn. revert d Hn.
  induction n as [n IH] using lt_wf_ind. intros d ->. rewrite next_event_unfold.
  pose proof (analyze_consumed (dec_bytes d) (dec_limits d)) as Hc.
  destruct (analyze _ _) as [| |c| |]; [cbn; rewrite length_drop; lia|done| |..];
    [|cbn; rewrite length_drop; lia..].
  assert (Hl : (length (dec_bytes (FrameDecoder_discard d c)) < length (dec_bytes d))%nat)
    by (cbn; rewrite length_drop; lia).
  specialize (IH _ Hl _ eq_refl). lia.
Qed.

(** Every event uses up at least one buffered byte. *)
Lemma drain_events_consumes b d es d' :
  drain_events b d = (es, d') ->
  (length es + length (dec_bytes d') <= length (dec_bytes d))%nat.
Proof.
  revert d es d'. induction b as [|b IH]; intros d es d' H; cbn [drain_events] in H.
  - simplify_eq. simpl. lia.
  - pose proof (next_event_length d) as Hl.
    destruct (next_event d) as [[e|] d1] eqn:Hne; cbn [snd] in Hl; [|simplify_eq; simpl; lia].
    apply next_event_shrinks in Hne.
    destruct (drain_events b d1) as [es1 d2] eqn:Hd. simplify_eq.
    apply IH in Hd. simpl. lia.
Qed.

Lemma append_bounded_fits d fragment :
  zlen (dec_bytes d) + zlen fragment <= buffer_capacity (dec_limits d) ->
  append_bounded d fragment = extend d fragment.
Proof.
  intros H. unfold append_bounded, saturating_sub, saturating_add.
  by rewrite (proj2 (Z.eqb_eq _ _)) by lia.
Qed.

Lemma FrameDecoder_push_fits d fragment es d' :
  FrameDecoder_push d fragment = (es, d') ->
  zlen (dec_bytes d) + zlen fragment <= buffer_capacity (dec_limits d) ->
  (length es < MAXIMUM_DECODE_EVENTS_PER_PUSH)%nat ->
  drain_events MAXIMUM_DECODE_EVENTS_PER_PUSH (extend d fragment) = (es, d').
Proof.
  intros H Hcap Hlen. unfold FrameDecoder_push in H. rewrite append_bounded_fits in H by done.
  destruct (drain_events _ _) as [es1 d1]. revert H.
  destruct (Nat.eqb_spec (length es1) MAXIMUM_DECODE_EVENTS_PER_PUSH); simpl;
    [destruct (negb _)|]; intros [= <- <-]; (done || lia).
Qed.

Lemma push_all_refines b d fragments :
  decoder_ok d -> quiescent d -> fits d fragments = true ->
  (length (dec_bytes d) + length (concat fragments) < b)%nat ->
  drain_events b (extend d (concat fragments)) = push_all d fragments.
Proof.
  revert b d. induction fragments as [|f fs IH]; intros b d Hok Hq Hfit Hb.
  - cbn [concat push_all]. rewrite extend_nil. destruct b; [lia|]. cbn [drain_events]. by rewrite Hq.
  - cbn [concat push_all fits] in *.
    destruct (FrameDecoder_push d f) as [es d1] eqn:Hp.
    apply andb_prop in Hfit as [[Hcap Hev]%andb_prop Hfit].
    apply Z.leb_le in Hcap. apply Nat.ltb_lt in Hev.
    apply FrameDecoder_push_fits in Hp; [|done|done].
    assert (Hok1 : decoder_ok (extend d f)) by by destruct Hok.
    destruct (drain_events_ok _ _ _ _ Hok1 Hp) as (Hok' & _ & _ & Hq').
    rewrite <-extend_extend.
    pose proof (drain_events_consumes _ _ _ _ Hp) as Hl. cbn [extend dec_bytes] in Hl.
    rewrite !length_app in *.
    replace b with (length es + (b - length es))%nat by lia.
    set (b2 := (b - length es)%nat).
    rewrite (drain_events_extend _ b2 _ _ _ _ Hok1 Hp) by (unfold b2; lia).
    rewrite (IH b2 d1) by (auto; unfold b2; lia). by destruct (push_all d1 fs).
Qed.

(** ** Encoded frames are recognised *)

Lemma nth_mid (a c : bytes) x i : i = length a -> nth i (a ++ x :: c) 0 = x.
Proof. intros ->. apply nth_middle. Qed.

Lemma slice_mid (a b c : bytes) i j :
  i = length a -> j = (length a + length b)%nat -> slice (a ++ b ++ c) i j = b.
Proof.
  intros -> ->. unfold slice. rewrite drop_app_length.
  replace (length a + length b - length a)%nat with (length b) by lia. apply take_app_length.
Qed.

Lemma nth_replicate_lt (x : Z) n i : (i < n)%nat -> nth i (replicate n x) 0 = x.
Proof. revert i. induction n; intros [|i] H; simpl; [lia|lia|done|]. apply IHn. lia. Qed.

(** The search stops at the delimiter right after a run of preambles. *)
Lemma find_candidate_preambles limits p d rest :
  minimum_preambles limits <= Z.of_nat p -> (p <= 255)%nat ->
  is_possible_delimiter d (checksum_policy limits) = true ->
  find_candidate (replicate p 0xff ++ d :: rest) limits = Some (p, 0%nat, p).
Proof.
  intros Hmin Hp Hd.
  assert (Hrun : run_before (replicate p 0xff ++ d :: rest) p = p).
  { unfold run_before. rewrite take_app_le by (rewrite length_replicate; lia).
    rewrite take_ge by (rewrite length_replicate; lia). apply trailing_ff_replicate. }
  apply find_candidate_Some. rewrite Hrun, nth_mid by (by rewrite length_replicate).
  rewrite length_app, length_replicate. cbn [length].
  split_and!; [lia|done|lia|lia|lia|]. intros j Hj.
  rewrite app_nth1 by (rewrite length_replicate; lia). rewrite nth_replicate_lt by done.
  apply candidate_at_None_iff; [rewrite length_app, length_replicate; simpl; lia|].
  by rewrite ff_not_delimiter.
Qed.

Lemma from_delimiter_possible d policy :
  is_Some (FrameKind_from_delimiter d) -> is_possible_delimiter d policy = true.
Proof. intros H. unfold is_possible_delimiter. by rewrite bool_decide_eq_true_2. Qed.

Definition frame_encoding (f : Frame) : bytes :=
  replicate (Z.to_nat (frame_preambles f)) 0xff ++ Frame_body f ++ [xor_checksum (Frame_body f)].

(** The layout of a frame inside a buffer, seen from its fields. *)
Section layout.
Context (f : Frame) (rest : bytes).
Let p := Z.to_nat (frame_preambles f).
Let adr := Address_write_to (frame_address f) (bool_decide (frame_kind f = KindBurst)).
Let ex := frame_expansion f.
Let pl := frame_payload f.
Let ci := (p + 1 + length adr + length ex)%nat.

Lemma frame_encoding_split :
  frame_encoding f ++ rest =
    replicate p 0xff ++ [Frame_delimiter_byte f] ++ adr ++ ex
    ++ [frame_wire_command f; zlen pl] ++ pl ++ xor_checksum (Frame_body f) :: rest.
Proof.
  unfold frame_encoding. set (cs := xor_checksum _).
  unfold Frame_body. fold p adr ex pl. cbn [app].
  repeat (rewrite <-app_assoc; cbn [app]). done.
Qed.

Lemma length_frame_encoding : length (frame_encoding f) = (ci + 2 + length pl + 1)%nat.
Proof.
  unfold frame_encoding, Frame_body, ci. fold adr ex pl p.
  rewrite !length_app, length_replicate. cbn [length]. lia.
Qed.

Lemma encoding_delimiter : nth p (frame_encoding f ++ rest) 0 = Frame_delimiter_byte f.
Proof. rewrite frame_encoding_split. apply nth_mid. by rewrite length_replicate. Qed.

Lemma encoding_command : nth ci (frame_encoding f ++ rest) 0 = frame_wire_command f.
Proof.
  rewrite frame_encoding_split. rewrite !app_assoc. rewrite <-app_assoc.
  rewrite <-(app_assoc _ [frame_wire_command f; _]). apply nth_mid.
  unfold ci. rewrite !length_app, length_replicate. simpl. lia.
Qed.

Lemma encoding_count : nth (ci + 1) (frame_encoding f ++ rest) 0 = zlen pl.
Proof.
  rewrite frame_encoding_split. change [frame_wire_command f; zlen pl]
    with ([frame_wire_command f] ++ [zlen pl]).
  rewrite !app_assoc. rewrite <-(app_assoc _ pl), <-(app_assoc _ [zlen pl]). apply nth_mid.
  unfold ci. rewrite !length_app, length_replicate. simpl. lia.
Qed.

Lemma encoding_checksum :
  nth (ci + 2 + length pl) (frame_encoding f ++ rest) 0 = xor_checksum (Frame_body f).
Proof.
  rewrite frame_encoding_split. rewrite !app_assoc. apply nth_mid.
  unfold ci. rewrite !length_app, length_replicate. simpl. lia.
Qed.

Lemma encoding_address : slice (frame_encoding f ++ rest) (p + 1) (p + 1 + length adr) = adr.
Proof.
  rewrite frame_encoding_split. rewrite (app_assoc (replicate p 255)). apply slice_mid;
    rewrite length_app, length_replicate; simpl; lia.
Qed.

Lemma encoding_expansion :
  slice (frame_encoding f ++ rest) (p + 1 + length adr) ci = ex.
Proof.
  rewrite frame_encoding_split.
  rewrite (app_assoc (replicate p 255)), (app_assoc _ adr). apply slice_mid;
    unfold ci; rewrite !length_app, length_replicate; simpl; lia.
Qed.

Lemma encoding_payload :
  slice (frame_encoding f ++ rest) (ci + 2) (ci + 2 + length pl) = pl.
Proof.
  rewrite frame_encoding_split.
  rewrite !app_assoc, <-app_assoc. apply slice_mid;
    unfold ci; rewrite !length_app, length_replicate; simpl; lia.
Qed.

Lemma encoding_body :
  slice (frame_encoding f ++ rest) p (ci + 2 + length pl) = Frame_body f.
Proof.
  unfold frame_encoding. rewrite <-!app_assoc. apply slice_mid.
  - by rewrite length_replicate.
  - rewrite length_replicate. unfold ci. unfold Frame_body. fold adr ex pl.
    rewrite !length_app. simpl. lia.
Qed.
End layout.

Lemma to_nat_zlen {A} (l : list A) : Z.to_nat (zlen l) = length l.
Proof. unfold zlen. lia. Qed.

Lemma analyze_candidate_encoded limits f rest :
  Frame_wf f -> frame_repair f = None ->
  analyze_candidate (frame_encoding f ++ rest) limits
      (Z.to_nat (frame_preambles f)) (Z.to_nat (frame_preambles f)) =
    StepFrame f (length (frame_encoding f)) false.
Proof.
  intros Hwf Hrep. destruct (Frame_delimiter_byte_spec f) as (_ & Hk & Hph & Hlong & Hex);
    [apply Hwf|].
  pose proof (Address_read_write (frame_address f)
    (bool_decide (frame_kind f = KindBurst)) (wf_address _ Hwf)) as Hread.
  pose proof (wf_preambles _ Hwf) as Hpre. unfold is_u8 in Hpre.
  set (adr := Address_write_to _ _) in Hread.
  assert (Hadr : (if is_long (frame_address f) then 5 else 1)%nat = length adr).
  { unfold adr, is_long. rewrite Address_write_to_length. by destruct (frame_address f). }
  unfold analyze_candidate.
  rewrite encoding_delimiter, Hk, bool_decide_eq_true_2 by done. cbn [negb andb].
  rewrite Hk, Hph, Hlong, Hex, Hadr, to_nat_zlen.
  set (ci := (Z.to_nat (frame_preambles f) + 1 + length adr + length (frame_expansion f))%nat).
  rewrite length_app, (length_frame_encoding f). fold adr ci.
  destruct (Nat.leb_spec (ci + 2 + length (frame_payload f) + 1 + length rest) (ci + 1)); [lia|].
  unfold ci, adr. rewrite encoding_count. fold adr ci. rewrite to_nat_zlen.
  replace (ci + 1 + 1)%nat with (ci + 2)%nat by lia.
  destruct (Nat.leb_spec (ci + 2 + length (frame_payload f) + 1 + length rest)
    (ci + 2 + length (frame_payload f))); [lia|].
  unfold ci, adr. rewrite encoding_body, encoding_checksum, encoding_address,
    encoding_expansion, encoding_payload, encoding_command. fold adr ci.
  rewrite Z.eqb_refl. cbn [negb andb].
  assert (Hne : (Z.lxor (xor_checksum (Frame_body f)) 16 =? xor_checksum (Frame_body f)) = false).
  { apply Z.eqb_neq. intros H'. apply (f_equal (Z.lxor (xor_checksum (Frame_body f)))) in H'.
    rewrite <-Z.lxor_assoc, Z.lxor_nilpotent in H'. by vm_compute in H'. }
  rewrite Hne, andb_false_r. cbn [negb andb].
  unfold is_long. rewrite Hread. f_equal.
  destruct f; cbn in *. subst. f_equal. unfold u8_try_from_or, u8_max.
  rewrite Z2Nat.id by lia. by destruct (Z.leb_spec frame_preambles 255); [|lia].
Qed.

Lemma analyze_encoded limits f rest :
  Frame_wf f -> frame_repair f = None ->
  minimum_preambles limits <= frame_preambles f ->
  analyze (frame_encoding f ++ rest) limits = StepFrame f (length (frame_encoding f)) false.
Proof.
  intros Hwf Hrep Hmin. unfold analyze. pose proof (wf_preambles _ Hwf) as Hpre.
  unfold is_u8 in Hpre.
  destruct (Frame_delimiter_byte_spec f) as (_ & Hk & _); [apply Hwf|].
  rewrite (frame_encoding_split f rest). cbn [app].
  rewrite find_candidate_preambles; [|lia|lia|by apply from_delimiter_possible; rewrite Hk].
  cbn [Nat.ltb Nat.leb].
  rewrite <-(analyze_candidate_encoded limits f rest) by done.
  by rewrite (frame_encoding_split f rest).
Qed.

(** ** What an accepted candidate looks like *)

Lemma slice_cat l a b c :
  (a <= b <= c)%nat -> slice l a b ++ slice l b c = slice l a c.
Proof.
  intros H. unfold slice.
  replace (c - a)%nat with ((b - a) + (c - b))%nat by lia.
  replace (drop b l) with (drop (b - a) (drop a l)) by (rewrite drop_drop; f_equal; lia).
  generalize (drop a l). intros l'. generalize (b - a)%nat, (c - b)%nat. intros x y.
  rewrite <-(take_drop x (take (x + y) l')). rewrite take_take, Nat.min_l by lia. f_equal.
  by rewrite take_drop_commute.
Qed.

Lemma slice_singleton l a b :
  (a < length l)%nat -> b = (a + 1)%nat -> slice l a b = [nth a l 0].
Proof.
  intros H ->. unfold slice. replace (a + 1 - a)%nat with 1%nat by lia.
  revert l H. induction a as [|a IH]; intros [|x l] H; simpl in *; try lia; [done|].
  apply IH. lia.
Qed.

Lemma slice_u8 l a b : all_u8 l -> all_u8 (slice l a b).
Proof. intros H. unfold slice. by apply Forall_take, Forall_drop. Qed.

Lemma nth_u8 l i : all_u8 l -> is_u8 (nth i l 0).
Proof.
  intros H. destruct (Nat.lt_ge_cases i (length l)) as [Hi|Hi].
  - rewrite List.Forall_forall in H. by apply H, nth_In.
  - rewrite nth_overflow by done. by vm_compute.
Qed.

(** The body of a frame with an explicit burst bit in the address. *)
Definition body_tail (f : Frame) (burst : bool) : bytes :=
  Address_write_to (frame_address f) burst ++ frame_expansion f
  ++ [frame_wire_command f; zlen (frame_payload f)] ++ frame_payload f.

Lemma Frame_body_tail f :
  Frame_body f =
    Frame_delimiter_byte f :: body_tail f (bool_decide (frame_kind f = KindBurst)).
Proof. done. Qed.

(** The delimiter is determined by the fields the decoder extracts from it. *)
Lemma delimiter_recompose d k :
  is_u8 d -> FrameKind_from_delimiter d = Some k ->
  Z.lor (Z.lor (Z.lor (FrameKind_delimiter_base k)
     (PhysicalLayer_delimiter_bit (PhysicalLayer_from_delimiter d)))
     (if negb (Z.land d 0x80 =? 0) then 0x80 else 0))
     (Z.land (Z.shiftl (Z.land (Z.shiftr d 5) 0x03) 5) 0xff) = d.
Proof.
  intros Hd.
  destruct k; u8_decide d Hd.
Qed.

Lemma expansion_len_range d : 0 <= Z.land (Z.shiftr d 5) 0x03 <= 3.
Proof.
  change (Z.land _ 0x03) with (Z.land (Z.shiftr d 5) (Z.ones 2)).
  rewrite Z.land_ones by lia. change (2 ^ 2) with 4.
  pose proof (Z.mod_pos_bound (Z.shiftr d 5) 4 eq_refl). lia.
Qed.

(** How the received delimiter, the computed checksum, the received checksum and
    the first address byte relate, for each repair the decoder reports. *)
Definition repair_outcome (policy : ChecksumPolicy) (f : Frame)
    (received expected actual address : Z) : Prop :=
  match frame_repair f with
  | None => received = Frame_delimiter_byte f /\ expected = actual
  | Some DelimiterBit =>
      allow_delimiter_repair policy = true /\
      (expected = actual \/ Z.lxor expected 0x10 = actual)
  | Some (ShortAddressRewrite source) =>
      is_long (frame_address f) = false /\
      short_address_repair policy address expected actual = Some (ShortAddressRewrite source)
  end.

(** Everything [analyze_candidate] has established when it returns a frame. *)
Record accepted (l : bytes) (limits : DecodeLimits) (di : nat) (f : Frame)
    (n : nat) (repaired : bool) (burst : bool) (received actual : Z) : Prop := {
  acc_length : (n <= length l)%nat;
  acc_bytes : slice l di n = received :: body_tail f burst ++ [actual];
  acc_delimiter :
    received = Frame_delimiter_byte f \/
    (allow_delimiter_repair (checksum_policy limits) = true /\
     Z.lxor received 0x10 = Frame_delimiter_byte f);
  acc_address : Address_valid (frame_address f);
  acc_expansion_len : zlen (frame_expansion f) <= 3;
  acc_payload_len : zlen (frame_payload f) <= 255;
  acc_u8 : all_u8 (frame_expansion f) /\ is_u8 (frame_wire_command f) /\
           all_u8 (frame_payload f);
  acc_repaired : repaired = bool_decide (is_Some (frame_repair f));
  acc_outcome :
    repair_outcome (checksum_policy limits) f received
      (xor_checksum (received :: body_tail f burst)) actual (nth 0 (body_tail f burst) 0);
}.

Lemma body_slices (l : bytes) di a e :
  (di + 1 + a + e + 1 < length l)%nat ->
  let ci := (di + 1 + a + e)%nat in
  let ki := (ci + 1 + 1 + Z.to_nat (nth (ci + 1) l 0%Z))%nat in
  (ki < length l)%nat ->
  slice l di (ki + 1) =
    nth di l 0 :: slice l (di + 1) (di + 1 + a) ++ slice l (di + 1 + a) ci
      ++ [nth ci l 0; nth (ci + 1) l 0] ++ slice l (ci + 1 + 1) ki ++ [nth ki l 0].
Proof.
  intros H ci ki Hki.
  rewrite <-(slice_cat l di (di + 1)) by (unfold ki, ci; lia).
  rewrite (slice_singleton l di) by lia. cbn [app]. f_equal.
  rewrite <-(slice_cat l (di + 1) (di + 1 + a)) by (unfold ki, ci; lia). f_equal.
  rewrite <-(slice_cat l (di + 1 + a) ci) by (unfold ki, ci; lia). f_equal.
  rewrite <-(slice_cat l ci (ci + 1)) by (unfold ki, ci; lia).
  rewrite (slice_singleton l ci) by (unfold ci; lia). cbn [app]. f_equal.
  rewrite <-(slice_cat l (ci + 1) (ci + 1 + 1)) by (unfold ki, ci; lia).
  rewrite (slice_singleton l (ci + 1)) by (unfold ci; lia). cbn [app]. f_equal.
  rewrite <-(slice_cat l (ci + 1 + 1) ki) by (unfold ki, ci; lia). f_equal.
  by rewrite slice_singleton.
Qed.

Lemma short_address_repair_shape policy address expected actual r :
  short_address_repair policy address expected actual = Some r ->
  exists source, r = ShortAddressRewrite source.
Proof.
  unfold short_address_repair. destruct policy as [|? [?|]]; try done.
  destruct (_ <? _); [done|]. destruct (_ && _); [|done].
  intros [= <-]. eauto.
Qed.

(** The repair [analyze_candidate] reports, from the booleans it computes. *)
Lemma repair_outcome_intro policy f received expected actual address rep ar :
  let dm := allow_delimiter_repair policy && (Z.lxor expected 0x10 =? actual) in
  (rep = true -> allow_delimiter_repair policy = true) ->
  (rep = false -> received = Frame_delimiter_byte f) ->
  ar = (if negb (expected =? actual) && negb dm && negb (is_long (frame_address f))
        then short_address_repair policy address expected actual else None) ->
  frame_repair f = match ar with
    | Some r => Some r
    | None => if dm then Some DelimiterBit else if rep then Some DelimiterBit else None
    end ->
  negb (expected =? actual) && negb dm && negb (bool_decide (is_Some ar)) = false ->
  repair_outcome policy f received expected actual address.
Proof.
  intros dm Hrep Hcanon Har Hf Hreject. unfold repair_outcome. rewrite Hf.
  destruct ar as [r|].
  - destruct (negb (expected =? actual) && negb dm && negb (is_long (frame_address f)))
      eqn:Hc; [|done].
    apply andb_prop in Hc as [_ Hc%negb_true_iff]. symmetry in Har.
    by destruct (short_address_repair_shape _ _ _ _ _ Har) as [source ->].
  - destruct (Z.eqb_spec expected actual), dm eqn:Hdm; cbn in Hreject; try done.
    + apply andb_prop in Hdm as [? _]. eauto.
    + destruct rep; eauto.
    + apply andb_prop in Hdm as [? ?%Z.eqb_eq]. eauto.
Qed.

(** The frame read off a candidate: the lengths of its fields, its delimiter, and the bytes it
    was read from. *)
Lemma candidate_layout l di d k pre r a :
  let long := negb (Z.land d 128 =? 0) in
  let alen := (if long then 5 else 1)%nat in
  let elen := Z.land (Z.shiftr d 5) 3 in
  let ci := (di + 1 + alen + Z.to_nat elen)%nat in
  let ki := (ci + 1 + 1 + Z.to_nat (nth (ci + 1) l 0%Z))%nat in
  let f := mkFrame pre k (PhysicalLayer_from_delimiter d) a (slice l (di + 1 + alen) ci) (nth ci l 0)
             (slice l (ci + 1 + 1) ki) r in
  let burst := address_burst_bit (slice l (di + 1) (di + 1 + alen)) in
  all_u8 l -> is_u8 d -> FrameKind_from_delimiter d = Some k ->
  (ci + 1 < length l)%nat -> (ki < length l)%nat ->
  Address_encoded_len a = alen ->
  Address_write_to a burst = slice l (di + 1) (di + 1 + alen) ->
  zlen (frame_expansion f) = elen /\ zlen (frame_payload f) = nth (ci + 1) l 0 /\
  is_long a = long /\ Frame_delimiter_byte f = d /\
  slice l di (ki + 1) = nth di l 0 :: body_tail f burst ++ [nth ki l 0].
Proof.
  intros long alen elen ci ki f burst Hu Hd Hk Hci Hki Hal Haw.
  pose proof (expansion_len_range d) as He. fold elen in He.
  assert (Hlen_ex : zlen (frame_expansion f) = elen).
  { unfold f. cbn. unfold zlen. rewrite length_slice by (unfold ci in *; lia). unfold ci. lia. }
  assert (Hcount : zlen (frame_payload f) = nth (ci + 1) l 0).
  { pose proof (nth_u8 l (ci + 1) Hu) as Hn. unfold is_u8 in Hn. unfold f. cbn. unfold zlen.
    rewrite length_slice by lia. unfold ki. lia. }
  assert (Hlong : is_long a = long). { unfold is_long. rewrite Hal. unfold alen. by destruct long. }
  split_and!; [done|done|done| |].
  - unfold Frame_delimiter_byte, Frame_long_bit. fold (is_long (frame_address f)).
    rewrite Hlen_ex. unfold u8_try_from_or, u8_max. destruct (Z.leb_spec elen 255); [|lia].
    change (frame_address f) with a. rewrite Hlong. by apply delimiter_recompose.
  - pose proof (body_slices l di alen (Z.to_nat elen) Hci Hki) as Hslice. cbv zeta in Hslice.
    fold ci ki in Hslice. rewrite Hslice. unfold body_tail. change (frame_address f) with a.
    rewrite Hcount, Haw. cbn [app]. f_equal. by rewrite <-!app_assoc.
Qed.

Lemma analyze_candidate_accepted l limits di pc f n repaired :
  all_u8 l -> (di < length l)%nat ->
  analyze_candidate l limits di pc = StepFrame f n repaired ->
  frame_preambles f = u8_try_from_or u8_max (Z.of_nat pc) /\
  exists burst received actual,
    accepted l limits di f n repaired burst received actual.
Proof.
  intros Hu Hdi. unfold analyze_candidate.
  set (d0 := nth di l 0). set (rep := negb _ && _ && _).
  set (d := if rep then Z.lxor d0 16 else d0).
  set (long := negb (Z.land d 128 =? 0)). set (alen := (if long then 5 else 1)%nat).
  pose proof (expansion_len_range d) as He. set (elen := Z.land (Z.shiftr d 5) 3) in *.
  set (ci := (di + 1 + alen + Z.to_nat elen)%nat).
  destruct (Nat.leb_spec (length l) (ci + 1)) as [|Hci]; [done|].
  set (ki := (ci + 1 + 1 + Z.to_nat (nth (ci + 1) l 0%Z))%nat).
  destruct (Nat.leb_spec (length l) ki) as [|Hki]; [done|].
  set (expected := xor_checksum _). set (actual := nth ki l 0).
  set (dm := allow_delimiter_repair _ && (Z.lxor expected 16 =? actual)).
  set (ar := if negb (expected =? actual) && negb dm && negb long then _ else _).
  destruct (negb (expected =? actual) && negb dm && negb (bool_decide (is_Some ar)))
    eqn:Hreject; [done|].
  assert (Hsl : length (slice l (di + 1) (di + 1 + alen)) = alen)
    by (rewrite length_slice by (unfold ci in *; lia); lia).
  destruct (Address_write_read (slice l (di + 1) (di + 1 + alen)) long) as
    (a & Hread & Hav & Hal & Haw); [by apply slice_u8|unfold zlen; rewrite Hsl; unfold alen; destruct long; lia|].
  rewrite Hal, take_ge in Haw by (rewrite Hsl; done).
  rewrite Hread. destruct (FrameKind_from_delimiter d) as [k|] eqn:Hk; [|done].
  intros [= <- <- <-]. cbn [frame_preambles]. split; [done|].
  assert (Hdu : is_u8 d) by (pose proof (nth_u8 l di Hu); unfold d; destruct rep; [by apply lxor_u8|done]).
  set (repair := match ar with Some _ => _ | None => _ end).
  destruct (candidate_layout l di d k (u8_try_from_or u8_max (Z.of_nat pc)) repair a Hu Hdu Hk Hci Hki Hal Haw)
    as (Hlen_ex & Hcount & Hlong & Hd & Hbody).
  fold long alen elen ci ki d0 actual in Hlen_ex, Hcount, Hlong, Hd, Hbody.
  set (f := mkFrame _ _ _ _ _ _ _ _) in *.
  set (burst := address_burst_bit (slice l (di + 1) (di + 1 + alen))) in *.
  assert (Hexp : expected = xor_checksum (d0 :: body_tail f burst)).
  { unfold expected. rewrite <-(slice_cat l di ki) in Hbody by (unfold ki, ci; lia).
    rewrite (slice_singleton l ki) in Hbody by lia. fold actual in Hbody.
    rewrite app_comm_cons in Hbody. by apply app_inj_tail in Hbody as [-> _]. }
  exists burst, d0, actual. constructor; try done.
  - lia.
  - rewrite Hd. unfold d. destruct rep eqn:Hrep; [|by left]. right. split; [|done].
    unfold rep in Hrep. by apply andb_prop in Hrep as [[_ ?]%andb_prop _].
  - lia.
  - pose proof (nth_u8 l (ci + 1) Hu) as Hn. unfold is_u8 in Hn. lia.
  - split_and!; [by apply slice_u8|by apply nth_u8|by apply slice_u8].
  - rewrite <-Hexp. apply (repair_outcome_intro _ _ _ _ _ _ rep ar); try done.
    + intros [[_ ?]%andb_prop _]%andb_prop. done.
    + intros Hrep. rewrite Hd. unfold d. by rewrite Hrep.
    + change (frame_address f) with a. rewrite Hlong. unfold ar.
      destruct (negb (expected =? actual) && negb dm && negb long) eqn:Hc; unfold dm in Hc;
        rewrite Hc; [|done].
      apply andb_prop in Hc as [_ Hc%negb_true_iff]. f_equal. unfold body_tail.
      change (frame_address f) with a. rewrite Haw. unfold alen. rewrite Hc.
      by rewrite slice_singleton by lia.
Qed.
