(* ===== verification/DecoderProps.v ===== *)
(** * Properties of the streaming decoder

    The theorems about [FrameDecoder] that a user of the decoder relies on; the
    lemmas behind them are in [DecoderFacts] and [DecoderSpec]. *)
From S2P Require Import Prelude Wire Decoder DecoderFacts DecoderSpec.

(** ** Inversion of steps and events *)

(** A candidate that starts the buffer is a run of preambles and a delimiter. *)
Lemma find_candidate_front l limits di pc :
  find_candidate l limits = Some (di, 0%nat, pc) ->
  pc = di /\ (di <= 255)%nat /\ (di < length l)%nat /\
  is_possible_delimiter (nth di l 0) (checksum_policy limits) = true /\
  minimum_preambles limits <= Z.of_nat di /\ take di l = replicate di 0xff.
Proof.
  intros (Hd & Hp & Hm & Hps & -> & _)%find_candidate_Some.
  pose proof (run_before_le l di) as Hle.
  assert (Hrun : run_before l di = di) by lia. rewrite Hrun in *.
  split_and!; try done; try lia.
  apply (nth_ext _ _ 0 0); rewrite length_take, ?length_replicate; [lia|].
  intros i Hi. rewrite nth_replicate_lt by lia.
  apply trailing_ff_nth. unfold run_before in Hrun. rewrite Hrun, length_take. lia.
Qed.

Lemma analyze_inv l limits f n repaired :
  all_u8 l -> analyze l limits = StepFrame f n repaired ->
  exists di burst received actual,
    accepted l limits di f n repaired burst received actual /\
    frame_preambles f = Z.of_nat di /\ (di <= 255)%nat /\
    minimum_preambles limits <= frame_preambles f /\
    take n l = replicate di 0xff ++ received :: body_tail f burst ++ [actual].
Proof.
  intros Hu. unfold analyze. destruct (find_candidate l limits) as [[[di ps] pc]|] eqn:Hc; [|done].
  destruct (Nat.ltb_spec 0 ps); [done|]. intros Ha.
  replace ps with 0%nat in Hc by lia.
  apply find_candidate_front in Hc as (-> & Hdi & Hlt & _ & Hmin & Htake).
  apply analyze_candidate_accepted in Ha as (Hpre & burst & rc & ac & Hacc); [|done|done].
  unfold u8_try_from_or, u8_max in Hpre.
  destruct (Z.leb_spec (Z.of_nat di) 255); [|lia].
  exists di, burst, rc, ac. split_and!; try done; [lia|].
  rewrite <-Htake, <-(acc_bytes _ _ _ _ _ _ _ _ _ Hacc).
  destruct Hacc as [Hn Hb]. apply (f_equal length) in Hb.
  rewrite length_slice in Hb by done. simpl in Hb. rewrite length_app in Hb. simpl in Hb.
  replace (take di l) with (slice l 0 di) by (unfold slice; rewrite drop_0; f_equal; lia).
  rewrite slice_cat by lia. unfold slice. rewrite drop_0. f_equal. lia.
Qed.

Lemma body_tail_length f burst :
  length (body_tail f burst) =
    (Address_encoded_len (frame_address f) + length (frame_expansion f) + 2
     + length (frame_payload f))%nat.
Proof.
  unfold body_tail. rewrite !length_app, Address_write_to_length. simpl. lia.
Qed.

(** The number of bytes a frame occupied on the line. *)
Lemma analyze_frame_length l limits f n repaired :
  all_u8 l -> analyze l limits = StepFrame f n repaired ->
  n = length (frame_encoding f) /\ (n <= length l)%nat.
Proof.
  intros Hu Ha. destruct (analyze_inv _ _ _ _ _ Hu Ha)
    as (di & burst & rc & ac & Hacc & Hpre & _ & _ & Htake).
  split; [|apply Hacc]. apply (f_equal length) in Htake.
  pose proof (acc_length _ _ _ _ _ _ _ _ _ Hacc).
  rewrite length_take, Nat.min_l in Htake by done. rewrite Htake.
  rewrite length_frame_encoding, !length_app, length_replicate. cbn [length].
  rewrite length_app, body_tail_length, Address_write_to_length. simpl. lia.
Qed.

Definition event_discarded (e : DecodeEvent) (n : nat) : nat :=
  match e with EventFrame _ => 0 | EventRejected _ => n end.

(** Every event comes from analysing the buffer after dropping [k] bytes. *)
Lemma next_event_inv d e d' :
  decoder_ok d -> next_event d = (Some e, d') ->
  exists k n, (k + n <= length (dec_bytes d))%nat /\
    dec_bytes d' = drop (k + n) (dec_bytes d) /\
    stat_discarded_bytes (dec_statistics d') =
      u64_add (stat_discarded_bytes (dec_statistics d)) (Z.of_nat (k + event_discarded e n)) /\
    stat_overflow_bytes (dec_statistics d') = stat_overflow_bytes (dec_statistics d) /\
    match analyze (drop k (dec_bytes d)) (dec_limits d) with
    | StepFrame f n' _ => e = EventFrame f /\ n = n'
    | Rejected er n' _ => e = EventRejected er /\ n = n'
    | _ => False
    end.
Proof.
  remember (length (dec_bytes d)) as m eqn:Hm. revert d Hm.
  induction m as [m IH] using lt_wf_ind. intros d -> Hok H. rewrite next_event_unfold in H.
  pose proof (analyze_consumed (dec_bytes d) (dec_limits d)) as Hc.
  destruct (analyze (dec_bytes d) (dec_limits d)) as [| |c|er c fl|f c r] eqn:Ha; try done.
  - destruct (IH (length (dec_bytes (FrameDecoder_discard d c))))
      with (d := FrameDecoder_discard d c) as (k & n & Hle & Hb & Hs & Ho & Hstep);
      [cbn; rewrite length_drop; lia|done|by apply FrameDecoder_discard_ok|done|].
    rewrite FrameDecoder_discard_eq in * by lia. cbn [dec_bytes dec_limits dec_statistics] in *.
    rewrite length_drop, drop_drop in *. exists (c + k)%nat, n.
    split_and!; [lia|rewrite Hb; f_equal; lia| |done|done].
    rewrite Hs. cbn. unfold u64_add. rewrite saturating_add_assoc by lia. f_equal. lia.
  - injection H as <- <-. exists 0%nat, c. rewrite drop_0, Ha. cbn.
    split_and!; try done; [lia|]. f_equal. lia.
  - injection H as <- <-. exists 0%nat, c. rewrite drop_0, Ha. cbn.
    split_and!; try done; [lia|].
    unfold u64_add. by rewrite saturating_add_0_r
      by (destruct Hok; unfold is_u64, u64_max in *; lia).
Qed.

(** ** Properties *)

(** C6. Fragmentation does not matter: pushing a stream in any sequence of
    fragments that neither overflows the buffer nor hits the per-push event
    limit yields the same events, the same retained tail and the same
    statistics as decoding the whole stream at once with no buffer bound. *)
Theorem fragmented_push_refines_stream (limits : DecodeLimits) (fragments : list bytes) :
  is_u8 (minimum_preambles limits) ->
  fits (FrameDecoder_new limits) fragments = true ->
  push_all (FrameDecoder_new limits) fragments = decode_stream limits (concat fragments).
Proof.
  intros Hmin Hfit. unfold is_u8 in Hmin. unfold decode_stream. symmetry.
  apply push_all_refines; [apply FrameDecoder_new_ok|apply FrameDecoder_new_quiescent|..];
    (done || simpl; lia).
Qed.

Definition example_fragments : list bytes :=
  [[1; 255]; [255; 255; 255; 255; 2]; [128; 0]; [0; 130; 255; 255; 6; 128; 1];
   [2; 0; 0; 133; 255]].

Lemma fragmented_push_refines_stream_witness :
  push_all (FrameDecoder_new DecodeLimits_default) example_fragments =
    decode_stream DecodeLimits_default (concat example_fragments) /\
  length (push_all (FrameDecoder_new DecodeLimits_default) example_fragments).1 = 2%nat.
Proof.
  split; [|by vm_compute].
  apply fragmented_push_refines_stream; [by vm_compute|by vm_compute].
Defined.

(** The byte stream of a sequence of frames. *)
Fixpoint encode_all (frames : list Frame) : result WireError bytes :=
  match frames with
  | [] => Ok []
  | f :: rest =>
      let? l := Frame_encode f ;;
      let? k := encode_all rest ;;
      Ok (l ++ k)
  end.

Record transmittable (limits : DecodeLimits) (f : Frame) : Prop := {
  tx_wf : Frame_wf f;
  tx_repair : frame_repair f = None;
  tx_preambles : Z.max 1 (minimum_preambles limits) <= frame_preambles f;
}.

Lemma encode_all_ok limits frames :
  Forall (transmittable limits) frames ->
  encode_all frames = Ok (concat (map frame_encoding frames)).
Proof.
  induction 1 as [|f frames [Hwf _ _] _ IH]; [done|]. cbn [encode_all map concat].
  rewrite Frame_encode_ok by apply Hwf. cbn [result_bind]. by rewrite IH.
Qed.

Definition frames_statistics (n : Z) : DecodeStatistics := mkStatistics (Z.min u64_max n) 0 0 0 0 0.

Lemma drain_encoded frames limits n b :
  Forall (transmittable limits) frames -> 0 <= n -> (length frames < b)%nat ->
  let limits' := dec_limits (FrameDecoder_new limits) in
  drain_events b (mkDecoder (concat (map frame_encoding frames)) limits' (frames_statistics n)) =
    (map EventFrame frames, mkDecoder [] limits' (frames_statistics (n + zlen frames))).
Proof.
  intros H. revert b n. induction H as [|f frames [Hwf Hrep Hpre] _ IH]; intros b n Hn Hb; cbv zeta in *;
    (destruct b as [|b]; [simpl in Hb; lia|]); cbn [drain_events map concat].
  - unfold zlen. cbn [length]. rewrite Z.add_0_r. rewrite next_event_unfold. done.
  - rewrite next_event_unfold. cbn [dec_bytes dec_limits].
    rewrite analyze_encoded; [|done|done|cbn; lia]. cbn [dec_statistics].
    rewrite drop_app_length.
    assert (Hs : stats_add_frame (frames_statistics n) false = frames_statistics (n + 1)).
    { unfold stats_add_frame, frames_statistics, u64_add, saturating_add. cbn. f_equal.
      unfold u64_max. lia. }
    rewrite Hs, (IH b (n + 1)) by (simpl in Hb; lia).
    unfold zlen. cbn [length]. do 3 f_equal. lia.
Qed.

Lemma decode_stream_encoded limits frames :
  Forall (transmittable limits) frames ->
  decode_stream limits (concat (map frame_encoding frames)) =
    (map EventFrame frames,
     mkDecoder [] (dec_limits (FrameDecoder_new limits)) (frames_statistics (zlen frames))).
Proof.
  intros H. unfold decode_stream, extend. cbn [FrameDecoder_new dec_bytes app].
  apply (drain_encoded frames limits 0); [done|lia|].
  clear H. induction frames as [|f frames IH]; [simpl; lia|].
  cbn [map concat length]. rewrite length_app, length_frame_encoding. lia.
Qed.

(** C7. Round trip over a stream: if every frame is well formed, unrepaired and
    has the preambles the decoder asks for, then encoding them back to back,
    cutting the bytes anywhere and pushing the fragments yields exactly those
    frames, in order, with nothing discarded, rejected or left in the buffer. *)
Theorem stream_roundtrip (limits : DecodeLimits) (frames : list Frame) (stream : bytes)
    (fragments : list bytes) :
  is_u8 (minimum_preambles limits) ->
  Forall (transmittable limits) frames ->
  encode_all frames = Ok stream ->
  concat fragments = stream ->
  fits (FrameDecoder_new limits) fragments = true ->
  push_all (FrameDecoder_new limits) fragments =
    (map EventFrame frames,
     mkDecoder [] (dec_limits (FrameDecoder_new limits)) (frames_statistics (zlen frames))).
Proof.
  intros Hmin Hall Henc Hcat Hfit. rewrite (encode_all_ok limits) in Henc by done.
  injection Henc as <-. rewrite <-decode_stream_encoded, <-Hcat by done.
  unfold decode_stream, is_u8 in *. symmetry.
  apply push_all_refines; [apply FrameDecoder_new_ok|apply FrameDecoder_new_quiescent|..];
    (done || simpl; lia).
Qed.

Definition example_request : Frame :=
  mkFrame 5 KindRequest Fsk (Polling 0 Primary) [] 0 [] None.
Definition example_response : Frame :=
  mkFrame 3 KindResponse Psk (Unique 0x1234 0x56789a Secondary) [1; 2] 9 [0; 0; 7; 8; 9] None.

Lemma example_request_wf : Frame_wf example_request.
Proof. constructor; cbn; solve_bytes. Qed.

Lemma example_response_wf : Frame_wf example_response.
Proof. constructor; cbn; solve_bytes. Qed.

Lemma stream_roundtrip_witness :
  push_all (FrameDecoder_new DecodeLimits_default)
    [[255; 255; 255; 255]; [255; 2; 128]; [0; 0; 130; 255; 255; 255; 206; 18; 52; 86];
     [120; 154; 1; 2; 9; 5; 0; 0; 7; 8; 9; 85]] =
  ([EventFrame example_request; EventFrame example_response],
   mkDecoder [] DecodeLimits_default (mkStatistics 2 0 0 0 0 0)).
Proof.
  refine (stream_roundtrip DecodeLimits_default [example_request; example_response]
    [255; 255; 255; 255; 255; 2; 128; 0; 0; 130;
     255; 255; 255; 206; 18; 52; 86; 120; 154; 1; 2; 9; 5; 0; 0; 7; 8; 9; 85] _ _ _ _ _ _);
    [by vm_compute| |by vm_compute|by vm_compute|by vm_compute].
  apply Forall_cons_iff; split; [|apply Forall_cons_iff; split; [|done]]; constructor;
    (apply example_request_wf || apply example_response_wf || done).
Defined.

(** A frame delivered under the strict policy, with the bytes skipped before it
    accounted for in the statistics. *)
Lemma next_event_strict (d d' : FrameDecoder) (f : Frame) :
  decoder_ok d -> all_u8 (dec_bytes d) ->
  checksum_policy (dec_limits d) = Strict ->
  next_event d = (Some (EventFrame f), d') ->
  Frame_wf f /\ frame_repair f = None /\
  minimum_preambles (dec_limits d) <= frame_preambles f /\
  exists skipped raw burst,
    dec_bytes d = skipped ++ raw ++ dec_bytes d' /\
    raw = replicate (Z.to_nat (frame_preambles f)) 0xff
          ++ (Frame_delimiter_byte f :: body_tail f burst)
          ++ [xor_checksum (Frame_delimiter_byte f :: body_tail f burst)] /\
    (burst = bool_decide (frame_kind f = KindBurst) -> Frame_encode f = Ok raw) /\
    stat_discarded_bytes (dec_statistics d') =
      u64_add (stat_discarded_bytes (dec_statistics d)) (zlen skipped).
Proof.
  intros Hok Hu Hstrict Hne.
  destruct (next_event_inv _ _ _ Hok Hne) as (k & n & Hle & Hb & Hdisc & _ & Hstep).
  destruct (analyze (drop k (dec_bytes d)) (dec_limits d)) as [| |c|er c fl|f' c r] eqn:Ha;
    try done; [by destruct Hstep|]. destruct Hstep as [[= <-] ->].
  destruct (analyze_inv _ _ _ _ _ (Forall_drop _ _ _ Hu) Ha)
    as (di & burst & rc & ac & Hacc & Hpre & Hdi & Hmin & Htake).
  pose proof (acc_outcome _ _ _ _ _ _ _ _ _ Hacc) as Hout.
  unfold repair_outcome in Hout. rewrite Hstrict in Hout.
  destruct (frame_repair f) as [[|s]|] eqn:Hr; [by destruct Hout|by destruct Hout|].
  destruct Hout as [-> <-].
  destruct (acc_u8 _ _ _ _ _ _ _ _ _ Hacc) as (Hu1 & Hu2 & Hu3).
  split_and!; try done.
  - destruct Hacc. constructor; try done. unfold is_u8. lia.
  - exists (take k (dec_bytes d)), (take c (drop k (dec_bytes d))), burst. split_and!.
    + rewrite Hb, <-drop_drop, !take_drop. done.
    + rewrite Htake, Hpre, Nat2Z.id. by rewrite app_comm_cons.
    + intros ->. destruct Hacc. rewrite Frame_encode_ok by done.
      rewrite Htake, Hpre, Nat2Z.id. by rewrite app_comm_cons.
    + rewrite Hdisc. f_equal. unfold zlen. rewrite length_take. cbn [event_discarded]. lia.
Qed.

(** A frame as transmitted with a given burst bit in its address: preambles, delimiter, fields
    and the xor checksum of delimiter and fields. *)
Definition encoding_with (f : Frame) (burst : bool) : bytes :=
  replicate (Z.to_nat (frame_preambles f)) 0xff
  ++ (Frame_delimiter_byte f :: body_tail f burst)
  ++ [xor_checksum (Frame_delimiter_byte f :: body_tail f burst)].

(** C18. Strict acceptance is canonical up to the burst bit: under the strict policy every frame
    the decoder emits is well formed and unrepaired, and the bytes it was read from are, after
    some skipped prefix, its preambles, its delimiter, the fields and their xor checksum, with
    one of the two values of the burst bit in the address. [Frame::encode] of the frame is the
    same with the burst bit that belongs to its kind, so that encoding and bytes agree except
    that the sender's burst bit is not kept. *)
Theorem strict_frames_are_canonical (d d' : FrameDecoder) (f : Frame) :
  decoder_ok d -> all_u8 (dec_bytes d) ->
  checksum_policy (dec_limits d) = Strict ->
  next_event d = (Some (EventFrame f), d') ->
  Frame_wf f /\ frame_repair f = None /\
  minimum_preambles (dec_limits d) <= frame_preambles f /\
  Frame_encode f = Ok (encoding_with f (bool_decide (frame_kind f = KindBurst))) /\
  exists skipped burst, dec_bytes d = skipped ++ encoding_with f burst ++ dec_bytes d'.
Proof.
  intros Hok Hu Hs Hne.
  destruct (next_event_strict d d' f Hok Hu Hs Hne) as (Hwf & ? & ? & sk & raw & b & ? & -> & _).
  split_and!; [done..| |by exists sk, b].
  rewrite Frame_encode_ok by apply Hwf. done.
Qed.

Lemma strict_frames_are_canonical_witness :
  let d := mkDecoder [1; 2; 255; 255; 255; 255; 255; 2; 128; 0; 0; 130; 7]
             DecodeLimits_default DecodeStatistics_default in
  exists skipped burst,
    dec_bytes d = skipped ++ encoding_with example_request burst ++ dec_bytes (next_event d).2.
Proof.
  intros d. refine (proj2 (proj2 (proj2 (proj2
    (strict_frames_are_canonical d (next_event d).2 example_request _ _ _ _))))).
  - constructor; cbn; unfold limits_ok, is_u64; cbn; lia.
  - cbn. solve_bytes.
  - done.
  - by vm_compute.
Defined.

(** A response with the burst bit set is accepted, and encodes without it. *)
Example burst_bit_is_not_kept :
  let received := [255; 255; 255; 255; 255; 6; 192; 0; 2; 0; 0; 196] in
  exists f, (next_event (mkDecoder received DecodeLimits_default DecodeStatistics_default)).1
              = Some (EventFrame f)
    /\ encoding_with f true = received
    /\ Frame_encode f = Ok [255; 255; 255; 255; 255; 6; 128; 0; 2; 0; 0; 132].
Proof. eexists. split; [by vm_compute|]. split; by vm_compute. Qed.

(** ** Corrupted frames *)

Lemma xor_checksum_insert (l : bytes) i b :
  (i < length l)%nat ->
  xor_checksum (<[i:=b]> l) = Z.lxor (xor_checksum l) (Z.lxor (nth i l 0) b).
Proof.
  revert i. induction l as [|x l IH]; intros [|i] Hi; cbn [length] in Hi; try lia;
    cbn [insert list_insert nth]; rewrite !xor_checksum_cons.
  - rewrite (Z.lxor_comm x), Z.lxor_assoc, <-(Z.lxor_assoc x x b), Z.lxor_nilpotent, Z.lxor_0_l.
    apply Z.lxor_comm.
  - rewrite IH by lia. by rewrite Z.lxor_assoc.
Qed.

Lemma xor_body_checksum body : xor_checksum (body ++ [xor_checksum body]) = 0.
Proof.
  rewrite xor_checksum_app, xor_checksum_cons. change (xor_checksum []) with 0.
  by rewrite Z.lxor_0_r, Z.lxor_nilpotent.
Qed.

(** Under the strict policy a complete candidate whose bytes do not xor to zero
    is rejected with the checksum error. *)
Lemma analyze_candidate_mismatch l limits di pc :
  checksum_policy limits = Strict -> (di < length l)%nat ->
  is_Some (FrameKind_from_delimiter (nth di l 0)) ->
  let alen := (if negb (Z.land (nth di l 0%Z) 0x80 =? 0)%Z then 5 else 1)%nat in
  let ci := (di + 1 + alen + Z.to_nat (Z.land (Z.shiftr (nth di l 0%Z) 5) 0x03))%nat in
  let ki := (ci + 1 + 1 + Z.to_nat (nth (ci + 1) l 0%Z))%nat in
  (ci + 1 < length l)%nat -> (ki < length l)%nat ->
  xor_checksum (slice l di (ki + 1)) <> 0 ->
  exists expected actual, expected <> actual /\
    analyze_candidate l limits di pc =
      Rejected (WireChecksum expected actual) (di + 1) true.
Proof.
  intros Hstrict Hdi Hk alen ci ki Hci Hki Hxor.
  exists (xor_checksum (slice l di ki)), (nth ki l 0).
  assert (Hne : xor_checksum (slice l di ki) <> nth ki l 0).
  { intros Heq. apply Hxor. rewrite <-(slice_cat l di ki) by (unfold ki, ci; lia).
    rewrite (slice_singleton l ki) by lia. rewrite <-Heq. apply xor_body_checksum. }
  split; [done|]. unfold analyze_candidate. rewrite Hstrict.
  rewrite (bool_decide_eq_true_2 _ Hk). cbn [negb andb allow_delimiter_repair].
  fold alen. fold ci. destruct (Nat.leb_spec (length l) (ci + 1)); [lia|].
  fold ki. destruct (Nat.leb_spec (length l) ki); [lia|].
  rewrite (proj2 (Z.eqb_neq _ _) Hne). cbn [negb andb].
  unfold short_address_repair. by destruct (negb (negb _)).
Qed.

(** The position of the payload-count byte of an encoded frame. *)
Definition count_position (f : Frame) : nat :=
  Z.to_nat (frame_preambles f) + 1 + Address_encoded_len (frame_address f)
  + length (frame_expansion f) + 1.

Lemma insert_encoding_split f i b rest :
  (Z.to_nat (frame_preambles f) < i < length (frame_encoding f))%nat ->
  exists tail, <[i:=b]> (frame_encoding f) ++ rest =
    replicate (Z.to_nat (frame_preambles f)) 0xff ++ Frame_delimiter_byte f :: tail.
Proof.
  intros Hi. unfold frame_encoding in *. rewrite Frame_body_tail in *.
  set (p := Z.to_nat (frame_preambles f)) in *.
  rewrite insert_app_r_alt by (rewrite length_replicate; lia). rewrite length_replicate.
  destruct (i - p)%nat as [|j] eqn:Hj; [lia|]. cbn [app insert list_insert].
  rewrite <-app_assoc. cbn [app]. eauto.
Qed.

(** The fields of the corrupted frame that locate its checksum. *)
Section corrupted.
Context (f : Frame) (rest : bytes) (i : nat) (b : Z).
Context (Hwf : Frame_wf f).
Context (Hi : (Z.to_nat (frame_preambles f) < i < length (frame_encoding f))%nat).
Context (Hcount : i <> count_position f) (Hb : b <> nth i (frame_encoding f) 0).
Let p := Z.to_nat (frame_preambles f).
Let L := <[i:=b]> (frame_encoding f) ++ rest.

Lemma corrupted_delimiter : nth p L 0 = Frame_delimiter_byte f.
Proof.
  unfold L. destruct (insert_encoding_split f i b rest Hi) as [tail ->].
  apply nth_mid. by rewrite length_replicate.
Qed.

Lemma corrupted_count : nth (count_position f) L 0 = zlen (frame_payload f).
Proof.
  unfold L. rewrite app_nth1 by (rewrite length_insert, length_frame_encoding;
    unfold count_position; rewrite Address_write_to_length; lia).
  rewrite <-(encoding_count f []), app_nil_r, Address_write_to_length.
  fold (count_position f). by rewrite !nth_lookup, list_lookup_insert_ne.
Qed.

Lemma corrupted_xor : xor_checksum (slice L p (length (frame_encoding f))) <> 0.
Proof.
  assert (Hd : drop p (frame_encoding f) = Frame_body f ++ [xor_checksum (Frame_body f)]).
  { unfold frame_encoding, p. rewrite drop_app_length'; [done|]. by rewrite length_replicate. }
  assert (Hs : slice L p (length (frame_encoding f)) = <[(i - p)%nat:=b]> (drop p (frame_encoding f))).
  { unfold L. rewrite slice_app by (by rewrite length_insert). unfold slice.
    rewrite drop_insert_ge by (unfold p; lia). apply take_ge.
    rewrite length_insert, length_drop. lia. }
  rewrite Hs, xor_checksum_insert by (rewrite length_drop; unfold p in *; lia).
  rewrite Hd, xor_body_checksum, <-Hd, nth_skipn, Z.lxor_0_l.
  replace (p + (i - p))%nat with i by (unfold p in *; lia).
  intros H%Z.lxor_eq. congruence.
Qed.

Lemma corrupted_analysis limits :
  checksum_policy limits = Strict ->
  exists expected actual, expected <> actual /\
    analyze_candidate L limits p p = Rejected (WireChecksum expected actual) (p + 1) true.
Proof.
  intros Hstrict.
  destruct (Frame_delimiter_byte_spec f) as (_ & Hk & _ & Hlong & Hex); [apply Hwf|].
  assert (Halen : (if is_long (frame_address f) then 5 else 1)%nat =
    Address_encoded_len (frame_address f)) by (by destruct (frame_address f)).
  pose proof (length_frame_encoding f) as Hle. rewrite Address_write_to_length in Hle.
  fold p in Hle.
  assert (Hlen : length L = (length (frame_encoding f) + length rest)%nat)
    by (unfold L; by rewrite length_app, length_insert).
  pose proof corrupted_count as Hcnt. unfold count_position in Hcnt. fold p in Hcnt.
  apply analyze_candidate_mismatch; rewrite ?corrupted_delimiter, ?Hk, ?Hlong, ?Hex, ?Halen,
    ?to_nat_zlen, ?Hcnt, ?to_nat_zlen; try done; try lia.
  match goal with |- xor_checksum (slice L p ?n) <> 0 =>
    replace n with (length (frame_encoding f)) by lia end.
  apply corrupted_xor.
Qed.
End corrupted.

(** C19. Single-byte errors are detected: changing any one byte of an encoded
    frame after its delimiter, other than the payload count, makes a strict
    decoder report a checksum mismatch for it and resume one byte later. A corrupted payload
    count moves the checksum and can pass ([corrupted_count_can_pass]); corrupted preambles
    and delimiters change where a frame starts and are not covered. *)
Theorem single_byte_corruption_rejected (limits : DecodeLimits) (stats : DecodeStatistics)
    (f : Frame) (l rest : bytes) (i : nat) (b : Z) :
  Frame_wf f -> checksum_policy limits = Strict ->
  minimum_preambles limits <= frame_preambles f ->
  Frame_encode f = Ok l ->
  (Z.to_nat (frame_preambles f) < i < length l)%nat -> i <> count_position f ->
  b <> nth i l 0 ->
  exists expected actual d', expected <> actual /\
    next_event (mkDecoder (<[i:=b]> l ++ rest) limits stats) =
      (Some (EventRejected (WireChecksum expected actual)), d') /\
    dec_bytes d' = drop (S (Z.to_nat (frame_preambles f))) (<[i:=b]> l ++ rest).
Proof.
  intros Hwf Hstrict Hmin Henc Hi Hcount Hb.
  assert (l = frame_encoding f) as ->.
  { rewrite Frame_encode_ok in Henc by apply Hwf. by injection Henc as <-. }
  destruct (corrupted_analysis f rest i b Hwf Hi Hcount Hb limits Hstrict)
    as (expected & actual & Hne & Ha).
  pose proof (wf_preambles _ Hwf) as Hpre. unfold is_u8 in Hpre.
  destruct (Frame_delimiter_byte_spec f) as (_ & Hk & _); [apply Hwf|].
  destruct (insert_encoding_split f i b rest Hi) as [tail Htail].
  exists expected, actual. eexists. split; [done|].
  rewrite next_event_unfold. cbn [dec_bytes dec_limits]. unfold analyze.
  rewrite Htail, find_candidate_preambles, <-Htail; [|lia|lia|by apply from_delimiter_possible; rewrite Hk].
  cbn [Nat.ltb Nat.leb]. rewrite Ha. split; [done|]. cbn [FrameDecoder_discard dec_bytes].
  f_equal. rewrite length_app, length_insert. lia.
Qed.

Lemma single_byte_corruption_rejected_witness :
  exists expected actual d', expected <> actual /\
    next_event (mkDecoder (<[7%nat:=1]> [255; 255; 255; 255; 255; 2; 128; 0; 0; 130] ++ [255])
                  DecodeLimits_default DecodeStatistics_default) =
      (Some (EventRejected (WireChecksum expected actual)), d') /\
    dec_bytes d' =
      drop 6 (<[7%nat:=1]> [255; 255; 255; 255; 255; 2; 128; 0; 0; 130] ++ [255]).
Proof.
  apply (single_byte_corruption_rejected DecodeLimits_default DecodeStatistics_default
    example_request [255; 255; 255; 255; 255; 2; 128; 0; 0; 130] [255] 7 1);
    [apply example_request_wf|done|done|by vm_compute|cbn; lia|done|done].
Defined.

(** A corrupted payload count moves the checksum: here three becomes zero, and the first
    payload byte passes for the checksum of a shorter frame. *)
Example corrupted_count_can_pass :
  exists f,
    Frame_encode f = Ok [255; 255; 255; 255; 255; 2; 128; 0; 3; 130; 1; 2; 0]
    /\ (next_event (mkDecoder [255; 255; 255; 255; 255; 2; 128; 0; 0; 130; 1; 2; 0]
           DecodeLimits_default DecodeStatistics_default)).1 = Some (EventFrame example_request).
Proof.
  exists (mkFrame 5 KindRequest Fsk (Polling 0 Primary) [] 0 [130; 1; 2] None).
  split; by vm_compute.
Qed.

(** ** Rejections *)

Lemma analyze_candidate_rejected l limits di pc e n c :
  all_u8 l -> (di < length l)%nat ->
  is_possible_delimiter (nth di l 0) (checksum_policy limits) = true ->
  analyze_candidate l limits di pc = Rejected e n c ->
  c = true /\ exists expected actual, expected <> actual /\ e = WireChecksum expected actual.
Proof.
  intros Hu Hdi Hposs. unfold analyze_candidate.
  set (d0 := nth di l 0) in *. set (rep := negb _ && _ && _).
  set (d := if rep then Z.lxor d0 16 else d0).
  set (long := negb (Z.land d 128 =? 0)). set (alen := (if long then 5 else 1)%nat).
  set (ci := (di + 1 + alen + _)%nat).
  destruct (Nat.leb_spec (length l) (ci + 1)) as [|Hci]; [done|].
  set (ki := (ci + 1 + 1 + Z.to_nat (nth (ci + 1) l 0%Z))%nat).
  destruct (Nat.leb_spec (length l) ki) as [|Hki]; [done|].
  set (expected := xor_checksum _). set (actual := nth ki l 0).
  set (reject := negb (expected =? actual) && _ && _).
  destruct reject eqn:Hreject.
  - intros [= <- _ <-]. split; [done|]. exists expected, actual. split; [|done].
    unfold reject in Hreject. by destruct (Z.eqb_spec expected actual).
  - destruct (Address_write_read (slice l (di + 1) (di + 1 + alen)) long) as (a & -> & _).
    { by apply slice_u8. }
    { unfold zlen. rewrite length_slice by (unfold ci in *; lia). unfold alen. destruct long; lia. }
    destruct (FrameKind_from_delimiter d) as [k|] eqn:Hk; [done|]. exfalso.
    unfold is_possible_delimiter in Hposs. unfold d, rep in Hk.
    destruct (bool_decide_reflect (is_Some (FrameKind_from_delimiter d0))) as [[? Hd0]|_].
    { cbn [negb andb] in Hk. congruence. }
    destruct (allow_delimiter_repair _); [|done]. cbn [negb andb orb] in Hposs, Hk.
    rewrite Hposs in Hk. apply bool_decide_eq_true in Hposs as [? Hd1]. congruence.
Qed.

Definition checksum_rejection (e : DecodeEvent) : Prop :=
  match e with
  | EventFrame _ => True
  | EventRejected er =>
      exists expected actual, expected <> actual /\ er = WireChecksum expected actual
  end.

Lemma next_event_checksum_rejection d e d' :
  decoder_ok d -> all_u8 (dec_bytes d) -> next_event d = (Some e, d') -> checksum_rejection e.
Proof.
  intros Hok Hu Hne.
  destruct (next_event_inv _ _ _ Hok Hne) as (k & n & _ & _ & _ & _ & Hstep).
  destruct (analyze (drop k (dec_bytes d)) (dec_limits d)) as [| |c|er c fl|f c r] eqn:Ha;
    try done; destruct Hstep as [-> _]; [|done].
  unfold analyze in Ha. destruct (find_candidate _ _) as [[[di ps] pc]|] eqn:Hc; [|done].
  destruct (0 <? ps)%nat; [done|]. apply find_candidate_Some in Hc as (Hdi & Hp & _).
  by apply analyze_candidate_rejected in Ha as [_ ?]; [|apply Forall_drop|..].
Qed.

Lemma next_event_u8 d : all_u8 (dec_bytes d) -> all_u8 (dec_bytes (next_event d).2).
Proof.
  remember (length (dec_bytes d)) as n eqn:Hn. revert d Hn.
  induction n as [n IH] using lt_wf_ind. intros d -> Hu. rewrite next_event_unfold.
  pose proof (analyze_consumed (dec_bytes d) (dec_limits d)) as Hc.
  destruct (analyze _ _) as [| |c| |]; [by apply Forall_drop|done| |by apply Forall_drop..].
  apply (IH (length (dec_bytes (FrameDecoder_discard d c)))); [|done|by apply Forall_drop].
  cbn. rewrite length_drop. lia.
Qed.

(** Draining preserves a predicate of the buffer and all events satisfy what one
    event satisfies. *)
Lemma drain_events_Forall (P : DecodeEvent -> Prop) b d es d' :
  (forall d e d', decoder_ok d -> all_u8 (dec_bytes d) -> next_event d = (Some e, d') -> P e) ->
  decoder_ok d -> all_u8 (dec_bytes d) -> drain_events b d = (es, d') ->
  Forall P es /\ all_u8 (dec_bytes d').
Proof.
  intros HP. revert d es d'. induction b as [|b IH]; intros d es d' Hok Hu H;
    cbn [drain_events] in H; [injection H as <- <-; by split|].
  pose proof (next_event_ok d Hok) as Hok1. pose proof (next_event_u8 d Hu) as Hu1.
  destruct (next_event d) as [[e|] d1] eqn:Hne; [|injection H as <- <-; by split].
  destruct (drain_events b d1) as [es1 d2] eqn:Hd. injection H as <- <-.
  destruct (IH _ _ _ Hok1 Hu1 Hd). split; [|done].
  apply Forall_cons_iff. split; [exact (HP _ _ _ Hok Hu Hne)|done].
Qed.

(** The invariant of a decoder between calls: what [FrameDecoder::new]
    establishes and every operation preserves. *)
Record decoder_inv (d : FrameDecoder) : Prop := {
  inv_capacity : 1 <= buffer_capacity (dec_limits d) <= MAXIMUM_DECODE_BUFFER_CAPACITY;
  inv_minimum : 1 <= minimum_preambles (dec_limits d) <= 255;
  inv_bytes : all_u8 (dec_bytes d);
  inv_buffered : FrameDecoder_buffered_len d <= buffer_capacity (dec_limits d);
  inv_discarded : is_u64 (stat_discarded_bytes (dec_statistics d));
}.

Lemma decoder_inv_ok d : decoder_inv d -> decoder_ok d.
Proof. intros []. constructor; (done || unfold limits_ok; lia). Qed.

Definition fragment_ok (fragment : bytes) : Prop :=
  all_u8 fragment /\ zlen fragment <= isize_max.

Lemma append_bounded_spec d fragment :
  decoder_inv d -> fragment_ok fragment ->
  let d' := append_bounded d fragment in
  let lost := Z.max 0 (zlen (dec_bytes d) + zlen fragment - buffer_capacity (dec_limits d)) in
  dec_limits d' = dec_limits d /\ all_u8 (dec_bytes d') /\
  dec_bytes d' = drop (Z.to_nat lost) (dec_bytes d ++ fragment) /\
  FrameDecoder_buffered_len d' = zlen (dec_bytes d) + zlen fragment - lost /\
  dec_statistics d' =
    if lost =? 0 then dec_statistics d else stats_add_overflow (dec_statistics d) lost.
Proof.
  intros [Hcap _ Hu Hbuf _] [Hfu Hflen]. unfold append_bounded, FrameDecoder_buffered_len in *.
  pose proof (zlen_nonneg (dec_bytes d)). pose proof (zlen_nonneg fragment).
  unfold saturating_sub, saturating_add, usize_max, u64_max, isize_max,
    MAXIMUM_DECODE_BUFFER_CAPACITY in *.
  rewrite Z.min_r by lia. set (lost := Z.max 0 _).
  assert (Hdrop : drop (Z.to_nat (Z.min lost (zlen (dec_bytes d)))) (dec_bytes d)
      ++ drop (Z.to_nat (Z.min (Z.max 0 (lost - Z.min lost (zlen (dec_bytes d)))) (zlen fragment)))
           fragment = drop (Z.to_nat lost) (dec_bytes d ++ fragment)).
  { rewrite drop_app. unfold zlen in *. f_equal.
    - destruct (Z.le_gt_cases lost (Z.of_nat (length (dec_bytes d)))); [by rewrite Z.min_l|].
      rewrite !drop_ge by lia. done.
    - f_equal. lia. }
  destruct (Z.eqb_spec lost 0) as [Hlost|Hlost]; cbn [dec_limits dec_bytes dec_statistics].
  - rewrite Hlost. cbn. rewrite zlen_app. split_and!; try done; [by apply Forall_app|lia].
  - rewrite Hdrop. split_and!; [done|by apply Forall_drop, Forall_app|done| |].
    + unfold zlen in *. rewrite length_drop, length_app. lia.
    + f_equal. lia.
Qed.

Lemma append_bounded_ok d fragment :
  decoder_inv d -> fragment_ok fragment -> decoder_ok (append_bounded d fragment).
Proof.
  intros Hinv Hf. destruct (append_bounded_spec d fragment Hinv Hf) as (Hl & _ & _ & _ & Hs).
  destruct Hinv. constructor; rewrite ?Hl; unfold limits_ok; try lia.
  rewrite Hs. by destruct (_ =? 0).
Qed.

(** [push] is a drain of the appended buffer, followed by the event-limit
    handling, which only drops bytes. *)
Lemma FrameDecoder_push_drain d fragment es d' :
  FrameDecoder_push d fragment = (es, d') ->
  exists d1, drain_events MAXIMUM_DECODE_EVENTS_PER_PUSH (append_bounded d fragment) = (es, d1) /\
    (d' = d1 \/
     d' = retain_possible_preambles
            (mkDecoder (dec_bytes d1) (dec_limits d1) (stats_add_limit_hit (dec_statistics d1)))).
Proof.
  unfold FrameDecoder_push. destruct (drain_events _ _) as [es1 d1].
  destruct (_ && _); intros [= <- <-]; eauto.
Qed.

(** The decoder invariant: bytes, limits and counters stay in range and the
    retained tail never exceeds the configured capacity, whatever is pushed;
    [push] leaves the limits alone and returns at most 4096 events. *)
Theorem push_preserves_invariant (d d' : FrameDecoder) (fragment : bytes)
    (events : list DecodeEvent) :
  decoder_inv d -> fragment_ok fragment ->
  FrameDecoder_push d fragment = (events, d') ->
  decoder_inv d' /\ dec_limits d' = dec_limits d /\
  (length events <= MAXIMUM_DECODE_EVENTS_PER_PUSH)%nat.
Proof.
  intros Hinv Hf Hp. destruct (FrameDecoder_push_drain _ _ _ _ Hp) as (d1 & Hd & Hcase).
  destruct (append_bounded_spec d fragment Hinv Hf) as (Hl & Hu & _ & Hlen & _).
  pose proof (append_bounded_ok d fragment Hinv Hf) as Hok.
  destruct (drain_events_ok _ _ _ _ Hok Hd) as ([Hm1 Hm2 Hs] & Hl1 & Hn & _).
  destruct (drain_events_Forall (fun _ => True) _ _ _ _ (fun _ _ _ _ _ _ => I) Hok Hu Hd)
    as [_ Hu1].
  pose proof (drain_events_consumes _ _ _ _ Hd) as Hc.
  rewrite Hl in Hl1. destruct Hinv as [Hcap Hmin _ Hbuf _].
  unfold FrameDecoder_buffered_len, zlen in *.
  assert (Hinv1 : decoder_inv d1).
  { constructor; rewrite ?Hl1; try done. unfold FrameDecoder_buffered_len, zlen. lia. }
  destruct Hcase as [-> | ->]; [done|]. split; [|done]. destruct Hinv1.
  constructor; cbn; try done; [by apply Forall_drop| |apply u64_add_range; [done|lia]].
  unfold FrameDecoder_buffered_len, zlen in *. cbn. rewrite length_drop. lia.
Qed.

Lemma decoder_new_inv limits :
  is_u8 (minimum_preambles limits) -> decoder_inv (FrameDecoder_new limits).
Proof.
  intros H. unfold is_u8 in H.
  constructor; cbn; unfold clamp, MAXIMUM_DECODE_BUFFER_CAPACITY, FrameDecoder_buffered_len,
    zlen, is_u64; cbn; (done || lia).
Qed.

Lemma push_preserves_invariant_witness :
  let limits := mkLimits 8 1 Strict in
  let p := FrameDecoder_push (FrameDecoder_new limits) [1; 2; 3; 4; 5; 255; 255; 2; 128; 0; 3; 9] in
  decoder_inv p.2 /\ dec_limits p.2 = limits /\
  (length p.1 <= MAXIMUM_DECODE_EVENTS_PER_PUSH)%nat /\ zlen (dec_bytes p.2) = 7.
Proof.
  intros limits p.
  destruct (push_preserves_invariant (FrameDecoder_new limits) p.2
    [1; 2; 3; 4; 5; 255; 255; 2; 128; 0; 3; 9] p.1) as (H1 & H2 & H3).
  - apply decoder_new_inv. by vm_compute.
  - split; [solve_bytes|]. by vm_compute.
  - by vm_compute.
  - split; [exact H1|]. split; [exact H2|]. split; [exact H3|]. by vm_compute.
Defined.

(** Only checksum mismatches are ever rejected: for every policy, the
    rejection events of [push] all carry the checksum error with two different
    values; the delimiter, address and truncation errors cannot come out of the
    decoder. *)
Theorem push_rejects_only_checksums (d d' : FrameDecoder) (fragment : bytes)
    (events : list DecodeEvent) :
  decoder_inv d -> fragment_ok fragment ->
  FrameDecoder_push d fragment = (events, d') ->
  Forall checksum_rejection events.
Proof.
  intros Hinv Hf Hp. destruct (FrameDecoder_push_drain _ _ _ _ Hp) as (d1 & Hd & _).
  destruct (append_bounded_spec d fragment Hinv Hf) as (_ & Hu & _).
  by destruct (drain_events_Forall checksum_rejection _ _ _ _ next_event_checksum_rejection
    (append_bounded_ok d fragment Hinv Hf) Hu Hd).
Qed.

Lemma push_rejects_only_checksums_witness :
  Forall checksum_rejection
    (FrameDecoder_push (FrameDecoder_new DecodeLimits_default)
       [255; 255; 2; 128; 0; 0; 131; 255; 255; 6; 128; 0; 2; 0; 0; 132]).1 /\
  length (FrameDecoder_push (FrameDecoder_new DecodeLimits_default)
       [255; 255; 2; 128; 0; 0; 131; 255; 255; 6; 128; 0; 2; 0; 0; 132]).1 = 2%nat.
Proof.
  split; [|by vm_compute].
  refine (push_rejects_only_checksums (FrameDecoder_new DecodeLimits_default) _
    [255; 255; 2; 128; 0; 0; 131; 255; 255; 6; 128; 0; 2; 0; 0; 132] _ _ _ (surjective_pairing _)).
  - apply decoder_new_inv. by vm_compute.
  - split; [solve_bytes|by vm_compute].
Defined.

(** ** Byte accounting *)

(** Bytes of the line that an event stands for and that are not counted as
    discarded. *)
Definition event_bytes (e : DecodeEvent) : Z :=
  match e with EventFrame f => zlen (frame_encoding f) | EventRejected _ => 0 end.

Definition events_bytes (es : list DecodeEvent) : Z :=
  foldr (fun e n => event_bytes e + n) 0 es.

Definition accounted (d : FrameDecoder) : Z :=
  zlen (dec_bytes d) + stat_discarded_bytes (dec_statistics d).

Lemma discard_accounted d n :
  (n <= length (dec_bytes d))%nat ->
  stat_discarded_bytes (dec_statistics (FrameDecoder_discard d n)) < u64_max ->
  accounted (FrameDecoder_discard d n) = accounted d /\
  stat_discarded_bytes (dec_statistics d) <=
    stat_discarded_bytes (dec_statistics (FrameDecoder_discard d n)).
Proof.
  intros Hn. unfold accounted, zlen. cbn. rewrite length_drop.
  unfold u64_add, saturating_add. lia.
Qed.

Lemma next_event_accounted d d' :
  next_event d = (None, d') ->
  stat_discarded_bytes (dec_statistics d') < u64_max ->
  accounted d' = accounted d /\
  stat_discarded_bytes (dec_statistics d) <= stat_discarded_bytes (dec_statistics d') /\
  stat_overflow_bytes (dec_statistics d') = stat_overflow_bytes (dec_statistics d).
Proof.
  remember (length (dec_bytes d)) as n eqn:Hn. revert d Hn.
  induction n as [n IH] using lt_wf_ind. intros d -> H Hs. rewrite next_event_unfold in H.
  pose proof (analyze_consumed (dec_bytes d) (dec_limits d)) as Hc.
  destruct (analyze _ _) as [| |c| |]; try done.
  - injection H as <-. unfold retain_possible_preambles in *.
    destruct (discard_accounted d (length (dec_bytes d) - trailing_ff (dec_bytes d) `min` 255))
      as [? ?]; [lia|done|]. done.
  - injection H as <-. done.
  - destruct (IH (length (dec_bytes (FrameDecoder_discard d c)))
      ltac:(cbn; rewrite length_drop; lia) _ eq_refl H Hs) as (H1 & H2 & H3).
    destruct (discard_accounted d c) as [H4 H5]; [lia|lia|].
    split_and!; [congruence|lia|done].
Qed.

Lemma next_event_Some_accounted d e d' :
  decoder_ok d -> all_u8 (dec_bytes d) -> next_event d = (Some e, d') ->
  stat_discarded_bytes (dec_statistics d') < u64_max ->
  accounted d = accounted d' + event_bytes e /\
  stat_discarded_bytes (dec_statistics d) <= stat_discarded_bytes (dec_statistics d') /\
  stat_overflow_bytes (dec_statistics d') = stat_overflow_bytes (dec_statistics d).
Proof.
  intros Hok Hu H Hs. destruct (next_event_inv _ _ _ Hok H) as (k & n & Hle & Hb & Hd & Ho & Hstep).
  unfold u64_add, saturating_add in Hd.
  assert (Hev : Z.of_nat n = Z.of_nat (event_discarded e n) + event_bytes e).
  { destruct (analyze _ _) as [| |c|er c fl|f c r] eqn:Ha; try done; destruct Hstep as [-> ->];
      cbn; [lia|].
    apply analyze_frame_length in Ha as [-> _]; [done|by apply Forall_drop]. }
  unfold accounted, zlen. rewrite Hb, length_drop. split_and!; [lia|lia|done].
Qed.

Lemma drain_events_accounted b d es d' :
  decoder_ok d -> all_u8 (dec_bytes d) -> drain_events b d = (es, d') ->
  stat_discarded_bytes (dec_statistics d') < u64_max ->
  accounted d = accounted d' + events_bytes es /\
  stat_discarded_bytes (dec_statistics d) <= stat_discarded_bytes (dec_statistics d') /\
  stat_overflow_bytes (dec_statistics d') = stat_overflow_bytes (dec_statistics d).
Proof.
  revert d es d'. induction b as [|b IH]; intros d es d' Hok Hu H Hs; cbn [drain_events] in H.
  - injection H as <- <-. cbn. split_and!; [lia|lia|done].
  - pose proof (next_event_ok d Hok) as Hok1. pose proof (next_event_u8 d Hu) as Hu1.
    destruct (next_event d) as [[e|] d1] eqn:Hne; cbn [snd] in *.
    + destruct (drain_events b d1) as [es1 d2] eqn:Hd. injection H as <- <-.
      destruct (IH _ _ _ Hok1 Hu1 Hd Hs) as (H1 & H2 & H3).
      destruct (next_event_Some_accounted _ _ _ Hok Hu Hne) as (H4 & H5 & H6); [lia|].
      change (events_bytes (e :: es1)) with (event_bytes e + events_bytes es1).
      split_and!; [lia|lia|congruence].
    + injection H as <- <-. destruct (next_event_accounted _ _ Hne Hs) as (H1 & H2 & H3).
      cbn. split_and!; [lia|done|done].
Qed.

(** Every byte is accounted for: as long as the counters have not
    saturated, what was buffered plus what was pushed equals what overflowed,
    what was discarded, the encodings of the frames returned and what is still
    buffered. *)
Theorem push_conserves_bytes (d d' : FrameDecoder) (fragment : bytes)
    (events : list DecodeEvent) :
  decoder_inv d -> fragment_ok fragment ->
  FrameDecoder_push d fragment = (events, d') ->
  is_u64 (stat_overflow_bytes (dec_statistics d)) ->
  stat_discarded_bytes (dec_statistics d') < u64_max ->
  stat_overflow_bytes (dec_statistics d') < u64_max ->
  FrameDecoder_buffered_len d + zlen fragment =
    (stat_overflow_bytes (dec_statistics d') - stat_overflow_bytes (dec_statistics d))
    + (stat_discarded_bytes (dec_statistics d') - stat_discarded_bytes (dec_statistics d))
    + events_bytes events
    + FrameDecoder_buffered_len d'.
Proof.
  intros Hinv Hf Hp Ho Hs1 Hs2.
  destruct (FrameDecoder_push_drain _ _ _ _ Hp) as (d1 & Hd & Hcase).
  destruct (append_bounded_spec d fragment Hinv Hf) as (Hl & Hu & _ & Hlen & Hst).
  pose proof (append_bounded_ok d fragment Hinv Hf) as Hok.
  assert (Hfinal : accounted d' = accounted d1 /\
    stat_discarded_bytes (dec_statistics d1) <= stat_discarded_bytes (dec_statistics d') /\
    stat_overflow_bytes (dec_statistics d') = stat_overflow_bytes (dec_statistics d1)).
  { destruct Hcase as [-> | ->]; [done|]. unfold retain_possible_preambles in *.
    match goal with H : context [FrameDecoder_discard ?x ?n] |- _ =>
      destruct (discard_accounted x n ltac:(cbn; lia) Hs1) as [? ?] end. done. }
  destruct Hfinal as (Ha & Hle & Hov).
  destruct (drain_events_accounted _ _ _ _ Hok Hu Hd) as (H1 & H2 & H3); [lia|].
  unfold accounted, FrameDecoder_buffered_len in *.
  set (lost := Z.max 0 _) in *. rewrite Hst in *.
  destruct (Z.eqb_spec lost 0); cbn in *; unfold u64_add, saturating_add in *; lia.
Qed.

Lemma push_conserves_bytes_witness :
  let d := FrameDecoder_new (mkLimits 14 2 Strict) in
  let fragment := [9; 9; 9; 255; 255; 2; 128; 0; 0; 130; 255; 255; 2; 1; 0; 7] in
  let p := FrameDecoder_push d fragment in
  FrameDecoder_buffered_len d + zlen fragment =
    (stat_overflow_bytes (dec_statistics p.2) - stat_overflow_bytes (dec_statistics d))
    + (stat_discarded_bytes (dec_statistics p.2) - stat_discarded_bytes (dec_statistics d))
    + events_bytes p.1 + FrameDecoder_buffered_len p.2.
Proof.
  intros d fragment p.
  refine (push_conserves_bytes d p.2 fragment p.1 _ _ (surjective_pairing _) _ _ _).
  - apply decoder_new_inv. by vm_compute.
  - split; [solve_bytes|by vm_compute].
  - by vm_compute.
  - by vm_compute.
  - by vm_compute.
Defined.
