(* ===== verification/DecoderRepair.v ===== *)
(** The gateway repairs of the streaming decoder (src/src/wire/decoder.rs,
    [analyze], [allow_delimiter_repair], [short_address_repair]): what a frame
    accepted under a non-strict checksum policy says about the received bytes. *)

From S2P Require Import Prelude Wire Decoder DecoderFacts DecoderSpec DecoderProps.

(** A frame with another address, everything else unchanged. *)
Definition with_address (f : Frame) (a : Address) : Frame :=
  mkFrame (frame_preambles f) (frame_kind f) (frame_physical_layer f) a
    (frame_expansion f) (frame_wire_command f) (frame_payload f) (frame_repair f).

Lemma address_byte_replace x m burst node :
  is_u8 x -> 0 <= node <= 63 ->
  Z.land x 0xc0 = Z.land (address_byte m burst node) 0xc0 ->
  x = address_byte m burst (Z.land x 0x3f).
Proof.
  intros Hx Hn. assert (H : is_u8 node) by (unfold is_u8; lia). revert Hn.
  destruct m, burst; u8_decide2 x node Hx H.
Qed.

Lemma lxor_swap_byte r a t c :
  Z.lxor r (Z.lxor (Z.lxor (Z.lxor a (Z.lxor r (Z.lxor a t))) c) t) = c.
Proof.
  rewrite (Z.lxor_comm r (Z.lxor a t)), !Z.lxor_assoc, <-(Z.lxor_assoc a a).
  rewrite Z.lxor_nilpotent, Z.lxor_0_l, <-!Z.lxor_assoc.
  rewrite (Z.lxor_comm (Z.lxor r t) r), <-Z.lxor_assoc.
  rewrite Z.lxor_nilpotent, Z.lxor_0_l, (Z.lxor_comm t c), Z.lxor_assoc.
  by rewrite Z.lxor_nilpotent, Z.lxor_0_r.
Qed.

Lemma short_address_repair_checksum policy f burst received actual source :
  Address_valid (frame_address f) -> is_long (frame_address f) = false ->
  is_u8 received -> is_u8 actual -> all_u8 (body_tail f burst) ->
  short_address_repair policy (nth 0 (body_tail f burst) 0)
    (xor_checksum (received :: body_tail f burst)) actual =
    Some (ShortAddressRewrite source) ->
  exists b node m, policy = KnownGateway b (Some source) /\ 0 <= source <= 63 /\
    frame_address f = Polling node m /\
    actual = xor_checksum
      (received :: body_tail (with_address f (Polling source m)) burst).
Proof.
  intros Hv Hl Hr Ha Hu. destruct (frame_address f) as [node m|] eqn:Hfa; [|done].
  unfold body_tail in *. rewrite Hfa in *. cbn [with_address frame_address frame_expansion
    frame_wire_command frame_payload Address_write_to app nth] in *.
  fold (address_byte m burst node) in *.
  set (rest := frame_expansion f ++ _) in *.
  apply Forall_cons_iff in Hu as [Hab Hrest].
  rewrite !xor_checksum_cons. unfold short_address_repair.
  destruct policy as [|b [s|]]; try done. destruct (Z.ltb_spec 63 s); [done|].
  set (x := Z.lxor _ actual).
  destruct (Z.eqb_spec (Z.land x 0xc0) (Z.land (address_byte m burst node) 0xc0)) as [Hhi|]; [|done].
  destruct (Z.eqb_spec (Z.land x 0x3f) s) as [Hlo|]; [|done]. intros [= <-].
  assert (Hx : is_u8 x).
  { unfold x. repeat first [apply lxor_u8 | done | apply xor_checksum_u8]. }
  exists b, node, m. split_and!; try done.
  { rewrite <-Hlo. apply address_byte_of_byte in Hx. lia. }
  pose proof (address_byte_replace x m burst node Hx Hv Hhi) as Heq.
  rewrite Hlo in Heq. cbn [app Address_write_to]. fold (address_byte m burst s).
  rewrite !xor_checksum_cons, <-Heq. unfold x. by rewrite lxor_swap_byte.
Qed.

(** Under every checksum policy, a frame the decoder delivers is made of
    bytes that were received: its preambles, one delimiter byte, the encoding of
    its address, expansion, command, count and payload, and one checksum byte.
    Any difference from a canonical encoding is declared: with no repair the
    delimiter and the checksum are the canonical ones; with [DelimiterBit] the
    policy allows it and delimiter and checksum differ from the canonical ones in
    bit 0x10 at most; with [ShortAddressRewrite] the policy names that source
    node, the frame has a short address, and the checksum received is the one of
    the same frame sent with the source node as its address. *)
Theorem gateway_repairs_are_declared (d d' : FrameDecoder) (f : Frame) :
  decoder_ok d -> all_u8 (dec_bytes d) ->
  next_event d = (Some (EventFrame f), d') ->
  let policy := checksum_policy (dec_limits d) in
  exists skipped burst received actual,
    dec_bytes d = skipped ++ replicate (Z.to_nat (frame_preambles f)) 0xff
                  ++ (received :: body_tail f burst) ++ [actual] ++ dec_bytes d' /\
    (received = Frame_delimiter_byte f \/
     allow_delimiter_repair policy = true /\
     Z.lxor received 0x10 = Frame_delimiter_byte f) /\
    let checksum := xor_checksum (received :: body_tail f burst) in
    match frame_repair f with
    | None => received = Frame_delimiter_byte f /\ actual = checksum
    | Some DelimiterBit =>
        allow_delimiter_repair policy = true /\
        (actual = checksum \/ actual = Z.lxor checksum 0x10)
    | Some (ShortAddressRewrite source) =>
        exists b node m, policy = KnownGateway b (Some source) /\ 0 <= source <= 63 /\
          frame_address f = Polling node m /\
          actual = xor_checksum
            (received :: body_tail (with_address f (Polling source m)) burst)
    end.
Proof.
  intros Hok Hu Hne.
  destruct (next_event_inv _ _ _ Hok Hne) as (k & n & Hle & Hb & _ & _ & Hstep).
  destruct (analyze (drop k (dec_bytes d)) (dec_limits d)) as [| |c|er c fl|f' c r] eqn:Ha;
    try done; [by destruct Hstep|]. destruct Hstep as [[= <-] ->].
  pose proof (Forall_drop _ k _ Hu) as Hu'.
  destruct (analyze_inv _ _ _ _ _ Hu' Ha)
    as (di & burst & rc & ac & Hacc & Hpre & Hdi & Hmin & Htake).
  exists (take k (dec_bytes d)), burst, rc, ac.
  assert (Hraw : all_u8 (rc :: body_tail f burst ++ [ac])).
  { pose proof (Forall_take _ c _ Hu') as Ht. rewrite Htake in Ht.
    by apply Forall_app in Ht as [_ ?]. }
  apply Forall_cons_iff in Hraw as [Hrc Hraw]. apply Forall_app in Hraw as [Hbt Hac].
  split_and!.
  - rewrite Hb, <-drop_drop. rewrite <-(take_drop k (dec_bytes d)) at 1. f_equal.
    rewrite <-(take_drop c (drop k _)) at 1. rewrite Htake, Hpre, Nat2Z.id.
    rewrite <-!app_assoc. cbn [app]. by rewrite <-app_assoc.
  - destruct Hacc. destruct acc_delimiter; [by left|by right].
  - pose proof (acc_outcome _ _ _ _ _ _ _ _ _ Hacc) as Hout. unfold repair_outcome in Hout.
    destruct (frame_repair f) as [[|s]|].
    + destruct Hout as [? [?|?]]; split; auto.
    + destruct Hout as [? ?]. destruct Hacc. eapply short_address_repair_checksum; try done.
      by apply Forall_cons_iff in Hac as [? _].
    + destruct Hout as [? ?]. auto.
Qed.

(** A polling response for node 5 whose gateway rewrote the address of node 9
    without recomputing the checksum. *)
Lemma gateway_repairs_are_declared_witness :
  let limits := mkLimits 4096 5 (KnownGateway true (Some 9)) in
  let raw := [255; 255; 255; 255; 255; 2; 0x85; 0; 0; 0x8b; 7] in
  let d := mkDecoder raw limits DecodeStatistics_default in
  let f := mkFrame 5 KindRequest Fsk (Polling 5 Primary) [] 0 []
             (Some (ShortAddressRewrite 9)) in
  next_event d = (Some (EventFrame f), (next_event d).2) /\
  exists skipped burst received actual,
    raw = skipped ++ replicate (Z.to_nat (frame_preambles f)) 0xff
          ++ (received :: body_tail f burst) ++ [actual] ++ dec_bytes (next_event d).2.
Proof.
  intros limits raw d f.
  assert (He : next_event d = (Some (EventFrame f), (next_event d).2)) by by vm_compute.
  split; [exact He|].
  destruct (gateway_repairs_are_declared d (next_event d).2 f) as (s & b & r & a & H & _).
  - constructor; cbn; unfold limits_ok, is_u64; cbn; lia.
  - cbn. solve_bytes.
  - exact He.
  - exists s, b, r, a. exact H.
Defined.

(** The [DelimiterBit] policy also accepts a damaged payload: with a canonical
    delimiter, a request whose payload byte lost bit 0x10 after its checksum was
    computed is delivered as a frame, reported as a delimiter repair, because the
    checksum test does not look at where the bit changed. The strict policy
    rejects the same bytes. *)
Theorem delimiter_policy_accepts_payload_damage :
  let sent := mkFrame 5 KindRequest Fsk (Polling 5 Primary) [] 6 [0x10] None in
  let damaged := [255; 255; 255; 255; 255; 2; 0x85; 6; 1; 0x00; 0x90] in
  Frame_encode sent = Ok [255; 255; 255; 255; 255; 2; 0x85; 6; 1; 0x10; 0x90] /\
  (decode_stream (mkLimits 4096 5 (KnownGateway true None)) damaged).1 =
    [EventFrame (mkFrame 5 KindRequest Fsk (Polling 5 Primary) [] 6 [0x00]
                   (Some DelimiterBit))] /\
  (decode_stream (mkLimits 4096 5 Strict) damaged).1 =
    [EventRejected (WireChecksum 0x80 0x90)].
Proof. split_and!; by vm_compute. Qed.
