(* ===== verification/Catalog.v ===== *)
(** * The command registry (src/src/catalog.rs) and command numbers

    [CommandCode] is declared in src/src/operation/mod.rs; the registry, the retry
    safety of each known command and the request-length constraints are the ones
    of src/src/catalog.rs. *)
From S2P Require Import Prelude.

(** ** Command numbers: a 16-bit value *)

Record CommandCode := CommandCode_new { CommandCode_get : Z }.

#[global] Instance CommandCode_eq_dec : EqDecision CommandCode.
Proof. solve_decision. Defined.

Definition CommandCode_is_expanded (c : CommandCode) : bool := u8_max <? CommandCode_get c.

Definition CommandCode_from_u8 (value : Z) : CommandCode := CommandCode_new value.

Definition CommandCode_from_u16 (value : Z) : CommandCode := CommandCode_new value.

(** ** Classes, retry safety, length constraints *)

Inductive CommandClass := Universal | CommonPractice.

Inductive OperationSafety := ReadOnly | IdempotentWrite | Action.

#[global] Instance OperationSafety_eq_dec : EqDecision OperationSafety.
Proof. solve_decision. Defined.

Inductive PayloadConstraint :=
  | ConstraintEmpty
  | Exact (n : Z)
  | Range (minimum maximum : Z)
  | Either (a b : Z)
  | Unspecified.

#[global] Instance PayloadConstraint_eq_dec : EqDecision PayloadConstraint.
Proof. solve_decision. Defined.

Definition PayloadConstraint_allows (c : PayloadConstraint) (length : Z) : bool :=
  match c with
  | ConstraintEmpty => length =? 0
  | Exact expected => length =? expected
  | Range minimum maximum => (minimum <=? length) && (length <=? maximum)
  | Either a b => (length =? a) || (length =? b)
  | Unspecified => length <=? u8_max
  end.

(** ** The registry *)

Record CommandDescriptor := mkCommandDescriptor {
  desc_code : CommandCode;
  desc_class : CommandClass;
  desc_safety : OperationSafety;
  desc_purpose : string;
}.

Definition descriptor (code : Z) (class : CommandClass) (safety : OperationSafety)
    (purpose : string) : CommandDescriptor :=
  mkCommandDescriptor (CommandCode_new code) class safety purpose.

(** The entries up to 22, then those from 33 on. *)
Definition low_commands : list CommandDescriptor :=
  [descriptor 0 Universal ReadOnly "device identification";
   descriptor 1 Universal ReadOnly "primary variable";
   descriptor 2 Universal ReadOnly "current and percent of range";
   descriptor 3 Universal ReadOnly "dynamic variables and current";
   descriptor 6 Universal IdempotentWrite "polling address";
   descriptor 7 Universal ReadOnly "loop-current mode";
   descriptor 8 Universal ReadOnly "variable classification";
   descriptor 9 Universal ReadOnly "variables and status";
   descriptor 11 Universal ReadOnly "identification by tag";
   descriptor 12 Universal ReadOnly "device message";
   descriptor 13 Universal ReadOnly "tag, descriptor, and date";
   descriptor 14 Universal ReadOnly "sensor information";
   descriptor 15 Universal ReadOnly "primary-output information";
   descriptor 16 Universal ReadOnly "assembly number";
   descriptor 17 Universal IdempotentWrite "write message";
   descriptor 18 Universal IdempotentWrite "write tag and descriptor";
   descriptor 19 Universal IdempotentWrite "write assembly number";
   descriptor 20 Universal ReadOnly "long tag";
   descriptor 21 Universal ReadOnly "identification by long tag";
   descriptor 22 Universal IdempotentWrite "write long tag"].

Definition high_commands : list CommandDescriptor :=
  [descriptor 33 CommonPractice ReadOnly "device variables";
   descriptor 34 CommonPractice IdempotentWrite "damping";
   descriptor 35 CommonPractice IdempotentWrite "range limits";
   descriptor 36 CommonPractice Action "set upper range value from the applied input";
   descriptor 37 CommonPractice Action "set lower range value from the applied input";
   descriptor 38 CommonPractice Action "reset configuration-changed flag";
   descriptor 39 CommonPractice Action "nonvolatile-memory control";
   descriptor 40 CommonPractice IdempotentWrite "fixed current";
   descriptor 41 CommonPractice Action "self-test";
   descriptor 42 CommonPractice Action "device reset";
   descriptor 43 CommonPractice Action "zero primary variable";
   descriptor 44 CommonPractice IdempotentWrite "primary-variable unit";
   descriptor 45 CommonPractice Action "current-output zero trim";
   descriptor 46 CommonPractice Action "current-output gain trim";
   descriptor 47 CommonPractice IdempotentWrite "transfer function";
   descriptor 48 Universal ReadOnly "additional status";
   descriptor 73 CommonPractice ReadOnly "connected-device discovery";
   descriptor 75 CommonPractice ReadOnly "subdevice information"].

Definition COMMANDS : list CommandDescriptor := low_commands ++ high_commands.

Definition command_descriptor (code : CommandCode) : option CommandDescriptor :=
  List.find (fun entry => bool_decide (desc_code entry = code)) COMMANDS.

Definition known_commands : list CommandDescriptor := COMMANDS.

Definition request_constraint (code : CommandCode) : PayloadConstraint :=
  let c := CommandCode_get code in
  if in_range 0 3 c || (c =? 7) || (c =? 8) || in_range 12 16 c || (c =? 20) || (c =? 36)
     || (c =? 37) || in_range 41 43 c || (c =? 48) then ConstraintEmpty
  else if c =? 6 then Either 1 2
  else if c =? 9 then Range 1 8
  else if c =? 11 then Exact 6
  else if c =? 17 then Exact 24
  else if c =? 18 then Exact 21
  else if c =? 19 then Exact 3
  else if (c =? 21) || (c =? 22) then Exact 32
  else if c =? 33 then Range 1 4
  else if (c =? 34) || (c =? 40) || (c =? 45) || (c =? 46) then Exact 4
  else if c =? 35 then Exact 9
  else if c =? 38 then Either 0 2
  else if (c =? 39) || (c =? 44) || (c =? 47) then Exact 1
  else Unspecified.

(** ** Lemmas *)

(** The safety looked up for a command: that of the registry, [Action] when the
    command is not registered. *)
Definition registered_safety (code : CommandCode) : OperationSafety :=
  match command_descriptor code with Some entry => desc_safety entry | None => Action end.

(** Every constraint admits only lengths of a [u8]. *)
Lemma constraint_allows_u8 code n :
  PayloadConstraint_allows (request_constraint code) n = true -> n <= 255.
Proof.
  unfold request_constraint.
  repeat (destruct (_ || _) || destruct (_ =? _)); cbn; unfold u8_max; lia.
Qed.

Lemma command_descriptor_Some code entry :
  command_descriptor code = Some entry -> entry ∈ COMMANDS /\ desc_code entry = code.
Proof.
  intros H. unfold command_descriptor in H. apply find_some in H as [Hin Hc].
  split; [by apply list_elem_of_In|]. by apply bool_decide_eq_true in Hc.
Qed.

Lemma command_descriptor_entry entry :
  entry ∈ COMMANDS -> command_descriptor (desc_code entry) = Some entry.
Proof.
  assert (H : Forall (fun e => command_descriptor (desc_code e) = Some e) COMMANDS).
  { repeat (apply List.Forall_cons; [reflexivity|]). apply List.Forall_nil. }
  rewrite List.Forall_forall in H. intros Hin. by apply H, list_elem_of_In.
Qed.
