(* ===== verification/Codec.v ===== *)
(** * Application errors and the payload codec

    [OperationError] of src/src/operation/mod.rs and the big-endian
    [PayloadWriter]/[PayloadReader] of src/src/operation/codec.rs. A writer is the
    vector it holds; a reader operation takes the reader and returns the value and
    the advanced reader, or an error. Values of type [f32] are their 32-bit
    patterns, which is what [to_be_bytes]/[from_be_bytes] transport. *)
From S2P Require Import Prelude Wire.

Inductive OperationError :=
  | CommandMismatch (expected actual : Z)
  | DeviceStatus (code status : Z)
  | CommunicationStatus (summary status : Z)
  | Truncated (field : string) (offset : Z)
  | TrailingBytes (n : Z)
  | InvalidValue (what : string)
  | RequestLength (command actual : Z)
  | OpWire (e : WireError).

#[global] Instance OperationError_eq_dec : EqDecision OperationError.
Proof. solve_decision. Defined.

(** ** Writer *)

Record PayloadWriter := mkWriter { wr_bytes : bytes }.

Definition PayloadWriter_new : PayloadWriter := mkWriter [].

Definition PayloadWriter_u8 (value : Z) (w : PayloadWriter) : PayloadWriter :=
  mkWriter (wr_bytes w ++ [value]).

Definition PayloadWriter_u16 (value : Z) (w : PayloadWriter) : PayloadWriter :=
  mkWriter (wr_bytes w ++ to_be_bytes 2 value).

Definition PayloadWriter_u24 (value : Z) (w : PayloadWriter)
    : result OperationError PayloadWriter :=
  return_if 0x00ffffff <? value err InvalidValue "24-bit integer" ;;
  Ok (mkWriter (wr_bytes w ++ drop 1 (to_be_bytes 4 value))).

Definition PayloadWriter_u32 (value : Z) (w : PayloadWriter) : PayloadWriter :=
  mkWriter (wr_bytes w ++ to_be_bytes 4 value).

Definition PayloadWriter_f32 (value : Z) (w : PayloadWriter) : PayloadWriter :=
  mkWriter (wr_bytes w ++ to_be_bytes 4 value).

Definition PayloadWriter_bytes (value : bytes) (w : PayloadWriter) : PayloadWriter :=
  mkWriter (wr_bytes w ++ value).

Definition PayloadWriter_finish (w : PayloadWriter) : bytes := wr_bytes w.

(** ** Reader *)

Record PayloadReader := mkReader { rd_bytes : bytes; rd_offset : nat }.

Abbreviation reader A := (PayloadReader -> result OperationError (A * PayloadReader)).

Definition PayloadReader_new (l : bytes) : PayloadReader := mkReader l 0.

Definition PayloadReader_position (r : PayloadReader) : nat := rd_offset r.

Definition PayloadReader_remaining (r : PayloadReader) : nat :=
  (length (rd_bytes r) - rd_offset r)%nat.

Definition PayloadReader_u8 (field : string) : reader Z := fun r =>
  let? value := ok_or (rd_bytes r !! rd_offset r)
                      (Truncated field (Z.of_nat (rd_offset r))) ;;
  Ok (value, mkReader (rd_bytes r) (rd_offset r + 1)).

(** [length] is a [usize]; the end of the slice saturates. *)
Definition PayloadReader_bytes (len : Z) (field : string) : reader bytes := fun r =>
  let end_ := saturating_add usize_max (Z.of_nat (rd_offset r)) len in
  if (Z.of_nat (rd_offset r) <=? end_) && (end_ <=? zlen (rd_bytes r)) then
    Ok (take (Z.to_nat end_ - rd_offset r) (drop (rd_offset r) (rd_bytes r)),
        mkReader (rd_bytes r) (Z.to_nat end_))
  else Err (Truncated field (Z.of_nat (rd_offset r))).

Definition PayloadReader_take_array (n : Z) (field : string) : reader bytes :=
  PayloadReader_bytes n field.

Definition PayloadReader_u16 (field : string) : reader Z := fun r =>
  let? (b, r) := PayloadReader_take_array 2 field r ;;
  Ok (from_be_bytes b, r).

Definition PayloadReader_u24 (field : string) : reader Z := fun r =>
  let? (b, r) := PayloadReader_take_array 3 field r ;;
  Ok (Z.lor (Z.lor (Z.shiftl (nth 0 b 0) 16) (Z.shiftl (nth 1 b 0) 8)) (nth 2 b 0), r).

Definition PayloadReader_u32 (field : string) : reader Z := fun r =>
  let? (b, r) := PayloadReader_take_array 4 field r ;;
  Ok (from_be_bytes b, r).

Definition PayloadReader_f32 (field : string) : reader Z := fun r =>
  let? (b, r) := PayloadReader_take_array 4 field r ;;
  Ok (from_be_bytes b, r).

Definition PayloadReader_rest (r : PayloadReader) : bytes * PayloadReader :=
  (drop (rd_offset r) (rd_bytes r), mkReader (rd_bytes r) (length (rd_bytes r))).

Definition PayloadReader_finish (r : PayloadReader) : result OperationError unit :=
  if (PayloadReader_remaining r =? 0)%nat then Ok tt
  else Err (TrailingBytes (Z.of_nat (PayloadReader_remaining r))).

(** [while reader.remaining() >= size && values.len() < maximum { values.push(item?) }];
    [maximum = None] stands for the loop without the second test. Each round reads
    at least one byte, so the bytes left bound the number of rounds. *)
Fixpoint read_while {A} (fuel : nat) (size : nat) (maximum : option nat)
    (item : reader A) (values : list A) (r : PayloadReader)
    : result OperationError (list A * PayloadReader) :=
  match fuel with
  | O => Ok (values, r)
  | S fuel =>
      if (size <=? PayloadReader_remaining r)%nat
         && match maximum with Some m => (length values <? m)%nat | None => true end
      then
        let? (v, r) := item r ;;
        read_while fuel size maximum item (values ++ [v]) r
      else Ok (values, r)
  end.

(** [condition.then(|| read).transpose()?]. *)
Definition read_if {A} (condition : bool) (item : reader A) : reader (option A) := fun r =>
  if condition then let? (v, r) := item r ;; Ok (Some v, r) else Ok (None, r).

(** [PayloadReader::new(data)], a fixed sequence of reads, [finish]. *)
Definition read_all {A} (data : bytes) (body : reader A) : result OperationError A :=
  let? (v, reader) := body (PayloadReader_new data) ;;
  let? _ := PayloadReader_finish reader ;;
  Ok v.

(** ** Reading from a known position

    [at_ done rest]: a reader that has consumed [done] and has [rest] left. The
    lemmas below give each read in terms of the bytes left, so that a decoder is
    run by rewriting. A slice has at most [isize::MAX] bytes. *)

Definition at_ (past rest : bytes) : PayloadReader := mkReader (past ++ rest) (length past).

Definition usize_len (l : bytes) : Prop := zlen l <= isize_max.

Create HintDb codec.

Lemma reader_new_at l : PayloadReader_new l = at_ [] l.
Proof. done. Qed.

Lemma remaining_at past rest : PayloadReader_remaining (at_ past rest) = length rest.
Proof. unfold PayloadReader_remaining, at_. cbn. rewrite length_app. lia. Qed.

Lemma finish_at past rest :
  PayloadReader_finish (at_ past rest) =
    match rest with [] => Ok tt | _ => Err (TrailingBytes (zlen rest)) end.
Proof. unfold PayloadReader_finish. rewrite remaining_at. by destruct rest. Qed.

Lemma rest_at past rest : (PayloadReader_rest (at_ past rest)).1 = rest.
Proof. unfold PayloadReader_rest, at_. cbn. by rewrite drop_app_length. Qed.

Lemma read_u8_at field past b rest :
  PayloadReader_u8 field (at_ past (b :: rest)) = Ok (b, at_ (past ++ [b]) rest).
Proof.
  unfold PayloadReader_u8, at_. cbn [rd_bytes rd_offset].
  rewrite lookup_app_r, Nat.sub_diag by lia. cbn. by rewrite <-app_assoc, length_app.
Qed.

Lemma read_u8_end field past :
  PayloadReader_u8 field (at_ past []) = Err (Truncated field (zlen past)).
Proof.
  unfold PayloadReader_u8, at_. cbn [rd_bytes rd_offset].
  by rewrite app_nil_r, lookup_ge_None_2.
Qed.

Lemma read_bytes_at field past l rest :
  usize_len (past ++ l ++ rest) ->
  PayloadReader_bytes (zlen l) field (at_ past (l ++ rest)) = Ok (l, at_ (past ++ l) rest).
Proof.
  unfold usize_len, PayloadReader_bytes, at_, zlen, saturating_add. cbn [rd_bytes rd_offset].
  rewrite !length_app. intros H. unfold isize_max in H.
  rewrite Z.min_r by (unfold usize_max, u64_max; lia).
  rewrite !(proj2 (Z.leb_le _ _)) by lia. cbn [andb].
  rewrite drop_app_length, take_app_length' by lia. rewrite <-app_assoc.
  do 3 f_equal. lia.
Qed.

Lemma read_bytes_short field past rest n :
  usize_len (past ++ rest) -> zlen rest < n ->
  PayloadReader_bytes n field (at_ past rest) = Err (Truncated field (zlen past)).
Proof.
  unfold usize_len, PayloadReader_bytes, at_, zlen, saturating_add. cbn [rd_bytes rd_offset].
  rewrite !length_app. intros H Hn.
  destruct (Z.leb_spec (Z.of_nat (length past)) (Z.min usize_max (Z.of_nat (length past) + n)));
    [|done].
  destruct (Z.leb_spec (Z.min usize_max (Z.of_nat (length past) + n))
    (Z.of_nat (length past + length rest))); [|done].
  unfold usize_max, u64_max, isize_max in *. lia.
Qed.

Lemma read_array_at n field past l rest :
  usize_len (past ++ l ++ rest) -> zlen l = n ->
  PayloadReader_take_array n field (at_ past (l ++ rest)) = Ok (l, at_ (past ++ l) rest).
Proof. intros ? <-. by apply read_bytes_at. Qed.

Lemma read_u16_at field past l rest :
  usize_len (past ++ l ++ rest) -> length l = 2%nat ->
  PayloadReader_u16 field (at_ past (l ++ rest)) = Ok (from_be_bytes l, at_ (past ++ l) rest).
Proof.
  intros H Hl. unfold PayloadReader_u16. rewrite read_array_at by (unfold zlen; done || lia).
  done.
Qed.

Lemma read_u24_at field past l rest :
  usize_len (past ++ l ++ rest) -> all_u8 l -> length l = 3%nat ->
  PayloadReader_u24 field (at_ past (l ++ rest)) = Ok (from_be_bytes l, at_ (past ++ l) rest).
Proof.
  intros H Hu Hl. unfold PayloadReader_u24. rewrite read_array_at by (unfold zlen; done || lia).
  destruct l as [|b0 [|b1 [|b2 [|]]]]; try done. cbn [result_bind nth].
  rewrite !Forall_cons_iff in Hu. destruct Hu as (_ & ? & ? & _). by rewrite be3_lor.
Qed.

Lemma read_f32_at field past l rest :
  usize_len (past ++ l ++ rest) -> length l = 4%nat ->
  PayloadReader_f32 field (at_ past (l ++ rest)) = Ok (from_be_bytes l, at_ (past ++ l) rest).
Proof.
  intros H Hl. unfold PayloadReader_f32. rewrite read_array_at by (unfold zlen; done || lia).
  done.
Qed.

Lemma read_short_at n field past rest :
  usize_len (past ++ rest) -> zlen rest < n ->
  PayloadReader_take_array n field (at_ past rest) = Err (Truncated field (zlen past)).
Proof. apply read_bytes_short. Qed.

(** ** Inversion of successful reads *)

Lemma read_u8_inv field past rest v r :
  PayloadReader_u8 field (at_ past rest) = Ok (v, r) ->
  exists rest', rest = v :: rest' /\ r = at_ (past ++ [v]) rest'.
Proof.
  destruct rest as [|b rest]; [by rewrite read_u8_end|].
  rewrite read_u8_at. intros [= <- <-]. eauto.
Qed.

Lemma read_array_inv n field past rest v r :
  usize_len (past ++ rest) -> 0 <= n ->
  PayloadReader_take_array n field (at_ past rest) = Ok (v, r) ->
  exists rest', rest = v ++ rest' /\ zlen v = n /\ r = at_ (past ++ v) rest'.
Proof.
  intros Hl Hn. destruct (Z.ltb_spec (zlen rest) n) as [|Hge].
  { by rewrite read_short_at. }
  unfold zlen in *. rewrite <-(take_drop (Z.to_nat n) rest) in Hl |- *.
  rewrite read_array_at; [|done|unfold zlen; rewrite length_take; lia].
  intros [= <- <-]. eexists. split_and!; try done. unfold zlen. rewrite length_take. lia.
Qed.

Lemma read_u16_inv field past rest v r :
  usize_len (past ++ rest) -> PayloadReader_u16 field (at_ past rest) = Ok (v, r) ->
  exists l rest', rest = l ++ rest' /\ length l = 2%nat /\ v = from_be_bytes l /\
    r = at_ (past ++ l) rest'.
Proof.
  intros Hl H. apply result_bind_Ok in H as ([l r'] & Hr & [= <- <-]).
  apply read_array_inv in Hr as (rest' & ? & Hz & ?); [|done|lia]. unfold zlen in Hz.
  exists l, rest'. split_and!; try done. lia.
Qed.

Lemma read_f32_inv field past rest v r :
  usize_len (past ++ rest) -> PayloadReader_f32 field (at_ past rest) = Ok (v, r) ->
  exists l rest', rest = l ++ rest' /\ length l = 4%nat /\ v = from_be_bytes l /\
    r = at_ (past ++ l) rest'.
Proof.
  intros Hl H. apply result_bind_Ok in H as ([l r'] & Hr & [= <- <-]).
  apply read_array_inv in Hr as (rest' & ? & Hz & ?); [|done|lia]. unfold zlen in Hz.
  exists l, rest'. split_and!; try done. lia.
Qed.

Lemma read_u24_inv field past rest v r :
  usize_len (past ++ rest) -> all_u8 rest ->
  PayloadReader_u24 field (at_ past rest) = Ok (v, r) ->
  exists l rest', rest = l ++ rest' /\ length l = 3%nat /\ v = from_be_bytes l /\
    r = at_ (past ++ l) rest'.
Proof.
  intros Hl Hu H. pose proof H as H0. apply result_bind_Ok in H0 as ([l r'] & Hr & [= <- <-]).
  apply read_array_inv in Hr as (rest' & -> & Hz & ?); [|done|lia]. unfold zlen in Hz.
  apply Forall_app in Hu as [Hu _].
  rewrite read_u24_at in H by (done || lia). injection H as Hv Hr.
  exists l, rest'. split_and!; try done. lia.
Qed.

Lemma read_if_true_inv {A} (item : reader A) r v r' :
  read_if true item r = Ok (v, r') -> exists x, item r = Ok (x, r') /\ v = Some x.
Proof. intros H. apply result_bind_Ok in H as ([x r''] & Hr & [= <- <-]). eauto. Qed.

Lemma read_if_true {A} (item : reader A) r v r' :
  item r = Ok (v, r') -> read_if true item r = Ok (Some v, r').
Proof. intros H. unfold read_if. by rewrite H. Qed.

Lemma finish_inv past rest : PayloadReader_finish (at_ past rest) = Ok tt -> rest = [].
Proof. rewrite finish_at. by destruct rest. Qed.

Lemma usize_len_app_assoc past l rest :
  usize_len (past ++ l ++ rest) -> usize_len ((past ++ l) ++ rest).
Proof. by rewrite <-app_assoc. Qed.

Lemma usize_len_app_cons past b rest :
  usize_len (past ++ b :: rest) -> usize_len ((past ++ [b]) ++ rest).
Proof. by rewrite <-app_assoc. Qed.

#[export] Hint Resolve usize_len_app_assoc usize_len_app_cons : codec.
