(* ===== verification/CodecProps.v ===== *)
(** * Properties of the payload codec

    A message is a sequence of named fields; [write_fields] and [read_fields] run
    the writer and the reader methods of src/src/operation/codec.rs over it. *)
From S2P Require Import Prelude Wire Codec.

Inductive field_value :=
  | FieldU8 (v : Z)
  | FieldU16 (v : Z)
  | FieldU24 (v : Z)
  | FieldU32 (v : Z)
  | FieldF32 (v : Z)
  | FieldBytes (l : bytes).

Abbreviation field := (string * field_value)%type.

(** What the Rust types of the arguments guarantee, and for [u24] what the writer
    checks. *)
Definition field_ok (f : field) : Prop :=
  match f.2 with
  | FieldU8 v => is_u8 v
  | FieldU16 v => is_u16 v
  | FieldU24 v => 0 <= v <= 0xffffff
  | FieldU32 v | FieldF32 v => is_u32 v
  | FieldBytes l => all_u8 l
  end.

Definition write_field (f : field) (w : PayloadWriter) : result OperationError PayloadWriter :=
  match f.2 with
  | FieldU8 v => Ok (PayloadWriter_u8 v w)
  | FieldU16 v => Ok (PayloadWriter_u16 v w)
  | FieldU24 v => PayloadWriter_u24 v w
  | FieldU32 v => Ok (PayloadWriter_u32 v w)
  | FieldF32 v => Ok (PayloadWriter_f32 v w)
  | FieldBytes l => Ok (PayloadWriter_bytes l w)
  end.

(** Reads a field of the same shape under the same name. *)
Definition read_field (f : field) : reader field := fun r =>
  match f.2 with
  | FieldU8 _ => let? (v, r) := PayloadReader_u8 f.1 r ;; Ok ((f.1, FieldU8 v), r)
  | FieldU16 _ => let? (v, r) := PayloadReader_u16 f.1 r ;; Ok ((f.1, FieldU16 v), r)
  | FieldU24 _ => let? (v, r) := PayloadReader_u24 f.1 r ;; Ok ((f.1, FieldU24 v), r)
  | FieldU32 _ => let? (v, r) := PayloadReader_u32 f.1 r ;; Ok ((f.1, FieldU32 v), r)
  | FieldF32 _ => let? (v, r) := PayloadReader_f32 f.1 r ;; Ok ((f.1, FieldF32 v), r)
  | FieldBytes l =>
      let? (v, r) := PayloadReader_bytes (zlen l) f.1 r ;; Ok ((f.1, FieldBytes v), r)
  end.

Fixpoint write_fields (fs : list field) (w : PayloadWriter)
    : result OperationError PayloadWriter :=
  match fs with
  | [] => Ok w
  | f :: fs => let? w := write_field f w ;; write_fields fs w
  end.

Fixpoint read_fields (fs : list field) (r : PayloadReader)
    : result OperationError (list field * PayloadReader) :=
  match fs with
  | [] => Ok ([], r)
  | f :: fs =>
      let? (v, r) := read_field f r ;;
      let? (vs, r) := read_fields fs r ;;
      Ok (v :: vs, r)
  end.

(** The bytes of one field. *)
Definition field_bytes (f : field) : bytes :=
  match f.2 with
  | FieldU8 v => [v]
  | FieldU16 v => to_be_bytes 2 v
  | FieldU24 v => to_be_bytes 3 v
  | FieldU32 v | FieldF32 v => to_be_bytes 4 v
  | FieldBytes l => l
  end.

Definition fields_bytes (fs : list field) : bytes := List.flat_map field_bytes fs.

Lemma u24_be_bytes v : 0 <= v <= 0xffffff -> drop 1 (to_be_bytes 4 v) = to_be_bytes 3 v.
Proof. intros Hv. done. Qed.

Lemma write_field_ok f w :
  field_ok f -> write_field f w = Ok (mkWriter (wr_bytes w ++ field_bytes f)).
Proof.
  destruct f as [name []]; cbn; try done. intros Hv. unfold PayloadWriter_u24.
  destruct (Z.ltb_spec 0xffffff v); [lia|]. done.
Qed.

Lemma write_fields_ok fs w :
  Forall field_ok fs -> write_fields fs w = Ok (mkWriter (wr_bytes w ++ fields_bytes fs)).
Proof.
  revert w. induction fs as [|f fs IH]; intros w Hok.
  - cbn. rewrite app_nil_r. by destruct w.
  - apply Forall_cons_iff in Hok as [Hf Hfs]. cbn [write_fields]. rewrite write_field_ok by done.
    cbn [result_bind]. rewrite IH by done. cbn. by rewrite app_assoc.
Qed.

Lemma read_field_ok f past rest :
  field_ok f -> usize_len (past ++ field_bytes f ++ rest) ->
  read_field f (at_ past (field_bytes f ++ rest)) = Ok (f, at_ (past ++ field_bytes f) rest).
Proof.
  destruct f as [name [v|v|v|v|v|l]]; unfold field_ok, read_field, field_bytes; cbn [fst snd];
    intros Hok Hlen.
  - cbn [app]. by rewrite read_u8_at.
  - rewrite read_u16_at by (done || apply length_to_be_bytes). cbn [result_bind].
    rewrite from_to_be_bytes, Z.mod_small by (unfold is_u16, u16_max in Hok; lia). done.
  - rewrite read_u24_at by (done || apply length_to_be_bytes || apply to_be_bytes_u8).
    cbn [result_bind]. rewrite from_to_be_bytes, Z.mod_small by lia. done.
  - unfold PayloadReader_u32. rewrite read_array_at; [|done|unfold zlen; by rewrite length_to_be_bytes].
    cbn [result_bind]. rewrite from_to_be_bytes, Z.mod_small by (unfold is_u32, u32_max in Hok; lia). done.
  - rewrite read_f32_at by (done || apply length_to_be_bytes). cbn [result_bind].
    rewrite from_to_be_bytes, Z.mod_small by (unfold is_u32, u32_max in Hok; lia). done.
  - by rewrite read_bytes_at.
Qed.

Lemma read_field_short f past rest :
  usize_len (past ++ rest) -> (length rest < length (field_bytes f))%nat ->
  read_field f (at_ past rest) = Err (Truncated f.1 (zlen past)).
Proof.
  destruct f as [name [v|v|v|v|v|l]]; unfold read_field, field_bytes; cbn [fst snd];
    rewrite ?length_to_be_bytes; intros Hlen Hlt.
  - destruct rest; [by rewrite read_u8_end|cbn in Hlt; lia].
  - unfold PayloadReader_u16. by rewrite read_short_at by (done || (unfold zlen; lia)).
  - unfold PayloadReader_u24. by rewrite read_short_at by (done || (unfold zlen; lia)).
  - unfold PayloadReader_u32. by rewrite read_short_at by (done || (unfold zlen; lia)).
  - unfold PayloadReader_f32. by rewrite read_short_at by (done || (unfold zlen; lia)).
  - by rewrite read_bytes_short by (done || (unfold zlen; lia)).
Qed.

Lemma read_fields_ok fs past rest :
  Forall field_ok fs -> usize_len (past ++ fields_bytes fs ++ rest) ->
  read_fields fs (at_ past (fields_bytes fs ++ rest)) =
    Ok (fs, at_ (past ++ fields_bytes fs) rest).
Proof.
  revert past. induction fs as [|f fs IH]; intros past Hok Hlen.
  - cbn. by rewrite app_nil_r.
  - apply Forall_cons_iff in Hok as [Hf Hfs]. cbn [read_fields].
    change (fields_bytes (f :: fs)) with (field_bytes f ++ fields_bytes fs) in *.
    rewrite <-app_assoc in *. rewrite read_field_ok by done. cbn [result_bind].
    rewrite IH; [|done|by rewrite <-app_assoc]. cbn [result_bind]. by rewrite app_assoc.
Qed.

Lemma read_fields_short fs past k :
  Forall field_ok fs -> usize_len (past ++ fields_bytes fs) ->
  (k < length (fields_bytes fs))%nat ->
  exists name offset, read_fields fs (at_ past (take k (fields_bytes fs))) =
      Err (Truncated name offset) /\
    name ∈ fs.*1 /\ zlen past <= offset <= zlen past + Z.of_nat k.
Proof.
  revert past k. induction fs as [|f fs IH]; intros past k Hok Hlen Hk; [cbn in Hk; lia|].
  apply Forall_cons_iff in Hok as [Hf Hfs]. cbn [read_fields].
  change (fields_bytes (f :: fs)) with (field_bytes f ++ fields_bytes fs) in *.
  assert (Hpre : usize_len (past ++ take k (field_bytes f ++ fields_bytes fs))).
  { unfold usize_len, zlen in *. rewrite !length_app, length_take, length_app in *. lia. }
  destruct (Nat.ltb_spec k (length (field_bytes f))) as [Hlt|Hge].
  - exists f.1, (zlen past). rewrite read_field_short; [|done|rewrite length_take; lia].
    split_and!; [done|cbn; by constructor|lia|lia].
  - rewrite take_app_ge in * by lia. rewrite read_field_ok by done. cbn [result_bind].
    destruct (IH (past ++ field_bytes f) (k - length (field_bytes f))%nat Hfs) as
      (name & offset & Hr & Hin & Hoff).
    { by rewrite <-app_assoc. }
    { rewrite length_app in Hk. lia. }
    exists name, offset. rewrite Hr. split_and!; [done|cbn; by constructor| |];
      unfold zlen in *; rewrite length_app in Hoff; lia.
Qed.

(** Any sequence of fields written with [PayloadWriter] is read back by
    [PayloadReader] field by field with nothing left over; and every proper prefix
    of the written bytes, at whatever byte it is cut, is refused as truncated, with
    the name of one of the fields and an offset inside the bytes present. *)
Theorem payload_codec_roundtrip (fs : list field) :
  Forall field_ok fs -> usize_len (fields_bytes fs) ->
  exists w, write_fields fs PayloadWriter_new = Ok w /\
    (let data := PayloadWriter_finish w in
     (exists r, read_fields fs (PayloadReader_new data) = Ok (fs, r) /\
        PayloadReader_finish r = Ok tt) /\
     (forall k, (k < length data)%nat ->
        exists name offset,
          read_fields fs (PayloadReader_new (take k data)) = Err (Truncated name offset) /\
          name ∈ fs.*1 /\ 0 <= offset <= Z.of_nat k)).
Proof.
  intros Hok Hlen. exists (mkWriter (fields_bytes fs)).
  split; [by rewrite write_fields_ok|]. cbn [PayloadWriter_finish wr_bytes]. split.
  - exists (at_ (fields_bytes fs) []). rewrite finish_at, reader_new_at. split; [|done].
    rewrite <-(app_nil_r (fields_bytes fs)) at 1. rewrite read_fields_ok; [done|done|].
    by rewrite app_nil_r.
  - intros k Hk. rewrite reader_new_at.
    destruct (read_fields_short fs [] k Hok Hlen Hk) as (name & offset & ? & ? & ?); [].
    exists name, offset. unfold zlen in *. cbn [length] in *. split_and!; (done || lia).
Qed.

Lemma payload_codec_roundtrip_witness :
  let fs := [("unit", FieldU8 32); ("value", FieldF32 0x41200000); ("id", FieldU24 0x123456);
             ("name", FieldBytes [65; 66])]%string in
  exists w, write_fields fs PayloadWriter_new = Ok w /\
    PayloadWriter_finish w = [32; 0x41; 0x20; 0; 0; 0x12; 0x34; 0x56; 65; 66].
Proof.
  intros fs. destruct (payload_codec_roundtrip fs) as (w & Hw & _).
  - repeat (apply List.Forall_cons; [cbn; solve [solve_bytes | unfold is_u32, u32_max; lia]|]).
    apply List.Forall_nil.
  - vm_compute. congruence.
  - exists w. split; [exact Hw|]. vm_compute in Hw. injection Hw as <-. reflexivity.
Defined.
