(* ===== verification/Operation.v ===== *)
(** * Requests, replies and typed operations (src/src/operation/mod.rs)

    [Request] and [DeviceReply] with their conversions to and from frames, the
    [Operation] trait as a type class with the default methods of the trait, and
    the two untyped operations. What every typed operation promises to its callers
    is the class [LawfulOperation]; the theorems about requests and replies are
    proved against it. *)
From S2P Require Import Prelude Wire Catalog Codec.

(** ** Requests *)

Record Request := mkRequest {
  req_address : Address;
  req_command : CommandCode;
  req_data : bytes;
  req_preambles : Z;
  req_frame_expansion : bytes;
  req_physical_layer : PhysicalLayer;
  req_retry_safety : option OperationSafety;
}.

#[global] Instance Request_eq_dec : EqDecision Request.
Proof. solve_decision. Defined.

Definition Request_new (address : Address) (command : CommandCode) (data : bytes) : Request :=
  mkRequest address command data 5 [] Fsk None.

Definition Request_with_preambles (r : Request) (preambles : Z) : Request :=
  mkRequest (req_address r) (req_command r) (req_data r) preambles
    (req_frame_expansion r) (req_physical_layer r) (req_retry_safety r).

Definition Request_with_physical_layer (r : Request) (layer : PhysicalLayer) : Request :=
  mkRequest (req_address r) (req_command r) (req_data r) (req_preambles r)
    (req_frame_expansion r) layer (req_retry_safety r).

Definition Request_with_frame_expansion (r : Request) (expansion : bytes)
    : result OperationError Request :=
  return_if 3 <? zlen expansion err InvalidValue "frame expansion length" ;;
  Ok (mkRequest (req_address r) (req_command r) (req_data r) (req_preambles r)
        expansion (req_physical_layer r) (req_retry_safety r)).

Definition Request_with_retry_safety (r : Request) (safety : OperationSafety) : Request :=
  mkRequest (req_address r) (req_command r) (req_data r) (req_preambles r)
    (req_frame_expansion r) (req_physical_layer r) (Some safety).

Definition Request_validate (r : Request) : result OperationError unit :=
  let service_bytes := (if CommandCode_is_expanded (req_command r) then 1 else 0) * 2 in
  let payload_len := saturating_add usize_max (zlen (req_data r)) service_bytes in
  return_if u8_max <? payload_len err OpWire (WirePayloadLength payload_len) ;;
  return_if 3 <? zlen (req_frame_expansion r)
    err OpWire (WireExpansionLength (zlen (req_frame_expansion r))) ;;
  Ok tt.

Definition Request_try_new (address : Address) (command : CommandCode) (data : bytes)
    : result OperationError Request :=
  let request := Request_new address command data in
  let? _ := Request_validate request ;;
  Ok request.

Definition Request_to_frame (r : Request) : result OperationError Frame :=
  let? _ := Request_validate r ;;
  let? (wire_command, payload) :=
    (if CommandCode_is_expanded (req_command r) then
       Ok (31, to_be_bytes 2 (CommandCode_get (req_command r)) ++ req_data r)
     else
       return_if u8_max <? CommandCode_get (req_command r)
         err InvalidValue "standard command number" ;;
       Ok (CommandCode_get (req_command r), req_data r)) ;;
  let frame := mkFrame (req_preambles r) KindRequest (req_physical_layer r) (req_address r)
                 (req_frame_expansion r) wire_command payload None in
  let? _ := result_map_err OpWire (Frame_delimiter frame) ;;
  Ok frame.

(** ** Replies *)

Record DeviceReply := mkReply {
  rep_address : Address;
  rep_command : CommandCode;
  rep_response_code : Z;
  rep_device_status : Z;
  rep_data : bytes;
  rep_burst : bool;
  rep_physical_layer : PhysicalLayer;
  rep_response_preambles : Z;
  rep_frame_expansion : bytes;
}.

#[global] Instance DeviceReply_eq_dec : EqDecision DeviceReply.
Proof. solve_decision. Defined.

Definition DeviceReply_from_frame (f : Frame) : result OperationError DeviceReply :=
  let payload := frame_payload f in
  return_if match frame_kind f with KindResponse | KindBurst => false | _ => true end
    err InvalidValue "response frame type" ;;
  return_if zlen payload <? 2 err Truncated "response code and status" (zlen payload) ;;
  let response_code := nth 0 payload 0 in
  let device_status := nth 1 payload 0 in
  let? (command, data_start) :=
    (if frame_wire_command f =? 31 then
       return_if zlen payload <? 4 err Truncated "expanded command number" (zlen payload) ;;
       Ok (CommandCode_new (from_be_bytes [nth 2 payload 0; nth 3 payload 0]), 4%nat)
     else Ok (CommandCode_from_u8 (frame_wire_command f), 2%nat)) ;;
  Ok (mkReply (frame_address f) command response_code device_status
        (drop data_start payload) (bool_decide (frame_kind f = KindBurst))
        (frame_physical_layer f) (frame_preambles f) (frame_expansion f)).

Definition DeviceReply_require_command (r : DeviceReply) (expected : CommandCode)
    : result OperationError unit :=
  return_if negb (bool_decide (rep_command r = expected))
    err CommandMismatch (CommandCode_get expected) (CommandCode_get (rep_command r)) ;;
  Ok tt.

Definition DeviceReply_has_communication_error (r : DeviceReply) : bool :=
  negb (Z.land (rep_response_code r) 0x80 =? 0).

Definition DeviceReply_require_success (r : DeviceReply) (expected : CommandCode)
    : result OperationError unit :=
  let? _ := DeviceReply_require_command r expected ;;
  return_if negb (Z.land (rep_response_code r) 0x80 =? 0)
    err CommunicationStatus (rep_response_code r) (rep_device_status r) ;;
  return_if negb (rep_response_code r =? 0)
    err DeviceStatus (rep_response_code r) (rep_device_status r) ;;
  Ok tt.

Definition DeviceReply_is_success (r : DeviceReply) : bool := rep_response_code r =? 0.

Record CommandOutcome (T : Type) := mkOutcome {
  out_value : T;
  out_response_code : Z;
  out_device_status : Z;
}.
Arguments mkOutcome {T} _ _ _.
Arguments out_value {T} _.
Arguments out_response_code {T} _.
Arguments out_device_status {T} _.

Definition CommandOutcome_is_warning {T} (o : CommandOutcome T) : bool :=
  negb (out_response_code o =? 0).

(** ** The [Operation] trait *)

(** The trait's default [retry_safety]. *)
Definition Operation_default_retry_safety (command : CommandCode) : OperationSafety :=
  match command_descriptor command with
  | Some entry => desc_safety entry
  | None => Action
  end.

(** The trait's default [request]. *)
Definition Operation_default_request (command : CommandCode) (safety : OperationSafety)
    (encode : PayloadWriter -> result OperationError PayloadWriter) (address : Address)
    : result OperationError Request :=
  let? writer := encode PayloadWriter_new ;;
  Ok (Request_with_retry_safety
        (Request_new address command (PayloadWriter_finish writer)) safety).

Class Operation (Op Output : Type) := {
  op_command : Op -> CommandCode;
  op_retry_safety : Op -> OperationSafety;
  op_encode_request : Op -> PayloadWriter -> result OperationError PayloadWriter;
  op_decode_reply : Op -> DeviceReply -> result OperationError Output;
  op_request : Op -> Address -> result OperationError Request;
}.
#[global] Hint Mode Operation ! - : typeclass_instances.

(** An implementation of the trait that keeps its default methods. *)
Definition default_operation {Op Output} (command : Op -> CommandCode)
    (encode : Op -> PayloadWriter -> result OperationError PayloadWriter)
    (decode : Op -> DeviceReply -> result OperationError Output) : Operation Op Output := {|
  op_command := command;
  op_retry_safety op := Operation_default_retry_safety (command op);
  op_encode_request := encode;
  op_decode_reply := decode;
  op_request op := Operation_default_request (command op)
                     (Operation_default_retry_safety (command op)) (encode op);
|}.

Definition with_response_code (r : DeviceReply) (code : Z) : DeviceReply :=
  mkReply (rep_address r) (rep_command r) code (rep_device_status r) (rep_data r)
    (rep_burst r) (rep_physical_layer r) (rep_response_preambles r) (rep_frame_expansion r).

(** The trait's [decode_reply_accepting]; no implementation overrides it. *)
Definition Operation_decode_reply_accepting {Op Output} `{Operation Op Output} (op : Op)
    (reply : DeviceReply) (accepted_warnings : bytes)
    : result OperationError (CommandOutcome Output) :=
  let? _ := DeviceReply_require_command reply (op_command op) ;;
  return_if DeviceReply_has_communication_error reply
    err CommunicationStatus (rep_response_code reply) (rep_device_status reply) ;;
  return_if negb (rep_response_code reply =? 0)
            && negb (bool_decide (rep_response_code reply ∈ accepted_warnings))
    err DeviceStatus (rep_response_code reply) (rep_device_status reply) ;;
  let? value := op_decode_reply op (with_response_code reply 0) ;;
  Ok (mkOutcome value (rep_response_code reply) (rep_device_status reply)).

(** ** Untyped operations *)

Record RawOperation := mkRaw {
  raw_command : CommandCode;
  raw_data : bytes;
  raw_retry_safety : OperationSafety;
}.

Definition RawOperation_new (command : CommandCode) (data : bytes) : RawOperation :=
  mkRaw command data Action.

Definition RawOperation_with_retry_safety (o : RawOperation) (safety : OperationSafety)
    : RawOperation := mkRaw (raw_command o) (raw_data o) safety.

Definition RawOperation_read (command : CommandCode) (data : bytes) : RawOperation :=
  RawOperation_with_retry_safety (RawOperation_new command data) ReadOnly.

Definition RawOperation_idempotent_write (command : CommandCode) (data : bytes) : RawOperation :=
  RawOperation_with_retry_safety (RawOperation_new command data) IdempotentWrite.

Definition RawOperation_action (command : CommandCode) (data : bytes) : RawOperation :=
  RawOperation_new command data.

(** The body shared by [decode_reply] of the two untyped operations. *)
Definition decode_raw_reply (command : CommandCode) (reply : DeviceReply)
    : result OperationError DeviceReply :=
  return_if negb (bool_decide (rep_command reply = command))
    err CommandMismatch (CommandCode_get command) (CommandCode_get (rep_command reply)) ;;
  Ok reply.

#[global] Instance RawOperation_Operation : Operation RawOperation DeviceReply := {|
  op_command := raw_command;
  op_retry_safety := raw_retry_safety;
  op_encode_request o w := Ok (PayloadWriter_bytes (raw_data o) w);
  op_request o address :=
    let maximum := if CommandCode_is_expanded (raw_command o) then 253 else 255 in
    return_if maximum <? zlen (raw_data o)
      err RequestLength (CommandCode_get (raw_command o)) (zlen (raw_data o)) ;;
    Ok (Request_with_retry_safety
          (Request_new address (raw_command o) (raw_data o)) (raw_retry_safety o));
  op_decode_reply o := decode_raw_reply (raw_command o);
|}.

Record CheckedOperation := mkChecked {
  chk_command : CommandCode;
  chk_data : bytes;
  chk_retry_safety : OperationSafety;
}.

Definition CheckedOperation_new (command : CommandCode) (data : bytes)
    : result OperationError CheckedOperation :=
  let fits_frame :=
    if CommandCode_is_expanded command then zlen data <=? u8_max - 2
    else zlen data <=? u8_max in
  return_if negb fits_frame
            || negb (PayloadConstraint_allows (request_constraint command) (zlen data))
    err RequestLength (CommandCode_get command) (zlen data) ;;
  Ok (mkChecked command data
        (match command_descriptor command with Some d => desc_safety d | None => Action end)).

Definition CheckedOperation_with_retry_safety (o : CheckedOperation)
    (safety : OperationSafety) : CheckedOperation :=
  mkChecked (chk_command o) (chk_data o) safety.

#[global] Instance CheckedOperation_Operation : Operation CheckedOperation DeviceReply := {|
  op_command := chk_command;
  op_retry_safety := chk_retry_safety;
  op_encode_request o w := Ok (PayloadWriter_bytes (chk_data o) w);
  op_request o := Operation_default_request (chk_command o) (chk_retry_safety o)
                    (fun w => Ok (PayloadWriter_bytes (chk_data o) w));
  op_decode_reply o := decode_raw_reply (chk_command o);
|}.

(** ** What a typed operation promises

    [op_valid] is what the operation's constructors and field types guarantee;
    [op_body] is the part of [decode_reply] after [require_success]. *)
Class LawfulOperation (Op Output : Type) `{O : Operation Op Output} := {
  op_valid : Op -> Prop;
  op_body : Op -> DeviceReply -> result OperationError Output;
  law_encode : forall (op : Op) w, op_valid op ->
    exists payload, op_encode_request op w = Ok (mkWriter (wr_bytes w ++ payload)) /\
      all_u8 payload /\
      PayloadConstraint_allows (request_constraint (op_command op)) (zlen payload) = true;
  law_request : forall (op : Op) a,
    op_request op a =
      Operation_default_request (op_command op) (op_retry_safety op) (op_encode_request op) a;
  law_registered : forall (op : Op), op_valid op ->
    exists entry, command_descriptor (op_command op) = Some entry /\
      op_retry_safety op = desc_safety entry;
  law_decode : forall (op : Op) reply,
    op_decode_reply op reply =
      (let? _ := DeviceReply_require_success reply (op_command op) ;; op_body op reply);
}.

Create HintDb ops.

(** Registered commands are standard ones, and none is the expansion prefix 31. *)
Lemma registered_standard code entry :
  command_descriptor code = Some entry ->
  0 <= CommandCode_get code <= 255 /\ CommandCode_get code <> 31.
Proof.
  intros H. apply command_descriptor_Some in H as [Hin <-].
  assert (Hall : Forall (fun e => 0 <= CommandCode_get (desc_code e) <= 255 /\
    CommandCode_get (desc_code e) <> 31) COMMANDS).
  { repeat (apply List.Forall_cons; [cbn; lia|]). apply List.Forall_nil. }
  rewrite List.Forall_forall in Hall. by apply Hall, list_elem_of_In.
Qed.

Lemma require_command_spec r c :
  DeviceReply_require_command r c =
    if decide (rep_command r = c) then Ok tt
    else Err (CommandMismatch (CommandCode_get c) (CommandCode_get (rep_command r))).
Proof.
  unfold DeviceReply_require_command. case_bool_decide; by destruct (decide _).
Qed.

Lemma require_success_Ok r c :
  DeviceReply_require_success r c = Ok tt <-> rep_command r = c /\ rep_response_code r = 0.
Proof.
  unfold DeviceReply_require_success. rewrite require_command_spec.
  destruct (decide (rep_command r = c)); cbn [result_bind]; [|naive_solver].
  destruct (Z.eqb_spec (Z.land (rep_response_code r) 0x80) 0) as [|Hc]; cbn [negb];
    destruct (Z.eqb_spec (rep_response_code r) 0) as [E|]; cbn; try naive_solver.
  by rewrite E in Hc.
Qed.

Lemma with_response_code_same r : with_response_code r (rep_response_code r) = r.
Proof. by destruct r. Qed.

(** A typed operation that keeps the trait's default methods and has a fixed
    registered command satisfies the laws that concern the command alone. *)
Lemma default_registered command entry :
  command_descriptor command = Some entry ->
  exists e, command_descriptor command = Some e /\
    Operation_default_retry_safety command = desc_safety e.
Proof. intros H. exists entry. split; [done|]. unfold Operation_default_retry_safety. by rewrite H. Qed.

(** The laws of an operation with the trait's default methods and no request data. *)
Lemma empty_encode (c : CommandCode) (w : PayloadWriter) :
  request_constraint c = ConstraintEmpty ->
  exists payload, Ok w = Ok (E := OperationError) (mkWriter (wr_bytes w ++ payload)) /\
    all_u8 payload /\ PayloadConstraint_allows (request_constraint c) (zlen payload) = true.
Proof.
  intros Hc. exists []. rewrite app_nil_r, Hc. destruct w. done.
Qed.

#[export] Hint Resolve empty_encode : ops.

(** Discharges the laws that follow by computation for a fixed command. *)
Ltac solve_registered := intros; eapply default_registered; reflexivity.
