(* ===== verification/Text.v ===== *)
(** * Packed text, Latin-1 text, dates and their operations (src/src/operation/text.rs)

    Strings are those of [Chars]. *)
From S2P Require Import Prelude Chars Wire Catalog Codec Operation.

(** [Vec::resize]. *)
Definition resize (n : nat) (v : Z) (l : list Z) : list Z :=
  take n l ++ replicate (n - length l) v.

(** ** Dates *)

Record DeviceDate := mkDate { date_day : Z; date_month : Z; date_year_since_1900 : Z }.

Definition validate_date (date : DeviceDate) : result OperationError unit :=
  if (date_day date =? 0) && (date_month date =? 0) && (date_year_since_1900 date =? 0)
  then Ok tt
  else
    return_if negb (in_range 1 31 (date_day date)) || negb (in_range 1 12 (date_month date))
      err InvalidValue "device date" ;;
    Ok tt.

Definition DeviceDate_new (day month year_since_1900 : Z) : result OperationError DeviceDate :=
  let date := mkDate day month year_since_1900 in
  let? _ := validate_date date ;;
  Ok date.

Definition DeviceDate_unspecified : DeviceDate := mkDate 0 0 0.

(** ** Six-bit packed text *)

(** The loop over [text.chars()]: [codes] holds what was pushed so far. *)
Fixpoint pack_codes (capacity : Z) (chars : text) (codes : bytes)
    : result OperationError bytes :=
  match chars with
  | [] => Ok codes
  | code :: chars =>
      return_if negb (in_range 0x20 0x5f code) || (zlen codes =? capacity)
        err InvalidValue "packed-text character" ;;
      pack_codes capacity chars (codes ++ [Z.land (u8_try_from_or 0 code) 0x3f])
  end.

(** The loop over [codes.chunks_exact(4)]; the shifts are on [u8]. *)
Fixpoint pack_groups (codes : bytes) : bytes :=
  match codes with
  | g0 :: g1 :: g2 :: g3 :: codes =>
      [Z.lor (Z.land (Z.shiftl g0 2) 0xff) (Z.shiftr g1 4);
       Z.lor (Z.land (Z.shiftl g1 4) 0xff) (Z.shiftr g2 2);
       Z.lor (Z.land (Z.shiftl g2 6) 0xff) g3] ++ pack_groups codes
  | _ => []
  end.

Definition pack_text (s : text) (output_bytes : Z) : result OperationError bytes :=
  return_if (u8_max <? output_bytes) || negb (output_bytes mod 3 =? 0)
    err InvalidValue "packed-text length" ;;
  let capacity := output_bytes / 3 * 4 in
  let? codes := pack_codes capacity s [] ;;
  Ok (pack_groups (resize (Z.to_nat capacity) (Z.land 32 0x3f) codes)).

Definition unpack_ascii (code : Z) : Z :=
  if Z.land code 0x20 =? 0 then Z.lor code 0x40 else code.

(** The loop over [bytes.chunks_exact(3)]. *)
Fixpoint unpack_groups (l : bytes) : text :=
  match l with
  | g0 :: g1 :: g2 :: l =>
      map unpack_ascii
        [Z.shiftr g0 2;
         Z.lor (Z.land (Z.shiftl (Z.land g0 0x03) 4) 0xff) (Z.shiftr g1 4);
         Z.lor (Z.land (Z.shiftl (Z.land g1 0x0f) 2) 0xff) (Z.shiftr g2 6);
         Z.land g2 0x3f] ++ unpack_groups l
  | _ => []
  end.

Definition unpack_text (l : bytes) : text := trim_end (unpack_groups l).

(** ** Latin-1 text *)

Fixpoint encode_latin1_loop (length : Z) (chars : text) (output : bytes)
    : result OperationError bytes :=
  match chars with
  | [] => Ok output
  | c :: chars =>
      return_if (zlen output =? length) || (0xff <? c) err InvalidValue "Latin-1 string" ;;
      encode_latin1_loop length chars (output ++ [u8_try_from_or 0 c])
  end.

Definition encode_latin1 (value : text) (length : Z) : result OperationError bytes :=
  let? output := encode_latin1_loop length value [] ;;
  Ok (resize (Z.to_nat length) 32 output).

Definition decode_latin1 (data : bytes) (length : Z) : result OperationError text :=
  return_if negb (zlen data =? length) err InvalidValue "Latin-1 string length" ;;
  Ok (trim_end_matches (fun c => (c =? 0) || (c =? 32)) data).

(** ** Tag, descriptor and date *)

Record TagDescriptorDate := mkTagDescriptorDate {
  tdd_tag : text;
  tdd_descriptor : text;
  tdd_date : DeviceDate;
}.

Definition decode_tag_descriptor_date (data : bytes) : result OperationError TagDescriptorDate :=
  return_if negb (zlen data =? 21) err InvalidValue "tag, descriptor, and date length" ;;
  let device_date := mkDate (nth 18 data 0) (nth 19 data 0) (nth 20 data 0) in
  let? _ := validate_date device_date ;;
  Ok (mkTagDescriptorDate (unpack_text (take 6 data))
        (unpack_text (take 12 (drop 6 data))) device_date).

(** ** Operations *)

(** The reply body shared by [ReadMessage] and [WriteMessage]. *)
Definition decode_message (reply : DeviceReply) : result OperationError text :=
  return_if negb (zlen (rep_data reply) =? 24) err InvalidValue "message length" ;;
  Ok (unpack_text (rep_data reply)).

Inductive ReadMessage := mkReadMessage.

#[global] Instance ReadMessage_Operation : Operation ReadMessage text :=
  default_operation (fun _ => CommandCode_new 12) (fun _ w => Ok w)
    (fun _ reply =>
       let? _ := DeviceReply_require_success reply (CommandCode_new 12) ;;
       decode_message reply).

Record WriteMessage := mkWriteMessage { wm_packed : bytes }.

Definition WriteMessage_new (message : text) : result OperationError WriteMessage :=
  let? packed := pack_text message 24 ;;
  Ok (mkWriteMessage packed).

#[global] Instance WriteMessage_Operation : Operation WriteMessage text :=
  default_operation (fun _ => CommandCode_new 17)
    (fun o w => Ok (PayloadWriter_bytes (wm_packed o) w))
    (fun _ reply =>
       let? _ := DeviceReply_require_success reply (CommandCode_new 17) ;;
       decode_message reply).

Inductive ReadTagDescriptorDate := mkReadTagDescriptorDate.

#[global] Instance ReadTagDescriptorDate_Operation
    : Operation ReadTagDescriptorDate TagDescriptorDate :=
  default_operation (fun _ => CommandCode_new 13) (fun _ w => Ok w)
    (fun _ reply =>
       let? _ := DeviceReply_require_success reply (CommandCode_new 13) ;;
       decode_tag_descriptor_date (rep_data reply)).

Record WriteTagDescriptorDate := mkWriteTagDescriptorDate { wt_data : bytes }.

Definition WriteTagDescriptorDate_new (value : TagDescriptorDate)
    : result OperationError WriteTagDescriptorDate :=
  let? _ := validate_date (tdd_date value) ;;
  let? tag := pack_text (tdd_tag value) 6 ;;
  let? descriptor := pack_text (tdd_descriptor value) 12 ;;
  let date := tdd_date value in
  Ok (mkWriteTagDescriptorDate
        (tag ++ descriptor
         ++ [date_day date; date_month date; date_year_since_1900 date])).

#[global] Instance WriteTagDescriptorDate_Operation
    : Operation WriteTagDescriptorDate TagDescriptorDate :=
  default_operation (fun _ => CommandCode_new 18)
    (fun o w => Ok (PayloadWriter_bytes (wt_data o) w))
    (fun _ reply =>
       let? _ := DeviceReply_require_success reply (CommandCode_new 18) ;;
       decode_tag_descriptor_date (rep_data reply)).

Inductive ReadLongTag := mkReadLongTag.

#[global] Instance ReadLongTag_Operation : Operation ReadLongTag text :=
  default_operation (fun _ => CommandCode_new 20) (fun _ w => Ok w)
    (fun _ reply =>
       let? _ := DeviceReply_require_success reply (CommandCode_new 20) ;;
       decode_latin1 (rep_data reply) 32).

Record WriteLongTag := mkWriteLongTag { wl_data : bytes }.

Definition WriteLongTag_new (tag : text) : result OperationError WriteLongTag :=
  let? data := encode_latin1 tag 32 ;;
  Ok (mkWriteLongTag data).

#[global] Instance WriteLongTag_Operation : Operation WriteLongTag text :=
  default_operation (fun _ => CommandCode_new 22)
    (fun o w => Ok (PayloadWriter_bytes (wl_data o) w))
    (fun _ reply =>
       let? _ := DeviceReply_require_success reply (CommandCode_new 22) ;;
       decode_latin1 (rep_data reply) 32).
