(* ===== verification/TextProps.v ===== *)
(** * Properties of packed and Latin-1 text *)
From S2P Require Import Prelude Chars Wire Catalog Codec Operation Text.

(** ** Trimming *)

Lemma drop_while_app p l k :
  Forall (fun c => p c = true) l -> drop_while p (l ++ k) = drop_while p k.
Proof. induction 1 as [|c l Hc _ IH]; [done|]. cbn. by rewrite Hc. Qed.

Lemma trim_end_matches_app p l k :
  Forall (fun c => p c = true) k -> trim_end_matches p (l ++ k) = trim_end_matches p l.
Proof.
  intros Hk. unfold trim_end_matches. rewrite rev_app_distr, drop_while_app; [done|].
  apply List.Forall_rev, Hk.
Qed.

Lemma drop_while_split p l :
  exists k, l = k ++ drop_while p l /\ Forall (fun c => p c = true) k.
Proof.
  induction l as [|c l (k & Hk & Hp)]; [by exists []|]. cbn. destruct (p c) eqn:Hc.
  - exists (c :: k). cbn. split; [by rewrite <-Hk|by constructor].
  - by exists [].
Qed.

(** What is trimmed off is a suffix of characters that satisfy [p]. *)
Lemma trim_end_matches_split p l :
  exists k, l = trim_end_matches p l ++ k /\ Forall (fun c => p c = true) k.
Proof.
  destruct (drop_while_split p (rev l)) as (k & Hk & Hp). exists (rev k).
  split; [|by apply List.Forall_rev]. unfold trim_end_matches.
  by rewrite <-rev_app_distr, <-Hk, rev_involutive.
Qed.

Lemma Forall_eq_replicate (v : Z) l : Forall (fun c => c = v) l -> l = replicate (length l) v.
Proof. induction 1 as [|c l -> _ IH]; [done|]. cbn. by f_equal. Qed.

(** ** Six-bit codes *)

Definition is_code (c : Z) : Prop := 0 <= c < 64.
Definition is_packable (c : Z) : Prop := 0x20 <= c <= 0x5f.

Lemma code_u8 c : is_code c -> is_u8 c.
Proof. unfold is_code, is_u8. lia. Qed.

Lemma unpack_ascii_code c :
  is_code c -> is_packable (unpack_ascii c) /\ Z.land (unpack_ascii c) 0x3f = c.
Proof.
  intros H. pose proof (code_u8 c H) as Hu. unfold is_code, is_packable in *.
  revert H. u8_decide c Hu.
Qed.

Lemma unpack_ascii_packable c :
  is_packable c -> is_code (Z.land c 0x3f) /\ unpack_ascii (Z.land c 0x3f) = c.
Proof.
  unfold is_packable, is_code. intros H. assert (Hu : is_u8 c) by (unfold is_u8; lia).
  revert H. u8_decide c Hu.
Qed.

Lemma packable_whitespace c : is_packable c -> char_is_whitespace c = true -> c = 32.
Proof.
  unfold is_packable. intros H. assert (Hu : is_u8 c) by (unfold is_u8; lia).
  revert H. u8_decide c Hu.
Qed.

(** Three bytes and four codes determine each other. *)
Lemma codes_of_packed_low a b :
  is_code a -> is_code b ->
  Z.shiftr (Z.lor (Z.land (Z.shiftl a 2) 0xff) (Z.shiftr b 4)) 2 = a /\
  Z.land (Z.shiftl (Z.land (Z.lor (Z.land (Z.shiftl a 2) 0xff) (Z.shiftr b 4)) 0x03) 4) 0xff
    = Z.shiftl (Z.shiftr b 4) 4.
Proof.
  intros Ha Hb. pose proof (code_u8 a Ha) as Hau. pose proof (code_u8 b Hb) as Hbu.
  unfold is_code in *. revert Ha Hb. u8_decide2 a b Hau Hbu.
Qed.

Lemma codes_of_packed_mid a b :
  is_code a -> is_code b ->
  Z.lor (Z.shiftl (Z.shiftr a 4) 4)
        (Z.shiftr (Z.lor (Z.land (Z.shiftl a 4) 0xff) (Z.shiftr b 2)) 4) = a /\
  Z.land (Z.shiftl (Z.land (Z.lor (Z.land (Z.shiftl a 4) 0xff) (Z.shiftr b 2)) 0x0f) 2) 0xff
    = Z.shiftl (Z.shiftr b 2) 2.
Proof.
  intros Ha Hb. pose proof (code_u8 a Ha) as Hau. pose proof (code_u8 b Hb) as Hbu.
  unfold is_code in *. revert Ha Hb. u8_decide2 a b Hau Hbu.
Qed.

Lemma codes_of_packed_high a b :
  is_code a -> is_code b ->
  Z.lor (Z.shiftl (Z.shiftr a 2) 2) (Z.shiftr (Z.lor (Z.land (Z.shiftl a 6) 0xff) b) 6) = a /\
  Z.land (Z.lor (Z.land (Z.shiftl a 6) 0xff) b) 0x3f = b.
Proof.
  intros Ha Hb. pose proof (code_u8 a Ha) as Hau. pose proof (code_u8 b Hb) as Hbu.
  unfold is_code in *. revert Ha Hb. u8_decide2 a b Hau Hbu.
Qed.

(** Lists whose length is a multiple of [n], as an inductive predicate for
    induction by groups. *)
Inductive groups (n : nat) : list Z -> Prop :=
  | groups_nil : groups n []
  | groups_cons g l : length g = n -> groups n l -> groups n (g ++ l).

Lemma groups_intro n m l : (0 < n)%nat -> length l = (m * n)%nat -> groups n l.
Proof.
  intros Hn. revert l. induction m as [|m IH]; intros l Hl.
  - destruct l; [constructor|done].
  - rewrite <-(take_drop n l). constructor.
    + rewrite length_take. lia.
    + apply IH. rewrite length_drop. lia.
Qed.

Lemma unpack_pack_groups codes :
  groups 4 codes -> Forall is_code codes ->
  unpack_groups (pack_groups codes) = map unpack_ascii codes.
Proof.
  induction 1 as [|g l Hg _ IH]; intros Hc; [done|].
  destruct g as [|c0 [|c1 [|c2 [|c3 [|]]]]]; try done.
  apply Forall_app in Hc as [Hg4 Hc]. rewrite !Forall_cons_iff in Hg4.
  destruct Hg4 as (H0 & H1 & H2 & H3 & _).
  cbn [app pack_groups unpack_groups map]. rewrite IH by done.
  destruct (codes_of_packed_low c0 c1 H0 H1) as [-> ->].
  destruct (codes_of_packed_mid c1 c2 H1 H2) as [-> ->].
  destruct (codes_of_packed_high c2 c3 H2 H3) as [-> ->]. done.
Qed.

(** Facts on pairs of adjacent bytes. *)
Lemma packed_of_bytes_low a b :
  is_u8 a -> is_u8 b ->
  Z.lor (Z.land (Z.shiftl (Z.shiftr a 2) 2) 0xff)
    (Z.shiftr (Z.lor (Z.land (Z.shiftl (Z.land a 0x03) 4) 0xff) (Z.shiftr b 4)) 4) = a /\
  Z.land (Z.shiftl (Z.lor (Z.land (Z.shiftl (Z.land a 0x03) 4) 0xff) (Z.shiftr b 4)) 4) 0xff
    = Z.land b 0xf0 /\
  is_code (Z.shiftr a 2) /\
  is_code (Z.lor (Z.land (Z.shiftl (Z.land a 0x03) 4) 0xff) (Z.shiftr b 4)).
Proof. unfold is_code. intros Ha Hb. u8_decide2 a b Ha Hb. Qed.

Lemma packed_of_bytes_high a b :
  is_u8 a -> is_u8 b ->
  Z.lor (Z.land a 0xf0)
    (Z.shiftr (Z.lor (Z.land (Z.shiftl (Z.land a 0x0f) 2) 0xff) (Z.shiftr b 6)) 2) = a /\
  Z.lor (Z.land (Z.shiftl (Z.lor (Z.land (Z.shiftl (Z.land a 0x0f) 2) 0xff) (Z.shiftr b 6)) 6)
                0xff) (Z.land b 0x3f) = b /\
  is_code (Z.lor (Z.land (Z.shiftl (Z.land a 0x0f) 2) 0xff) (Z.shiftr b 6)) /\
  is_code (Z.land b 0x3f).
Proof. unfold is_code. intros Ha Hb. u8_decide2 a b Ha Hb. Qed.

Lemma pack_unpack_groups l :
  groups 3 l -> all_u8 l ->
  Forall is_packable (unpack_groups l) /\
  zlen (unpack_groups l) = zlen l / 3 * 4 /\
  pack_groups (map (fun c => Z.land c 0x3f) (unpack_groups l)) = l.
Proof.
  induction 1 as [|g l Hg _ IH]; intros Hc; [done|].
  destruct g as [|b0 [|b1 [|b2 [|]]]]; try done.
  apply Forall_app in Hc as [Hg3 Hc]. rewrite !Forall_cons_iff in Hg3.
  destruct Hg3 as (H0 & H1 & H2 & _). destruct (IH Hc) as (Hp & Hl & Hk).
  destruct (packed_of_bytes_low b0 b1 H0 H1) as (E0 & E1 & C0 & C1).
  destruct (packed_of_bytes_high b1 b2 H1 H2) as (E2 & E3 & C2 & C3).
  apply unpack_ascii_code in C0 as [P0 U0]. apply unpack_ascii_code in C1 as [P1 U1].
  apply unpack_ascii_code in C2 as [P2 U2]. apply unpack_ascii_code in C3 as [P3 U3].
  cbn [app unpack_groups map]. split_and!.
  - repeat (apply List.Forall_cons; [done|]). done.
  - unfold zlen in *. cbn [length]. rewrite !Nat2Z.inj_succ, Hl.
    replace (Z.succ (Z.succ (Z.succ (Z.of_nat (length l))))) with (1 * 3 + Z.of_nat (length l)) by lia.
    rewrite Z.div_add_l by lia. lia.
  - cbn [pack_groups app]. by rewrite U0, U1, U2, U3, E0, E1, E2, E3, Hk.
Qed.

(** ** The character loop *)

Lemma packable_code c :
  is_packable c -> Z.land (u8_try_from_or 0 c) 0x3f = Z.land c 0x3f.
Proof. unfold is_packable, u8_try_from_or, u8_max. destruct (Z.leb_spec c 255); [done|lia]. Qed.

Lemma pack_codes_spec capacity s codes :
  zlen codes <= capacity ->
  pack_codes capacity s codes =
    if decide (Forall is_packable s /\ zlen codes + zlen s <= capacity)
    then Ok (codes ++ map (fun c => Z.land c 0x3f) s)
    else Err (InvalidValue "packed-text character").
Proof.
  revert codes. induction s as [|c s IH]; intros codes Hc; cbn [pack_codes map].
  - rewrite app_nil_r. destruct (decide _) as [|Hn]; [done|]. destruct Hn.
    split; [constructor|]. unfold zlen in *. cbn. lia.
  - assert (Hz : zlen (c :: s) = 1 + zlen s) by apply zlen_cons.
    pose proof (zlen_nonneg s).
    destruct (negb (in_range 0x20 0x5f c) || (zlen codes =? capacity)) eqn:Hg.
    + destruct (decide _) as [[Hp Hl]|]; [|done]. exfalso.
      apply Forall_cons_iff in Hp as [Hp _]. unfold is_packable, in_range in *.
      apply orb_prop in Hg as [Hg|Hg]; lia.
    + unfold in_range in Hg. assert (Hp : is_packable c) by (unfold is_packable; lia).
      rewrite IH by (rewrite zlen_app; unfold zlen at 2; cbn [length]; lia).
      rewrite packable_code by done. rewrite zlen_app, <-app_assoc. cbn [app].
      unfold zlen at 2. cbn [length].
      destruct (decide (Forall is_packable s /\ zlen codes + Z.of_nat 1 + zlen s <= capacity)) as [[]|Hn],
        (decide (Forall is_packable (c :: s) /\ zlen codes + zlen (c :: s) <= capacity)) as [[Hq]|Hn'];
        try done.
      * destruct Hn'. split; [by constructor|lia].
      * destruct Hn. apply Forall_cons_iff in Hq as [_ ?]. split; [done|lia].
Qed.

(** The codes packed for [s]: its characters and the padding spaces. *)
Lemma pack_text_spec s n :
  0 <= n ->
  pack_text s n =
    if decide (n <= 255 /\ n mod 3 = 0) then
      if decide (Forall is_packable s /\ zlen s <= n / 3 * 4) then
        Ok (pack_groups (map (fun c => Z.land c 0x3f)
              (s ++ replicate (Z.to_nat (n / 3 * 4) - length s) 32)))
      else Err (InvalidValue "packed-text character")
    else Err (InvalidValue "packed-text length").
Proof.
  intros Hn. unfold pack_text, u8_max. pose proof (Z.div_pos n 3 Hn ltac:(lia)).
  destruct (Z.ltb_spec 255 n), (Z.eqb_spec (n mod 3) 0); cbn [orb negb];
    destruct (decide (n <= 255 /\ n mod 3 = 0)); try (lia || done).
  rewrite pack_codes_spec by (unfold zlen; cbn; lia). unfold zlen at 1. cbn [length].
  destruct (decide (Forall is_packable s /\ Z.of_nat 0 + zlen s <= n / 3 * 4)) as [[Hp Hl]|Hn1],
    (decide (Forall is_packable s /\ zlen s <= n / 3 * 4)) as [[Hp2 Hl2]|Hn2]; cbn [result_bind].
  - unfold resize, zlen in *. cbn [app]. rewrite take_ge by (rewrite length_map; lia).
    rewrite length_map, map_app. do 3 f_equal. symmetry. apply (fmap_replicate (fun c => Z.land c 0x3f)).
  - destruct Hn2. split; [done|lia].
  - destruct Hn1. split; [done|lia].
  - done.
Qed.

(** ** Packed text *)

Lemma packed_groups m l : zlen l = m * 4 -> groups 4 l.
Proof. intros H. apply (groups_intro 4 (Z.to_nat m)); unfold zlen in H; lia. Qed.

Lemma map_unpack_packable s :
  Forall is_packable s -> map unpack_ascii (map (fun c => Z.land c 0x3f) s) = s.
Proof.
  intros H. rewrite map_map. induction H as [|c s Hc _ IH]; [done|]. cbn [map].
  rewrite IH. f_equal. by apply unpack_ascii_packable.
Qed.

Lemma packed_bytes_u8 a b :
  is_code a -> is_code b ->
  is_u8 (Z.lor (Z.land (Z.shiftl a 2) 0xff) (Z.shiftr b 4)) /\
  is_u8 (Z.lor (Z.land (Z.shiftl a 4) 0xff) (Z.shiftr b 2)) /\
  is_u8 (Z.lor (Z.land (Z.shiftl a 6) 0xff) b).
Proof.
  intros Ha Hb. pose proof (code_u8 a Ha) as Hau. pose proof (code_u8 b Hb) as Hbu.
  unfold is_code, is_u8 in *. revert Ha Hb. u8_decide2 a b Hau Hbu.
Qed.

Lemma pack_groups_bytes m l :
  length l = (m * 4)%nat -> Forall is_code l ->
  length (pack_groups l) = (m * 3)%nat /\ all_u8 (pack_groups l).
Proof.
  revert l. induction m as [|m IH]; intros l Hl Hc; [by destruct l|].
  destruct l as [|c0 [|c1 [|c2 [|c3 l]]]]; cbn in Hl; try lia.
  rewrite !Forall_cons_iff in Hc. destruct Hc as (H0 & H1 & H2 & H3 & Hc).
  destruct (IH l ltac:(lia) Hc) as [Hlen Hu]. cbn [pack_groups app length]. split; [lia|].
  destruct (packed_bytes_u8 c0 c1 H0 H1) as (? & _ & _).
  destruct (packed_bytes_u8 c1 c2 H1 H2) as (_ & ? & _).
  destruct (packed_bytes_u8 c2 c3 H2 H3) as (_ & _ & ?).
  repeat (apply List.Forall_cons; [done|]). done.
Qed.

Lemma packable_padded s k : Forall is_packable s -> Forall is_packable (s ++ replicate k 32).
Proof.
  intros Hs. apply Forall_app; split; [done|]. apply Forall_replicate. unfold is_packable. lia.
Qed.

Lemma packable_codes s : Forall is_packable s -> Forall is_code (map (fun c => Z.land c 0x3f) s).
Proof.
  induction 1 as [|c s Hc _ IH]; [constructor|]. constructor; [|done].
  by apply unpack_ascii_packable.
Qed.

Lemma unpack_pack s n l :
  0 <= n -> pack_text s n = Ok l ->
  unpack_text l = trim_end s /\ zlen l = n /\ all_u8 l.
Proof.
  intros Hn. rewrite pack_text_spec by done.
  destruct (decide (n <= 255 /\ n mod 3 = 0)) as [[Hm H3]|]; [|done].
  destruct (decide _) as [[Hp Hl]|]; [|done]. intros [= <-].
  set (padded := s ++ _).
  assert (Hpad : Forall is_packable padded) by by apply packable_padded.
  assert (Hlen : length padded = (Z.to_nat (n / 3) * 4)%nat).
  { unfold padded, zlen in *. rewrite length_app, length_replicate. lia. }
  pose proof (packable_codes padded Hpad) as Hcodes.
  destruct (pack_groups_bytes (Z.to_nat (n / 3)) (map (fun c => Z.land c 0x3f) padded)) as [Hpl Hpu];
    [by rewrite length_map|done|].
  pose proof (Z.div_mod n 3 ltac:(lia)).
  split_and!; [|unfold zlen; rewrite Hpl; lia|done].
  unfold unpack_text. rewrite unpack_pack_groups; [|apply (groups_intro 4 (Z.to_nat (n / 3)));
    [lia|by rewrite length_map]|done].
  rewrite map_unpack_packable by done. apply trim_end_matches_app, Forall_replicate. done.
Qed.

Lemma pack_unpack l :
  all_u8 l -> zlen l <= 255 -> zlen l mod 3 = 0 -> pack_text (unpack_text l) (zlen l) = Ok l.
Proof.
  intros Hu Hmax H3. pose proof (zlen_nonneg l).
  destruct (pack_unpack_groups l) as (Hp & Hl & Hk); [|done|].
  { apply (groups_intro 3 (Z.to_nat (zlen l / 3))); [lia|].
    pose proof (Z.div_mod (zlen l) 3 ltac:(lia)). unfold zlen in *. lia. }
  destruct (trim_end_matches_split char_is_whitespace (unpack_groups l)) as (k & Hs & Hw).
  fold (trim_end (unpack_groups l)) (unpack_text l) in Hs.
  rewrite Hs in Hp. apply Forall_app in Hp as [Hp1 Hp2].
  assert (Hk32 : k = replicate (length k) 32).
  { apply Forall_eq_replicate. clear -Hw Hp2.
    induction k as [|c k IH]; [constructor|]. rewrite !Forall_cons_iff in *.
    destruct Hw, Hp2. split; [by apply packable_whitespace|auto]. }
  assert (Hlen : zlen (unpack_text l) + zlen k = zlen l / 3 * 4).
  { rewrite <-Hl, Hs at 1. by rewrite zlen_app. }
  pose proof (zlen_nonneg k). rewrite pack_text_spec by done.
  destruct (decide (zlen l <= 255 /\ zlen l mod 3 = 0)) as [|Hc]; [|destruct Hc; done].
  destruct (decide _) as [|Hc]; [|destruct Hc; split; [done|lia]].
  f_equal. transitivity (pack_groups (map (fun c => Z.land c 0x3f) (unpack_text l ++ k))).
  - rewrite Hk32. do 4 f_equal. unfold zlen in *. lia.
  - by rewrite <-Hs.
Qed.

(** Packed text is a faithful container. [pack_text] accepts exactly the
    texts of characters 0x20 to 0x5F that fit a length of whole groups up to 255,
    and fills exactly that many bytes; [unpack_text] of them is the text without
    its trailing spaces; and every byte string of whole groups is reproduced by
    unpacking and packing it again. *)
Theorem packed_text_roundtrip :
  (forall s n, 0 <= n ->
     (exists l, pack_text s n = Ok l) <->
       n <= 255 /\ n mod 3 = 0 /\ Forall is_packable s /\ zlen s <= n / 3 * 4) /\
  (forall s n l, 0 <= n -> pack_text s n = Ok l ->
     unpack_text l = trim_end s /\ zlen l = n /\ all_u8 l /\
     exists k, s = trim_end s ++ replicate k 32) /\
  (forall l, all_u8 l -> zlen l <= 255 -> zlen l mod 3 = 0 ->
     pack_text (unpack_text l) (zlen l) = Ok l).
Proof.
  split_and!.
  - intros s n Hn. rewrite pack_text_spec by done.
    destruct (decide (n <= 255 /\ n mod 3 = 0)) as [|H1];
      [destruct (decide (Forall is_packable s /\ zlen s <= n / 3 * 4)) as [|H2]|]; naive_solver.
  - intros s n l Hn Hp. destruct (unpack_pack s n l Hn Hp) as (? & ? & ?).
    split_and!; try done. rewrite pack_text_spec in Hp by done.
    destruct (decide _); [|done]. destruct (decide _) as [[Hs _]|]; [|done].
    destruct (trim_end_matches_split char_is_whitespace s) as (k & Hk & Hw).
    exists (length k). unfold trim_end. rewrite Hk at 1. f_equal. apply Forall_eq_replicate.
    rewrite Hk in Hs. apply Forall_app in Hs as [_ Hs]. rewrite List.Forall_forall in *.
    intros c Hc. apply packable_whitespace; auto.
  - exact pack_unpack.
Qed.

Lemma packed_text_roundtrip_witness :
  pack_text (unpack_text [0x48; 0x54; 0x20; 0x82; 0x08; 0x20]) 6 =
    Ok [0x48; 0x54; 0x20; 0x82; 0x08; 0x20] /\
  unpack_text [0x10; 0x51; 0xe0; 0x82; 0x08; 0x20] = trim_end [68; 69; 71; 32; 32].
Proof.
  split.
  - apply (proj2 (proj2 packed_text_roundtrip) [0x48; 0x54; 0x20; 0x82; 0x08; 0x20]);
      [solve_bytes|by vm_compute|done].
  - apply (proj1 (proj2 packed_text_roundtrip) _ 6); [lia|by vm_compute].
Defined.

(** ** Latin-1 text *)

Lemma encode_latin1_loop_spec n s output :
  zlen output <= n -> Forall (fun c => 0 <= c) s ->
  encode_latin1_loop n s output =
    if decide (all_u8 s /\ zlen output + zlen s <= n) then Ok (output ++ s)
    else Err (InvalidValue "Latin-1 string").
Proof.
  revert output. induction s as [|c s IH]; intros output Ho Hs; cbn [encode_latin1_loop].
  - rewrite app_nil_r. destruct (decide _) as [|Hn]; [done|]. destruct Hn.
    split; [constructor|]. unfold zlen in *. cbn. lia.
  - apply Forall_cons_iff in Hs as [Hc Hs].
    assert (Hz : zlen (c :: s) = 1 + zlen s) by apply zlen_cons.
    assert (Hz1 : forall b, zlen (output ++ [b]) = zlen output + 1)
      by (intros; rewrite zlen_app; done).
    pose proof (zlen_nonneg s).
    destruct ((zlen output =? n) || (0xff <? c)) eqn:Hg.
    + destruct (decide _) as [[Hp Hl]|]; [|done]. exfalso.
      apply Forall_cons_iff in Hp as [Hp _]. unfold is_u8 in Hp. lia.
    + rewrite IH by (done || rewrite Hz1; lia). rewrite Hz1, <-app_assoc. cbn [app].
      unfold u8_try_from_or, u8_max. destruct (Z.leb_spec c 255); [|lia].
      destruct (decide (all_u8 s /\ zlen output + 1 + zlen s <= n)) as [[]|Hn],
        (decide (all_u8 (c :: s) /\ zlen output + zlen (c :: s) <= n)) as [[Hq]|Hn']; try done.
      * destruct Hn'. split; [constructor; [unfold is_u8; lia|done]|lia].
      * destruct Hn. apply Forall_cons_iff in Hq as [_ ?]. split; [done|lia].
Qed.

Lemma encode_latin1_spec s n :
  0 <= n -> Forall (fun c => 0 <= c) s ->
  encode_latin1 s n =
    if decide (all_u8 s /\ zlen s <= n) then Ok (s ++ replicate (Z.to_nat n - length s) 32)
    else Err (InvalidValue "Latin-1 string").
Proof.
  intros Hn Hs. unfold encode_latin1. rewrite encode_latin1_loop_spec by (done || by unfold zlen).
  change (zlen [] + zlen s) with (0 + zlen s). rewrite Z.add_0_l. cbn [app].
  destruct (decide _) as [[_ Hl]|]; [|done]. cbn [result_bind]. unfold resize.
  rewrite take_ge; [done|]. unfold zlen in Hl. lia.
Qed.

(** [encode_latin1] accepts exactly the texts of characters up to 0xFF that
    fit, always fills the whole field, and [decode_latin1] returns the text
    without trailing spaces and NUL characters; a field of another length is
    refused. *)
Theorem latin1_roundtrip (s : text) (n : Z) :
  0 <= n -> Forall (fun c => 0 <= c) s ->
  match encode_latin1 s n with
  | Ok l => zlen l = n /\ all_u8 l /\ all_u8 s /\ zlen s <= n /\
      decode_latin1 l n = Ok (trim_end_matches (fun c => (c =? 0) || (c =? 32)) s) /\
      (forall m, m <> n -> decode_latin1 l m = Err (InvalidValue "Latin-1 string length"))
  | Err e => e = InvalidValue "Latin-1 string" /\ ~ (all_u8 s /\ zlen s <= n)
  end.
Proof.
  intros Hn Hs. rewrite encode_latin1_spec by done. destruct (decide _) as [[Hu Hl]|]; [|done].
  set (l := s ++ _).
  assert (Hlen : zlen l = n).
  { unfold l, zlen in *. rewrite length_app, length_replicate. lia. }
  split_and!; try done.
  - apply Forall_app; split; [done|]. apply Forall_replicate. unfold is_u8. lia.
  - unfold decode_latin1. rewrite Hlen, Z.eqb_refl. cbn [negb]. f_equal.
    by apply trim_end_matches_app, Forall_replicate.
  - intros m Hm. unfold decode_latin1. rewrite Hlen. by destruct (Z.eqb_spec n m).
Qed.

Lemma latin1_roundtrip_witness :
  encode_latin1 [72; 228; 32] 5 = Ok [72; 228; 32; 32; 32] /\
  decode_latin1 [72; 228; 32; 32; 32] 5 = Ok [72; 228].
Proof.
  split; [by vm_compute|].
  apply (latin1_roundtrip [72; 228; 32] 5); [lia|].
  repeat (apply List.Forall_cons; [lia|]). apply List.Forall_nil.
Defined.
