(* ===== verification/Identity.v ===== *)
(** * Device identification (src/src/operation/identity.rs) *)
From S2P Require Import Prelude Chars Wire Catalog Codec Operation Text.

Record DeviceIdentity := mkIdentity {
  id_response_identifier : Z;
  id_manufacturer_id : Z;
  id_device_type : Z;
  id_request_preambles : Z;
  id_universal_revision : Z;
  id_device_revision : Z;
  id_software_revision : Z;
  id_hardware_revision : Z;
  id_physical_signaling : Z;
  id_flags : Z;
  id_device_id : Z;
  id_response_preambles : option Z;
  id_maximum_device_variables : option Z;
  id_configuration_change_counter : option Z;
  id_extended_status : option Z;
  id_private_label_distributor : option Z;
  id_device_profile : option Z;
  id_extension : bytes;
}.

#[global] Instance DeviceIdentity_eq_dec : EqDecision DeviceIdentity.
Proof. solve_decision. Defined.

(** The shift is on a [u16]. *)
Definition DeviceIdentity_address_device_type (i : DeviceIdentity) : Z :=
  if 7 <=? id_universal_revision i then Z.land (id_device_type i) 0x3fff
  else Z.lor (Z.land (Z.shiftl (Z.land (id_manufacturer_id i) 0x3f) 8) 0xffff)
             (Z.land (id_device_type i) 0x00ff).

Definition DeviceIdentity_unique_address (i : DeviceIdentity) (master : Master)
    : result WireError Address :=
  Address_unique (DeviceIdentity_address_device_type i) (id_device_id i) master.

Definition decode_identity_data (data : bytes) : result OperationError DeviceIdentity :=
  return_if zlen data <? 12 err Truncated "mandatory identification" (zlen data) ;;
  let reader := PayloadReader_new data in
  let? (response_identifier, reader) := PayloadReader_u8 "response identifier" reader ;;
  return_if negb (response_identifier =? 0xfe)
    err InvalidValue "Command 0 response identifier" ;;
  let? (legacy_manufacturer, reader) :=
    PayloadReader_u8 "manufacturer or high part of device type" reader ;;
  let? (legacy_device_type, reader) := PayloadReader_u8 "device type" reader ;;
  let? (request_preambles, reader) := PayloadReader_u8 "request preamble count" reader ;;
  return_if request_preambles =? 0 err InvalidValue "request preamble count" ;;
  let? (universal_revision, reader) := PayloadReader_u8 "universal-command revision" reader ;;
  let required_length :=
    if in_range 0 5 universal_revision then 12
    else if universal_revision =? 6 then 17 else 22 in
  return_if zlen data <? required_length
    err Truncated "identification data for the selected HART revision" (zlen data) ;;
  let? (device_revision, reader) := PayloadReader_u8 "device revision" reader ;;
  let? (software_revision, reader) := PayloadReader_u8 "software revision" reader ;;
  let? (hardware_and_signal, reader) :=
    PayloadReader_u8 "hardware revision and physical signal" reader ;;
  let? (flags, reader) := PayloadReader_u8 "capability flags" reader ;;
  let? (device_id, reader) := PayloadReader_u24 "device identifier" reader ;;
  let? (response_preambles, reader) :=
    read_if (6 <=? universal_revision) (PayloadReader_u8 "response preamble count") reader ;;
  let? (maximum_device_variables, reader) :=
    read_if (6 <=? universal_revision) (PayloadReader_u8 "maximum device-variable count") reader ;;
  let? (configuration_change_counter, reader) :=
    read_if (6 <=? universal_revision) (PayloadReader_u16 "configuration-change counter") reader ;;
  let? (extended_status, reader) :=
    read_if (6 <=? universal_revision) (PayloadReader_u8 "extended status") reader ;;
  let? (manufacturer_id, reader) :=
    (if 7 <=? universal_revision then PayloadReader_u16 "manufacturer identifier" reader
     else Ok (legacy_manufacturer, reader)) ;;
  let? (private_label_distributor, reader) :=
    read_if (7 <=? universal_revision) (PayloadReader_u16 "private-label distributor") reader ;;
  let? (device_profile, reader) :=
    read_if (7 <=? universal_revision) (PayloadReader_u8 "device profile") reader ;;
  Ok (mkIdentity response_identifier manufacturer_id
        (if 7 <=? universal_revision
         then from_be_bytes [legacy_manufacturer; legacy_device_type]
         else legacy_device_type)
        request_preambles universal_revision device_revision software_revision
        (Z.shiftr hardware_and_signal 3) (Z.land hardware_and_signal 0x07) flags device_id
        response_preambles maximum_device_variables configuration_change_counter
        extended_status private_label_distributor device_profile
        (PayloadReader_rest reader).1).

(** ** Operations *)

Inductive ReadDeviceIdentity := mkReadDeviceIdentity.

#[global] Instance ReadDeviceIdentity_Operation : Operation ReadDeviceIdentity DeviceIdentity :=
  default_operation (fun _ => CommandCode_new 0) (fun _ w => Ok w)
    (fun _ reply =>
       let? _ := DeviceReply_require_success reply (CommandCode_new 0) ;;
       decode_identity_data (rep_data reply)).

Record ReadIdentity := mkReadIdentity {
  ri_command : CommandCode;
  ri_request_data : bytes;
}.

Definition ReadIdentity_new (command : Z) (request_data : bytes)
    : result OperationError ReadIdentity :=
  return_if negb ((command =? 0) || (command =? 11) || (command =? 21) || (command =? 73)
                  || (command =? 75))
    err InvalidValue "identification command number" ;;
  return_if negb (PayloadConstraint_allows
                    (request_constraint (CommandCode_from_u8 command)) (zlen request_data))
    err RequestLength command (zlen request_data) ;;
  Ok (mkReadIdentity (CommandCode_from_u8 command) request_data).

Definition ReadIdentity_by_tag (tag : text) : result OperationError ReadIdentity :=
  let? data := pack_text tag 6 ;;
  ReadIdentity_new 11 data.

Definition ReadIdentity_by_long_tag (tag : text) : result OperationError ReadIdentity :=
  let? data := encode_latin1 tag 32 ;;
  ReadIdentity_new 21 data.

#[global] Instance ReadIdentity_Operation : Operation ReadIdentity DeviceIdentity :=
  default_operation ri_command
    (fun o w => Ok (PayloadWriter_bytes (ri_request_data o) w))
    (fun o reply =>
       let? _ := DeviceReply_require_success reply (ri_command o) ;;
       decode_identity_data (rep_data reply)).
