(* ===== verification/Process.v ===== *)
(** * Process variables (src/src/operation/process.rs)

    Floating-point values are 32-bit patterns. *)
From S2P Require Import Prelude Wire Catalog Codec Operation.

Record PrimaryValue := mkPrimaryValue { pv_unit : Z; pv_value : Z }.

Record MeasuredValue := mkMeasuredValue { mv_unit : Z; mv_value : Z }.

(** ** Command 3 *)

Record DynamicValues := mkDynamicValues {
  dv_loop_current : Z;
  dv_values : list MeasuredValue;
}.

Definition read_measured_value : reader MeasuredValue := fun reader =>
  let? (unit, reader) := PayloadReader_u8 "dynamic-variable unit" reader ;;
  let? (value, reader) := PayloadReader_f32 "dynamic variable" reader ;;
  Ok (mkMeasuredValue unit value, reader).

Definition decode_dynamic_values (data : bytes) : result OperationError DynamicValues :=
  return_if (zlen data <? 9) || negb ((zlen data - 4) mod 5 =? 0)
    err InvalidValue "dynamic-variable payload length" ;;
  read_all data (fun reader =>
    let? (loop_current, reader) := PayloadReader_f32 "loop current" reader ;;
    let? (values, reader) :=
      read_while (length data) 5 (Some 4%nat) read_measured_value [] reader ;;
    Ok (mkDynamicValues loop_current values, reader)).

Inductive ReadDynamicValues := mkReadDynamicValues.

#[global] Instance ReadDynamicValues_Operation : Operation ReadDynamicValues DynamicValues :=
  default_operation (fun _ => CommandCode_new 3) (fun _ w => Ok w)
    (fun _ reply =>
       let? _ := DeviceReply_require_success reply (CommandCode_new 3) ;;
       decode_dynamic_values (rep_data reply)).

(** ** Command 8 *)

Record VariableClassifications := mkVariableClassifications { vc_classes : bytes }.

Inductive ReadVariableClassifications := mkReadVariableClassifications.

#[global] Instance ReadVariableClassifications_Operation
    : Operation ReadVariableClassifications VariableClassifications :=
  default_operation (fun _ => CommandCode_new 8) (fun _ w => Ok w)
    (fun _ reply =>
       let? _ := DeviceReply_require_success reply (CommandCode_new 8) ;;
       return_if negb (in_range 1 4 (zlen (rep_data reply)))
         err InvalidValue "classification count" ;;
       Ok (mkVariableClassifications (rep_data reply))).

(** ** Command 9 *)

Record ReadDeviceVariables := mkReadDeviceVariables { rdv_slots : bytes }.

Record DeviceVariable := mkDeviceVariable {
  var_code : Z;
  var_classification : Z;
  var_unit : Z;
  var_value : Z;
  var_status : Z;
}.

Record DeviceVariables := mkDeviceVariables {
  dvs_extended_status : Z;
  dvs_variables : list DeviceVariable;
}.

Definition ReadDeviceVariables_new (slots : bytes) : result OperationError ReadDeviceVariables :=
  return_if negb (in_range 1 8 (zlen slots)) err RequestLength 9 (zlen slots) ;;
  Ok (mkReadDeviceVariables slots).

Definition read_device_variable : reader DeviceVariable := fun reader =>
  let? (code, reader) := PayloadReader_u8 "variable code" reader ;;
  let? (classification, reader) := PayloadReader_u8 "variable classification" reader ;;
  let? (unit, reader) := PayloadReader_u8 "variable unit" reader ;;
  let? (value, reader) := PayloadReader_f32 "variable value" reader ;;
  let? (status, reader) := PayloadReader_u8 "variable status" reader ;;
  Ok (mkDeviceVariable code classification unit value status, reader).

Definition decode_device_variables (data : bytes) : result OperationError DeviceVariables :=
  return_if (zlen data =? 0) || negb ((zlen data - 1) mod 8 =? 0)
    err InvalidValue "device-variable payload length" ;;
  read_all data (fun reader =>
    let? (extended_status, reader) := PayloadReader_u8 "extended status" reader ;;
    let? (variables, reader) :=
      read_while (length data) 8 (Some 8%nat) read_device_variable [] reader ;;
    Ok (mkDeviceVariables extended_status variables, reader)).

#[global] Instance ReadDeviceVariables_Operation
    : Operation ReadDeviceVariables DeviceVariables :=
  default_operation (fun _ => CommandCode_new 9)
    (fun o w => Ok (PayloadWriter_bytes (rdv_slots o) w))
    (fun _ reply =>
       let? _ := DeviceReply_require_success reply (CommandCode_new 9) ;;
       decode_device_variables (rep_data reply)).

(** ** Command 33 *)

Record ReadSelectedVariables := mkReadSelectedVariables { rsv_variables : bytes }.

Record SelectedVariable := mkSelectedVariable { sel_code : Z; sel_unit : Z; sel_value : Z }.

Definition ReadSelectedVariables_new (variables : bytes)
    : result OperationError ReadSelectedVariables :=
  return_if negb (in_range 1 4 (zlen variables)) err RequestLength 33 (zlen variables) ;;
  Ok (mkReadSelectedVariables variables).

Definition read_selected_variable : reader SelectedVariable := fun reader =>
  let? (code, reader) := PayloadReader_u8 "selected-variable code" reader ;;
  let? (unit, reader) := PayloadReader_u8 "selected-variable unit" reader ;;
  let? (value, reader) := PayloadReader_f32 "selected-variable value" reader ;;
  Ok (mkSelectedVariable code unit value, reader).

Definition decode_selected_variables (data : bytes)
    : result OperationError (list SelectedVariable) :=
  return_if (zlen data =? 0) || negb (zlen data mod 6 =? 0) || (24 <? zlen data)
    err InvalidValue "selected-variable payload length" ;;
  read_all data (read_while (length data) 6 None read_selected_variable []).

#[global] Instance ReadSelectedVariables_Operation
    : Operation ReadSelectedVariables (list SelectedVariable) :=
  default_operation (fun _ => CommandCode_new 33)
    (fun o w => Ok (PayloadWriter_bytes (rsv_variables o) w))
    (fun _ reply =>
       let? _ := DeviceReply_require_success reply (CommandCode_new 33) ;;
       decode_selected_variables (rep_data reply)).

(** ** Commands 1 and 2 *)

Definition decode_primary_value (data : bytes) : result OperationError PrimaryValue :=
  read_all data (fun reader =>
    let? (unit, reader) := PayloadReader_u8 "primary-variable unit" reader ;;
    let? (value, reader) := PayloadReader_f32 "primary variable" reader ;;
    Ok (mkPrimaryValue unit value, reader)).

Inductive ReadPrimaryValue := mkReadPrimaryValue.

#[global] Instance ReadPrimaryValue_Operation : Operation ReadPrimaryValue PrimaryValue :=
  default_operation (fun _ => CommandCode_new 1) (fun _ w => Ok w)
    (fun _ reply =>
       let? _ := DeviceReply_require_success reply (CommandCode_new 1) ;;
       decode_primary_value (rep_data reply)).

Record LoopSignal := mkLoopSignal { ls_milliamps : Z; ls_percent : Z }.

Definition decode_loop_signal (data : bytes) : result OperationError LoopSignal :=
  read_all data (fun reader =>
    let? (milliamps, reader) := PayloadReader_f32 "loop current" reader ;;
    let? (percent, reader) := PayloadReader_f32 "percent of range" reader ;;
    Ok (mkLoopSignal milliamps percent, reader)).

Inductive ReadLoopSignal := mkReadLoopSignal.

#[global] Instance ReadLoopSignal_Operation : Operation ReadLoopSignal LoopSignal :=
  default_operation (fun _ => CommandCode_new 2) (fun _ w => Ok w)
    (fun _ reply =>
       let? _ := DeviceReply_require_success reply (CommandCode_new 2) ;;
       decode_loop_signal (rep_data reply)).
