(* ===== verification/Control.v ===== *)
(** * Output control and calibration (src/src/operation/control.rs)

    Floating-point arguments are 32-bit patterns; the two predicates the source
    applies to them are written on the pattern. *)
From S2P Require Import Prelude Wire Catalog Codec Operation.

(** [f32::is_finite]: the exponent field is not all ones. *)
Definition f32_is_finite (v : Z) : bool := negb (Z.land (Z.shiftr v 23) 0xff =? 0xff).

(** [f32::is_nan]: exponent all ones, fraction not zero. *)
Definition f32_is_nan (v : Z) : bool :=
  (Z.land (Z.shiftr v 23) 0xff =? 0xff) && negb (Z.land v 0x7fffff =? 0).

(** [v < 0.0]: a negative number; neither NaN nor -0.0. *)
Definition f32_lt_zero (v : Z) : bool :=
  Z.testbit v 31 && negb (f32_is_nan v) && negb (v =? 0x80000000).

(** ** Command 34 *)

Record SetDamping := mkSetDamping { sd_seconds : Z }.

Definition SetDamping_new (seconds : Z) : result OperationError SetDamping :=
  return_if negb (f32_is_finite seconds) || f32_lt_zero seconds
    err InvalidValue "damping value" ;;
  Ok (mkSetDamping seconds).

#[global] Instance SetDamping_Operation : Operation SetDamping Z :=
  default_operation (fun _ => CommandCode_new 34)
    (fun o w =>
       return_if negb (f32_is_finite (sd_seconds o)) || f32_lt_zero (sd_seconds o)
         err InvalidValue "damping value" ;;
       Ok (PayloadWriter_f32 (sd_seconds o) w))
    (fun _ reply =>
       let? _ := DeviceReply_require_success reply (CommandCode_new 34) ;;
       read_all (rep_data reply) (PayloadReader_f32 "actual damping value")).

(** ** Command 35 *)

Record RangeValues := mkRangeValues { rv_unit : Z; rv_upper : Z; rv_lower : Z }.

Definition RangeValues_new (unit lower upper : Z) : result OperationError RangeValues :=
  return_if negb (f32_is_finite upper) || negb (f32_is_finite lower)
    err InvalidValue "range limits" ;;
  Ok (mkRangeValues unit upper lower).

Record SetRange := mkSetRange { sr_range : RangeValues }.

Definition SetRange_new (unit lower upper : Z) : result OperationError SetRange :=
  let? range := RangeValues_new unit lower upper ;;
  Ok (mkSetRange range).

Definition read_range_values : reader RangeValues := fun reader =>
  let? (unit, reader) := PayloadReader_u8 "range unit" reader ;;
  let? (upper, reader) := PayloadReader_f32 "upper range limit" reader ;;
  let? (lower, reader) := PayloadReader_f32 "lower range limit" reader ;;
  Ok (mkRangeValues unit upper lower, reader).

#[global] Instance SetRange_Operation : Operation SetRange RangeValues :=
  default_operation (fun _ => CommandCode_new 35)
    (fun o w =>
       return_if negb (f32_is_finite (rv_upper (sr_range o)))
                 || negb (f32_is_finite (rv_lower (sr_range o)))
         err InvalidValue "range limits" ;;
       Ok (PayloadWriter_f32 (rv_lower (sr_range o))
             (PayloadWriter_f32 (rv_upper (sr_range o))
                (PayloadWriter_u8 (rv_unit (sr_range o)) w))))
    (fun _ reply =>
       let? _ := DeviceReply_require_success reply (CommandCode_new 35) ;;
       read_all (rep_data reply) read_range_values).

(** ** Commands 36, 37, 38, 41, 42, 43 *)

Record ActionCommand := mkActionCommand { ac_command : CommandCode; ac_data : bytes }.

Definition ActionCommand_new (command : Z) (data : bytes) : result OperationError ActionCommand :=
  return_if negb (in_range 36 38 command || in_range 41 43 command)
    err InvalidValue "action command number" ;;
  let command := CommandCode_from_u8 command in
  return_if negb (PayloadConstraint_allows (request_constraint command) (zlen data))
    err RequestLength (CommandCode_get command) (zlen data) ;;
  Ok (mkActionCommand command data).

#[global] Instance ActionCommand_Operation : Operation ActionCommand DeviceReply :=
  default_operation ac_command
    (fun o w => Ok (PayloadWriter_bytes (ac_data o) w))
    (fun o reply =>
       let? _ := DeviceReply_require_success reply (ac_command o) ;;
       Ok reply).

(** ** Command 39 *)

Record EepromControl := mkEepromControl { ee_code : Z }.

#[global] Instance EepromControl_Operation : Operation EepromControl Z :=
  default_operation (fun _ => CommandCode_new 39)
    (fun o w => Ok (PayloadWriter_u8 (ee_code o) w))
    (fun _ reply =>
       let? _ := DeviceReply_require_success reply (CommandCode_new 39) ;;
       read_all (rep_data reply) (PayloadReader_u8 "memory control code")).

(** ** Command 40 *)

Record FixedCurrent := mkFixedCurrent { fc_milliamps : Z }.

Definition FixedCurrent_new (milliamps : Z) : result OperationError FixedCurrent :=
  return_if negb (f32_is_finite milliamps) err InvalidValue "fixed current" ;;
  Ok (mkFixedCurrent milliamps).

#[global] Instance FixedCurrent_Operation : Operation FixedCurrent Z :=
  default_operation (fun _ => CommandCode_new 40)
    (fun o w =>
       return_if negb (f32_is_finite (fc_milliamps o)) err InvalidValue "fixed current" ;;
       Ok (PayloadWriter_f32 (fc_milliamps o) w))
    (fun _ reply =>
       let? _ := DeviceReply_require_success reply (CommandCode_new 40) ;;
       read_all (rep_data reply) (PayloadReader_f32 "actual current")).

(** ** Command 44 *)

Record WritePrimaryUnit := mkWritePrimaryUnit { wpu_unit : Z }.

#[global] Instance WritePrimaryUnit_Operation : Operation WritePrimaryUnit Z :=
  default_operation (fun _ => CommandCode_new 44)
    (fun o w => Ok (PayloadWriter_u8 (wpu_unit o) w))
    (fun _ reply =>
       let? _ := DeviceReply_require_success reply (CommandCode_new 44) ;;
       read_all (rep_data reply) (PayloadReader_u8 "primary-variable unit")).

(** ** Commands 45 and 46 *)

Record AnalogTrim := mkAnalogTrim { at_command : CommandCode; at_reference_current : Z }.

Definition AnalogTrim_new (command reference_current : Z) : result OperationError AnalogTrim :=
  return_if negb ((command =? 45) || (command =? 46)) || negb (f32_is_finite reference_current)
    err InvalidValue "current-output trim" ;;
  Ok (mkAnalogTrim (CommandCode_from_u8 command) reference_current).

Definition AnalogTrim_zero (reference_current : Z) : result OperationError AnalogTrim :=
  AnalogTrim_new 45 reference_current.

Definition AnalogTrim_gain (reference_current : Z) : result OperationError AnalogTrim :=
  AnalogTrim_new 46 reference_current.

#[global] Instance AnalogTrim_Operation : Operation AnalogTrim Z :=
  default_operation at_command
    (fun o w => Ok (PayloadWriter_f32 (at_reference_current o) w))
    (fun o reply =>
       let? _ := DeviceReply_require_success reply (at_command o) ;;
       read_all (rep_data reply) (PayloadReader_f32 "actual trim current")).

(** ** Command 47 *)

Record WriteTransferFunction := mkWriteTransferFunction { wtf_function : Z }.

#[global] Instance WriteTransferFunction_Operation : Operation WriteTransferFunction Z :=
  default_operation (fun _ => CommandCode_new 47)
    (fun o w => Ok (PayloadWriter_u8 (wtf_function o) w))
    (fun _ reply =>
       let? _ := DeviceReply_require_success reply (CommandCode_new 47) ;;
       read_all (rep_data reply) (PayloadReader_u8 "transfer function")).
