(* ===== verification/Configuration.v ===== *)
(** * Polling-address configuration (src/src/operation/configuration.rs) *)
From S2P Require Import Prelude Wire Catalog Codec Operation.

Record PollingAddress := mkPollingAddress { pa_node : Z; pa_loop_current_enabled : bool }.

Definition PollingAddress_new (node : Z) (loop_current_enabled : bool)
    : result OperationError PollingAddress :=
  return_if 63 <? node err InvalidValue "polling address" ;;
  Ok (mkPollingAddress node loop_current_enabled).

Record WritePollingAddress := mkWritePollingAddress { wpa_value : PollingAddress }.

Definition WritePollingAddress_new (node : Z) (loop_current_enabled : bool)
    : result OperationError WritePollingAddress :=
  let? value := PollingAddress_new node loop_current_enabled ;;
  Ok (mkWritePollingAddress value).

Record WriteLegacyPollingAddress := mkWriteLegacyPollingAddress { wlp_node : Z }.

Definition WriteLegacyPollingAddress_new (node : Z)
    : result OperationError WriteLegacyPollingAddress :=
  return_if 15 <? node err InvalidValue "HART 5 polling address" ;;
  Ok (mkWriteLegacyPollingAddress node).

Record LoopConfiguration := mkLoopConfiguration {
  lc_node : Z;
  lc_loop_current_mode : option Z;
}.

Definition decode_loop_configuration (data : bytes) : result OperationError LoopConfiguration :=
  read_all data (fun reader =>
    let? (byte, reader) := PayloadReader_u8 "polling address" reader ;;
    let node := Z.land byte 0x3f in
    let? (loop_current_mode, reader) :=
      read_if (0 <? PayloadReader_remaining reader)%nat (PayloadReader_u8 "loop-current mode")
        reader ;;
    Ok (mkLoopConfiguration node loop_current_mode, reader)).

Definition decode_polling_address (data : bytes) : result OperationError PollingAddress :=
  read_all data (fun reader =>
    let? (byte, reader) := PayloadReader_u8 "polling address" reader ;;
    let node := Z.land byte 0x3f in
    let? (loop_current_enabled, reader) :=
      (if (PayloadReader_remaining reader =? 0)%nat then Ok (node =? 0, reader)
       else
         let? (mode, reader) := PayloadReader_u8 "loop-current mode" reader ;;
         Ok (negb (mode =? 0), reader)) ;;
    Ok (mkPollingAddress node loop_current_enabled, reader)).

Inductive ReadLoopConfiguration := mkReadLoopConfiguration.

#[global] Instance ReadLoopConfiguration_Operation
    : Operation ReadLoopConfiguration LoopConfiguration :=
  default_operation (fun _ => CommandCode_new 7) (fun _ w => Ok w)
    (fun _ reply =>
       let? _ := DeviceReply_require_success reply (CommandCode_new 7) ;;
       decode_loop_configuration (rep_data reply)).

#[global] Instance WritePollingAddress_Operation
    : Operation WritePollingAddress PollingAddress :=
  default_operation (fun _ => CommandCode_new 6)
    (fun o w =>
       return_if 63 <? pa_node (wpa_value o) err InvalidValue "polling address" ;;
       Ok (PayloadWriter_u8 (if pa_loop_current_enabled (wpa_value o) then 1 else 0)
             (PayloadWriter_u8 (pa_node (wpa_value o)) w)))
    (fun _ reply =>
       let? _ := DeviceReply_require_success reply (CommandCode_new 6) ;;
       decode_polling_address (rep_data reply)).

#[global] Instance WriteLegacyPollingAddress_Operation
    : Operation WriteLegacyPollingAddress PollingAddress :=
  default_operation (fun _ => CommandCode_new 6)
    (fun o w =>
       return_if 15 <? wlp_node o err InvalidValue "HART 5 polling address" ;;
       Ok (PayloadWriter_u8 (wlp_node o) w))
    (fun _ reply =>
       let? _ := DeviceReply_require_success reply (CommandCode_new 6) ;;
       decode_polling_address (rep_data reply)).
