(* ===== verification/Information.v ===== *)
(** * Device information and additional status (src/src/operation/information.rs,
    src/src/operation/diagnostics.rs) *)
From S2P Require Import Prelude Wire Catalog Codec Operation.

(** ** Commands 14 and 15: the macro [raw_information_operation!] *)

Definition raw_information_operation {Op} (command : Z) : Operation Op bytes :=
  default_operation (fun _ => CommandCode_new command) (fun _ w => Ok w)
    (fun _ reply =>
       let? _ := DeviceReply_require_success reply (CommandCode_new command) ;;
       return_if zlen (rep_data reply) =? 0 err InvalidValue "empty device information" ;;
       Ok (rep_data reply)).

Inductive ReadTransducerInformation := mkReadTransducerInformation.

Inductive ReadOutputInformation := mkReadOutputInformation.

#[global] Instance ReadTransducerInformation_Operation
    : Operation ReadTransducerInformation bytes := raw_information_operation 14.

#[global] Instance ReadOutputInformation_Operation
    : Operation ReadOutputInformation bytes := raw_information_operation 15.

(** ** Commands 16 and 19 *)

Inductive ReadFinalAssemblyNumber := mkReadFinalAssemblyNumber.

#[global] Instance ReadFinalAssemblyNumber_Operation : Operation ReadFinalAssemblyNumber Z :=
  default_operation (fun _ => CommandCode_new 16) (fun _ w => Ok w)
    (fun _ reply =>
       let? _ := DeviceReply_require_success reply (CommandCode_new 16) ;;
       read_all (rep_data reply) (PayloadReader_u24 "final assembly number")).

Record WriteFinalAssemblyNumber := mkWriteFinalAssemblyNumber { wfa_number : Z }.

Definition WriteFinalAssemblyNumber_new (value : Z)
    : result OperationError WriteFinalAssemblyNumber :=
  return_if 0x00ffffff <? value err InvalidValue "24-bit integer" ;;
  Ok (mkWriteFinalAssemblyNumber value).

#[global] Instance WriteFinalAssemblyNumber_Operation : Operation WriteFinalAssemblyNumber Z :=
  default_operation (fun _ => CommandCode_new 19)
    (fun o w => PayloadWriter_u24 (wfa_number o) w)
    (fun o reply =>
       let? _ := DeviceReply_require_success reply (CommandCode_new 19) ;;
       if zlen (rep_data reply) =? 0 then Ok (wfa_number o)
       else read_all (rep_data reply) (PayloadReader_u24 "final assembly number")).

(** ** Command 48 *)

Inductive ReadAdditionalStatus := mkReadAdditionalStatus.

Record AdditionalStatus := mkAdditionalStatus { as_bytes : bytes }.

#[global] Instance ReadAdditionalStatus_Operation
    : Operation ReadAdditionalStatus AdditionalStatus :=
  default_operation (fun _ => CommandCode_new 48) (fun _ w => Ok w)
    (fun _ reply =>
       let? _ := DeviceReply_require_success reply (CommandCode_new 48) ;;
       Ok (mkAdditionalStatus (rep_data reply))).
