(* ===== verification/OperationLaws.v ===== *)
(** * Every typed operation keeps the promises of [LawfulOperation]

    [op_valid] is constructibility: the operation comes from its validating
    constructor applied to arguments of the Rust types, or, for a type whose
    fields are public, satisfies what that constructor checks. *)
From S2P Require Import Prelude Chars Wire Catalog Codec Operation Text TextProps.
From S2P Require Import Identity Process Control Configuration Information.

Lemma bytes_encode (c : CommandCode) (l : bytes) (w w' : PayloadWriter) :
  wr_bytes w' = wr_bytes w ++ l -> all_u8 l ->
  PayloadConstraint_allows (request_constraint c) (zlen l) = true ->
  exists payload, Ok w' = Ok (E := OperationError) (mkWriter (wr_bytes w ++ payload)) /\
    all_u8 payload /\ PayloadConstraint_allows (request_constraint c) (zlen payload) = true.
Proof. intros Hw ? ?. exists l. rewrite <-Hw. by destruct w'. Qed.

(** An operation with an empty request. *)
Ltac solve_empty_laws :=
  [> intros; apply empty_encode; reflexivity | done | solve_registered | done].

(** ** Text *)

#[global] Instance ReadMessage_Lawful : LawfulOperation ReadMessage text.
Proof. refine {| op_valid _ := True; op_body _ := decode_message |}; solve_empty_laws. Defined.

#[global] Instance WriteMessage_Lawful : LawfulOperation WriteMessage text.
Proof.
  refine {| op_valid o := exists m, WriteMessage_new m = Ok o; op_body _ := decode_message |};
    [|done|solve_registered|done].
  intros o w [m Hm]. apply result_bind_Ok in Hm as (l & Hl & [= <-]).
  apply unpack_pack in Hl as (_ & Hz & Hu); [|lia].
  eapply bytes_encode; [done|done|by cbn [wm_packed]; rewrite Hz].
Defined.

#[global] Instance ReadTagDescriptorDate_Lawful
    : LawfulOperation ReadTagDescriptorDate TagDescriptorDate.
Proof.
  refine {| op_valid _ := True; op_body _ r := decode_tag_descriptor_date (rep_data r) |};
    solve_empty_laws.
Defined.

Definition DeviceDate_typed (d : DeviceDate) : Prop :=
  is_u8 (date_day d) /\ is_u8 (date_month d) /\ is_u8 (date_year_since_1900 d).

Lemma WriteTagDescriptorDate_new_inv v o :
  WriteTagDescriptorDate_new v = Ok o ->
  exists tag descriptor,
    validate_date (tdd_date v) = Ok tt /\
    pack_text (tdd_tag v) 6 = Ok tag /\ pack_text (tdd_descriptor v) 12 = Ok descriptor /\
    wt_data o = tag ++ descriptor ++ [date_day (tdd_date v); date_month (tdd_date v);
                                      date_year_since_1900 (tdd_date v)].
Proof.
  intros H. apply result_bind_Ok in H as ([] & Hd & H).
  apply result_bind_Ok in H as (t & Ht & H). apply result_bind_Ok in H as (d & Hdesc & [= <-]).
  by exists t, d.
Qed.

#[global] Instance WriteTagDescriptorDate_Lawful
    : LawfulOperation WriteTagDescriptorDate TagDescriptorDate.
Proof.
  refine {| op_valid o := exists v, DeviceDate_typed (tdd_date v) /\
                                    WriteTagDescriptorDate_new v = Ok o;
            op_body _ r := decode_tag_descriptor_date (rep_data r) |};
    [|done|solve_registered|done].
  intros o w (v & (? & ? & ?) & Hv).
  apply WriteTagDescriptorDate_new_inv in Hv as (t & d & _ & Ht & Hd & Ho).
  apply unpack_pack in Ht as (_ & Hzt & Hut); [|lia].
  apply unpack_pack in Hd as (_ & Hzd & Hud); [|lia].
  apply (bytes_encode _ (wt_data o)); [done| |]; rewrite Ho.
  - repeat (apply Forall_app; split; [done|]).
    repeat (apply List.Forall_cons; [done|]). apply List.Forall_nil.
  - rewrite !zlen_app, Hzt, Hzd. done.
Defined.

#[global] Instance ReadLongTag_Lawful : LawfulOperation ReadLongTag text.
Proof.
  refine {| op_valid _ := True; op_body _ r := decode_latin1 (rep_data r) 32 |};
    solve_empty_laws.
Defined.

Lemma encode_latin1_field tag l n :
  0 <= n -> Forall (fun c => 0 <= c) tag -> encode_latin1 tag n = Ok l ->
  all_u8 l /\ zlen l = n.
Proof.
  intros Hn Ht. rewrite encode_latin1_spec by done. destruct (decide _) as [[Hu Hl]|]; [|done].
  intros [= <-]. split.
  - apply Forall_app; split; [done|]. apply Forall_replicate. unfold is_u8. lia.
  - unfold zlen in *. rewrite length_app, length_replicate. lia.
Qed.

#[global] Instance WriteLongTag_Lawful : LawfulOperation WriteLongTag text.
Proof.
  refine {| op_valid o := exists tag, Forall (fun c => 0 <= c) tag /\ WriteLongTag_new tag = Ok o;
            op_body _ r := decode_latin1 (rep_data r) 32 |}; [|done|solve_registered|done].
  intros o w (tag & Ht & Hn). apply result_bind_Ok in Hn as (l & Hl & [= <-]).
  apply encode_latin1_field in Hl as [Hu Hz]; [|lia|done].
  eapply bytes_encode; [done|done|by cbn [wl_data]; rewrite Hz].
Defined.

(** ** Identification *)

#[global] Instance ReadDeviceIdentity_Lawful
    : LawfulOperation ReadDeviceIdentity DeviceIdentity.
Proof.
  refine {| op_valid _ := True; op_body _ r := decode_identity_data (rep_data r) |};
    solve_empty_laws.
Defined.

Lemma ReadIdentity_new_inv command data o :
  ReadIdentity_new command data = Ok o ->
  o = mkReadIdentity (CommandCode_from_u8 command) data /\
  PayloadConstraint_allows (request_constraint (CommandCode_from_u8 command)) (zlen data) = true /\
  In command [0; 11; 21; 73; 75].
Proof.
  unfold ReadIdentity_new. destruct (negb _) eqn:Hc; [done|].
  destruct (negb (PayloadConstraint_allows _ _)) eqn:Ha; [done|]. intros [= <-].
  apply negb_false_iff in Ha. split_and!; [done|done|cbn; lia].
Qed.

#[global] Instance ReadIdentity_Lawful : LawfulOperation ReadIdentity DeviceIdentity.
Proof.
  refine {| op_valid o := exists command data, all_u8 data /\
                                               ReadIdentity_new command data = Ok o;
            op_body _ r := decode_identity_data (rep_data r) |}; [|done| |done].
  - intros o w (c & data & Hu & Hn). apply ReadIdentity_new_inv in Hn as (-> & Ha & _).
    by eapply bytes_encode.
  - intros o (c & data & Hu & Hn). apply ReadIdentity_new_inv in Hn as (-> & _ & Hin).
    cbn in Hin. repeat destruct Hin as [<-|Hin]; try done; eapply default_registered; reflexivity.
Defined.

(** ** Process variables *)

#[global] Instance ReadDynamicValues_Lawful : LawfulOperation ReadDynamicValues DynamicValues.
Proof.
  refine {| op_valid _ := True; op_body _ r := decode_dynamic_values (rep_data r) |};
    solve_empty_laws.
Defined.

#[global] Instance ReadVariableClassifications_Lawful
    : LawfulOperation ReadVariableClassifications VariableClassifications.
Proof.
  refine {| op_valid _ := True;
            op_body _ r := return_if negb (in_range 1 4 (zlen (rep_data r)))
                             err InvalidValue "classification count" ;;
                           Ok (mkVariableClassifications (rep_data r)) |};
    solve_empty_laws.
Defined.

#[global] Instance ReadDeviceVariables_Lawful
    : LawfulOperation ReadDeviceVariables DeviceVariables.
Proof.
  refine {| op_valid o := exists slots, all_u8 slots /\ ReadDeviceVariables_new slots = Ok o;
            op_body _ r := decode_device_variables (rep_data r) |};
    [|done|solve_registered|done].
  intros o w (slots & Hu & Hn). unfold ReadDeviceVariables_new in Hn.
  destruct (negb _) eqn:Hr in Hn; [done|]. injection Hn as <-. apply negb_false_iff in Hr.
  by eapply bytes_encode.
Defined.

#[global] Instance ReadSelectedVariables_Lawful
    : LawfulOperation ReadSelectedVariables (list SelectedVariable).
Proof.
  refine {| op_valid o := exists vs, all_u8 vs /\ ReadSelectedVariables_new vs = Ok o;
            op_body _ r := decode_selected_variables (rep_data r) |};
    [|done|solve_registered|done].
  intros o w (vs & Hu & Hn). unfold ReadSelectedVariables_new in Hn.
  destruct (negb _) eqn:Hr in Hn; [done|]. injection Hn as <-. apply negb_false_iff in Hr.
  by eapply bytes_encode.
Defined.

#[global] Instance ReadPrimaryValue_Lawful : LawfulOperation ReadPrimaryValue PrimaryValue.
Proof.
  refine {| op_valid _ := True; op_body _ r := decode_primary_value (rep_data r) |};
    solve_empty_laws.
Defined.

#[global] Instance ReadLoopSignal_Lawful : LawfulOperation ReadLoopSignal LoopSignal.
Proof.
  refine {| op_valid _ := True; op_body _ r := decode_loop_signal (rep_data r) |};
    solve_empty_laws.
Defined.

(** ** Output control *)

(** One byte or one [f32] as the request data of a fixed command. *)
Lemma u8_encode (c : CommandCode) v w :
  is_u8 v -> PayloadConstraint_allows (request_constraint c) 1 = true ->
  exists payload,
    Ok (PayloadWriter_u8 v w) = Ok (E := OperationError) (mkWriter (wr_bytes w ++ payload)) /\
    all_u8 payload /\ PayloadConstraint_allows (request_constraint c) (zlen payload) = true.
Proof. intros Hv Hc. apply (bytes_encode _ [v]); [done|by constructor|done]. Qed.

Lemma f32_encode (c : CommandCode) v w :
  PayloadConstraint_allows (request_constraint c) 4 = true ->
  exists payload,
    Ok (PayloadWriter_f32 v w) = Ok (E := OperationError) (mkWriter (wr_bytes w ++ payload)) /\
    all_u8 payload /\ PayloadConstraint_allows (request_constraint c) (zlen payload) = true.
Proof. intros Hc. apply (bytes_encode _ (to_be_bytes 4 v)); [done|apply to_be_bytes_u8|done]. Qed.

#[global] Instance SetDamping_Lawful : LawfulOperation SetDamping Z.
Proof.
  refine {| op_valid o := is_u32 (sd_seconds o) /\ SetDamping_new (sd_seconds o) = Ok o;
            op_body _ r := read_all (rep_data r) (PayloadReader_f32 "actual damping value") |};
    [|done|solve_registered|done].
  intros o w [_ Hn]. unfold SetDamping_new in Hn. cbn. destruct (_ || _); [done|].
  by apply (f32_encode (CommandCode_new 34)).
Defined.

#[global] Instance SetRange_Lawful : LawfulOperation SetRange RangeValues.
Proof.
  refine {| op_valid o := exists unit lower upper, is_u8 unit /\ is_u32 lower /\ is_u32 upper /\
                            SetRange_new unit lower upper = Ok o;
            op_body _ r := read_all (rep_data r) read_range_values |};
    [|done|solve_registered|done].
  intros o w (unit & lower & upper & Hu & _ & _ & Hn).
  apply result_bind_Ok in Hn as (v & Hv & [= <-]). unfold RangeValues_new in Hv.
  destruct (_ || _) eqn:Hf in Hv; [done|]. injection Hv as <-. cbn. rewrite Hf.
  apply (bytes_encode (CommandCode_new 35) (unit :: to_be_bytes 4 upper ++ to_be_bytes 4 lower)).
  - cbn [PayloadWriter_f32 PayloadWriter_u8 wr_bytes]. by rewrite <-!app_assoc.
  - constructor; [done|]. apply Forall_app; split; apply to_be_bytes_u8.
  - done.
Defined.

Lemma ActionCommand_new_inv command data o :
  ActionCommand_new command data = Ok o ->
  o = mkActionCommand (CommandCode_from_u8 command) data /\
  PayloadConstraint_allows (request_constraint (CommandCode_from_u8 command)) (zlen data) = true /\
  In command [36; 37; 38; 41; 42; 43].
Proof.
  unfold ActionCommand_new, in_range. destruct (negb _) eqn:Hc; [done|].
  destruct (negb (PayloadConstraint_allows _ _)) eqn:Ha; [done|]. intros [= <-].
  apply negb_false_iff in Ha. split_and!; [done|done|cbn; lia].
Qed.

#[global] Instance ActionCommand_Lawful : LawfulOperation ActionCommand DeviceReply.
Proof.
  refine {| op_valid o := exists command data, all_u8 data /\
                                               ActionCommand_new command data = Ok o;
            op_body _ r := Ok r |}; [|done| |done].
  - intros o w (c & data & Hu & Hn). apply ActionCommand_new_inv in Hn as (-> & Ha & _).
    by eapply bytes_encode.
  - intros o (c & data & Hu & Hn). apply ActionCommand_new_inv in Hn as (-> & _ & Hin).
    cbn in Hin. repeat destruct Hin as [<-|Hin]; try done; eapply default_registered; reflexivity.
Defined.

#[global] Instance EepromControl_Lawful : LawfulOperation EepromControl Z.
Proof.
  refine {| op_valid o := is_u8 (ee_code o);
            op_body _ r := read_all (rep_data r) (PayloadReader_u8 "memory control code") |};
    [|done|solve_registered|done].
  intros o w Ho. by apply (u8_encode (CommandCode_new 39)).
Defined.

#[global] Instance FixedCurrent_Lawful : LawfulOperation FixedCurrent Z.
Proof.
  refine {| op_valid o := is_u32 (fc_milliamps o) /\ FixedCurrent_new (fc_milliamps o) = Ok o;
            op_body _ r := read_all (rep_data r) (PayloadReader_f32 "actual current") |};
    [|done|solve_registered|done].
  intros o w [_ Hn]. unfold FixedCurrent_new in Hn. cbn. destruct (negb _); [done|].
  by apply (f32_encode (CommandCode_new 40)).
Defined.

#[global] Instance WritePrimaryUnit_Lawful : LawfulOperation WritePrimaryUnit Z.
Proof.
  refine {| op_valid o := is_u8 (wpu_unit o);
            op_body _ r := read_all (rep_data r) (PayloadReader_u8 "primary-variable unit") |};
    [|done|solve_registered|done].
  intros o w Ho. by apply (u8_encode (CommandCode_new 44)).
Defined.

Lemma AnalogTrim_new_inv command current o :
  AnalogTrim_new command current = Ok o ->
  o = mkAnalogTrim (CommandCode_from_u8 command) current /\ In command [45; 46].
Proof.
  unfold AnalogTrim_new. destruct (_ || _) eqn:Hc; [done|]. intros [= <-].
  apply orb_false_elim in Hc as [Hc _]. split; [done|]. cbn. lia.
Qed.

#[global] Instance AnalogTrim_Lawful : LawfulOperation AnalogTrim Z.
Proof.
  refine {| op_valid o := exists command current, is_u32 current /\
                                                  AnalogTrim_new command current = Ok o;
            op_body _ r := read_all (rep_data r) (PayloadReader_f32 "actual trim current") |};
    [|done| |done].
  - intros o w (c & current & _ & Hn). apply AnalogTrim_new_inv in Hn as (-> & Hin).
    apply (f32_encode (CommandCode_from_u8 c)). cbn in Hin. by repeat destruct Hin as [<-|Hin].
  - intros o (c & current & _ & Hn). apply AnalogTrim_new_inv in Hn as (-> & Hin).
    cbn in Hin. repeat destruct Hin as [<-|Hin]; try done; eapply default_registered; reflexivity.
Defined.

#[global] Instance WriteTransferFunction_Lawful : LawfulOperation WriteTransferFunction Z.
Proof.
  refine {| op_valid o := is_u8 (wtf_function o);
            op_body _ r := read_all (rep_data r) (PayloadReader_u8 "transfer function") |};
    [|done|solve_registered|done].
  intros o w Ho. by apply (u8_encode (CommandCode_new 47)).
Defined.

(** ** Configuration *)

#[global] Instance ReadLoopConfiguration_Lawful
    : LawfulOperation ReadLoopConfiguration LoopConfiguration.
Proof.
  refine {| op_valid _ := True; op_body _ r := decode_loop_configuration (rep_data r) |};
    solve_empty_laws.
Defined.

#[global] Instance WritePollingAddress_Lawful
    : LawfulOperation WritePollingAddress PollingAddress.
Proof.
  refine {| op_valid o := exists node enabled, is_u8 node /\
                                               WritePollingAddress_new node enabled = Ok o;
            op_body _ r := decode_polling_address (rep_data r) |};
    [|done|solve_registered|done].
  intros o w (node & enabled & Hu & Hn). apply result_bind_Ok in Hn as (v & Hv & [= <-]).
  unfold PollingAddress_new in Hv. destruct (63 <? node) eqn:Hnode; [done|].
  injection Hv as <-. cbn [op_encode_request WritePollingAddress_Operation default_operation
    wpa_value pa_node pa_loop_current_enabled]. rewrite Hnode.
  apply (bytes_encode (CommandCode_new 6) [node; if enabled then 1 else 0]).
  - cbn. by rewrite <-app_assoc.
  - destruct enabled; repeat (apply List.Forall_cons; [done || unfold is_u8; lia|]);
      apply List.Forall_nil.
  - done.
Defined.

#[global] Instance WriteLegacyPollingAddress_Lawful
    : LawfulOperation WriteLegacyPollingAddress PollingAddress.
Proof.
  refine {| op_valid o := is_u8 (wlp_node o) /\
                          WriteLegacyPollingAddress_new (wlp_node o) = Ok o;
            op_body _ r := decode_polling_address (rep_data r) |};
    [|done|solve_registered|done].
  intros o w [Hu Hn]. unfold WriteLegacyPollingAddress_new in Hn. cbn.
  destruct (15 <? wlp_node o); [done|]. by apply (u8_encode (CommandCode_new 6)).
Defined.

(** ** Information and diagnostics *)

Definition raw_information_body (r : DeviceReply) : result OperationError bytes :=
  return_if zlen (rep_data r) =? 0 err InvalidValue "empty device information" ;;
  Ok (rep_data r).

#[global] Instance ReadTransducerInformation_Lawful
    : LawfulOperation ReadTransducerInformation bytes.
Proof. refine {| op_valid _ := True; op_body _ := raw_information_body |}; solve_empty_laws. Defined.

#[global] Instance ReadOutputInformation_Lawful : LawfulOperation ReadOutputInformation bytes.
Proof. refine {| op_valid _ := True; op_body _ := raw_information_body |}; solve_empty_laws. Defined.

#[global] Instance ReadFinalAssemblyNumber_Lawful : LawfulOperation ReadFinalAssemblyNumber Z.
Proof.
  refine {| op_valid _ := True;
            op_body _ r := read_all (rep_data r) (PayloadReader_u24 "final assembly number") |};
    solve_empty_laws.
Defined.

#[global] Instance WriteFinalAssemblyNumber_Lawful : LawfulOperation WriteFinalAssemblyNumber Z.
Proof.
  refine {| op_valid o := is_u32 (wfa_number o) /\
                          WriteFinalAssemblyNumber_new (wfa_number o) = Ok o;
            op_body o r :=
              if zlen (rep_data r) =? 0 then Ok (wfa_number o)
              else read_all (rep_data r) (PayloadReader_u24 "final assembly number") |};
    [|done|solve_registered|done].
  intros o w [_ Hn]. unfold WriteFinalAssemblyNumber_new in Hn.
  cbn [op_encode_request WriteFinalAssemblyNumber_Operation default_operation].
  unfold PayloadWriter_u24. destruct (_ <? _); [done|].
  apply (bytes_encode (CommandCode_new 19) (drop 1 (to_be_bytes 4 (wfa_number o)))); [done| |done].
  apply Forall_drop, to_be_bytes_u8.
Defined.

#[global] Instance ReadAdditionalStatus_Lawful
    : LawfulOperation ReadAdditionalStatus AdditionalStatus.
Proof.
  refine {| op_valid _ := True; op_body _ r := Ok (mkAdditionalStatus (rep_data r)) |};
    solve_empty_laws.
Defined.
