(* ===== verification/OperationProps.v ===== *)
(** * Properties of requests, replies and typed operations

    The theorems on typed operations are proved against [LawfulOperation] and so
    hold for each of the thirty operations with an instance in [OperationLaws]. *)
From S2P Require Import Prelude Chars Wire Decoder DecoderFacts DecoderSpec DecoderProps.
From S2P Require Import Catalog Codec Operation Text TextProps.
From S2P Require Import Identity Process Control Configuration Information OperationLaws.

(** ** Requests on the wire *)

Lemma Request_validate_Ok r :
  zlen (req_data r) <= isize_max ->
  Request_validate r = Ok tt <->
    zlen (req_data r) + (if CommandCode_is_expanded (req_command r) then 2 else 0) <= 255 /\
    zlen (req_frame_expansion r) <= 3.
Proof.
  intros Hmax. unfold Request_validate, saturating_add, u8_max, usize_max, u64_max, isize_max in *.
  pose proof (zlen_nonneg (req_data r)).
  replace ((if CommandCode_is_expanded (req_command r) then 1 else 0) * 2) with
    (if CommandCode_is_expanded (req_command r) then 2 else 0)
    by (by destruct (CommandCode_is_expanded _)).
  destruct (CommandCode_is_expanded (req_command r));
    rewrite Z.min_r by lia;
    (destruct (Z.ltb_spec 255 (zlen (req_data r) + 2)) || idtac);
    (destruct (Z.ltb_spec 255 (zlen (req_data r) + 0)) || idtac);
    destruct (Z.ltb_spec 3 (zlen (req_frame_expansion r))); split; intros; (done || lia).
Qed.

(** The wire command and payload of a request. *)
Definition wire_form (r : Request) : Z * bytes :=
  if CommandCode_is_expanded (req_command r)
  then (31, to_be_bytes 2 (CommandCode_get (req_command r)) ++ req_data r)
  else (CommandCode_get (req_command r), req_data r).

Definition request_frame (r : Request) : Frame :=
  mkFrame (req_preambles r) KindRequest (req_physical_layer r) (req_address r)
    (req_frame_expansion r) (wire_form r).1 (wire_form r).2 None.

Lemma Request_to_frame_spec r :
  zlen (req_data r) <= isize_max ->
  Request_to_frame r = (let? _ := Request_validate r ;; Ok (request_frame r)).
Proof.
  intros Hmax. unfold Request_to_frame, request_frame, wire_form.
  destruct (Request_validate r) as [[]|] eqn:Hv; [|done]. cbn [result_bind].
  apply Request_validate_Ok in Hv as [_ He]; [|done].
  unfold CommandCode_is_expanded. destruct (u8_max <? _) eqn:Hx;
    cbn [result_bind fst snd]; rewrite ?Hx; cbn [result_bind];
    unfold Frame_delimiter; cbn [frame_expansion]; destruct (Z.ltb_spec 3 (zlen (req_frame_expansion r)));
    (lia || done).
Qed.

Lemma Request_to_frame_Ok r f :
  zlen (req_data r) <= isize_max ->
  Request_to_frame r = Ok f ->
  f = request_frame r /\ zlen (req_frame_expansion r) <= 3 /\ zlen (frame_payload f) <= 255.
Proof.
  intros Hmax. rewrite Request_to_frame_spec by done.
  destruct (Request_validate r) as [[]|] eqn:Hv; [|done]. intros [= <-].
  apply Request_validate_Ok in Hv as [Hl He]; [|done]. split_and!; [done|done|].
  unfold request_frame, wire_form. cbn [frame_payload].
  destruct (CommandCode_is_expanded _); cbn [snd]; [|lia].
  rewrite zlen_app. unfold zlen at 1. rewrite length_to_be_bytes. lia.
Qed.

(** What the Rust types of the fields guarantee. *)
Record Request_typed (r : Request) : Prop := {
  rqt_address : Address_valid (req_address r);
  rqt_command : is_u16 (CommandCode_get (req_command r));
  rqt_data : all_u8 (req_data r);
  rqt_len : zlen (req_data r) <= isize_max;
  rqt_preambles : is_u8 (req_preambles r);
  rqt_expansion : all_u8 (req_frame_expansion r);
}.

Lemma request_frame_wf r f :
  Request_typed r -> Request_to_frame r = Ok f -> Frame_wf f.
Proof.
  intros [] Hf. apply Request_to_frame_Ok in Hf as (-> & He & Hp); [|done].
  constructor; try done; unfold request_frame, wire_form, CommandCode_is_expanded;
    cbn [frame_wire_command frame_payload];
    destruct (Z.ltb_spec u8_max (CommandCode_get (req_command r))); cbn [fst snd];
    unfold u8_max, is_u8, is_u16 in *; try (done || lia).
  apply Forall_app; split; [apply to_be_bytes_u8|done].
Qed.

(** A request and the bytes on the line determine each other. Every request
    of typed fields that validates becomes a well-formed request frame whose
    encoding the streaming decoder reads back as that frame; and two such requests
    with the same frame agree in every field but the local retry safety, unless
    one of them uses command 31 itself, the number that announces an expanded
    command. *)
Theorem request_frames_unambiguous (r1 r2 : Request) (f : Frame) (limits : DecodeLimits) :
  Request_typed r1 -> Request_typed r2 ->
  Request_to_frame r1 = Ok f -> Request_to_frame r2 = Ok f ->
  Z.max 1 (minimum_preambles limits) <= req_preambles r1 ->
  Frame_wf f /\
  (exists raw, Frame_encode f = Ok raw /\
     (decode_stream limits raw).1 = [EventFrame f]) /\
  (CommandCode_get (req_command r1) <> 31 -> CommandCode_get (req_command r2) <> 31 ->
   Request_with_retry_safety r1 Action = Request_with_retry_safety r2 Action).
Proof.
  intros H1 H2 Hf1 Hf2 Hpre. pose proof (request_frame_wf r1 f H1 Hf1) as Hwf.
  apply Request_to_frame_Ok in Hf1 as (Heq1 & _ & _); [|apply H1].
  apply Request_to_frame_Ok in Hf2 as (Heq2 & _ & _); [|apply H2].
  split_and!; [done| |].
  - exists (frame_encoding f). split; [by apply Frame_encode_ok; apply Hwf|].
    pose proof (decode_stream_encoded limits [f]) as Hd. cbn [map concat] in Hd.
    rewrite app_nil_r in Hd. rewrite Hd; [done|].
    apply List.Forall_cons; [|apply List.Forall_nil]. by constructor; subst f.
  - intros Hc1 Hc2. rewrite Heq1 in Heq2. clear Heq1 Hwf Hpre.
    destruct H1 as [_ [Hlo1 Hhi1] _ _ _ _], H2 as [_ [Hlo2 Hhi2] _ _ _ _].
    destruct r1 as [a1 [c1] d1 p1 x1 l1 s1], r2 as [a2 [c2] d2 p2 x2 l2 s2].
    unfold request_frame, wire_form, CommandCode_is_expanded, u8_max in Heq2. cbn in *.
    destruct (Z.ltb_spec 255 c1), (Z.ltb_spec 255 c2); cbn in Heq2; injection Heq2; intros; subst;
      try (done || lia).
    assert (c1 = c2) as ->; [|done].
    change (256 ^ Z.of_nat 0) with 1 in *. change (256 ^ Z.of_nat 1) with 256 in *.
    clear Heq2. Z.to_euclidean_division_equations. lia.
Qed.

Lemma request_frames_unambiguous_witness :
  let r1 := Request_new (Polling 3 Primary) (CommandCode_new 0x1234) [7; 8] in
  let r2 := Request_with_retry_safety r1 ReadOnly in
  let f := mkFrame 5 KindRequest Fsk (Polling 3 Primary) [] 31 [0x12; 0x34; 7; 8] None in
  Request_to_frame r1 = Ok f /\ Frame_wf f /\
  Request_with_retry_safety r1 Action = Request_with_retry_safety r2 Action.
Proof.
  intros r1 r2 f.
  assert (Ht : forall s, Request_typed (mkRequest (Polling 3 Primary) (CommandCode_new 0x1234)
    [7; 8] 5 [] Fsk s)).
  { intros s. constructor; cbn; unfold is_u16; try solve [solve_bytes | lia]. vm_compute. congruence. }
  destruct (request_frames_unambiguous r1 r2 f DecodeLimits_default (Ht None)
    (Ht (Some ReadOnly))) as (Hwf & _ & He); [done|done|by vm_compute|].
  split_and!; [done|exact Hwf|apply He; cbn; lia].
Defined.

(** A request for command 31 whose data starts with a number above 255 has the
    frame of the request for the expanded command of that number. *)
Example command_31_is_ambiguous :
  Request_to_frame (Request_new (Polling 0 Primary) (CommandCode_new 31) [0x02; 0x00; 9]) =
  Request_to_frame (Request_new (Polling 0 Primary) (CommandCode_new 0x200) [9]).
Proof. reflexivity. Qed.

(** ** Typed requests *)

Lemma typed_request {Op Output} `{LawfulOperation Op Output} (op : Op) a :
  op_valid op ->
  exists payload entry,
    all_u8 payload /\
    PayloadConstraint_allows (request_constraint (op_command op)) (zlen payload) = true /\
    command_descriptor (op_command op) = Some entry /\
    op_request op a =
      Ok (mkRequest a (op_command op) payload 5 [] Fsk (Some (desc_safety entry))).
Proof.
  intros Hv. destruct (law_encode op PayloadWriter_new Hv) as (payload & He & Hu & Ha).
  destruct (law_registered op Hv) as (entry & Hd & Hs).
  exists payload, entry. split_and!; try done.
  rewrite law_request. unfold Operation_default_request. rewrite He. cbn. by rewrite Hs.
Qed.

(** The request of every typed operation is sent as it should be. For each
    operation type and each operation its constructor admits, and any valid
    address: [request] succeeds, with data of a length the registry admits and the
    retry safety the registry declares; it converts to a well-formed frame that
    carries the operation's own command number, not an expanded one, and the data
    unchanged; and the frame's encoding is read back by the decoder. *)
Theorem typed_requests_reach_the_wire {Op Output} `{LawfulOperation Op Output}
    (op : Op) (a : Address) (limits : DecodeLimits) :
  op_valid op -> Address_valid a -> minimum_preambles limits <= 5 ->
  exists req f raw,
    op_request op a = Ok req /\
    PayloadConstraint_allows (request_constraint (op_command op)) (zlen (req_data req)) = true /\
    req_retry_safety req = Some (registered_safety (op_command op)) /\
    Request_to_frame req = Ok f /\ Frame_wf f /\
    frame_address f = a /\ frame_kind f = KindRequest /\
    frame_wire_command f = CommandCode_get (op_command op) /\ frame_payload f = req_data req /\
    Frame_encode f = Ok raw /\ (decode_stream limits raw).1 = [EventFrame f].
Proof.
  intros Hv Ha Hmin. destruct (typed_request op a Hv) as (payload & entry & Hu & Hal & Hd & Hreq).
  destruct (registered_standard _ _ Hd) as [Hstd _].
  pose proof (constraint_allows_u8 _ _ Hal) as Hlen.
  set (req := mkRequest _ _ _ _ _ _ _) in Hreq.
  assert (Hmax : zlen (req_data req) <= isize_max) by (unfold isize_max; cbn; lia).
  assert (Hx : CommandCode_is_expanded (op_command op) = false).
  { unfold CommandCode_is_expanded, u8_max. lia. }
  assert (Hf : Request_to_frame req = Ok (request_frame req)).
  { rewrite Request_to_frame_spec by done.
    rewrite (proj2 (Request_validate_Ok req Hmax)); [done|]. cbn. rewrite Hx.
    split; [lia|done]. }
  assert (Hwf : Frame_wf (request_frame req)).
  { apply (request_frame_wf req); [|done]. constructor; try done; cbn; unfold is_u16; (lia || solve_bytes). }
  exists req, (request_frame req), (frame_encoding (request_frame req)).
  split_and!; try done.
  - unfold registered_safety. by rewrite Hd.
  - unfold request_frame, wire_form. cbn. by rewrite Hx.
  - unfold request_frame, wire_form. cbn. by rewrite Hx.
  - by apply Frame_encode_ok; apply Hwf.
  - pose proof (decode_stream_encoded limits [request_frame req]) as Hds. cbn [map concat] in Hds.
    rewrite app_nil_r in Hds. rewrite Hds; [done|].
    apply List.Forall_cons; [|apply List.Forall_nil]. constructor; [done|done|cbn; lia].
Qed.

Lemma typed_requests_reach_the_wire_witness :
  let op := mkReadDeviceVariables [0; 1; 246] in
  exists req f raw, op_request op (Polling 2 Primary) = Ok req /\
    Frame_encode f = Ok raw /\ (decode_stream DecodeLimits_default raw).1 = [EventFrame f].
Proof.
  intros op.
  destruct (typed_requests_reach_the_wire op (Polling 2 Primary) DecodeLimits_default)
    as (req & f & raw & Hr & _ & _ & _ & _ & _ & _ & _ & _ & He & Hd).
  - exists [0; 1; 246]. split; [solve_bytes|reflexivity].
  - cbn. lia.
  - cbn. lia.
  - exists req, f, raw. split_and!; assumption.
Defined.

(** ** Replies *)

Lemma zlen_cons2_ltb {A} (a b : A) l : (zlen (a :: b :: l) <? 2) = false.
Proof. apply Z.ltb_ge. unfold zlen. cbn [length]. lia. Qed.

Lemma zlen_cons4_ltb {A} (a b c d : A) l : (zlen (a :: b :: c :: d :: l) <? 4) = false.
Proof. apply Z.ltb_ge. unfold zlen. cbn [length]. lia. Qed.

(** [from_frame] by the shape of the payload. *)
Lemma from_frame_cases f :
  DeviceReply_from_frame f =
    match frame_kind f, frame_payload f with
    | KindRequest, _ => Err (InvalidValue "response frame type")
    | _, c :: s :: rest =>
        let reply command data :=
          mkReply (frame_address f) (CommandCode_new command) c s data
            (bool_decide (frame_kind f = KindBurst)) (frame_physical_layer f)
            (frame_preambles f) (frame_expansion f) in
        if frame_wire_command f =? 31 then
          match rest with
          | b0 :: b1 :: data => Ok (reply (from_be_bytes [b0; b1]) data)
          | _ => Err (Truncated "expanded command number" (zlen (frame_payload f)))
          end
        else Ok (reply (frame_wire_command f) rest)
    | _, l => Err (Truncated "response code and status" (zlen l))
    end.
Proof.
  destruct f as [p [] ph a ex wc [|c [|s rest]] rp]; try done;
    unfold DeviceReply_from_frame; cbn [frame_kind frame_payload frame_wire_command];
    rewrite zlen_cons2_ltb; destruct (wc =? 31); try done;
    destruct rest as [|b0 [|b1 rest]]; try done; rewrite zlen_cons4_ltb; done.
Qed.

(** [DeviceReply::from_frame] recovers exactly what the frame carries. It
    accepts a frame if and only if it is a response or a burst frame whose payload
    is a response code, a status byte, the two bytes of the logical command when
    the wire command is 31, and data; and the reply has those very values and the
    frame's address, expansion, physical layer and preambles. *)
Theorem reply_decodes_frame (f : Frame) (r : DeviceReply) :
  all_u8 (frame_payload f) ->
  DeviceReply_from_frame f = Ok r <->
  (frame_kind f = KindResponse \/ frame_kind f = KindBurst) /\
  frame_payload f =
    [rep_response_code r; rep_device_status r]
    ++ (if frame_wire_command f =? 31 then to_be_bytes 2 (CommandCode_get (rep_command r)) else [])
    ++ rep_data r /\
  (if frame_wire_command f =? 31 then is_u16 (CommandCode_get (rep_command r))
   else CommandCode_get (rep_command r) = frame_wire_command f) /\
  rep_address r = frame_address f /\ rep_burst r = bool_decide (frame_kind f = KindBurst) /\
  rep_physical_layer r = frame_physical_layer f /\
  rep_response_preambles r = frame_preambles f /\ rep_frame_expansion r = frame_expansion f.
Proof.
  intros Hu. rewrite from_frame_cases.
  destruct f as [p k ph a ex wc payload rp].
  cbn [frame_payload frame_kind frame_wire_command frame_address frame_physical_layer
       frame_preambles frame_expansion] in *. split.
  - intros Hf. destruct k; try done; destruct payload as [|c [|s rest]]; try done;
      destruct (wc =? 31); try (injection Hf as <-; split_and!; auto; done);
      destruct rest as [|b0 [|b1 data]]; try done; injection Hf as <-;
      cbn [rep_command CommandCode_get rep_data rep_response_code rep_device_status];
      (assert (Hb : all_u8 [b0; b1])
         by (rewrite !Forall_cons_iff in Hu; destruct Hu as (_ & _ & ? & ? & _);
             rewrite !Forall_cons_iff; done));
      pose proof (from_be_bytes_bound _ Hb) as Hr; pose proof (to_from_be_bytes _ Hb) as Hto;
      cbn [length] in Hto; rewrite Hto; split_and!; auto;
      change (zlen [b0; b1]) with 2 in Hr; unfold is_u16; lia.
  - intros (Hk & -> & Hc & <- & <- & <- & <- & <-). cbn [app].
    destruct r as [ra [c] rc rs rd rb rl rp' re]. cbn [rep_command CommandCode_get rep_data] in *.
    destruct Hk as [->| ->]; (destruct (wc =? 31); [|by rewrite <-Hc]);
      pose proof (length_to_be_bytes 2 c) as Hl; pose proof (from_to_be_bytes 2 c) as Hft;
      destruct (to_be_bytes 2 c) as [|b0 [|b1 [|]]]; try done;
      rewrite Z.mod_small in Hft by (unfold is_u16 in Hc; cbn; lia);
      cbn [app]; rewrite Hft; done.
Qed.

Lemma reply_decodes_frame_witness :
  let f := mkFrame 5 KindBurst Fsk (Polling 1 Primary) [] 31 [0; 64; 2; 1; 9; 9] None in
  DeviceReply_from_frame f =
    Ok (mkReply (Polling 1 Primary) (CommandCode_new 0x201) 0 64 [9; 9] true Fsk 5 []).
Proof.
  intros f. apply reply_decodes_frame; [cbn; solve_bytes|].
  split_and!; try reflexivity; try (cbn; unfold is_u16; lia). by right.
Defined.

(** ** Accepted warnings *)

Lemma decode_success {Op Output} `{LawfulOperation Op Output} (op : Op) reply :
  rep_command reply = op_command op -> rep_response_code reply = 0 ->
  op_decode_reply op reply = op_body op reply.
Proof.
  intros Hc H0. rewrite law_decode. by rewrite (proj2 (require_success_Ok _ _)).
Qed.

(** Decoding with accepted warnings is decoding with the response code
    forgotten and nothing else. For every typed operation it succeeds exactly when
    the reply is for the operation's command, reports no communication error, its
    code is zero or listed, and the data decodes; the outcome keeps the original
    code and status. With no warnings listed it is [decode_reply] itself, errors
    included, so a reply with any other code is never decoded. *)
Theorem accepted_warnings_are_exact {Op Output} `{LawfulOperation Op Output}
    (op : Op) (reply : DeviceReply) :
  (forall warnings o, Operation_decode_reply_accepting op reply warnings = Ok o <->
     rep_command reply = op_command op /\
     DeviceReply_has_communication_error reply = false /\
     (rep_response_code reply = 0 \/ rep_response_code reply ∈ warnings) /\
     op_body op (with_response_code reply 0) = Ok (out_value o) /\
     out_response_code o = rep_response_code reply /\
     out_device_status o = rep_device_status reply) /\
  Operation_decode_reply_accepting op reply [] =
    (let? value := op_decode_reply op reply ;;
     Ok (mkOutcome value (rep_response_code reply) (rep_device_status reply))).
Proof.
  split.
  - intros ws o. unfold Operation_decode_reply_accepting. rewrite require_command_spec.
    destruct (decide (rep_command reply = op_command op)) as [Hc|]; cbn [result_bind];
      [|naive_solver].
    destruct (DeviceReply_has_communication_error reply); [naive_solver|].
    destruct (Z.eqb_spec (rep_response_code reply) 0) as [H0|H0]; cbn [negb andb];
      [|case_bool_decide; cbn [negb]; [|naive_solver]];
      rewrite decode_success by done;
      destruct (op_body op (with_response_code reply 0)); cbn [result_bind]; destruct o; naive_solver.
  - unfold Operation_decode_reply_accepting. rewrite (law_decode op reply). unfold DeviceReply_require_success.
    rewrite require_command_spec.
    destruct (decide (rep_command reply = op_command op)) as [Hc|]; cbn [result_bind]; [|done].
    unfold DeviceReply_has_communication_error.
    destruct (negb (Z.land (rep_response_code reply) 0x80 =? 0)); [done|].
    destruct (Z.eqb_spec (rep_response_code reply) 0) as [H0|]; cbn [negb andb];
      [|by rewrite bool_decide_false by apply not_elem_of_nil].
    rewrite decode_success by done. rewrite <-H0, with_response_code_same. done.
Qed.
