(* ===== verification/ReplyProps.v ===== *)
(** * Exactness of the typed reply decoders

    Each decoder of reply data is characterised by the byte layout of the value it
    returns: it succeeds on exactly the byte strings that are the layout of a
    well-formed value, and returns that value. *)
From S2P Require Import Prelude Chars Wire Catalog Codec Operation Text TextProps.
From S2P Require Import Identity Process Control Configuration Information OperationLaws.

(** ** Running and inverting sequences of reads *)

Ltac solve_len :=
  solve [assumption | done | rewrite <-?app_assoc; cbn [app]; assumption].

(** Inverts the first read of a successful sequence [H]. *)
Ltac read_inv H :=
  let v := fresh "v" in let r := fresh "r" in let l := fresh "l" in
  let rest := fresh "rest" in let Hr := fresh "Hr" in let Hl := fresh "Hl" in
  apply result_bind_Ok in H as ([v r] & Hr & H);
  try (apply read_if_true_inv in Hr as (? & Hr & ->));
  first
  [ apply read_u8_inv in Hr as (rest & -> & ->)
  | apply read_u16_inv in Hr as (l & rest & -> & Hl & -> & ->); [|solve_len]
  | apply read_f32_inv in Hr as (l & rest & -> & Hl & -> & ->); [|solve_len] ];
  cbn beta iota in H.

(** A big-endian field of [n] bytes. *)
Lemma be_field n l : all_u8 l -> length l = n -> to_be_bytes n (from_be_bytes l) = l.
Proof. intros Hu <-. by rewrite to_from_be_bytes. Qed.

Lemma be_field_bound n l :
  all_u8 l -> length l = n -> 0 <= from_be_bytes l < 256 ^ Z.of_nat n.
Proof. intros Hu <-. by apply from_be_bytes_bound in Hu. Qed.

(** Splits the range facts of a byte string with a known prefix. *)
Ltac split_bytes Hu :=
  repeat first [apply Forall_cons_iff in Hu as [? Hu] | apply Forall_app in Hu as [? Hu]].

(** ** Identification *)

Definition has_preamble_fields (i : DeviceIdentity) : bool := 6 <=? id_universal_revision i.
Definition has_expanded_type (i : DeviceIdentity) : bool := 7 <=? id_universal_revision i.

(** The reply layout of Commands 0, 11, 21, 73 and 75. *)
Definition identity_layout (i : DeviceIdentity) : bytes :=
  [0xfe]
  ++ (if has_expanded_type i then to_be_bytes 2 (id_device_type i)
      else [id_manufacturer_id i; id_device_type i])
  ++ [id_request_preambles i; id_universal_revision i; id_device_revision i;
      id_software_revision i; id_hardware_revision i * 8 + id_physical_signaling i; id_flags i]
  ++ to_be_bytes 3 (id_device_id i)
  ++ (if has_preamble_fields i then
        [default 0 (id_response_preambles i); default 0 (id_maximum_device_variables i)]
        ++ to_be_bytes 2 (default 0 (id_configuration_change_counter i))
        ++ [default 0 (id_extended_status i)]
      else [])
  ++ (if has_expanded_type i then
        to_be_bytes 2 (id_manufacturer_id i)
        ++ to_be_bytes 2 (default 0 (id_private_label_distributor i))
        ++ [default 0 (id_device_profile i)]
      else [])
  ++ id_extension i.

(** A field is present exactly from the revision that introduced it. *)
Definition field_from (present : bool) (range : Z -> Prop) (v : option Z) : Prop :=
  match v with Some x => present = true /\ range x | None => present = false end.

Record identity_wf (i : DeviceIdentity) : Prop := {
  iwf_identifier : id_response_identifier i = 0xfe;
  iwf_manufacturer : if has_expanded_type i then is_u16 (id_manufacturer_id i)
                     else is_u8 (id_manufacturer_id i);
  iwf_type : if has_expanded_type i then is_u16 (id_device_type i) else is_u8 (id_device_type i);
  iwf_request_preambles : 1 <= id_request_preambles i < 256;
  iwf_universal : is_u8 (id_universal_revision i);
  iwf_device_revision : is_u8 (id_device_revision i);
  iwf_software_revision : is_u8 (id_software_revision i);
  iwf_hardware : 0 <= id_hardware_revision i < 32;
  iwf_signaling : 0 <= id_physical_signaling i < 8;
  iwf_flags : is_u8 (id_flags i);
  iwf_device_id : 0 <= id_device_id i < 2 ^ 24;
  iwf_response_preambles : field_from (has_preamble_fields i) is_u8 (id_response_preambles i);
  iwf_variables : field_from (has_preamble_fields i) is_u8 (id_maximum_device_variables i);
  iwf_counter : field_from (has_preamble_fields i) is_u16 (id_configuration_change_counter i);
  iwf_status : field_from (has_preamble_fields i) is_u8 (id_extended_status i);
  iwf_distributor : field_from (has_expanded_type i) is_u16 (id_private_label_distributor i);
  iwf_profile : field_from (has_expanded_type i) is_u8 (id_device_profile i);
  iwf_extension : all_u8 (id_extension i);
}.

Lemma hardware_byte_split b :
  is_u8 b ->
  Z.shiftr b 3 * 8 + Z.land b 0x07 = b /\ 0 <= Z.shiftr b 3 < 32 /\ 0 <= Z.land b 0x07 < 8.
Proof. intros H. u8_decide b H. Qed.

Lemma hardware_byte_join h p :
  0 <= h < 32 -> 0 <= p < 8 ->
  Z.shiftr (h * 8 + p) 3 = h /\ Z.land (h * 8 + p) 0x07 = p.
Proof.
  intros Hh Hp. change 0x07 with (Z.ones 3).
  rewrite Z.shiftr_div_pow2, Z.land_ones by lia. change (2 ^ 3) with 8.
  Z.to_euclidean_division_equations. lia.
Qed.

Lemma revision_bools v :
  ((6 <=? v) = true /\ (7 <=? v) = true \/ (6 <=? v) = true /\ (7 <=? v) = false /\ v = 6 \/
   (6 <=? v) = false /\ (7 <=? v) = false).
Proof. lia. Qed.

Lemma decode_identity_inv data i :
  all_u8 data -> usize_len data -> decode_identity_data data = Ok i ->
  identity_wf i /\ data = identity_layout i.
Proof.
  intros Hu Hlen. unfold decode_identity_data. cbv zeta.
  destruct (zlen data <? 12); [done|]. rewrite reader_new_at. intros H.
  read_inv H. destruct (Z.eqb_spec v 0xfe) as [->|]; cbn [negb] in H; [|done].
  do 3 read_inv H. destruct (Z.eqb_spec v1 0) as [|Hpre]; [done|].
  read_inv H. set (req := if in_range 0 5 v2 then _ else _) in H.
  destruct (_ <? req); [done|].
  do 4 read_inv H.
  apply result_bind_Ok in H as ([di r] & Hr & H).
  apply read_u24_inv in Hr as (dil & rst & -> & Hdl & -> & ->); [|solve_len|].
  2: { rewrite !Forall_cons_iff in Hu. tauto. }
  cbn beta iota in H.
  clear req. unfold identity_layout, has_expanded_type, has_preamble_fields.
  destruct (revision_bools v2) as [[E6 E7]|[(E6 & E7 & _)|[E6 E7]]]; rewrite E6, E7 in H;
    [do 7 read_inv H|do 4 read_inv H; cbn [read_if result_bind] in H
    |cbn [read_if result_bind] in H];
    rewrite rest_at in H; injection H as <-; cbn [app default id_universal_revision]; rewrite ?E6, ?E7;
    split_bytes Hu.
  all: destruct (hardware_byte_split v5) as (E & ? & ?); [done|].
  all: assert (Hvv : all_u8 [v; v0]) by (rewrite !Forall_cons_iff; done).
  all: pose proof (be_field_bound 2 _ Hvv eq_refl); pose proof (be_field_bound 3 dil ltac:(done) Hdl).
  all: unfold is_u8 in *.
  all: try pose proof (be_field_bound 2 l ltac:(done) Hl).
  all: try pose proof (be_field_bound 2 l0 ltac:(done) Hl0).
  all: try pose proof (be_field_bound 2 l1 ltac:(done) Hl1).
  all: change (256 ^ Z.of_nat 2) with 65536 in *; change (256 ^ Z.of_nat 3) with (2 ^ 24) in *.
  all: split;
    [constructor; unfold has_expanded_type, has_preamble_fields;
     cbn -[from_be_bytes Z.shiftr Z.land Z.pow]; rewrite ?E6, ?E7; unfold is_u16;
     solve [done | lia | split; [done|lia]]
    |cbn -[to_be_bytes from_be_bytes Z.shiftr Z.land]; rewrite ?E, ?be_field by done;
     cbn [app]; by rewrite <-?app_assoc].
Qed.

(** Runs the reads of a sequence whose bytes are known. *)
Ltac read_run :=
  repeat (first
    [ rewrite read_u8_at
    | rewrite read_u16_at by (solve_len || apply length_to_be_bytes)
    | rewrite read_f32_at by (solve_len || apply length_to_be_bytes)
    | rewrite read_u24_at by (solve_len || apply length_to_be_bytes || apply to_be_bytes_u8)
    | erewrite read_if_true by (first
        [ apply read_u8_at
        | apply read_u16_at; [solve_len | apply length_to_be_bytes] ]) ];
    cbn [result_bind]).

Lemma be_value n x : 0 <= x < 256 ^ Z.of_nat n -> from_be_bytes (to_be_bytes n x) = x.
Proof. intros H. rewrite from_to_be_bytes. by apply Z.mod_small. Qed.

Lemma field_present P v : field_from true P v -> exists x, v = Some x /\ P x.
Proof. destruct v as [x|]; [|done]. intros [_ ?]. eauto. Qed.

Lemma field_absent P v : field_from false P v -> v = None.
Proof. by destruct v as [x|]; [intros [? _]|]. Qed.

Lemma identity_length i :
  zlen (identity_layout i) =
    12 + (if has_preamble_fields i then 5 else 0) + (if has_expanded_type i then 5 else 0)
    + zlen (id_extension i).
Proof.
  unfold identity_layout, zlen. rewrite !length_app, length_to_be_bytes.
  destruct (has_preamble_fields i), (has_expanded_type i); cbn [length app];
    rewrite ?length_app, ?length_to_be_bytes; cbn [length]; lia.
Qed.

Lemma required_length_ok v :
  0 <= v ->
  (if in_range 0 5 v then 12 else if v =? 6 then 17 else 22) <=
  12 + (if 6 <=? v then 5 else 0) + (if 7 <=? v then 5 else 0).
Proof.
  unfold in_range. intros Hv.
  destruct (Z.leb_spec 6 v), (Z.leb_spec 7 v), (Z.leb_spec 0 v), (Z.leb_spec v 5), (Z.eqb_spec v 6);
    cbn [andb]; lia.
Qed.

Lemma decode_identity_layout i :
  identity_wf i -> usize_len (identity_layout i) -> decode_identity_data (identity_layout i) = Ok i.
Proof.
  intros Hwf Hlen. unfold decode_identity_data. cbv zeta.
  pose proof (identity_length i) as Hz. pose proof (zlen_nonneg (id_extension i)).
  destruct (Z.ltb_spec (zlen (identity_layout i)) 12);
    [destruct (has_preamble_fields i), (has_expanded_type i); lia|].
  pose proof (required_length_ok (id_universal_revision i) (proj1 (iwf_universal i Hwf))) as Hreq.
  fold (has_preamble_fields i) (has_expanded_type i) in Hreq.
  rewrite reader_new_at. set (d := zlen (identity_layout i)) in *.
  destruct Hwf as [W1 W2 W3 W4 W5 W6 W7 W8 W9 W10 W11 W12 W13 W14 W15 W16 W17 W18].
  destruct (hardware_byte_join _ _ W8 W9) as [Eh Ep].
  destruct i as [ri man ty rp ur dr sr hr ps fl di rpo mdv ccc es pld dp ext].
  unfold identity_layout, has_expanded_type, has_preamble_fields in *.
  cbn [id_response_identifier id_manufacturer_id id_device_type id_request_preambles
    id_universal_revision id_device_revision id_software_revision id_hardware_revision
    id_physical_signaling id_flags id_device_id id_response_preambles
    id_maximum_device_variables id_configuration_change_counter id_extended_status
    id_private_label_distributor id_device_profile id_extension] in *. subst ri.
  assert (Hp0 : (rp =? 0) = false) by lia.
  assert (Hd : (d <? (if in_range 0 5 ur then 12 else if ur =? 6 then 17 else 22)) = false) by lia.
  change (negb (254 =? 254)) with false.
  destruct (revision_bools ur) as [[E6 E7]|[(E6 & E7 & Hur)|[E6 E7]]]; rewrite E6, E7 in *;
    first [apply field_absent in W16 as ->; apply field_absent in W17 as ->
          |apply field_present in W16 as (pl & -> & W16);
           apply field_present in W17 as (pr & -> & W17)];
    first [apply field_absent in W12 as ->; apply field_absent in W13 as ->;
           apply field_absent in W14 as ->; apply field_absent in W15 as ->
          |apply field_present in W12 as (rpn & -> & _);
           apply field_present in W13 as (mv & -> & _);
           apply field_present in W14 as (cc & -> & W14);
           apply field_present in W15 as (st & -> & _)];
    cbn [app default from_option id] in *.
  - pose proof (be_value 2 ty W3) as Hty. pose proof (length_to_be_bytes 2 ty) as Hl2.
    destruct (to_be_bytes 2 ty) as [|t0 [|t1 [|]]]; try done.
    rewrite <-!app_assoc in *. cbn [app] in *.
    read_run. rewrite E6, E7. read_run. rewrite rest_at.
    rewrite !be_value by assumption. by rewrite Hp0, Hd, Hty, Eh, Ep.
  - rewrite <-!app_assoc in *. cbn [app] in *.
    read_run. rewrite E6, E7. read_run. unfold read_if. cbn [result_bind].
    rewrite rest_at, !be_value by assumption. by rewrite Hp0, Hd, Eh, Ep.
  - read_run. rewrite E6, E7. unfold read_if. cbn [result_bind].
    rewrite rest_at, !be_value by assumption. by rewrite Hp0, Hd, Eh, Ep.
Qed.

Lemma address_type_legacy m t :
  is_u8 m -> is_u8 t ->
  0 <= Z.lor (Z.land (Z.shiftl (Z.land m 0x3f) 8) 0xffff) (Z.land t 0xff) <= 0x3fff.
Proof. intros Hm Ht. u8_decide2 m t Hm Ht. Qed.

Lemma address_type_range i :
  identity_wf i -> 0 <= DeviceIdentity_address_device_type i <= 0x3fff.
Proof.
  intros []. unfold DeviceIdentity_address_device_type, has_expanded_type in *.
  destruct (7 <=? id_universal_revision i).
  - change 0x3fff with (Z.ones 14). rewrite Z.land_ones by lia.
    change (2 ^ 14) with 16384. change (Z.ones 14) with 16383.
    pose proof (Z.mod_pos_bound (id_device_type i) 16384 eq_refl). lia.
  - by apply address_type_legacy.
Qed.

(** The identification decoder is exact for every HART revision: it accepts
    precisely the byte strings that are the layout of a well-formed identity (with
    the fields of revision 6 and 7 present exactly from those revisions on and an
    unknown tail preserved) and returns that identity; and the long address built
    from a decoded identity is always valid. *)
Theorem identity_decode_exact (data : bytes) (i : DeviceIdentity) :
  all_u8 data -> usize_len data ->
  (decode_identity_data data = Ok i <-> identity_wf i /\ data = identity_layout i) /\
  (decode_identity_data data = Ok i ->
   forall master, exists a, DeviceIdentity_unique_address i master = Ok a /\ Address_valid a /\
     Address_unique_parts a =
       Some (DeviceIdentity_address_device_type i, id_device_id i)).
Proof.
  intros Hu Hlen. split; [split|].
  - by apply decode_identity_inv.
  - intros [Hwf ->]. by apply decode_identity_layout.
  - intros Hd master. apply decode_identity_inv in Hd as [Hwf _]; [|done|done].
    pose proof (address_type_range i Hwf) as Ht. pose proof (iwf_device_id i Hwf) as Hi.
    exists (Unique (DeviceIdentity_address_device_type i) (id_device_id i) master).
    unfold DeviceIdentity_unique_address, Address_unique.
    destruct (Z.ltb_spec 0x3fff (DeviceIdentity_address_device_type i)); [lia|].
    destruct (Z.ltb_spec 0x00ffffff (id_device_id i)); [lia|].
    split_and!; [done|cbn; lia|done].
Qed.

Lemma identity_decode_exact_witness :
  let data := [254; 0x26; 0x06; 5; 7; 2; 1; 0x29; 0; 1; 2; 3; 5; 4; 0; 9; 0; 0; 38; 0; 38; 1; 77] in
  exists i, decode_identity_data data = Ok i /\ identity_wf i /\ data = identity_layout i.
Proof.
  intros data. destruct (decode_identity_data data) as [i|e] eqn:Hd; [|by vm_compute in Hd].
  exists i. split; [reflexivity|].
  apply (proj1 (proj1 (identity_decode_exact data i ltac:(unfold data; solve_bytes)
    ltac:(by vm_compute)))). exact Hd.
Defined.
