(* ===== verification/ProcessProps.v ===== *)
(** * Exactness of the process-variable decoders

    The repeated records of Commands 3, 9 and 33 have a fixed size; [FixedItem]
    states what the loop [read_while] needs of the reader of one record. *)
From S2P Require Import Prelude Wire Catalog Codec Operation Process ReplyProps.

Class FixedItem {A} (item : reader A) := {
  it_size : nat;
  it_layout : A -> bytes;
  it_wf : A -> Prop;
  it_size_pos : (0 < it_size)%nat;
  it_length : forall a, length (it_layout a) = it_size;
  it_u8 : forall a, it_wf a -> all_u8 (it_layout a);
  it_read : forall a past rest, it_wf a -> usize_len (past ++ it_layout a ++ rest) ->
    item (at_ past (it_layout a ++ rest)) = Ok (a, at_ (past ++ it_layout a) rest);
  it_total : forall l, all_u8 l -> length l = it_size -> exists a, it_wf a /\ l = it_layout a;
}.
Arguments it_size {A} item {_}.
Arguments it_layout {A} item {_} _.
Arguments it_wf {A} item {_} _.

Section FixedItem.
Context {A : Type} (item : reader A) `{!FixedItem item}.

Definition items_layout (vs : list A) : bytes := concat (map (it_layout item) vs).

Lemma items_length vs : length (items_layout vs) = (length vs * it_size item)%nat.
Proof.
  induction vs as [|v vs IH]; [done|]. unfold items_layout in *. cbn [map concat length].
  rewrite length_app, IH, it_length. lia.
Qed.

Lemma items_u8 vs : Forall (it_wf item) vs -> all_u8 (items_layout vs).
Proof.
  induction 1 as [|v vs Hv _ IH]; [constructor|]. unfold items_layout. cbn [map concat].
  apply Forall_app; split; [by apply it_u8|done].
Qed.

(** Bytes in whole records are the layout of exactly one list of records. *)
Lemma items_total k l :
  all_u8 l -> length l = (k * it_size item)%nat ->
  exists vs, Forall (it_wf item) vs /\ length vs = k /\ l = items_layout vs.
Proof.
  revert l. induction k as [|k IH]; intros l Hu Hl.
  - exists []. destruct l; [|done]. split_and!; [constructor|done|done].
  - rewrite <-(take_drop (it_size item) l) in Hu |- *. apply Forall_app in Hu as [Hu1 Hu2].
    destruct (it_total _ Hu1) as (a & Ha & Ea); [rewrite length_take; lia|].
    destruct (IH _ Hu2) as (vs & Hvs & Hk & Ev); [rewrite length_drop; lia|].
    exists (a :: vs). split_and!; [by constructor|cbn; lia|].
    unfold items_layout. cbn [map concat]. by rewrite Ea, Ev at 1.
Qed.

(** The loop reads whole records until the bytes or the maximum run out. *)
Lemma read_while_run fuel maximum acc past vs rest :
  Forall (it_wf item) vs -> usize_len (past ++ items_layout vs ++ rest) ->
  (length vs < fuel)%nat ->
  match maximum with Some m => (length acc + length vs <= m)%nat | None => True end ->
  ((length rest < it_size item)%nat \/ maximum = Some (length acc + length vs)%nat) ->
  read_while fuel (it_size item) maximum item acc (at_ past (items_layout vs ++ rest)) =
    Ok (acc ++ vs, at_ (past ++ items_layout vs) rest).
Proof.
  intros Hwf. revert fuel acc past.
  induction Hwf as [|v vs Hv _ IH]; intros fuel acc past Hlen Hfuel Hmax Hstop;
    (destruct fuel as [|fuel]; [cbn in Hfuel; lia|]); cbn [read_while].
  - rewrite !app_nil_r, remaining_at. cbn [items_layout map concat app] in *.
    cbn [length] in *. rewrite Nat.add_0_r in *.
    destruct Hstop as [Hr| ->].
    + by rewrite (proj2 (Nat.leb_gt _ _) Hr).
    + rewrite Nat.ltb_irrefl. by rewrite andb_false_r.
  - rewrite remaining_at. change (items_layout (v :: vs)) with (it_layout item v ++ items_layout vs) in *.
    rewrite <-app_assoc in *.
    assert (Hgo : (it_size item <=? length (it_layout item v ++ items_layout vs ++ rest))%nat = true).
    { apply Nat.leb_le. rewrite length_app, it_length. lia. }
    rewrite Hgo. cbn [andb].
    assert (Hm : match maximum with Some m => (length acc <? m)%nat | None => true end = true).
    { destruct maximum as [m|]; [|done]. apply Nat.ltb_lt. cbn [length] in Hmax. lia. }
    rewrite Hm, it_read by done. cbn [result_bind].
    rewrite IH.
    + by rewrite <-!app_assoc.
    + by rewrite <-app_assoc.
    + cbn in Hfuel. lia.
    + destruct maximum; [|done]. rewrite length_app. cbn in *. lia.
    + destruct Hstop as [?| ->]; [by left|right]. rewrite length_app. cbn. f_equal. lia.
Qed.

(** The loop and [finish] on the bytes of [vs]: all of them within the maximum, an
    error about the bytes left over beyond it. *)
Lemma read_items_exact fuel maximum past vs :
  Forall (it_wf item) vs -> usize_len (past ++ items_layout vs) ->
  (length vs < fuel)%nat ->
  match maximum with Some m => (length vs <= m)%nat | None => True end ->
  exists r, read_while fuel (it_size item) maximum item [] (at_ past (items_layout vs)) =
      Ok (vs, r) /\ PayloadReader_finish r = Ok tt.
Proof.
  intros Hwf Hlen Hf Hm. exists (at_ (past ++ items_layout vs) []).
  pose proof (read_while_run fuel maximum [] past vs []) as Hrun. rewrite app_nil_r in Hrun.
  rewrite Hrun; [by rewrite finish_at|done|done|done|by destruct maximum|].
  left. cbn. apply it_size_pos.
Qed.

Lemma read_items_over fuel m past vs :
  Forall (it_wf item) vs -> usize_len (past ++ items_layout vs) ->
  (length vs < fuel)%nat -> (m < length vs)%nat ->
  exists r, read_while fuel (it_size item) (Some m) item [] (at_ past (items_layout vs)) =
      Ok (take m vs, r) /\ exists n, PayloadReader_finish r = Err (TrailingBytes n).
Proof.
  intros Hwf Hlen Hf Hm.
  assert (Hsplit : items_layout vs = items_layout (take m vs) ++ items_layout (drop m vs)).
  { unfold items_layout. by rewrite <-concat_app, <-map_app, take_drop. }
  exists (at_ (past ++ items_layout (take m vs)) (items_layout (drop m vs))).
  rewrite Hsplit in Hlen |- *.
  rewrite read_while_run; [| |done| | |].
  - split; [done|]. rewrite finish_at. pose proof (items_length (drop m vs)) as Hl.
    rewrite length_drop in Hl. pose proof it_size_pos. destruct (items_layout (drop m vs)); [|eauto].
    cbn in Hl. nia.
  - by apply Forall_take.
  - rewrite length_take. lia.
  - rewrite length_take. cbn. lia.
  - right. rewrite length_take. cbn. f_equal. lia.
Qed.
End FixedItem.

(** ** The three record formats *)

Ltac split_list l :=
  repeat (let b := fresh "b" in destruct l as [|b l]; try done).

Lemma be4_of_bytes b0 b1 b2 b3 :
  all_u8 [b0; b1; b2; b3] ->
  to_be_bytes 4 (from_be_bytes [b0; b1; b2; b3]) = [b0; b1; b2; b3] /\
  is_u32 (from_be_bytes [b0; b1; b2; b3]).
Proof.
  intros Hu. split; [by apply (be_field 4)|]. by apply (be_field_bound 4 _ Hu).
Qed.

#[global] Instance measured_value_item : FixedItem read_measured_value.
Proof.
  refine {| it_size := 5;
            it_layout v := mv_unit v :: to_be_bytes 4 (mv_value v);
            it_wf v := is_u8 (mv_unit v) /\ is_u32 (mv_value v) |}.
  - lia.
  - intros a. cbn [length]. by rewrite length_to_be_bytes.
  - intros a [? _]. constructor; [done|apply to_be_bytes_u8].
  - intros [u v] past rest [_ Hv] Hlen. cbn [mv_unit mv_value] in *.
    unfold read_measured_value. cbn [app] in *. read_run. by rewrite be_value, <-app_assoc.
  - intros l Hu Hl. split_list l. apply Forall_cons_iff in Hu as [H0 Hu].
    destruct (be4_of_bytes _ _ _ _ Hu) as [E Hv].
    exists (mkMeasuredValue b (from_be_bytes [b0; b1; b2; b3])). cbn [mv_unit mv_value].
    by rewrite E.
Defined.

#[global] Instance device_variable_item : FixedItem read_device_variable.
Proof.
  refine {| it_size := 8;
            it_layout v := [var_code v; var_classification v; var_unit v]
                           ++ to_be_bytes 4 (var_value v) ++ [var_status v];
            it_wf v := is_u8 (var_code v) /\ is_u8 (var_classification v) /\ is_u8 (var_unit v) /\
                       is_u32 (var_value v) /\ is_u8 (var_status v) |}.
  - lia.
  - intros a. cbn [length app]. by rewrite length_app, length_to_be_bytes.
  - intros a (? & ? & ? & _ & ?). cbn [app]. repeat (apply List.Forall_cons; [done|]).
    apply Forall_app; split; [apply to_be_bytes_u8|by constructor].
  - intros [c k u v s] past rest (_ & _ & _ & Hv & _) Hlen.
    cbn [var_code var_classification var_unit var_value var_status] in *.
    unfold read_device_variable. cbn [app] in *. rewrite <-!app_assoc in *. cbn [app] in *.
    read_run. by rewrite be_value, <-!app_assoc.
  - intros l Hu Hl. split_list l. rewrite !Forall_cons_iff in Hu.
    destruct Hu as (H0 & H1 & H2 & H3 & H4 & H5 & H6 & H7 & _).
    destruct (be4_of_bytes b2 b3 b4 b5) as [E Hv].
    { rewrite !Forall_cons_iff. done. }
    exists (mkDeviceVariable b b0 b1 (from_be_bytes [b2; b3; b4; b5]) b6).
    cbn [var_code var_classification var_unit var_value var_status]. by rewrite E.
Defined.

#[global] Instance selected_variable_item : FixedItem read_selected_variable.
Proof.
  refine {| it_size := 6;
            it_layout v := sel_code v :: sel_unit v :: to_be_bytes 4 (sel_value v);
            it_wf v := is_u8 (sel_code v) /\ is_u8 (sel_unit v) /\ is_u32 (sel_value v) |}.
  - lia.
  - intros a. cbn [length]. by rewrite length_to_be_bytes.
  - intros a (? & ? & _). repeat (constructor; [done|]). apply to_be_bytes_u8.
  - intros [c u v] past rest (_ & _ & Hv) Hlen. cbn [sel_code sel_unit sel_value] in *.
    unfold read_selected_variable. cbn [app] in *. read_run. by rewrite be_value, <-!app_assoc.
  - intros l Hu Hl. split_list l. rewrite 2!Forall_cons_iff in Hu. destruct Hu as (H0 & H1 & Hu).
    destruct (be4_of_bytes _ _ _ _ Hu) as [E Hv].
    exists (mkSelectedVariable b b0 (from_be_bytes [b1; b2; b3; b4])).
    cbn [sel_code sel_unit sel_value]. by rewrite E.
Defined.

(** ** Exactness *)

Definition dynamic_values_layout (v : DynamicValues) : bytes :=
  to_be_bytes 4 (dv_loop_current v) ++ items_layout read_measured_value (dv_values v).

Definition device_variables_layout (v : DeviceVariables) : bytes :=
  dvs_extended_status v :: items_layout read_device_variable (dvs_variables v).

(** The decoder run on whole records after its fixed prefix. *)
Lemma decode_dynamic_run c vs :
  is_u32 c -> Forall (it_wf read_measured_value) vs -> (1 <= length vs)%nat ->
  let data := to_be_bytes 4 c ++ items_layout read_measured_value vs in
  usize_len data ->
  if (length vs <=? 4)%nat then decode_dynamic_values data = Ok (mkDynamicValues c vs)
  else exists n, decode_dynamic_values data = Err (TrailingBytes n).
Proof.
  intros Hc Hwf H1 data Hlen. unfold decode_dynamic_values, read_all. fold data.
  assert (Hdata : length data = (4 + length vs * 5)%nat).
  { unfold data. rewrite length_app, length_to_be_bytes, items_length. done. }
  assert (Hguard : (zlen data <? 9) || negb ((zlen data - 4) mod 5 =? 0) = false).
  { unfold zlen. rewrite Hdata. apply orb_false_intro; [apply Z.ltb_ge; lia|].
    replace (Z.of_nat (4 + length vs * 5) - 4) with (Z.of_nat (length vs) * 5) by lia.
    by rewrite Z.mod_mul. }
  rewrite Hguard, reader_new_at. unfold data.
  rewrite read_f32_at by (done || apply length_to_be_bytes). cbn [result_bind]. fold data.
  rewrite be_value by done.
  destruct (Nat.leb_spec (length vs) 4) as [Hle|Hgt].
  - destruct (read_items_exact read_measured_value (length data) (Some 4%nat)
      ([] ++ to_be_bytes 4 c) vs Hwf Hlen) as (r & Hr & Hfin); [lia|done|].
    unfold it_size in Hr. cbn [measured_value_item] in Hr. rewrite Hr. cbn [result_bind].
    by rewrite Hfin.
  - destruct (read_items_over read_measured_value (length data) 4
      ([] ++ to_be_bytes 4 c) vs Hwf Hlen) as (r & Hr & n & Hfin); [lia|done|].
    unfold it_size in Hr. cbn [measured_value_item] in Hr. exists n. rewrite Hr.
    cbn [result_bind]. by rewrite Hfin.
Qed.

Lemma decode_variables_run s vs :
  Forall (it_wf read_device_variable) vs ->
  let data := s :: items_layout read_device_variable vs in
  usize_len data ->
  if (length vs <=? 8)%nat then decode_device_variables data = Ok (mkDeviceVariables s vs)
  else exists n, decode_device_variables data = Err (TrailingBytes n).
Proof.
  intros Hwf data Hlen. unfold decode_device_variables, read_all. fold data.
  assert (Hdata : length data = (1 + length vs * 8)%nat).
  { unfold data. cbn [length]. rewrite items_length. done. }
  assert (Hguard : (zlen data =? 0) || negb ((zlen data - 1) mod 8 =? 0) = false).
  { unfold zlen. rewrite Hdata. apply orb_false_intro; [apply Z.eqb_neq; lia|].
    replace (Z.of_nat (1 + length vs * 8) - 1) with (Z.of_nat (length vs) * 8) by lia.
    by rewrite Z.mod_mul. }
  rewrite Hguard, reader_new_at. unfold data. rewrite read_u8_at. cbn [result_bind]. fold data.
  destruct (Nat.leb_spec (length vs) 8) as [Hle|Hgt].
  - destruct (read_items_exact read_device_variable (length data) (Some 8%nat) ([] ++ [s]) vs
      Hwf Hlen) as (r & Hr & Hfin); [lia|done|].
    unfold it_size in Hr. cbn [device_variable_item] in Hr. rewrite Hr. cbn [result_bind].
    by rewrite Hfin.
  - destruct (read_items_over read_device_variable (length data) 8 ([] ++ [s]) vs
      Hwf Hlen) as (r & Hr & n & Hfin); [lia|done|].
    unfold it_size in Hr. cbn [device_variable_item] in Hr. exists n. rewrite Hr.
    cbn [result_bind]. by rewrite Hfin.
Qed.

Lemma decode_selected_run vs :
  Forall (it_wf read_selected_variable) vs -> (1 <= length vs <= 4)%nat ->
  decode_selected_variables (items_layout read_selected_variable vs) = Ok vs.
Proof.
  intros Hwf Hk. unfold decode_selected_variables, read_all.
  set (data := items_layout _ vs).
  assert (Hdata : length data = (length vs * 6)%nat) by apply items_length.
  assert (Hguard : (zlen data =? 0) || negb (zlen data mod 6 =? 0) || (24 <? zlen data) = false).
  { unfold zlen. rewrite Hdata, Nat2Z.inj_mul, Z.mod_mul by lia. cbn [negb].
    rewrite orb_false_r. apply orb_false_intro; [apply Z.eqb_neq|apply Z.ltb_ge]; lia. }
  rewrite Hguard, reader_new_at.
  destruct (read_items_exact read_selected_variable (length data) None [] vs Hwf) as (r & Hr & Hfin);
    [|lia|done|].
  { unfold usize_len, zlen. fold data. cbn [app]. rewrite Hdata. unfold isize_max. lia. }
  unfold it_size in Hr. cbn [selected_variable_item] in Hr. fold data in Hr. rewrite Hr.
  cbn [result_bind]. by rewrite Hfin.
Qed.

Lemma mod_zero_length (data : bytes) (p s : nat) :
  (0 < s)%nat -> (p <= length data)%nat -> (zlen data - Z.of_nat p) mod Z.of_nat s = 0 ->
  exists k, length data = (p + k * s)%nat.
Proof.
  intros Hs Hp Hm. exists (Z.to_nat ((zlen data - Z.of_nat p) / Z.of_nat s)).
  pose proof (Z.div_mod (zlen data - Z.of_nat p) (Z.of_nat s) ltac:(lia)) as Hd.
  rewrite Hm in Hd. unfold zlen in *.
  assert (0 <= (Z.of_nat (length data) - Z.of_nat p) / Z.of_nat s) by (apply Z.div_pos; lia). nia.
Qed.

Lemma decode_dynamic_inv data v :
  all_u8 data -> usize_len data -> decode_dynamic_values data = Ok v ->
  is_u32 (dv_loop_current v) /\ Forall (it_wf read_measured_value) (dv_values v) /\
  (1 <= length (dv_values v) <= 4)%nat /\ data = dynamic_values_layout v.
Proof.
  intros Hu Hlen Hd. pose proof Hd as Hg. unfold decode_dynamic_values in Hg.
  destruct (_ || _) eqn:Hc in Hg; [done|]. clear Hg.
  apply orb_false_elim in Hc as [H9%Z.ltb_ge H5%negb_false_iff%Z.eqb_eq].
  destruct (mod_zero_length data 4 5) as [k Hk]; [lia|unfold zlen in *; lia|done|].
  rewrite <-(take_drop 4 data) in Hu. apply Forall_app in Hu as [Hu4 Hu].
  assert (Ht : length (take 4 data) = 4%nat) by (rewrite length_take; lia).
  destruct (items_total read_measured_value k (drop 4 data) Hu) as (vs & Hvs & Hl & Ev).
  { rewrite length_drop. cbn. lia. }
  set (c := from_be_bytes (take 4 data)).
  assert (Hc : is_u32 c) by apply (be_field_bound 4 _ Hu4 Ht).
  assert (Edata : data = to_be_bytes 4 c ++ items_layout read_measured_value vs).
  { rewrite <-(take_drop 4 data). rewrite Ev. f_equal. symmetry. by apply (be_field 4). }
  pose proof (decode_dynamic_run c vs Hc Hvs) as Hrun. cbv zeta in Hrun. rewrite <-Edata in Hrun.
  unfold zlen in H9. specialize (Hrun ltac:(lia) Hlen).
  destruct (Nat.leb_spec (length vs) 4); [|destruct Hrun; congruence].
  rewrite Hrun in Hd. injection Hd as <-. cbn [dv_loop_current dv_values].
  split_and!; try done; lia.
Qed.

Lemma decode_variables_inv data v :
  all_u8 data -> usize_len data -> decode_device_variables data = Ok v ->
  is_u8 (dvs_extended_status v) /\ Forall (it_wf read_device_variable) (dvs_variables v) /\
  (length (dvs_variables v) <= 8)%nat /\ data = device_variables_layout v.
Proof.
  intros Hu Hlen Hd. pose proof Hd as Hg. unfold decode_device_variables in Hg.
  destruct (_ || _) eqn:Hc in Hg; [done|]. clear Hg.
  apply orb_false_elim in Hc as [H0%Z.eqb_neq H8%negb_false_iff%Z.eqb_eq].
  destruct (mod_zero_length data 1 8) as [k Hk]; [lia|unfold zlen in *; lia|done|].
  destruct data as [|s data]; [done|]. apply Forall_cons_iff in Hu as [Hs Hu].
  destruct (items_total read_device_variable k data Hu) as (vs & Hvs & Hl & Ev).
  { cbn in Hk |- *. lia. }
  pose proof (decode_variables_run s vs Hvs) as Hrun. cbv zeta in Hrun. rewrite <-Ev in Hrun.
  specialize (Hrun Hlen).
  destruct (Nat.leb_spec (length vs) 8); [|destruct Hrun; congruence].
  rewrite Hrun in Hd. injection Hd as <-. cbn [dvs_extended_status dvs_variables].
  split_and!; try done. unfold device_variables_layout. cbn. by rewrite Ev.
Qed.

Lemma decode_selected_inv data vs :
  all_u8 data -> decode_selected_variables data = Ok vs ->
  Forall (it_wf read_selected_variable) vs /\ (1 <= length vs <= 4)%nat /\
  data = items_layout read_selected_variable vs.
Proof.
  intros Hu Hd. pose proof Hd as Hg. unfold decode_selected_variables in Hg.
  destruct (_ || _) eqn:Hc in Hg; [done|]. clear Hg.
  apply orb_false_elim in Hc as [[H0%Z.eqb_neq H6%negb_false_iff%Z.eqb_eq]%orb_false_elim
    H24%Z.ltb_ge].
  destruct (mod_zero_length data 0 6) as [k Hk]; [lia|lia|by rewrite Z.sub_0_r|].
  destruct (items_total read_selected_variable k data Hu) as (vs' & Hvs & Hl & Ev);
    [cbn in *; lia|].
  assert (Hr : (1 <= length vs' <= 4)%nat) by (unfold zlen in *; lia).
  pose proof (decode_selected_run vs' Hvs Hr) as Hrun. rewrite <-Ev in Hrun.
  rewrite Hrun in Hd. injection Hd as <-. done.
Qed.

(** The decoders of repeated process records are exact. Command 3 accepts
    precisely a loop current and one to four measured values, Command 9 a status
    byte and at most eight variable records, Command 33 one to four selected
    variables; each returns exactly the values laid out in the data, and refuses
    every other byte string. *)
Theorem process_decoders_exact (data : bytes) :
  all_u8 data -> usize_len data ->
  (forall v, decode_dynamic_values data = Ok v <->
     is_u32 (dv_loop_current v) /\ Forall (it_wf read_measured_value) (dv_values v) /\
     (1 <= length (dv_values v) <= 4)%nat /\ data = dynamic_values_layout v) /\
  (forall v, decode_device_variables data = Ok v <->
     is_u8 (dvs_extended_status v) /\ Forall (it_wf read_device_variable) (dvs_variables v) /\
     (length (dvs_variables v) <= 8)%nat /\ data = device_variables_layout v) /\
  (forall vs, decode_selected_variables data = Ok vs <->
     Forall (it_wf read_selected_variable) vs /\ (1 <= length vs <= 4)%nat /\
     data = items_layout read_selected_variable vs).
Proof.
  intros Hu Hlen. split_and!; intros v; split.
  - by apply decode_dynamic_inv.
  - intros (Hc & Hwf & Hk & ->). destruct v as [c vs]. cbn in Hc, Hwf, Hk.
    pose proof (decode_dynamic_run c vs Hc Hwf ltac:(lia) Hlen) as Hrun.
    by rewrite (proj2 (Nat.leb_le _ _)) in Hrun by lia.
  - by apply decode_variables_inv.
  - intros (Hs & Hwf & Hk & ->). destruct v as [s vs]. cbn in Hs, Hwf, Hk.
    pose proof (decode_variables_run s vs Hwf Hlen) as Hrun.
    by rewrite (proj2 (Nat.leb_le _ _)) in Hrun by lia.
  - by apply decode_selected_inv.
  - intros (Hwf & Hk & ->). by apply decode_selected_run.
Qed.

Lemma process_decoders_exact_witness :
  let data := [0x41; 0x20; 0; 0; 32; 0x42; 0xc8; 0; 0] in
  decode_dynamic_values data =
    Ok (mkDynamicValues 0x41200000 [mkMeasuredValue 32 0x42c80000]).
Proof.
  intros data. apply (proj1 (process_decoders_exact data ltac:(unfold data; solve_bytes)
    ltac:(by vm_compute))).
  refine (conj _ (conj _ (conj _ _))).
  - unfold is_u32. cbn [dv_loop_current]. lia.
  - apply List.Forall_cons; [|apply List.Forall_nil]. change (is_u8 32 /\ is_u32 0x42c80000).
    unfold is_u8, is_u32. lia.
  - cbn [dv_values length]. lia.
  - reflexivity.
Defined.
