(* ===== verification/EchoProps.v ===== *)
(** * Confirmation of written values

    A HART device confirms a write by returning the data it was sent. For each
    write operation, the reply that echoes the request decodes to the value the
    operation was built with. *)
From S2P Require Import Prelude Chars Wire Catalog Codec Operation Text TextProps.
From S2P Require Import Identity Process Control Configuration Information OperationLaws ReplyProps.

(** Any successful reply to [op] whose data is the request's decodes to [v]. *)
Definition confirms {Op Output} `{Operation Op Output} (op : Op) (v : Output) : Prop :=
  forall a req reply,
    op_request op a = Ok req ->
    rep_command reply = op_command op -> rep_response_code reply = 0 ->
    rep_data reply = req_data req ->
    op_decode_reply op reply = Ok v.

Lemma confirms_intro {Op Output} `{LawfulOperation Op Output} (op : Op) (v : Output) l :
  op_encode_request op PayloadWriter_new = Ok (mkWriter l) ->
  (forall reply, rep_data reply = l -> op_body op reply = Ok v) ->
  confirms op v.
Proof.
  intros He Hb a req reply Hreq Hc H0 Hd. rewrite law_decode.
  rewrite (proj2 (require_success_Ok _ _)) by done. cbn [result_bind]. apply Hb. rewrite Hd.
  rewrite law_request in Hreq. unfold Operation_default_request in Hreq. rewrite He in Hreq.
  by injection Hreq as <-.
Qed.

(** Runs [read_all] over known bytes. *)
Lemma read_all_run {A} data (body : reader A) v past :
  body (at_ [] data) = Ok (v, at_ past []) -> read_all data body = Ok v.
Proof. intros H. unfold read_all. rewrite reader_new_at, H. cbn [result_bind]. by rewrite finish_at. Qed.

Lemma read_all_u8 field v : read_all [v] (PayloadReader_u8 field) = Ok v.
Proof. eapply read_all_run. by rewrite read_u8_at. Qed.

Lemma read_all_f32 field v :
  is_u32 v -> read_all (to_be_bytes 4 v) (PayloadReader_f32 field) = Ok v.
Proof.
  intros Hv. eapply read_all_run. rewrite <-(app_nil_r (to_be_bytes 4 v)).
  rewrite read_f32_at by (by vm_compute || apply length_to_be_bytes). by rewrite be_value.
Qed.

Lemma read_all_u24 field v :
  0 <= v <= 0xffffff -> read_all (to_be_bytes 3 v) (PayloadReader_u24 field) = Ok v.
Proof.
  intros Hv. eapply read_all_run. rewrite <-(app_nil_r (to_be_bytes 3 v)).
  rewrite read_u24_at; [|by vm_compute|apply to_be_bytes_u8|apply length_to_be_bytes].
  rewrite be_value; [done|]. change (256 ^ Z.of_nat 3) with 0x1000000. lia.
Qed.

Lemma set_damping_confirms o : op_valid o -> confirms o (sd_seconds o).
Proof.
  intros [Hu Hn]. apply (confirms_intro o _ (to_be_bytes 4 (sd_seconds o))).
  - unfold SetDamping_new in Hn. cbn [op_encode_request SetDamping_Operation default_operation].
    by destruct (_ || _).
  - intros r Hr. cbn. rewrite Hr. by apply read_all_f32.
Qed.

Lemma fixed_current_confirms o : op_valid o -> confirms o (fc_milliamps o).
Proof.
  intros [Hu Hn]. apply (confirms_intro o _ (to_be_bytes 4 (fc_milliamps o))).
  - unfold FixedCurrent_new in Hn. cbn [op_encode_request FixedCurrent_Operation default_operation].
    by destruct (negb _).
  - intros r Hr. cbn. rewrite Hr. by apply read_all_f32.
Qed.

Lemma analog_trim_confirms o : op_valid o -> confirms o (at_reference_current o).
Proof.
  intros (c & current & Hu & Hn). apply AnalogTrim_new_inv in Hn as [-> _].
  apply (confirms_intro _ _ (to_be_bytes 4 current)); [done|].
  intros r Hr. cbn. rewrite Hr. by apply read_all_f32.
Qed.

Lemma byte_write_confirms :
  (forall o, confirms o (ee_code o)) /\ (forall o, confirms o (wpu_unit o)) /\
  (forall o, confirms o (wtf_function o)).
Proof.
  split_and!; intros o; eapply confirms_intro; try done; intros r Hr; cbn in Hr |- *;
    rewrite Hr; apply read_all_u8.
Qed.

Lemma set_range_confirms o : op_valid o -> confirms o (sr_range o).
Proof.
  intros (unit & lower & upper & Hu & Hl & Hup & Hn).
  apply result_bind_Ok in Hn as (v & Hv & [= <-]). unfold RangeValues_new in Hv.
  destruct (_ || _) eqn:Hf in Hv; [done|]. injection Hv as <-.
  apply (confirms_intro _ _ (unit :: to_be_bytes 4 upper ++ to_be_bytes 4 lower ++ [])).
  - cbn [op_encode_request SetRange_Operation default_operation sr_range rv_upper rv_lower].
    rewrite Hf, app_nil_r. done.
  - intros r Hr. cbn [op_body SetRange_Lawful]. rewrite Hr. eapply read_all_run.
    unfold read_range_values. rewrite read_u8_at. cbn [result_bind].
    rewrite read_f32_at by (by vm_compute || apply length_to_be_bytes). cbn [result_bind].
    rewrite read_f32_at by (by vm_compute || apply length_to_be_bytes). cbn [result_bind].
    by rewrite !be_value.
Qed.

Lemma assembly_number_confirms o : op_valid o -> confirms o (wfa_number o).
Proof.
  intros [Hu Hn]. unfold WriteFinalAssemblyNumber_new in Hn.
  destruct (Z.ltb_spec 0xffffff (wfa_number o)); [done|].
  apply (confirms_intro o _ (to_be_bytes 3 (wfa_number o))).
  - cbn [op_encode_request WriteFinalAssemblyNumber_Operation default_operation].
    unfold PayloadWriter_u24. by destruct (Z.ltb_spec 0xffffff (wfa_number o)); [lia|].
  - intros r Hr. cbn [op_body WriteFinalAssemblyNumber_Lawful]. rewrite Hr.
    change (zlen (to_be_bytes 3 (wfa_number o)) =? 0) with false.
    apply read_all_u24. unfold is_u32 in Hu. lia.
Qed.

Lemma mask_node node : 0 <= node <= 63 -> Z.land node 0x3f = node.
Proof.
  intros H. assert (Hu : is_u8 node) by (unfold is_u8; lia). revert H. u8_decide node Hu.
Qed.

Lemma polling_address_confirms o : op_valid o -> confirms o (wpa_value o).
Proof.
  intros (node & enabled & Hu & Hn). apply result_bind_Ok in Hn as (v & Hv & [= <-]).
  unfold PollingAddress_new in Hv. destruct (Z.ltb_spec 63 node) as [|Hnode]; [done|].
  injection Hv as <-.
  apply (confirms_intro _ _ [node; if enabled then 1 else 0]).
  - cbn [op_encode_request WritePollingAddress_Operation default_operation
      wpa_value pa_node pa_loop_current_enabled].
    by rewrite (proj2 (Z.ltb_ge _ _) Hnode).
  - intros r Hr. cbn [op_body WritePollingAddress_Lawful wpa_value]. rewrite Hr.
    unfold decode_polling_address. eapply read_all_run. rewrite read_u8_at. cbn [result_bind].
    rewrite remaining_at. cbn [length Nat.eqb]. rewrite read_u8_at. cbn [result_bind].
    unfold is_u8 in Hu. rewrite mask_node by lia.
    by replace (negb ((if enabled then 1 else 0) =? 0)) with enabled by (by destruct enabled).
Qed.

Lemma legacy_address_confirms o :
  op_valid o -> confirms o (mkPollingAddress (wlp_node o) (wlp_node o =? 0)).
Proof.
  intros [Hu Hn]. unfold WriteLegacyPollingAddress_new in Hn.
  destruct (Z.ltb_spec 15 (wlp_node o)) as [|Hnode]; [done|].
  apply (confirms_intro _ _ [wlp_node o]).
  - cbn [op_encode_request WriteLegacyPollingAddress_Operation default_operation].
    by rewrite (proj2 (Z.ltb_ge _ _) Hnode).
  - intros r Hr. cbn [op_body WriteLegacyPollingAddress_Lawful]. rewrite Hr.
    unfold decode_polling_address. eapply read_all_run. rewrite read_u8_at. cbn [result_bind].
    rewrite remaining_at. cbn [length Nat.eqb result_bind]. unfold is_u8 in Hu.
    rewrite mask_node by lia. done.
Qed.

Lemma message_confirms m o : WriteMessage_new m = Ok o -> confirms o (trim_end m).
Proof.
  intros Hn. apply result_bind_Ok in Hn as (l & Hl & [= <-]).
  apply unpack_pack in Hl as (Hun & Hz & _); [|lia].
  apply (confirms_intro _ _ l); [done|]. intros r Hr. cbn [op_body WriteMessage_Lawful].
  unfold decode_message. rewrite Hr, Hz. cbn. by rewrite Hun.
Qed.

Lemma long_tag_confirms tag o :
  Forall (fun c => 0 <= c) tag -> WriteLongTag_new tag = Ok o ->
  confirms o (trim_end_matches (fun c => (c =? 0) || (c =? 32)) tag).
Proof.
  intros Ht Hn. apply result_bind_Ok in Hn as (l & Hl & [= <-]).
  apply (confirms_intro _ _ l); [done|]. intros r Hr. cbn [op_body WriteLongTag_Lawful].
  rewrite Hr. pose proof (encode_latin1_field tag l 32 ltac:(lia) Ht Hl) as [_ Hz].
  unfold decode_latin1. rewrite Hz. cbn [Z.eqb Pos.eqb negb]. f_equal.
  rewrite encode_latin1_spec in Hl by (done || lia). destruct (decide _); [|done].
  injection Hl as <-. by apply trim_end_matches_app, Forall_replicate.
Qed.

Lemma tag_descriptor_confirms v o :
  WriteTagDescriptorDate_new v = Ok o ->
  confirms o (mkTagDescriptorDate (trim_end (tdd_tag v)) (trim_end (tdd_descriptor v))
                (tdd_date v)).
Proof.
  intros Hn. apply WriteTagDescriptorDate_new_inv in Hn as (t & d & Hdate & Ht & Hd & Ho).
  apply unpack_pack in Ht as (Eut & Hzt & _); [|lia].
  apply unpack_pack in Hd as (Eud & Hzd & _); [|lia].
  assert (Hlt : length t = 6%nat) by (unfold zlen in Hzt; lia).
  assert (Hld : length d = 12%nat) by (unfold zlen in Hzd; lia).
  apply (confirms_intro _ _ (wt_data o)); [done|]. intros r Hr.
  cbn [op_body WriteTagDescriptorDate_Lawful]. rewrite Hr, Ho.
  unfold decode_tag_descriptor_date. rewrite !zlen_app, Hzt, Hzd. cbn [length Z.add].
  rewrite take_app_length' by done.
  rewrite !app_nth2 by (rewrite ?Hlt, ?Hld; lia). rewrite Hlt, Hld. cbn [Nat.sub nth].
  rewrite drop_app_length' by done. rewrite take_app_length' by done.
  destruct (tdd_date v) as [dd dm dy]. cbn [date_day date_month date_year_since_1900] in *.
  rewrite Hdate. cbn. by rewrite Eut, Eud.
Qed.

(** A confirmed write is confirmed with the value written. For every write
    operation a constructor admits (damping, range, fixed current, trim, memory
    control, unit, transfer function, assembly number, both polling-address forms,
    message, tag with descriptor and date, long tag), the successful reply that
    echoes the request data decodes to the value the operation was built from:
    exactly that value for numbers, the text without its trailing padding for
    texts, and for the one-byte polling address the mode implied by the node. *)
Theorem confirmed_writes_return_what_was_written :
  (forall o : SetDamping, op_valid o -> confirms o (sd_seconds o)) /\
  (forall o : SetRange, op_valid o -> confirms o (sr_range o)) /\
  (forall o : FixedCurrent, op_valid o -> confirms o (fc_milliamps o)) /\
  (forall o : AnalogTrim, op_valid o -> confirms o (at_reference_current o)) /\
  (forall o, confirms o (ee_code o)) /\ (forall o, confirms o (wpu_unit o)) /\
  (forall o, confirms o (wtf_function o)) /\
  (forall o : WriteFinalAssemblyNumber, op_valid o -> confirms o (wfa_number o)) /\
  (forall o : WritePollingAddress, op_valid o -> confirms o (wpa_value o)) /\
  (forall o : WriteLegacyPollingAddress, op_valid o ->
     confirms o (mkPollingAddress (wlp_node o) (wlp_node o =? 0))) /\
  (forall m o, WriteMessage_new m = Ok o -> confirms o (trim_end m)) /\
  (forall v o, WriteTagDescriptorDate_new v = Ok o ->
     confirms o (mkTagDescriptorDate (trim_end (tdd_tag v)) (trim_end (tdd_descriptor v))
                   (tdd_date v))) /\
  (forall tag o, Forall (fun c => 0 <= c) tag -> WriteLongTag_new tag = Ok o ->
     confirms o (trim_end_matches (fun c => (c =? 0) || (c =? 32)) tag)).
Proof.
  destruct byte_write_confirms as (? & ? & ?).
  split_and!; auto using set_damping_confirms, set_range_confirms, fixed_current_confirms,
    analog_trim_confirms, assembly_number_confirms, polling_address_confirms,
    legacy_address_confirms, message_confirms, tag_descriptor_confirms, long_tag_confirms.
Qed.

Lemma confirmed_writes_return_what_was_written_witness :
  let o := mkSetDamping 0x40000000 in
  op_decode_reply o (mkReply (Polling 0 Primary) (CommandCode_new 34) 0 0 [0x40; 0; 0; 0]
                       false Fsk 5 []) = Ok 0x40000000.
Proof.
  intros o.
  apply (proj1 confirmed_writes_return_what_was_written o) with (a := Polling 0 Primary)
    (req := Request_with_retry_safety
       (Request_new (Polling 0 Primary) (CommandCode_new 34) [0x40; 0; 0; 0]) IdempotentWrite);
    try reflexivity.
  split; [unfold is_u32; cbn; lia|reflexivity].
Defined.
