(* ===== verification/Transfer.v ===== *)
(** * Block transfer (src/src/service/transfer.rs)

    The sender and the receiver are state machines; an operation returns its result
    and the state it leaves, also when the result is an error. *)
From S2P Require Import Prelude.

Definition MAXIMUM_TRANSFER_BYTES : Z := 65536 * 251.

Record TransferBlock := mkBlock { blk_sequence : Z; blk_last : bool; blk_data : bytes }.

Record TransferProgress := mkProgress {
  prg_next_sequence : Z;
  prg_transferred_bytes : Z;
  prg_complete : bool;
}.

Inductive TransferError :=
  | BlockSize (n : Z)
  | BlockDataSize (n : Z)
  | EmptyIntermediateBlock
  | OutOfOrder (expected actual : Z)
  | TransferLimit
  | AlreadyComplete
  | TransferIncomplete
  | SequenceSpace.

#[global] Instance TransferError_eq_dec : EqDecision TransferError.
Proof. solve_decision. Defined.

(** ** Sender *)

Record BlockSender := mkSender {
  snd_source : bytes;
  snd_block_size : Z;
  snd_offset : Z;
  snd_sequence : Z;
  snd_complete : bool;
}.

(** [a.div_ceil(b)] for a positive [b]. *)
Definition div_ceil (a b : Z) : Z := (a + b - 1) / b.

Definition BlockSender_new (source : bytes) (block_size : Z) : result TransferError BlockSender :=
  return_if negb ((1 <=? block_size) && (block_size <=? 251)) err BlockSize block_size ;;
  return_if MAXIMUM_TRANSFER_BYTES <? zlen source err TransferLimit ;;
  let required_blocks := div_ceil (Z.max (zlen source) 1) block_size in
  return_if u16_max + 1 <? required_blocks err SequenceSpace ;;
  Ok (mkSender source block_size 0 0 false).

Definition BlockSender_next_block (s : BlockSender)
    : result TransferError (option TransferBlock) * BlockSender :=
  if snd_complete s then (Ok None, s)
  else
    let end_ := Z.min (saturating_add usize_max (snd_offset s) (snd_block_size s))
                      (zlen (snd_source s)) in
    let last := end_ =? zlen (snd_source s) in
    let block := mkBlock (snd_sequence s) last
                   (take (Z.to_nat (end_ - snd_offset s))
                      (drop (Z.to_nat (snd_offset s)) (snd_source s))) in
    let s1 := mkSender (snd_source s) (snd_block_size s) end_ (snd_sequence s) last in
    if last then (Ok (Some block), s1)
    else
      match checked_add u16_max (snd_sequence s) 1 with
      | Some next =>
          (Ok (Some block), mkSender (snd_source s) (snd_block_size s) end_ next last)
      | None => (Err SequenceSpace, s1)
      end.

Definition BlockSender_progress (s : BlockSender) : TransferProgress :=
  mkProgress (snd_sequence s) (Z.min (snd_offset s) (zlen (snd_source s))) (snd_complete s).

(** ** Receiver *)

Record BlockReceiver := mkReceiver {
  rcv_bytes : bytes;
  rcv_maximum_bytes : Z;
  rcv_next_sequence : Z;
  rcv_complete : bool;
}.

Definition BlockReceiver_new (maximum_bytes : Z) : BlockReceiver :=
  mkReceiver [] (Z.min maximum_bytes MAXIMUM_TRANSFER_BYTES) 0 false.

Definition BlockReceiver_try_new (maximum_bytes : Z) : result TransferError BlockReceiver :=
  return_if MAXIMUM_TRANSFER_BYTES <? maximum_bytes err TransferLimit ;;
  Ok (BlockReceiver_new maximum_bytes).

Definition BlockReceiver_progress (r : BlockReceiver) : TransferProgress :=
  mkProgress (rcv_next_sequence r) (zlen (rcv_bytes r)) (rcv_complete r).

Definition BlockReceiver_accept (r : BlockReceiver) (block : TransferBlock)
    : result TransferError TransferProgress * BlockReceiver :=
  if rcv_complete r then (Err AlreadyComplete, r)
  else if 251 <? zlen (blk_data block) then (Err (BlockDataSize (zlen (blk_data block))), r)
  else if (zlen (blk_data block) =? 0) && negb (blk_last block)
  then (Err EmptyIntermediateBlock, r)
  else if negb (blk_sequence block =? rcv_next_sequence r)
  then (Err (OutOfOrder (rcv_next_sequence r) (blk_sequence block)), r)
  else
    match checked_add usize_max (zlen (rcv_bytes r)) (zlen (blk_data block)) with
    | None => (Err TransferLimit, r)
    | Some new_len =>
        if rcv_maximum_bytes r <? new_len then (Err TransferLimit, r)
        else
          let r1 := mkReceiver (rcv_bytes r ++ blk_data block) (rcv_maximum_bytes r)
                      (rcv_next_sequence r) (blk_last block) in
          if blk_last block then (Ok (BlockReceiver_progress r1), r1)
          else
            match checked_add u16_max (rcv_next_sequence r) 1 with
            | Some next =>
                let r2 := mkReceiver (rcv_bytes r1) (rcv_maximum_bytes r) next (blk_last block) in
                (Ok (BlockReceiver_progress r2), r2)
            | None => (Err SequenceSpace, r1)
            end
    end.

Definition BlockReceiver_finish (r : BlockReceiver) : result TransferError bytes :=
  if rcv_complete r then Ok (rcv_bytes r) else Err TransferIncomplete.

(** ** A whole transfer: the sender's blocks handed to the receiver in order *)

Inductive transfer_outcome :=
  | Delivered (data : result TransferError bytes) (blocks : Z)
  | SenderFailed (e : TransferError)
  | ReceiverFailed (e : TransferError)
  | OutOfFuel.

Fixpoint run_transfer (fuel : nat) (s : BlockSender) (r : BlockReceiver) (blocks : Z)
    : transfer_outcome :=
  match fuel with
  | O => OutOfFuel
  | S fuel =>
      match BlockSender_next_block s with
      | (Ok None, _) => Delivered (BlockReceiver_finish r) blocks
      | (Ok (Some block), s') =>
          match BlockReceiver_accept r block with
          | (Ok _, r') => run_transfer fuel s' r' (blocks + 1)
          | (Err e, _) => ReceiverFailed e
          end
      | (Err e, _) => SenderFailed e
      end
  end.

(** Every block offered to the receiver, with the receiver's answer. *)
Fixpoint accept_all (r : BlockReceiver) (offered : list TransferBlock)
    : list (TransferBlock * result TransferError TransferProgress) * BlockReceiver :=
  match offered with
  | [] => ([], r)
  | b :: offered =>
      let '(answer, r) := BlockReceiver_accept r b in
      let '(rest, r) := accept_all r offered in
      ((b, answer) :: rest, r)
  end.

(** ** Facts about whole transfers *)

Lemma div_ceil_spec a b : 0 < b -> 0 <= a ->
  (div_ceil a b - 1) * b < a <= div_ceil a b * b \/ a = 0 /\ div_ceil a b = 0.
Proof.
  intros Hb Ha. unfold div_ceil. pose proof (Z.div_mod (a + b - 1) b ltac:(lia)).
  pose proof (Z.mod_pos_bound (a + b - 1) b Hb). destruct (Z.eq_dec a 0); [right|left; nia].
  split; [done|]. apply Z.div_small. lia.
Qed.

(** The sender and the receiver after [k] blocks. *)
Record in_step (source : bytes) (size maximum k : Z) (s : BlockSender) (r : BlockReceiver) : Prop := {
  ins_source : snd_source s = source;
  ins_size : snd_block_size s = size;
  ins_complete : snd_complete s = rcv_complete r;
  ins_maximum : rcv_maximum_bytes r = maximum;
  ins_bytes : rcv_bytes r = take (Z.to_nat (snd_offset s)) source;
  ins_progress : if snd_complete s then snd_offset s = zlen source /\ k = div_ceil (Z.max (zlen source) 1) size
                 else snd_offset s = k * size /\ snd_sequence s = k /\ rcv_next_sequence r = k /\
                      (k * size < zlen source \/ k = 0);
}.
