(* ===== verification/TransferProps.v ===== *)
(** * Properties of block transfer *)
From S2P Require Import Prelude Transfer.

Section transfer.
Context (source : bytes) (size maximum : Z).
Hypothesis (Hsize : 1 <= size <= 251).
Hypothesis (Hmax : zlen source <= maximum <= MAXIMUM_TRANSFER_BYTES).
Let required : Z := div_ceil (Z.max (zlen source) 1) size.
Hypothesis (Hrequired : required <= 65536).

Lemma required_bounds : (required - 1) * size < Z.max (zlen source) 1 <= required * size.
Proof.
  destruct (div_ceil_spec (Z.max (zlen source) 1) size) as [?|[? _]]; unfold required; lia.
Qed.

(** The bytes of block [k]. *)
Lemma block_data (off end_ : Z) :
  0 <= off <= end_ -> end_ <= zlen source ->
  let data := take (Z.to_nat (end_ - off)) (drop (Z.to_nat off) source) in
  zlen data = end_ - off /\
  take (Z.to_nat off) source ++ data = take (Z.to_nat end_) source.
Proof.
  intros Ho He data. unfold data, zlen in *. rewrite length_take, length_drop. split; [lia|].
  replace (Z.to_nat end_) with (Z.to_nat off + Z.to_nat (end_ - off))%nat by lia.
  apply take_take_drop.
Qed.

Lemma transfer_step k s r :
  in_step source size maximum k s r -> 0 <= k -> snd_complete s = false ->
  exists block s' progress r',
    BlockSender_next_block s = (Ok (Some block), s') /\
    BlockReceiver_accept r block = (Ok progress, r') /\
    in_step source size maximum (k + 1) s' r'.
Proof.
  intros [] Hk Hc. rewrite Hc in *. destruct ins_progress as (Hoff & Hseq & Hnext & Hmore).
  pose proof required_bounds as Hreq. pose proof (zlen_nonneg source) as Hn.
  unfold MAXIMUM_TRANSFER_BYTES in Hmax.
  assert (Hkr : k * size <= zlen source) by nia.
  unfold BlockSender_next_block. rewrite Hc, ins_source, ins_size, Hoff, Hseq.
  unfold saturating_add. rewrite (Z.min_r usize_max) by (unfold usize_max, u64_max; lia).
  set (end_ := Z.min (k * size + size) (zlen source)).
  destruct (block_data (k * size) end_) as [Hlen Happ]; [unfold end_; nia|unfold end_; lia|].
  set (data := take (Z.to_nat (end_ - k * size)) (drop (Z.to_nat (k * size)) source)) in *.
  assert (Hacc : forall last, (last = false -> zlen data <> 0) ->
    BlockReceiver_accept r (mkBlock k last data) =
      let r1 := mkReceiver (take (Z.to_nat end_) source) maximum k last in
      if last then (Ok (BlockReceiver_progress r1), r1)
      else match checked_add u16_max k 1 with
           | Some next => let r2 := mkReceiver (take (Z.to_nat end_) source) maximum next last in
                          (Ok (BlockReceiver_progress r2), r2)
           | None => (Err SequenceSpace, r1)
           end).
  { intros last Hne. unfold BlockReceiver_accept. rewrite <-ins_complete, Hnext, ins_maximum.
    cbn [blk_data blk_last blk_sequence].
    replace (251 <? zlen data) with false by (unfold end_ in Hlen; lia).
    replace ((zlen data =? 0) && negb last) with false by (destruct last; cbn; lia).
    rewrite Z.eqb_refl. cbn [negb]. unfold checked_add at 1.
    assert (Hz : zlen (rcv_bytes r) + zlen data = end_).
    { rewrite ins_bytes, Hoff. unfold zlen at 1. rewrite length_take. unfold zlen in *. lia. }
    rewrite Hz. replace (end_ <=? usize_max) with true
      by (unfold end_, usize_max, u64_max; lia).
    replace (maximum <? end_) with false by (unfold end_; lia).
    rewrite ins_bytes, Hoff, Happ. done. }
  destruct (Z.eqb_spec end_ (zlen source)) as [Hlast|Hnot].
  - exists (mkBlock k true data). do 3 eexists. rewrite Hacc by done. split_and!; [done|done|].
    constructor; cbn; try done. split; [lia|]. fold required. unfold end_ in Hlast. nia.
  - assert (Hend : end_ = (k + 1) * size) by (unfold end_ in *; lia).
    assert (Hsp : checked_add u16_max k 1 = Some (k + 1)).
    { unfold checked_add, u16_max. replace (k + 1 <=? 65535) with true; [done|].
      symmetry. apply Z.leb_le. unfold end_ in Hnot. nia. }
    rewrite Hsp. exists (mkBlock k false data). do 3 eexists. rewrite Hacc by (intros _; lia).
    rewrite Hsp.
    split_and!; [done|done|]. constructor; cbn; try done. split_and!; (done || (unfold end_ in *; lia)).
Qed.

Lemma transfer_runs fuel k s r :
  in_step source size maximum k s r -> 0 <= k ->
  (if snd_complete s then (0 < fuel)%nat else required - k + 1 <= Z.of_nat fuel /\ k < required) ->
  run_transfer fuel s r k = Delivered (Ok source) required.
Proof.
  revert k s r. induction fuel as [|fuel IH]; intros k s r Hin Hk Hfuel; [destruct (snd_complete s); lia|].
  destruct (snd_complete s) eqn:Hc.
  - destruct Hin. rewrite Hc in *. destruct ins_progress as [Hoff ->]. cbn [run_transfer].
    unfold BlockSender_next_block. rewrite Hc. unfold BlockReceiver_finish.
    rewrite <-ins_complete, ins_bytes, Hoff. rewrite take_ge; [done|]. unfold zlen. lia.
  - destruct (transfer_step k s r Hin Hk Hc) as (b & s' & p & r' & Hs & Hr & Hin').
    cbn [run_transfer]. rewrite Hs, Hr. apply IH; [done|lia|].
    pose proof required_bounds as Hreq. destruct Hin' as [_ _ _ _ _ Hp].
    destruct (snd_complete s'); [lia|]. split; [lia|]. destruct Hp as (_ & _ & _ & [?|?]); nia.
Qed.
End transfer.

(** C38. A block transfer delivers its source. Whenever the sender is created, its
    blocks, handed in order to a receiver whose limit admits the source, are all
    accepted, the transfer ends after exactly ceil(len / size) blocks (one for an
    empty source), within the 16-bit numbers, and the receiver's data is the
    source; neither side reports an error. *)
Theorem transfer_delivers (source : bytes) (size maximum : Z) (s : BlockSender) :
  BlockSender_new source size = Ok s -> zlen source <= maximum ->
  let blocks := div_ceil (Z.max (zlen source) 1) size in
  1 <= blocks <= 65536 /\
  run_transfer (S (Z.to_nat blocks)) s (BlockReceiver_new maximum) 0 =
    Delivered (Ok source) blocks.
Proof.
  intros Hs Hmax blocks. unfold BlockSender_new in Hs.
  destruct (Z.leb_spec 1 size), (Z.leb_spec size 251); cbn [andb negb] in Hs; try done.
  destruct (Z.ltb_spec MAXIMUM_TRANSFER_BYTES (zlen source)); [done|].
  fold blocks in Hs. unfold u16_max in Hs. destruct (Z.ltb_spec (65535 + 1) blocks); [done|].
  injection Hs as <-. pose proof (zlen_nonneg source).
  pose proof (required_bounds source size ltac:(lia)) as Hb. fold blocks in Hb.
  assert (1 <= blocks) by nia. split; [lia|].
  apply (transfer_runs source size (Z.min maximum MAXIMUM_TRANSFER_BYTES));
    [lia|lia|fold blocks; lia| |lia|].
  - constructor; cbn; try done. split_and!; first [done | lia | by right].
  - cbn [snd_complete]. fold blocks. lia.
Qed.

Lemma transfer_delivers_witness :
  let s := mkSender [1; 2; 3; 4; 5] 2 0 0 false in
  run_transfer 4 s (BlockReceiver_new 100) 0 = Delivered (Ok [1; 2; 3; 4; 5]) 3.
Proof.
  intros s. apply (transfer_delivers [1; 2; 3; 4; 5] 2 100 s); [reflexivity|by vm_compute].
Defined.

(** ** The receiver against arbitrary blocks *)

Lemma accept_Ok_inv r b p r' :
  BlockReceiver_accept r b = (Ok p, r') ->
  rcv_complete r = false /\ blk_sequence b = rcv_next_sequence r /\
  zlen (blk_data b) <= 251 /\ (blk_last b = false -> blk_data b <> []) /\
  zlen (rcv_bytes r ++ blk_data b) <= rcv_maximum_bytes r /\
  p = BlockReceiver_progress r' /\
  r' = mkReceiver (rcv_bytes r ++ blk_data b) (rcv_maximum_bytes r)
         (if blk_last b then rcv_next_sequence r else rcv_next_sequence r + 1) (blk_last b).
Proof.
  unfold BlockReceiver_accept. destruct (rcv_complete r); [done|].
  destruct (Z.ltb_spec 251 (zlen (blk_data b))); [done|].
  destruct ((zlen (blk_data b) =? 0) && negb (blk_last b)) eqn:He; [done|].
  destruct (Z.eqb_spec (blk_sequence b) (rcv_next_sequence r)) as [Hs|]; cbn [negb]; [|done].
  unfold checked_add. destruct (_ <=? usize_max); [|done].
  destruct (Z.ltb_spec (rcv_maximum_bytes r) (zlen (rcv_bytes r) + zlen (blk_data b))); [done|].
  assert (Hne : blk_last b = false -> blk_data b <> []).
  { intros Hl. rewrite Hl in He. intros E. by rewrite E in He. }
  rewrite zlen_app. destruct (blk_last b).
  - intros [= <- <-]. split_and!; try (done || lia).
  - destruct (_ <=? u16_max); [|done]. intros [= <- <-]. split_and!; try (done || lia).
Qed.

Lemma accept_Err_inv r b e r' :
  BlockReceiver_accept r b = (Err e, r') -> e <> SequenceSpace -> r' = r.
Proof.
  unfold BlockReceiver_accept. intros H Hne.
  repeat (case_match; simplify_eq; try done).
Qed.

(** The blocks answered with [Ok]. *)
Definition accepted_blocks
    (answers : list (TransferBlock * result TransferError TransferProgress))
    : list TransferBlock :=
  map fst (List.filter (fun x => is_ok x.2) answers).

Lemma accept_all_spec offered r answers r' :
  accept_all r offered = (answers, r') ->
  Forall (fun x => x.2 <> Err SequenceSpace) answers ->
  let oks := accepted_blocks answers in
  rcv_maximum_bytes r' = rcv_maximum_bytes r /\
  rcv_bytes r' = rcv_bytes r ++ concat (map blk_data oks) /\
  map blk_sequence oks = seqZ (rcv_next_sequence r) (zlen oks) /\
  (zlen (rcv_bytes r) <= rcv_maximum_bytes r -> zlen (rcv_bytes r') <= rcv_maximum_bytes r) /\
  (if rcv_complete r then oks = [] /\ rcv_complete r' = true
   else if rcv_complete r' then
     exists init final, oks = init ++ [final] /\ blk_last final = true /\
       Forall (fun b => blk_last b = false /\ blk_data b <> []) init
   else Forall (fun b => blk_last b = false /\ blk_data b <> []) oks).
Proof.
  revert r answers r'. induction offered as [|b offered IH]; intros r answers r' Hall Hsp; cbv zeta.
  - injection Hall as <- <-. cbn. rewrite app_nil_r. destruct (rcv_complete r); done.
  - cbn [accept_all] in Hall. destruct (BlockReceiver_accept r b) as [ans r1] eqn:Ha.
    destruct (accept_all r1 offered) as [rest r2] eqn:Hrest. injection Hall as <- <-.
    apply Forall_cons_iff in Hsp as [Hb Hsp]. cbn [snd] in Hb.
    destruct (IH _ _ _ Hrest Hsp) as (I1 & I2 & I3 & I4 & I5). cbv zeta in *.
    destruct ans as [p|e]; unfold accepted_blocks; cbn [List.filter is_ok snd map fst];
      fold (accepted_blocks rest).
    + apply accept_Ok_inv in Ha as (Hc & Hs & Hd & Hne & Hm & -> & ->).
      cbn [rcv_bytes rcv_maximum_bytes rcv_next_sequence rcv_complete] in *. rewrite Hc.
      split_and!.
      * done.
      * rewrite I2. cbn [concat]. by rewrite app_assoc.
      * assert (Hz : zlen (b :: accepted_blocks rest) = Z.succ (zlen (accepted_blocks rest)))
          by (unfold zlen; cbn [length]; lia).
        rewrite Hz, seqZ_cons by (pose proof (zlen_nonneg (accepted_blocks rest)); lia).
        cbn [map]. rewrite Hs, Z.pred_succ, I3. f_equal. destruct (blk_last b); [|done].
        by destruct I5 as [-> _].
      * intros _. by apply I4.
      * destruct (blk_last b) eqn:Hl.
        -- destruct I5 as [-> ->]. by exists [], b.
        -- destruct (rcv_complete r2).
           ++ destruct I5 as (init & final & -> & Hf & Hinit).
              exists (b :: init), final. split_and!; [done|done|]. constructor; auto.
           ++ constructor; auto.
    + apply accept_Err_inv in Ha as ->; [done|congruence].
Qed.

(** The receiver assembles what it accepted and nothing else. Offered any
    blocks in any order (and as long as the 16-bit number space is not overrun),
    the data it holds is the concatenation of the accepted blocks, which carry the
    numbers 0, 1, 2, ... without gap, repetition or reordering and, but for the
    final one, are non-empty and not marked last; the total never exceeds the
    configured limit nor the hard one; and the data is handed out exactly when the
    block marked last has been accepted. *)
Theorem receiver_integrity (maximum : Z) (offered : list TransferBlock)
    (answers : list (TransferBlock * result TransferError TransferProgress))
    (r : BlockReceiver) :
  0 <= maximum ->
  accept_all (BlockReceiver_new maximum) offered = (answers, r) ->
  Forall (fun x => x.2 <> Err SequenceSpace) answers ->
  let oks := accepted_blocks answers in
  rcv_bytes r = concat (map blk_data oks) /\
  map blk_sequence oks = seqZ 0 (zlen oks) /\
  zlen (rcv_bytes r) <= Z.min maximum MAXIMUM_TRANSFER_BYTES /\
  match BlockReceiver_finish r with
  | Ok data => data = concat (map blk_data oks) /\
      exists init final, oks = init ++ [final] /\ blk_last final = true /\
        Forall (fun b => blk_last b = false /\ blk_data b <> []) init
  | Err e => e = TransferIncomplete /\
      Forall (fun b => blk_last b = false /\ blk_data b <> []) oks
  end.
Proof.
  intros Hm Hall Hsp oks.
  destruct (accept_all_spec _ _ _ _ Hall Hsp) as (I1 & I2 & I3 & I4 & I5). fold oks in I2, I3, I5.
  cbn in I1, I2, I3, I4, I5. split_and!; [done|done| |].
  - apply I4. unfold zlen, MAXIMUM_TRANSFER_BYTES. cbn [length]. lia.
  - unfold BlockReceiver_finish. destruct (rcv_complete r); [split; [by rewrite I2|done]|done].
Qed.

Lemma receiver_integrity_witness :
  let offered := [mkBlock 1 false [9]; mkBlock 0 false [1; 2]; mkBlock 0 false [1; 2];
                  mkBlock 1 true [3]; mkBlock 2 true [4]] in
  let r := (accept_all (BlockReceiver_new 10) offered).2 in
  rcv_bytes r = [1; 2; 3] /\ BlockReceiver_finish r = Ok [1; 2; 3].
Proof.
  intros offered r.
  destruct (receiver_integrity 10 offered (accept_all (BlockReceiver_new 10) offered).1 r)
    as (Hb & _); [lia|reflexivity| |].
  - vm_compute. repeat (apply List.Forall_cons; [discriminate|]). apply List.Forall_nil.
  - split; [exact Hb|reflexivity].
Defined.

(** Overrunning the number space is not clean: the last number offered as a
    non-final block is refused, but its data stays in the receiver, which still
    expects that number and takes the same block's data again. *)
Example refused_block_is_kept :
  let r := mkReceiver [1] 100 65535 false in
  let b := mkBlock 65535 false [7] in
  let '(a1, r1) := BlockReceiver_accept r b in
  let '(a2, r2) := BlockReceiver_accept r1 b in
  a1 = Err SequenceSpace /\ a2 = Err SequenceSpace /\ rcv_bytes r2 = [1; 7; 7].
Proof. by vm_compute. Qed.
