(* ===== verification/Tables.v ===== *)
(** * Common tables and their repository (src/src/tables.rs)

    A [BTreeMap] that is iterated is the list of its entries in key order; one that
    is only looked up, measured and updated is a [gmap]. *)
From stdpp Require Import gmap.
From S2P Require Import Prelude Chars.

Definition MAXIMUM_COMMON_TABLE_ENTRIES : Z := 65536.
Definition MAXIMUM_COMMON_TABLE_TEXT_BYTES : Z := 1024.
Definition DEFAULT_MAXIMUM_TABLES : Z := 1024.
Definition DEFAULT_MAXIMUM_TABLE_ENTRIES : Z := 1048576.
Definition MAXIMUM_TABLES : Z := 4096.
Definition MAXIMUM_TABLE_ENTRIES : Z := 4194304.

Inductive TableError :=
  | ZeroRepositoryLimit
  | RepositoryTableLimit (n : Z)
  | RepositoryEntryLimit (n : Z)
  | MissingRevision (number : Z)
  | MismatchedCode (key value : Z)
  | EmptyLabel (code : Z)
  | TextTooLong (what : string) (n : Z)
  | TooManyEntries (n : Z).

Record TableRepositoryLimits := mkTableLimits { lim_tables : Z; lim_entries : Z }.

Definition TableRepositoryLimits_default : TableRepositoryLimits :=
  mkTableLimits DEFAULT_MAXIMUM_TABLES DEFAULT_MAXIMUM_TABLE_ENTRIES.

Definition TableRepositoryLimits_with_tables (l : TableRepositoryLimits) (tables : Z)
    : TableRepositoryLimits := mkTableLimits tables (lim_entries l).

Definition TableRepositoryLimits_with_entries (l : TableRepositoryLimits) (entries : Z)
    : TableRepositoryLimits := mkTableLimits (lim_tables l) entries.

Definition TableRepositoryLimits_validate (l : TableRepositoryLimits) : result TableError unit :=
  return_if (lim_tables l =? 0) || (lim_entries l =? 0) err ZeroRepositoryLimit ;;
  return_if MAXIMUM_TABLES <? lim_tables l err RepositoryTableLimit (lim_tables l) ;;
  return_if MAXIMUM_TABLE_ENTRIES <? lim_entries l err RepositoryEntryLimit (lim_entries l) ;;
  Ok tt.

Record TableEntry := mkTableEntry { ent_code : Z; ent_label : text }.

Record CommonTable := mkCommonTable {
  tab_number : Z;
  tab_revision : text;
  tab_entries : list (Z * TableEntry);
}.

(** The loop over the entries. *)
Fixpoint validate_entries (entries : list (Z * TableEntry)) : result TableError unit :=
  match entries with
  | [] => Ok tt
  | (code, entry) :: entries =>
      return_if negb (code =? ent_code entry) err MismatchedCode code (ent_code entry) ;;
      return_if (zlen (trim (ent_label entry)) =? 0) err EmptyLabel code ;;
      return_if MAXIMUM_COMMON_TABLE_TEXT_BYTES <? str_len (ent_label entry)
        err TextTooLong "entry label" (str_len (ent_label entry)) ;;
      validate_entries entries
  end.

Definition CommonTable_validate (t : CommonTable) : result TableError unit :=
  return_if (zlen (trim (tab_revision t)) =? 0) err MissingRevision (tab_number t) ;;
  return_if MAXIMUM_COMMON_TABLE_TEXT_BYTES <? str_len (tab_revision t)
    err TextTooLong "revision" (str_len (tab_revision t)) ;;
  return_if MAXIMUM_COMMON_TABLE_ENTRIES <? zlen (tab_entries t)
    err TooManyEntries (zlen (tab_entries t)) ;;
  validate_entries (tab_entries t).

Inductive ResolvedCode := Known (entry : TableEntry) | UnknownCode (code : Z).

Definition CommonTable_resolve (t : CommonTable) (code : Z) : ResolvedCode :=
  match List.find (fun kv => kv.1 =? code) (tab_entries t) with
  | Some kv => Known kv.2
  | None => UnknownCode code
  end.

Record TableRepository := mkRepository {
  repo_tables : gmap Z CommonTable;
  repo_limits : TableRepositoryLimits;
  repo_total_entries : Z;
}.

Definition TableRepository_new : TableRepository :=
  mkRepository ∅ (mkTableLimits DEFAULT_MAXIMUM_TABLES DEFAULT_MAXIMUM_TABLE_ENTRIES) 0.

Definition TableRepository_with_limits (limits : TableRepositoryLimits)
    : result TableError TableRepository :=
  let? _ := TableRepositoryLimits_validate limits ;;
  Ok (mkRepository ∅ limits 0).

Definition TableRepository_get (r : TableRepository) (number : Z) : option CommonTable :=
  repo_tables r !! number.

Definition TableRepository_len (r : TableRepository) : Z := Z.of_nat (size (repo_tables r)).

Definition TableRepository_is_empty (r : TableRepository) : bool :=
  bool_decide (repo_tables r = ∅).

Definition TableRepository_replace (r : TableRepository) (table : CommonTable)
    : result TableError (option CommonTable) * TableRepository :=
  match CommonTable_validate table with
  | Err e => (Err e, r)
  | Ok _ =>
      let previous := repo_tables r !! tab_number table in
      let previous_entries :=
        match previous with Some t => zlen (tab_entries t) | None => 0 end in
      if match previous with None => true | Some _ => false end
         && (lim_tables (repo_limits r) <=? TableRepository_len r)
      then (Err (RepositoryTableLimit (lim_tables (repo_limits r))), r)
      else
        match checked_sub (repo_total_entries r) previous_entries ≫=
              (fun count => checked_add usize_max count (zlen (tab_entries table))) with
        | None => (Err (RepositoryEntryLimit (lim_entries (repo_limits r))), r)
        | Some total_entries =>
            if lim_entries (repo_limits r) <? total_entries
            then (Err (RepositoryEntryLimit (lim_entries (repo_limits r))), r)
            else (Ok previous,
                  mkRepository (<[tab_number table := table]> (repo_tables r))
                    (repo_limits r) total_entries)
        end
  end.

(** ** The number of entries held by a map of tables *)

Definition entries_sum (l : list (Z * CommonTable)) : Z :=
  foldr (fun kv n => zlen (tab_entries kv.2) + n) 0 l.

Definition table_total (m : gmap Z CommonTable) : Z := entries_sum (map_to_list m).

#[global] Instance entries_sum_perm : Proper (Permutation ==> eq) entries_sum.
Proof.
  intros l k H. induction H; cbn in *; unfold entries_sum in *; cbn; lia.
Qed.

Lemma table_total_insert_fresh m k t :
  m !! k = None -> table_total (<[k:=t]> m) = zlen (tab_entries t) + table_total m.
Proof. intros H. unfold table_total. by rewrite map_to_list_insert. Qed.

Lemma table_total_insert m k t old :
  m !! k = Some old ->
  table_total (<[k:=t]> m) = table_total m - zlen (tab_entries old) + zlen (tab_entries t).
Proof.
  intros H. rewrite <-(insert_delete_id m k old H) at 2.
  rewrite <-insert_delete_eq. rewrite !table_total_insert_fresh by apply lookup_delete_eq. lia.
Qed.

Lemma table_total_nonneg m : 0 <= table_total m.
Proof.
  unfold table_total. induction (map_to_list m) as [|kv l IH]; cbn; [done|].
  pose proof (zlen_nonneg (tab_entries kv.2)). unfold entries_sum in *. lia.
Qed.

Lemma table_total_entry m k t : m !! k = Some t -> zlen (tab_entries t) <= table_total m.
Proof.
  intros H. rewrite <-(insert_delete_id m k t H).
  rewrite table_total_insert_fresh by apply lookup_delete_eq.
  pose proof (table_total_nonneg (delete k m)). lia.
Qed.

(** ** Properties of the table repository *)

Record repo_inv (r : TableRepository) : Prop := {
  inv_limits : 0 <= lim_tables (repo_limits r) /\ 0 <= lim_entries (repo_limits r) /\
               TableRepositoryLimits_validate (repo_limits r) = Ok tt;
  inv_total : repo_total_entries r = table_total (repo_tables r);
  inv_tables : TableRepository_len r <= lim_tables (repo_limits r);
  inv_entries : repo_total_entries r <= lim_entries (repo_limits r);
  inv_valid : map_Forall (fun k t => tab_number t = k /\ CommonTable_validate t = Ok tt)
                (repo_tables r);
}.

Lemma limits_bounded l :
  TableRepositoryLimits_validate l = Ok tt ->
  lim_tables l <= MAXIMUM_TABLES /\ lim_entries l <= MAXIMUM_TABLE_ENTRIES.
Proof.
  unfold TableRepositoryLimits_validate. destruct (_ || _); [done|].
  destruct (Z.ltb_spec MAXIMUM_TABLES (lim_tables l)); [done|].
  destruct (Z.ltb_spec MAXIMUM_TABLE_ENTRIES (lim_entries l)); [done|]. done.
Qed.

Lemma validate_length t : CommonTable_validate t = Ok tt -> zlen (tab_entries t) <= 65536.
Proof.
  unfold CommonTable_validate, MAXIMUM_COMMON_TABLE_ENTRIES. repeat (case_match; [done|]).
  intros _. by apply Z.ltb_ge.
Qed.

Lemma validate_entries_spec l :
  validate_entries l = Ok tt ->
  Forall (fun kv => ent_code kv.2 = kv.1 /\ trim (ent_label kv.2) <> [] /\
                    str_len (ent_label kv.2) <= 1024) l.
Proof.
  induction l as [|[code entry] l IH]; [constructor|]. cbn [validate_entries].
  destruct (Z.eqb_spec code (ent_code entry)); cbn [negb]; [|done].
  destruct (zlen (trim (ent_label entry)) =? 0) eqn:Ht; [done|].
  destruct (Z.ltb_spec MAXIMUM_COMMON_TABLE_TEXT_BYTES (str_len (ent_label entry))); [done|].
  intros H1. constructor; [|auto]. split_and!; [done| |done].
  intros E. cbn in E. by rewrite E in Ht.
Qed.

Lemma validate_entries_of t :
  CommonTable_validate t = Ok tt -> validate_entries (tab_entries t) = Ok tt.
Proof. unfold CommonTable_validate. by repeat (case_match; [done|]). Qed.

(** A validated table resolves a code to the entry of that code, or reports that
    no entry has it. *)
Lemma resolve_validated t code :
  CommonTable_validate t = Ok tt ->
  match CommonTable_resolve t code with
  | Known e => ent_code e = code /\ trim (ent_label e) <> []
  | UnknownCode c => c = code /\ Forall (fun kv => ent_code kv.2 <> code) (tab_entries t)
  end.
Proof.
  intros Hv%validate_entries_of%validate_entries_spec. unfold CommonTable_resolve.
  destruct (List.find _ _) as [kv|] eqn:Hf.
  - apply find_some in Hf as [Hin Hk%Z.eqb_eq].
    rewrite List.Forall_forall in Hv. destruct (Hv kv Hin) as (He & Hl & _). by rewrite He.
  - split; [done|]. rewrite List.Forall_forall in *. intros kv Hin.
    destruct (Hv kv Hin) as (-> & _). by apply (find_none _ _ Hf), Z.eqb_neq in Hin.
Qed.

Lemma repo_len_insert r t :
  TableRepository_len (mkRepository (<[tab_number t := t]> (repo_tables r)) (repo_limits r) 0) =
    TableRepository_len r
    + match repo_tables r !! tab_number t with None => 1 | Some _ => 0 end.
Proof.
  unfold TableRepository_len. cbn [repo_tables].
  destruct (repo_tables r !! tab_number t) as [old|] eqn:Hold.
  - rewrite map_size_insert_Some; [lia|by eexists].
  - rewrite map_size_insert_None by done. lia.
Qed.

(** The table repository keeps its books. From any state it can be in, adding
    a table either fails and changes nothing, or stores exactly that table under
    its number, leaves every other number as it was and returns the revision it
    replaced. Either way the recorded number of values is the number actually
    held, both aggregate limits hold, and every stored table is valid and filed
    under its own number; the counter arithmetic never overflows. *)
Theorem table_repository_invariant (r : TableRepository) (t : CommonTable) :
  repo_inv r ->
  match TableRepository_replace r t with
  | (Ok previous, r') =>
      repo_inv r' /\ previous = TableRepository_get r (tab_number t) /\
      TableRepository_get r' (tab_number t) = Some t /\
      (forall n, n <> tab_number t -> TableRepository_get r' n = TableRepository_get r n)
  | (Err e, r') =>
      r' = r /\
      (CommonTable_validate t = Err e \/
       TableRepository_get r (tab_number t) = None /\
         lim_tables (repo_limits r) <= TableRepository_len r /\
         e = RepositoryTableLimit (lim_tables (repo_limits r)) \/
       lim_entries (repo_limits r) <
         table_total (<[tab_number t := t]> (repo_tables r)) /\
         e = RepositoryEntryLimit (lim_entries (repo_limits r)))
  end.
Proof.
  intros [(Hl1 & Hl2 & Hlim) Htot Htab Hent Hval]. unfold TableRepository_replace.
  destruct (CommonTable_validate t) as [[]|e] eqn:Hv; [|auto].
  pose proof (validate_length t Hv) as Hlen. pose proof (zlen_nonneg (tab_entries t)).
  destruct (limits_bounded _ Hlim) as [_ Hle]. unfold MAXIMUM_TABLE_ENTRIES in Hle.
  pose proof (repo_len_insert r t) as Hsize. pose proof (table_total_nonneg (repo_tables r)).
  assert (Hsum : checked_sub (repo_total_entries r)
      match repo_tables r !! tab_number t with Some t => zlen (tab_entries t) | None => 0 end ≫=
      (fun count => checked_add usize_max count (zlen (tab_entries t))) =
    Some (table_total (<[tab_number t := t]> (repo_tables r)))).
  { unfold checked_sub, checked_add, usize_max, u64_max. rewrite Htot in *.
    destruct (repo_tables r !! tab_number t) as [old|] eqn:Hold.
    - pose proof (table_total_entry _ _ _ Hold). rewrite (table_total_insert _ _ _ _ Hold).
      pose proof (zlen_nonneg (tab_entries old)).
      rewrite (proj2 (Z.leb_le _ _)) by lia. cbn. rewrite (proj2 (Z.leb_le _ _)) by lia. done.
    - rewrite table_total_insert_fresh by done. rewrite (proj2 (Z.leb_le _ _)) by lia. cbn.
      rewrite (proj2 (Z.leb_le _ _)) by lia. f_equal. lia. }
  destruct (match repo_tables r !! tab_number t with None => true | Some _ => false end
    && (lim_tables (repo_limits r) <=? TableRepository_len r)) eqn:Hfull.
  { apply andb_prop in Hfull as [Hn Hge%Z.leb_le]. split; [done|]. right; left.
    unfold TableRepository_get. by destruct (repo_tables r !! tab_number t). }
  rewrite Hsum. destruct (Z.ltb_spec (lim_entries (repo_limits r))
    (table_total (<[tab_number t:=t]> (repo_tables r)))) as [|Hok]; [auto|].
  unfold TableRepository_get. cbn [repo_tables]. split_and!.
  - constructor; cbn [repo_limits repo_total_entries repo_tables]; try done.
    + unfold TableRepository_len in *. cbn [repo_tables] in *.
      destruct (repo_tables r !! tab_number t); [lia|]. cbn [andb] in Hfull.
      apply Z.leb_gt in Hfull. lia.
    + by apply map_Forall_insert_2.
  - done.
  - by rewrite lookup_insert_eq.
  - intros n Hn. by rewrite lookup_insert_ne.
Qed.

Lemma table_repository_invariant_witness :
  let t := mkCommonTable 2 [55; 46; 53] [(32, mkTableEntry 32 [67])] in
  let r' := (TableRepository_replace TableRepository_new t).2 in
  repo_inv r' /\ TableRepository_get r' 2 = Some t /\ repo_total_entries r' = 1.
Proof.
  intros t r'. pose proof (table_repository_invariant TableRepository_new t) as H.
  destruct H as (H & _ & Hget & _).
  - constructor; try done; try (vm_compute; split_and!; congruence).
  - split_and!; [exact H|exact Hget|reflexivity].
Defined.
