(* ===== verification/Inspect.v ===== *)
(** * Frame inspection (src/src/inspect.rs)

    The human-readable message of an issue is represented by what it is made from;
    Base64 decoding is third-party code and a parameter. *)
From S2P Require Import Prelude Chars Wire Decoder Catalog Codec Operation.

Definition MAXIMUM_INSPECTION_TEXT_BYTES : Z := MAX_ENCODED_FRAME_SIZE * 8.

(** The message of an issue: a fixed text, or a text formatted from a value. *)
Inductive IssueMessage :=
  | Message (s : string)
  | WireMessage (e : WireError)
  | ReplyMessage (e : OperationError)
  | UnknownCommandMessage (command : Z)
  | HexDigitMessage (offset : Z)
  | LimitMessage.

Record InspectionIssue := mkIssue { iss_code : string; iss_message : IssueMessage }.

Record FrameReport := mkReport {
  fr_kind : FrameKind;
  fr_address : Address;
  fr_physical_layer : PhysicalLayer;
  fr_command : CommandCode;
  fr_class : option CommandClass;
  fr_preambles : Z;
  fr_wire_command : Z;
  fr_frame_expansion_length : Z;
  fr_repair : option FrameRepair;
  fr_data_length : Z;
  fr_response_code : option Z;
  fr_device_status : option Z;
  fr_issues : list InspectionIssue;
}.

Record ExchangeReport := mkExchangeReport {
  xr_request : FrameReport;
  xr_response : FrameReport;
  xr_address_matches : bool;
  xr_command_matches : bool;
  xr_issues : list InspectionIssue;
}.

Definition input_limit_issue : InspectionIssue := mkIssue "input_limit" LimitMessage.

(** The arm of [inspect_bytes] for a decoded frame with nothing around it. *)
Definition inspect_frame (frame : Frame) : result InspectionIssue FrameReport :=
  let? (command, response_code, device_status, data_length) :=
    (if bool_decide (frame_kind frame = KindRequest) then
       let expanded := (frame_wire_command frame =? 31) && (2 <=? zlen (frame_payload frame)) in
       let command :=
         if expanded then
           CommandCode_new (from_be_bytes [nth 0 (frame_payload frame) 0;
                                           nth 1 (frame_payload frame) 0])
         else CommandCode_from_u8 (frame_wire_command frame) in
       Ok (command, None, None,
           zlen (frame_payload frame) - (if expanded then 1 else 0) * 2)
     else
       let? reply := result_map_err (fun e => mkIssue "reply" (ReplyMessage e))
                       (DeviceReply_from_frame frame) ;;
       Ok (rep_command reply, Some (rep_response_code reply), Some (rep_device_status reply),
           zlen (rep_data reply))) ;;
  let descriptor := command_descriptor command in
  let issues :=
    match descriptor with
    | None => [mkIssue "unknown_semantics" (UnknownCommandMessage (CommandCode_get command))]
    | Some _ => []
    end in
  Ok (mkReport (frame_kind frame) (frame_address frame) (frame_physical_layer frame) command
        (option_map desc_class descriptor) (frame_preambles frame) (frame_wire_command frame)
        (zlen (frame_expansion frame)) (frame_repair frame) data_length response_code
        device_status issues).

Definition inspect_bytes (l : bytes) : result InspectionIssue FrameReport :=
  return_if MAX_ENCODED_FRAME_SIZE <? zlen l err input_limit_issue ;;
  let decoder := FrameDecoder_new (mkLimits (Z.max (zlen l) 64) 1 Strict) in
  let '(events, decoder) := FrameDecoder_push decoder l in
  return_if negb (length events =? 1)%nat || negb (FrameDecoder_buffered_len decoder =? 0)
    err mkIssue "frame_count" (Message "expected exactly one complete frame") ;;
  match events with
  | EventRejected error :: _ => Err (mkIssue "wire" (WireMessage error))
  | EventFrame frame :: _ =>
      return_if negb (stat_discarded_bytes (dec_statistics decoder) =? 0)
        err mkIssue "unexpected_bytes"
              (Message "unexpected bytes were found before or after the frame") ;;
      inspect_frame frame
  | [] => Err (mkIssue "frame_count" (Message "expected exactly one complete frame"))
  end.

Definition issue_if (c : bool) (code message : string) : list InspectionIssue :=
  if c then [mkIssue code (Message message)] else [].

Definition inspect_exchange (request_bytes response_bytes : bytes)
    : result InspectionIssue ExchangeReport :=
  let? request := inspect_bytes request_bytes ;;
  let? response := inspect_bytes response_bytes ;;
  let address_matches := bool_decide (fr_address request = fr_address response) in
  let command_matches := bool_decide (fr_command request = fr_command response) in
  let issues :=
    issue_if (negb (bool_decide (fr_kind request = KindRequest)))
      "request_direction" "the first frame is not a request"
    ++ issue_if (negb (bool_decide (fr_kind response = KindResponse)))
         "response_direction" "the second frame is not a solicited response"
    ++ issue_if (negb address_matches)
         "address_mismatch" "the response address does not match the request address"
    ++ issue_if (negb command_matches)
         "command_mismatch" "the response logical command does not match the request" in
  Ok (mkExchangeReport request response address_matches command_matches issues).

Section base64.
(** [base64::engine::general_purpose::STANDARD.decode] on the characters given. *)
Context (base64_decode : text -> option bytes).

Definition inspect_base64 (value : text) : result InspectionIssue FrameReport :=
  return_if MAXIMUM_INSPECTION_TEXT_BYTES <? str_len value err input_limit_issue ;;
  let value := trim value in
  let maximum_encoded := ((MAX_ENCODED_FRAME_SIZE + 3 - 1) / 3) * 4 in
  return_if maximum_encoded <? str_len value err input_limit_issue ;;
  let? l := ok_or (base64_decode value)
              (mkIssue "base64" (Message "the string is not valid Base64")) ;;
  inspect_bytes l.
End base64.

Definition is_ascii_whitespace (b : Z) : bool :=
  (b =? 9) || (b =? 10) || (b =? 12) || (b =? 13) || (b =? 32).

Definition hex_nibble (byte : Z) : option Z :=
  if in_range 48 57 byte then Some (byte - 48)
  else if in_range 97 102 byte then Some (byte - 97 + 10)
  else if in_range 65 70 byte then Some (byte - 65 + 10)
  else None.

(** The loop that collects the digits. *)
Fixpoint compact_digits (maximum_digits : Z) (value compact : bytes)
    : result InspectionIssue bytes :=
  match value with
  | [] => Ok compact
  | byte :: value =>
      if is_ascii_whitespace byte then compact_digits maximum_digits value compact
      else
        return_if zlen compact =? maximum_digits err input_limit_issue ;;
        compact_digits maximum_digits value (compact ++ [byte])
  end.

(** The loop over the digit pairs; the shift is on a [u8]. *)
Fixpoint decode_pairs (offset : Z) (compact out : bytes) : result InspectionIssue bytes :=
  match compact with
  | a :: b :: compact =>
      let? high := ok_or (hex_nibble a) (mkIssue "hex_digit" (HexDigitMessage offset)) ;;
      let? low := ok_or (hex_nibble b) (mkIssue "hex_digit" (HexDigitMessage (offset + 1))) ;;
      decode_pairs (offset + 2) compact
        (out ++ [Z.lor (Z.land (Z.shiftl high 4) 0xff) low])
  | _ => Ok out
  end.

(** [value] is the bytes of the string. *)
Definition inspect_hex (value : bytes) : result InspectionIssue FrameReport :=
  return_if MAXIMUM_INSPECTION_TEXT_BYTES <? zlen value err input_limit_issue ;;
  let maximum_digits := MAX_ENCODED_FRAME_SIZE * 2 in
  let? compact := compact_digits maximum_digits value [] ;;
  return_if negb (zlen compact mod 2 =? 0)
    err mkIssue "hex_length"
          (Message "the hexadecimal string must contain an even number of digits") ;;
  let? l := decode_pairs 0 compact [] ;;
  inspect_bytes l.
