(* ===== verification/InspectProps.v ===== *)
(** * Properties of frame inspection *)
From S2P Require Import Prelude Chars Wire Decoder DecoderFacts DecoderSpec DecoderProps.
From S2P Require Import Catalog Codec Operation Inspect.

(** ** The decoder on one whole frame *)

Abbreviation inspect_limits l := (mkLimits (Z.max (zlen l) 64) 1 Strict).

Lemma inspect_append l :
  zlen l <= MAX_ENCODED_FRAME_SIZE ->
  append_bounded (FrameDecoder_new (inspect_limits l)) l =
    mkDecoder l (dec_limits (FrameDecoder_new (inspect_limits l))) DecodeStatistics_default.
Proof.
  intros Hl. rewrite append_bounded_fits; [done|].
  unfold MAX_ENCODED_FRAME_SIZE in Hl. cbn. unfold clamp, MAXIMUM_DECODE_BUFFER_CAPACITY, zlen in *.
  cbn [length]. lia.
Qed.

Lemma drain_single b d e d' :
  drain_events b d = ([e], d') ->
  exists d1 b', next_event d = (Some e, d1) /\ drain_events b' d1 = ([], d').
Proof.
  destruct b as [|b]; [done|]. cbn [drain_events].
  destruct (next_event d) as [[e1|] d1]; [|done].
  destruct (drain_events b d1) as [es d2] eqn:Hd. intros [= -> -> ->]. eauto.
Qed.

(** Everything [push] did when it returned one frame, kept nothing and discarded
    nothing. *)
Lemma push_single_frame l f d' :
  all_u8 l -> zlen l <= MAX_ENCODED_FRAME_SIZE ->
  FrameDecoder_push (FrameDecoder_new (inspect_limits l)) l = ([EventFrame f], d') ->
  FrameDecoder_buffered_len d' = 0 -> stat_discarded_bytes (dec_statistics d') = 0 ->
  Frame_wf f /\ frame_repair f = None /\ 1 <= frame_preambles f /\
  exists burst, l = replicate (Z.to_nat (frame_preambles f)) 0xff
    ++ (Frame_delimiter_byte f :: body_tail f burst)
    ++ [xor_checksum (Frame_delimiter_byte f :: body_tail f burst)].
Proof.
  intros Hu Hlen Hpush Hbuf Hdisc. unfold FrameDecoder_push in Hpush.
  rewrite inspect_append in Hpush by done.
  set (d0 := mkDecoder l _ _) in Hpush.
  destruct (drain_events MAXIMUM_DECODE_EVENTS_PER_PUSH d0) as [es d1] eqn:Hdr.
  assert (Hok : decoder_ok d0) by (constructor; cbn; unfold limits_ok, is_u64; cbn; lia).
  destruct (_ && _) eqn:Hlim in Hpush; injection Hpush as -> <-; [done|].
  apply drain_single in Hdr as (d2 & b & Hne & Hdr).
  pose proof (next_event_ok d0 Hok) as Hok1. pose proof (next_event_u8 d0 Hu) as Hu1.
  rewrite Hne in Hok1, Hu1. cbn [snd] in *.
  destruct (drain_events_accounted _ _ _ _ Hok1 Hu1 Hdr) as (Htot & Hle & _); [by rewrite Hdisc|].
  destruct (next_event_strict d0 d2 f Hok Hu eq_refl Hne)
    as (Hwf & Hrep & Hpre & skipped & raw & burst & Hl & Hraw & _ & Hsk).
  assert (Hs2 : 0 <= stat_discarded_bytes (dec_statistics d2)) by apply Hok1.
  unfold accounted, events_bytes, FrameDecoder_buffered_len in *. cbn [foldr] in Htot.
  rewrite Hdisc, Hbuf in Htot. pose proof (zlen_nonneg (dec_bytes d2)).
  pose proof (zlen_nonneg skipped). unfold u64_add, saturating_add in Hsk. cbn in Hsk.
  assert (Hnil : dec_bytes d2 = []) by (apply length_zero_iff_nil; unfold zlen in *; lia).
  assert (Hsnil : skipped = []).
  { apply length_zero_iff_nil. unfold zlen, u64_max in *. lia. }
  split_and!; try done. exists burst. rewrite Hnil, Hsnil, app_nil_r in Hl. by rewrite <-Hraw.
Qed.

Lemma push_encoded_frame f l :
  Frame_wf f -> frame_repair f = None -> 1 <= frame_preambles f -> Frame_encode f = Ok l ->
  zlen l <= MAX_ENCODED_FRAME_SIZE ->
  FrameDecoder_push (FrameDecoder_new (inspect_limits l)) l =
    ([EventFrame f], mkDecoder [] (dec_limits (FrameDecoder_new (inspect_limits l)))
                       (frames_statistics 1)).
Proof.
  intros Hwf Hrep Hpre He Hlen.
  assert (El : l = frame_encoding f).
  { rewrite Frame_encode_ok in He by apply Hwf. by injection He. }
  subst l. unfold FrameDecoder_push. rewrite inspect_append by done.
  pose proof (drain_encoded [f] (inspect_limits (frame_encoding f)) 0
    MAXIMUM_DECODE_EVENTS_PER_PUSH) as Hd. cbn [map concat] in Hd. rewrite app_nil_r in Hd.
  change (frames_statistics 0) with DecodeStatistics_default in Hd. cbv zeta in Hd.
  rewrite Hd; [reflexivity| |lia|].
  - apply List.Forall_cons; [|apply List.Forall_nil]. constructor; [done|done|cbn; lia].
  - cbn [length]. apply Nat.ltb_lt. by vm_compute.
Qed.

Lemma encoding_bounded f l :
  Frame_wf f -> Frame_encode f = Ok l -> zlen l <= MAX_ENCODED_FRAME_SIZE.
Proof.
  intros Hwf He. apply Frame_encode_Ok_inv in He as (? & ? & ->).
  pose proof (wf_preambles f Hwf) as Hp. unfold is_u8 in Hp.
  pose proof (Frame_body_length f) as Hb. unfold zlen, MAX_ENCODED_FRAME_SIZE in *.
  rewrite !length_app, length_replicate. cbn [length].
  destruct (frame_address f); cbn [Address_encoded_len] in *; lia.
Qed.

Lemma inspect_encoded f l :
  Frame_wf f -> frame_repair f = None -> 1 <= frame_preambles f -> Frame_encode f = Ok l ->
  inspect_bytes l = inspect_frame f.
Proof.
  intros Hwf Hrep Hpre He. pose proof (encoding_bounded f l Hwf He) as Hlen.
  unfold inspect_bytes. rewrite (proj2 (Z.ltb_ge _ _) Hlen).
  by rewrite (push_encoded_frame f l).
Qed.

Lemma inspect_inv l rep :
  all_u8 l -> inspect_bytes l = Ok rep ->
  exists f burst, Frame_wf f /\ frame_repair f = None /\ 1 <= frame_preambles f /\
    l = replicate (Z.to_nat (frame_preambles f)) 0xff
        ++ (Frame_delimiter_byte f :: body_tail f burst)
        ++ [xor_checksum (Frame_delimiter_byte f :: body_tail f burst)] /\
    inspect_frame f = Ok rep.
Proof.
  intros Hu. unfold inspect_bytes.
  destruct (Z.ltb_spec MAX_ENCODED_FRAME_SIZE (zlen l)) as [|Hlen]; [done|].
  destruct (FrameDecoder_push _ l) as [es d] eqn:Hp.
  destruct es as [|e [|? ?]]; try done. cbn [length Nat.eqb negb orb].
  destruct (Z.eqb_spec (FrameDecoder_buffered_len d) 0) as [Hb|]; cbn [negb]; [|done].
  destruct e as [f|er]; [|done].
  destruct (Z.eqb_spec (stat_discarded_bytes (dec_statistics d)) 0) as [Hd|]; cbn [negb]; [|done].
  intros Hf. destruct (push_single_frame l f d Hu Hlen Hp Hb Hd) as (? & ? & ? & burst & ?).
  by exists f, burst.
Qed.

(** The report of a request frame shows the request's logical command. *)
Lemma inspect_request r f :
  zlen (req_data r) <= isize_max -> is_u16 (CommandCode_get (req_command r)) ->
  CommandCode_get (req_command r) <> 31 -> Request_to_frame r = Ok f ->
  exists rep, inspect_frame f = Ok rep /\ fr_kind rep = KindRequest /\
    fr_command rep = req_command r /\ fr_address rep = req_address r /\
    fr_data_length rep = zlen (req_data r) /\ fr_response_code rep = None /\
    (fr_issues rep = [] <-> exists d, command_descriptor (req_command r) = Some d).
Proof.
  intros Hmax Hc H31 Hf. unfold Request_to_frame in Hf.
  apply result_bind_Ok in Hf as ([] & _ & Hf). apply result_bind_Ok in Hf as ([wc p] & Hp & Hf).
  apply result_bind_Ok in Hf as (? & _ & [= <-]).
  destruct r as [a [c] data pre ex ph rs]. cbn [req_command req_data CommandCode_get req_address] in *.
  pose proof (zlen_nonneg data) as Hz. unfold is_u16 in Hc.
  unfold inspect_frame. cbn [frame_kind frame_wire_command frame_payload].
  destruct (CommandCode_is_expanded (CommandCode_new c)) eqn:Hx.
  - assert (wc = 31) as -> by congruence.
    assert (p = to_be_bytes 2 c ++ data) as -> by congruence. clear Hp.
    pose proof (length_to_be_bytes 2 c) as Hl.
    pose proof (from_to_be_bytes 2 c) as Hft. rewrite Z.mod_small in Hft by (cbn; lia).
    destruct (to_be_bytes 2 c) as [|b0 [|b1 [|]]]; try done.
    assert (Hz2 : zlen (b0 :: b1 :: data) = 2 + zlen data) by (unfold zlen; cbn [length]; lia).
    cbn [app]. rewrite Hz2. replace (2 <=? 2 + zlen data) with true by lia.
    cbn [Z.eqb Pos.eqb andb app nth bool_decide result_bind]. rewrite Hft.
    rewrite bool_decide_true by done. cbn [result_bind].
    eexists. split; [done|].
    cbn [fr_kind fr_command fr_address fr_data_length fr_response_code fr_issues
         frame_kind frame_address].
    split_and!; try done; [lia|].
    destruct (command_descriptor (CommandCode_new c)); naive_solver.
  - destruct (u8_max <? c); [done|]. injection Hp as <- <-.
    rewrite bool_decide_true by done. destruct (Z.eqb_spec c 31); [done|]. cbn [andb result_bind].
    eexists. split; [done|].
    cbn [fr_kind fr_command fr_address fr_data_length fr_response_code fr_issues
         frame_kind frame_address].
    split_and!; try done; [lia|].
    unfold CommandCode_from_u8. destruct (command_descriptor (CommandCode_new c)); naive_solver.
Qed.

(** Inspection describes exactly the frame it is given. A report is produced
    only for bytes that are one whole frame with at least one preamble, an intact
    checksum and nothing before or after it, and is the report of that frame; every
    well-formed frame's encoding is inspected as that frame; and for a request's
    frame the report shows the request's address, logical command and data length,
    with an issue exactly when the command is not in the registry. *)
Theorem inspection_exact :
  (forall l rep, all_u8 l -> inspect_bytes l = Ok rep ->
     exists f burst, Frame_wf f /\ frame_repair f = None /\ 1 <= frame_preambles f /\
       l = replicate (Z.to_nat (frame_preambles f)) 0xff
           ++ (Frame_delimiter_byte f :: body_tail f burst)
           ++ [xor_checksum (Frame_delimiter_byte f :: body_tail f burst)] /\
       inspect_frame f = Ok rep) /\
  (forall f l, Frame_wf f -> frame_repair f = None -> 1 <= frame_preambles f ->
     Frame_encode f = Ok l -> inspect_bytes l = inspect_frame f) /\
  (forall r f, zlen (req_data r) <= isize_max -> is_u16 (CommandCode_get (req_command r)) ->
     CommandCode_get (req_command r) <> 31 -> Request_to_frame r = Ok f ->
     exists rep, inspect_frame f = Ok rep /\ fr_kind rep = KindRequest /\
       fr_command rep = req_command r /\ fr_address rep = req_address r /\
       fr_data_length rep = zlen (req_data r) /\ fr_response_code rep = None /\
       (fr_issues rep = [] <-> exists d, command_descriptor (req_command r) = Some d)).
Proof. split_and!; [exact inspect_inv|exact inspect_encoded|exact inspect_request]. Qed.

Lemma inspection_exact_witness :
  exists rep, inspect_bytes [255; 255; 255; 255; 255; 2; 128; 0; 0; 130] = Ok rep /\
    fr_command rep = CommandCode_new 0 /\ fr_issues rep = [].
Proof.
  destruct (proj2 (proj2 inspection_exact)
    (Request_new (Polling 0 Primary) (CommandCode_new 0) []) example_request)
    as (rep & Hrep & _ & Hc & _ & _ & _ & Hi);
    [by vm_compute|by vm_compute|cbn; lia|reflexivity|].
  exists rep. split_and!; [|exact Hc|].
  - rewrite <-Hrep. apply (proj1 (proj2 inspection_exact)); [apply example_request_wf|done|cbn; lia|].
    reflexivity.
  - apply Hi. eexists. reflexivity.
Defined.

(** ** Hexadecimal text *)

(** The digits of a text: its bytes without ASCII whitespace. *)
Definition hex_digits (value : bytes) : bytes :=
  List.filter (fun b => negb (is_ascii_whitespace b)) value.

(** [digits] are the hexadecimal digits of [l], two per byte, in either case. *)
Inductive hex_pairs : bytes -> bytes -> Prop :=
  | hex_pairs_nil : hex_pairs [] []
  | hex_pairs_cons a b hi lo digits l :
      hex_nibble a = Some hi -> hex_nibble b = Some lo -> hex_pairs digits l ->
      hex_pairs (a :: b :: digits) (hi * 16 + lo :: l).

Lemma hex_nibble_range a v : hex_nibble a = Some v -> 0 <= v < 16.
Proof.
  unfold hex_nibble, in_range. repeat (case_match; [intros [= <-]; lia|]). done.
Qed.

Lemma hex_join hi lo :
  0 <= hi < 16 -> 0 <= lo < 16 -> Z.lor (Z.land (Z.shiftl hi 4) 0xff) lo = hi * 16 + lo.
Proof.
  intros Hh Hl. assert (Hhu : is_u8 hi) by (unfold is_u8; lia).
  assert (Hlu : is_u8 lo) by (unfold is_u8; lia). revert Hh Hl. u8_decide2 hi lo Hhu Hlu.
Qed.

Lemma hex_pairs_bytes digits l :
  hex_pairs digits l -> all_u8 l /\ zlen digits = 2 * zlen l.
Proof.
  induction 1 as [|a b hi lo digits l Ha Hb _ [IH1 IH2]]; [by split; [constructor|]|].
  apply hex_nibble_range in Ha, Hb. unfold zlen in *. cbn [length]. split; [|lia].
  constructor; [unfold is_u8; lia|done].
Qed.

Lemma compact_digits_spec m value compact :
  zlen compact <= m ->
  compact_digits m value compact =
    if zlen compact + zlen (hex_digits value) <=? m then Ok (compact ++ hex_digits value)
    else Err input_limit_issue.
Proof.
  revert compact. induction value as [|b value IH]; intros compact Hm; cbn [compact_digits].
  - unfold zlen at 2. cbn. rewrite Z.add_0_r, app_nil_r. by rewrite (proj2 (Z.leb_le _ _) Hm).
  - unfold hex_digits. cbn [List.filter]. fold (hex_digits value).
    destruct (is_ascii_whitespace b); cbn [negb]; [by apply IH|].
    assert (Hz : zlen (b :: hex_digits value) = 1 + zlen (hex_digits value))
      by apply zlen_cons.
    pose proof (zlen_nonneg (hex_digits value)). rewrite Hz.
    destruct (Z.eqb_spec (zlen compact) m) as [Hfull|].
    + by destruct (Z.leb_spec (zlen compact + (1 + zlen (hex_digits value))) m); [lia|].
    + assert (Hz1 : zlen (compact ++ [b]) = zlen compact + 1) by (rewrite zlen_app; done).
      rewrite IH, Hz1, <-app_assoc by lia. cbn [app]. by rewrite Z.add_assoc.
Qed.

Lemma decode_pairs_run offset digits l out :
  hex_pairs digits l -> decode_pairs offset digits out = Ok (out ++ l).
Proof.
  intros H. revert offset out. induction H as [|a b hi lo digits l Ha Hb _ IH]; intros offset out.
  - cbn. by rewrite app_nil_r.
  - cbn [decode_pairs]. rewrite Ha, Hb. cbn [ok_or result_bind].
    rewrite hex_join by (by eapply hex_nibble_range). rewrite IH, <-app_assoc. done.
Qed.

Lemma decode_pairs_inv k digits offset out l :
  length digits = (k * 2)%nat -> decode_pairs offset digits out = Ok l ->
  exists l', l = out ++ l' /\ hex_pairs digits l'.
Proof.
  revert digits offset out. induction k as [|k IH]; intros digits offset out Hk.
  - destruct digits; [|done]. intros [= <-]. exists []. rewrite app_nil_r. split; constructor.
  - destruct digits as [|a [|b digits]]; [done|done|]. cbn [decode_pairs].
    destruct (hex_nibble a) as [hi|] eqn:Ha; cbn [ok_or result_bind]; [|done].
    destruct (hex_nibble b) as [lo|] eqn:Hb; cbn [ok_or result_bind]; [|done].
    intros H. apply IH in H as (l' & -> & Hp); [|cbn in Hk; lia].
    pose proof (hex_nibble_range _ _ Ha). pose proof (hex_nibble_range _ _ Hb).
    exists (hi * 16 + lo :: l'). rewrite hex_join by done. rewrite <-app_assoc.
    split; [done|by constructor].
Qed.

(** Inspecting a hexadecimal text is inspecting the bytes it spells: a report
    is produced exactly when the text is within the limit, its digits, whatever
    their case and the whitespace between them, pair up into bytes, and those bytes
    are inspected with that report. An exchange is reported as free of issues
    exactly when a request is followed by a solicited response with the same
    address and the same logical command. *)
Theorem hex_and_exchange_inspection :
  (forall value rep, inspect_hex value = Ok rep <->
     zlen value <= MAXIMUM_INSPECTION_TEXT_BYTES /\
     exists l, hex_pairs (hex_digits value) l /\ inspect_bytes l = Ok rep) /\
  (forall a b rep, inspect_exchange a b = Ok rep ->
     inspect_bytes a = Ok (xr_request rep) /\ inspect_bytes b = Ok (xr_response rep) /\
     (xr_issues rep = [] <->
        fr_kind (xr_request rep) = KindRequest /\ fr_kind (xr_response rep) = KindResponse /\
        fr_address (xr_request rep) = fr_address (xr_response rep) /\
        fr_command (xr_request rep) = fr_command (xr_response rep))).
Proof.
  split.
  - intros value rep. unfold inspect_hex.
    destruct (Z.ltb_spec MAXIMUM_INSPECTION_TEXT_BYTES (zlen value)) as [Hlim|Hlim].
    { split; [done|]. intros [? _]. lia. }
    rewrite compact_digits_spec by (by vm_compute).
    change (zlen [] + zlen (hex_digits value)) with (0 + zlen (hex_digits value)).
    rewrite Z.add_0_l. cbn [app]. split.
    + destruct (Z.leb_spec (zlen (hex_digits value)) (MAX_ENCODED_FRAME_SIZE * 2)); [|done].
      cbn [result_bind].
      destruct (Z.eqb_spec (zlen (hex_digits value) mod 2) 0) as [Hm|]; cbn [negb]; [|done].
      intros H'. apply result_bind_Ok in H' as (l & Hl & Hi). split; [done|]. exists l.
      apply (decode_pairs_inv (Z.to_nat (zlen (hex_digits value) / 2))) in Hl as (l' & -> & Hp);
        [done|]. unfold zlen in *. Z.to_euclidean_division_equations. lia.
    + intros (_ & l & Hp & Hi). destruct (hex_pairs_bytes _ _ Hp) as [_ Hz].
      assert (Hl : zlen l <= MAX_ENCODED_FRAME_SIZE).
      { unfold inspect_bytes in Hi.
        destruct (Z.ltb_spec MAX_ENCODED_FRAME_SIZE (zlen l)); [done|lia]. }
      rewrite (proj2 (Z.leb_le _ _)) by lia. cbn [result_bind].
      rewrite Hz, Z.mul_comm, Z.mod_mul by lia. cbn [Z.eqb negb].
      by rewrite (decode_pairs_run 0 _ l []).
  - intros a b rep H. apply result_bind_Ok in H as (q & Hq & H).
    apply result_bind_Ok in H as (p & Hp & [= <-]). cbn [xr_request xr_response xr_issues].
    split_and!; [done|done|]. unfold issue_if.
    repeat case_bool_decide; cbn; split; naive_solver.
Qed.

Lemma hex_and_exchange_inspection_witness :
  exists rep, inspect_hex [102; 70; 32; 70; 70; 48; 50; 56; 48; 48; 48; 9; 48; 48; 56; 50] = Ok rep /\
    inspect_bytes [255; 255; 2; 128; 0; 0; 130] = Ok rep.
Proof.
  destruct (inspect_bytes [255; 255; 2; 128; 0; 0; 130]) as [rep|e] eqn:He; [|by vm_compute in He].
  exists rep. split; [|reflexivity].
  apply (proj1 hex_and_exchange_inspection). split; [by vm_compute|].
  exists [255; 255; 2; 128; 0; 0; 130]. split; [|exact He].
  do 2 (apply (hex_pairs_cons _ _ 15 15); [reflexivity|reflexivity|]).
  apply (hex_pairs_cons _ _ 0 2); [reflexivity|reflexivity|].
  apply (hex_pairs_cons _ _ 8 0); [reflexivity|reflexivity|].
  do 2 (apply (hex_pairs_cons _ _ 0 0); [reflexivity|reflexivity|]).
  apply (hex_pairs_cons _ _ 8 2); [reflexivity|reflexivity|]. apply hex_pairs_nil.
Defined.
