(* ===== verification/QueueSet.v ===== *)
(** * The bounded, prioritised request queues (src/src/service/queue_set.rs)

    The state is that of one [QueueSet]: its slots with their atomics and entries.
    Each method is a function on that state; a push and the end of an entry are
    composed of their atomic actions (take a permit, read the flag, push back, count;
    give the permit back, count down), which [QueueRuns] interleaves. The counting
    semaphore is third-party code (tokio) and a parameter: the class [Semaphore]
    states what the queues rely on. A [QueueEntry] is its item; the permit it owns
    is given back by [finish_entry], which consumes the entry. [Notify] wakes the
    runner and carries no data: it is not part of the state. *)
From stdpp Require Import gmap.
From S2P Require Import Prelude.

Definition MAXIMUM_QUEUE_CAPACITY : Z := 1048576.
Definition MAXIMUM_TOTAL_QUEUE_CAPACITY : Z := 1048576.
Definition MAXIMUM_LINK_QUEUES : Z := 256.

Record QueueId := QueueId_new { QueueId_get : Z }.

#[global] Instance QueueId_eq_dec : EqDecision QueueId.
Proof. solve_decision. Defined.

Definition QueueId_DEFAULT : QueueId := QueueId_new 0.

(** ** Priorities *)

Inductive QueuePriority := Weighted (weight : Z) | StrictRank (rank : Z).

#[global] Instance QueuePriority_eq_dec : EqDecision QueuePriority.
Proof. solve_decision. Defined.

Inductive QueueConfigError :=
  | ZeroCapacity (queue : QueueId)
  | CapacityLimit (queue : QueueId) (capacity : Z)
  | ConfigZeroWeight
  | DuplicateId (queue : QueueId)
  | EmptyLayout
  | TooManyQueues
  | TotalCapacity (total : Z)
  | MissingDefault (queue : QueueId).

Definition QueuePriority_weighted (weight : Z) : result QueueConfigError QueuePriority :=
  if weight =? 0 then Err ConfigZeroWeight else Ok (Weighted weight).

Definition QueuePriority_strict (rank : Z) : QueuePriority := StrictRank rank.

Definition QueuePriority_weight (p : QueuePriority) : option Z :=
  match p with Weighted weight => Some weight | StrictRank _ => None end.

Definition QueuePriority_strict_rank (p : QueuePriority) : option Z :=
  match p with Weighted _ => None | StrictRank rank => Some rank end.

(** The priority as the [u32] of its atomic. *)
Definition QueuePriority_encode (p : QueuePriority) : Z :=
  match p with
  | Weighted weight => weight
  | StrictRank rank => Z.lor (Z.shiftl 1 31) rank
  end.

(** [lower] is the little-endian low half of the word. *)
Definition QueuePriority_decode (value : Z) : QueuePriority :=
  let lower := Z.land value 0xff + Z.land (Z.shiftr value 8) 0xff * 256 in
  if negb (Z.land value (Z.shiftl 1 31) =? 0) then StrictRank lower
  else Weighted (if lower =? 0 then 1 else lower).

Definition QueuePriority_default : QueuePriority := Weighted 1.

(** ** Configuration *)

Record QueueConfig := mkQueueConfig {
  qc_id : QueueId;
  qc_capacity : Z;
  qc_priority : QueuePriority;
}.

Definition QueueConfig_new (id : QueueId) (capacity : Z) (priority : QueuePriority)
    : result QueueConfigError QueueConfig :=
  return_if capacity =? 0 err ZeroCapacity id ;;
  return_if MAXIMUM_QUEUE_CAPACITY <? capacity err CapacityLimit id capacity ;;
  Ok (mkQueueConfig id capacity priority).

Definition QueueConfig_weighted (id : QueueId) (capacity weight : Z)
    : result QueueConfigError QueueConfig :=
  let? priority := QueuePriority_weighted weight ;;
  QueueConfig_new id capacity priority.

Definition QueueConfig_strict (id : QueueId) (capacity rank : Z)
    : result QueueConfigError QueueConfig :=
  QueueConfig_new id capacity (QueuePriority_strict rank).

(** The loop over the definitions: the identifiers seen and the running total. *)
Fixpoint validate_definitions (definitions : list QueueConfig) (ids : list QueueId) (total : Z)
    : result QueueConfigError (list QueueId) :=
  match definitions with
  | [] => Ok ids
  | definition :: definitions =>
      return_if bool_decide (qc_id definition ∈ ids) err DuplicateId (qc_id definition) ;;
      let? total := ok_or (checked_add usize_max total (qc_capacity definition))
                      (TotalCapacity usize_max) ;;
      return_if MAXIMUM_TOTAL_QUEUE_CAPACITY <? total err TotalCapacity total ;;
      validate_definitions definitions (qc_id definition :: ids) total
  end.

Definition validate_layout (definitions : list QueueConfig) (default : QueueId)
    : result QueueConfigError unit :=
  return_if zlen definitions =? 0 err EmptyLayout ;;
  return_if MAXIMUM_LINK_QUEUES <? zlen definitions err TooManyQueues ;;
  let? ids := validate_definitions definitions [] 0 ;;
  return_if negb (bool_decide (default ∈ ids)) err MissingDefault default ;;
  Ok tt.

(** ** The semaphore *)

Inductive TryAcquire := Acquired | NoPermits | SemaphoreClosed.

Class Semaphore (S : Type) := {
  sem_new : Z -> S;
  sem_try_acquire : S -> TryAcquire * S;
  sem_release : S -> S;
  sem_close : S -> S;
  sem_available : S -> Z;
  sem_is_closed : S -> bool;
}.

(** The documented behaviour of [tokio::sync::Semaphore]. *)
Class SemaphoreLaws (S : Type) `{Semaphore S} := {
  sem_new_available : forall n, 0 <= n -> sem_available (sem_new n) = n;
  sem_new_open : forall n, sem_is_closed (sem_new n) = false;
  sem_acquire_closed : forall s, sem_is_closed s = true ->
    sem_try_acquire s = (SemaphoreClosed, s);
  sem_acquire_empty : forall s, sem_is_closed s = false -> sem_available s <= 0 ->
    sem_try_acquire s = (NoPermits, s);
  sem_acquire_ok : forall s, sem_is_closed s = false -> 0 < sem_available s ->
    exists s', sem_try_acquire s = (Acquired, s') /\
      sem_available s' = sem_available s - 1 /\ sem_is_closed s' = false;
  sem_release_available : forall s, sem_available (sem_release s) = sem_available s + 1;
  sem_release_closed : forall s, sem_is_closed (sem_release s) = sem_is_closed s;
  sem_close_available : forall s, sem_available (sem_close s) = sem_available s;
  sem_close_closed : forall s, sem_is_closed (sem_close s) = true;
}.

(** ** Slots and sets *)

Inductive QueueError := UnknownQueue (id : QueueId) | ZeroWeight.

Inductive QueuePushError :=
  | PushFull
  | PushClosed
  | PushDeadline
  | PushUnknown (id : QueueId).

Record QueueSnapshot := mkQueueSnapshot {
  qs_id : QueueId;
  qs_capacity : Z;
  qs_queued : Z;
  qs_priority : QueuePriority;
}.

Record QueueCursor := mkCursor {
  cur_weighted_index : nat;
  cur_weighted_used : Z;
  cur_strict_index : nat;
}.

Definition QueueCursor_new : QueueCursor := mkCursor 0 0 0.

Section QueueSet.
Context {T S : Type} `{Semaphore S}.

Record QueueSlot := mkSlot {
  slot_id : QueueId;
  slot_capacity : Z;
  slot_priority_word : Z;
  slot_permits : S;
  slot_queued : Z;
  slot_entries : list T;
}.

Definition QueueSlot_new (config : QueueConfig) : QueueSlot :=
  mkSlot (qc_id config) (qc_capacity config) (QueuePriority_encode (qc_priority config))
    (sem_new (qc_capacity config)) 0 [].

Definition QueueSlot_priority (s : QueueSlot) : QueuePriority :=
  QueuePriority_decode (slot_priority_word s).

Definition with_entries (s : QueueSlot) (entries : list T) : QueueSlot :=
  mkSlot (slot_id s) (slot_capacity s) (slot_priority_word s) (slot_permits s)
    (slot_queued s) entries.

Definition QueueSlot_push_front (entry : T) (s : QueueSlot) : QueueSlot :=
  with_entries s (entry :: slot_entries s).

Definition QueueSlot_close (s : QueueSlot) : QueueSlot :=
  mkSlot (slot_id s) (slot_capacity s) (slot_priority_word s) (sem_close (slot_permits s))
    (slot_queued s) (slot_entries s).

Definition QueueSlot_snapshot (s : QueueSlot) : QueueSnapshot :=
  mkQueueSnapshot (slot_id s) (slot_capacity s) (slot_queued s) (QueueSlot_priority s).

Record QueueSet := mkQueueSet {
  set_slots : list QueueSlot;
  set_indices : gmap Z nat;
  set_input_closed : bool;
  set_runner_closed : bool;
}.

(** [collect] into a map: a later index replaces an earlier one of the same id. *)
Definition QueueSet_new (definitions : list QueueConfig) : QueueSet :=
  let slots := map QueueSlot_new definitions in
  mkQueueSet slots
    (foldl (fun m p => <[QueueId_get (slot_id p.2) := p.1]> m) ∅ (imap pair slots))
    false false.

Definition with_slots (q : QueueSet) (slots : list QueueSlot) : QueueSet :=
  mkQueueSet slots (set_indices q) (set_input_closed q) (set_runner_closed q).

(** The index behind [slot(id)]. *)
Definition QueueSet_slot_index (q : QueueSet) (id : QueueId) : result QueueError nat :=
  ok_or (set_indices q !! QueueId_get id) (UnknownQueue id).

Definition QueueSet_slot (q : QueueSet) (id : QueueId) : result QueueError QueueSlot :=
  let? i := QueueSet_slot_index q id ;;
  ok_or (set_slots q !! i) (UnknownQueue id).

Definition update_slot (q : QueueSet) (i : nat) (f : QueueSlot -> QueueSlot) : QueueSet :=
  with_slots q (alter f i (set_slots q)).

Definition QueueSet_contains (q : QueueSet) (id : QueueId) : bool :=
  bool_decide (is_Some (set_indices q !! QueueId_get id)).

Definition QueueSet_priority (q : QueueSet) (id : QueueId) : result QueueError QueuePriority :=
  let? slot := QueueSet_slot q id ;;
  Ok (QueueSlot_priority slot).

Definition set_priority_word (p : QueuePriority) (s : QueueSlot) : QueueSlot :=
  mkSlot (slot_id s) (slot_capacity s) (QueuePriority_encode p) (slot_permits s)
    (slot_queued s) (slot_entries s).

Definition QueueSet_set_priority (q : QueueSet) (id : QueueId) (priority : QueuePriority)
    : result QueueError QueueSet :=
  let? i := QueueSet_slot_index q id ;;
  Ok (update_slot q i (set_priority_word priority)).

Definition QueueSet_set_weight (q : QueueSet) (id : QueueId) (weight : Z)
    : result QueueError QueueSet :=
  let? priority := result_map_err (fun _ => ZeroWeight) (QueuePriority_weighted weight) ;;
  QueueSet_set_priority q id priority.

Definition QueueSet_snapshot (q : QueueSet) (id : QueueId) : result QueueError QueueSnapshot :=
  let? slot := QueueSet_slot q id ;;
  Ok (QueueSlot_snapshot slot).

Definition QueueSet_snapshots (q : QueueSet) : list QueueSnapshot :=
  map QueueSlot_snapshot (set_slots q).

(** The sum of [usize] counters, as it comes out where additions wrap; with overflow checks a
    sum that wraps is a panic instead. *)
Definition QueueSet_pending_total (q : QueueSet) : Z :=
  foldr (fun s n => (slot_queued s + n) mod (usize_max + 1)) 0 (set_slots q).

Definition with_permits (permits : S) (s : QueueSlot) : QueueSlot :=
  mkSlot (slot_id s) (slot_capacity s) (slot_priority_word s) permits (slot_queued s)
    (slot_entries s).

Definition with_queued (queued : Z) (s : QueueSlot) : QueueSlot :=
  mkSlot (slot_id s) (slot_capacity s) (slot_priority_word s) (slot_permits s) queued
    (slot_entries s).

(** The atomic actions: the drop of a permit, [push_back] under the mutex, and the
    wrapping [fetch_add] and [fetch_sub]. *)
Definition drop_permit (s : QueueSlot) : QueueSlot :=
  with_permits (sem_release (slot_permits s)) s.

Definition push_back (item : T) (s : QueueSlot) : QueueSlot :=
  with_entries s (slot_entries s ++ [item]).

Definition queued_add (s : QueueSlot) : QueueSlot :=
  with_queued ((slot_queued s + 1) mod (usize_max + 1)) s.

Definition queued_sub (s : QueueSlot) : QueueSlot :=
  with_queued ((slot_queued s - 1) mod (usize_max + 1)) s.

(** [finish_push] with the permit already taken; a refusal drops it. *)
Definition QueueSet_finish_push (q : QueueSet) (i : nat) (item : T)
    : result QueuePushError unit * QueueSet :=
  if set_runner_closed q then (Err PushClosed, update_slot q i drop_permit)
  else (Ok tt, update_slot (update_slot q i (push_back item)) i queued_add).

Definition QueueSet_try_push (q : QueueSet) (id : QueueId) (item : T)
    : result QueuePushError unit * QueueSet :=
  match QueueSet_slot_index q id with
  | Err _ => (Err (PushUnknown id), q)
  | Ok i =>
      match set_slots q !! i with
      | None => (Err (PushUnknown id), q)
      | Some slot =>
          if set_runner_closed q then (Err PushClosed, q)
          else
            match sem_try_acquire (slot_permits slot) with
            | (Acquired, permits) =>
                QueueSet_finish_push (update_slot q i (with_permits permits)) i item
            | (NoPermits, _) => (Err PushFull, q)
            | (SemaphoreClosed, _) => (Err PushClosed, q)
            end
      end
  end.

(** [push] up to its wait: the slot it waits on. *)
Definition QueueSet_push_begin (q : QueueSet) (id : QueueId) : result QueuePushError nat :=
  let? i := result_map_err (fun _ => PushUnknown id) (QueueSet_slot_index q id) ;;
  return_if set_runner_closed q err PushClosed ;;
  Ok i.

(** One look of the wait at the semaphore, in the state of that moment: [timeout_at]
    gives the permit or the closed semaphore when there is one, and otherwise ends once
    the deadline has passed; [None] keeps waiting. *)
Definition QueueSet_push_poll (q : QueueSet) (i : nat) (item : T) (expired : bool)
    : option (result QueuePushError unit) * QueueSet :=
  match set_slots q !! i with
  | None => (None, q)
  | Some slot =>
      match sem_try_acquire (slot_permits slot) with
      | (Acquired, permits) =>
          let '(r, q) := QueueSet_finish_push (update_slot q i (with_permits permits)) i item in
          (Some r, q)
      | (SemaphoreClosed, _) => (Some (Err PushClosed), q)
      | (NoPermits, _) => (if expired then Some (Err PushDeadline) else None, q)
      end
  end.

(** [pop_front] of the slot at an index, with the identifier the callers return. *)
Definition pop_front_at (slots : list QueueSlot) (i : nat)
    : option (QueueId * T * list QueueSlot) :=
  match slots !! i with
  | Some slot =>
      match slot_entries slot with
      | entry :: entries => Some (slot_id slot, entry, <[i := with_entries slot entries]> slots)
      | [] => None
      end
  | None => None
  end.

(** A loop over offsets that stops at the first slot the test admits and that has
    an entry. *)
Fixpoint pop_scan (slots : list QueueSlot) (admits : QueueSlot -> bool) (indices : list nat)
    : option (nat * (QueueId * T * list QueueSlot)) :=
  match indices with
  | [] => None
  | i :: indices =>
      match slots !! i with
      | Some slot =>
          if admits slot then
            match pop_front_at slots i with
            | Some popped => Some (i, popped)
            | None => pop_scan slots admits indices
            end
          else pop_scan slots admits indices
      | None => pop_scan slots admits indices
      end
  end.

Definition strict_ready_rank (s : QueueSlot) : option Z :=
  match QueueSlot_priority s with
  | StrictRank rank => if 0 <? slot_queued s then Some rank else None
  | Weighted _ => None
  end.

(** [Iterator::max]. *)
Definition max_rank (ranks : list Z) : option Z :=
  match ranks with [] => None | r :: ranks => Some (foldr Z.max r ranks) end.

Definition is_weighted (s : QueueSlot) : bool :=
  match QueueSlot_priority s with Weighted _ => true | StrictRank _ => false end.

(** The result of a pop: the identifier and entry popped, the slots and the cursor. *)
Definition pop_strict (slots : list QueueSlot) (cursor : QueueCursor)
    : option (QueueId * T * list QueueSlot) * QueueCursor :=
  match max_rank (omap strict_ready_rank slots) with
  | None => (None, cursor)
  | Some rank =>
      let n := length slots in
      match pop_scan slots (fun s => bool_decide (QueueSlot_priority s = StrictRank rank))
              (map (fun offset => (cur_strict_index cursor + offset) mod n)%nat (seq 1 n)) with
      | Some (i, popped) =>
          (Some popped, mkCursor (cur_weighted_index cursor) (cur_weighted_used cursor) i)
      | None => (None, cursor)
      end
  end.

(** The first test of [pop_weighted]: the current slot within its quota. *)
Definition within_quota (slots : list QueueSlot) (index : nat) (used : Z) : bool :=
  match slots !! index with
  | Some current =>
      match QueueSlot_priority current with
      | Weighted weight => used <? weight
      | StrictRank _ => false
      end
  | None => false
  end.

Definition pop_weighted (slots : list QueueSlot) (cursor : QueueCursor)
    : option (QueueId * T * list QueueSlot) * QueueCursor :=
  let n := length slots in
  if (n =? 0)%nat then (None, cursor)
  else
    let cursor :=
      if (n <=? cur_weighted_index cursor)%nat
      then mkCursor 0 0 (cur_strict_index cursor) else cursor in
    let index := cur_weighted_index cursor in
    let at_current := pop_front_at slots index in
    match (if within_quota slots index (cur_weighted_used cursor) then at_current else None) with
    | Some popped =>
        (Some popped,
         mkCursor index (saturating_add u16_max (cur_weighted_used cursor) 1)
           (cur_strict_index cursor))
    | None =>
        match pop_scan slots is_weighted
                (map (fun offset => (index + offset) mod n)%nat (seq 1 (n - 1))) with
        | Some (i, popped) => (Some popped, mkCursor i 1 (cur_strict_index cursor))
        | None =>
            match slots !! index with
            | Some current =>
                match (if is_weighted current then at_current else None) with
                | Some popped =>
                    (Some popped,
                     mkCursor index
                       (default 1 (QueuePriority_weight (QueueSlot_priority current)))
                       (cur_strict_index cursor))
                | None => (None, cursor)
                end
            | None => (None, cursor)
            end
        end
    end.

Definition QueueSet_pop_scheduled (q : QueueSet) (cursor : QueueCursor)
    : option (QueueId * T) * QueueSet * QueueCursor :=
  match pop_strict (set_slots q) cursor with
  | (Some (id, entry, slots'), cursor) => (Some (id, entry), with_slots q slots', cursor)
  | (None, cursor) =>
      match pop_weighted (set_slots q) cursor with
      | (Some (id, entry, slots'), cursor) => (Some (id, entry), with_slots q slots', cursor)
      | (None, cursor) => (None, q, cursor)
      end
  end.

Definition QueueSet_pop_from (q : QueueSet) (id : QueueId) : option T * QueueSet :=
  match QueueSet_slot_index q id with
  | Err _ => (None, q)
  | Ok i =>
      match pop_front_at (set_slots q) i with
      | Some (_, entry, slots') => (Some entry, with_slots q slots')
      | None => (None, q)
      end
  end.

Definition QueueSet_push_front (q : QueueSet) (id : QueueId) (entry : T) : QueueSet :=
  match QueueSet_slot_index q id with
  | Ok i => update_slot q i (QueueSlot_push_front entry)
  | Err _ => q
  end.

(** [into_item] drops the permit of the entry before the count goes down. *)
Definition QueueSet_finish_entry (q : QueueSet) (id : QueueId) (entry : T) : T * QueueSet :=
  match QueueSet_slot_index q id with
  | Ok i => (entry, update_slot (update_slot q i drop_permit) i queued_sub)
  | Err _ => (entry, q)
  end.

Definition QueueSet_close_input (q : QueueSet) : QueueSet :=
  mkQueueSet (set_slots q) (set_indices q) true (set_runner_closed q).

(** The swap of the flag, then one slot after the other; [QueueRuns] interleaves them. *)
Definition mark_runner_closed (q : QueueSet) : QueueSet :=
  mkQueueSet (set_slots q) (set_indices q) (set_input_closed q) true.

Definition QueueSet_close_runner (q : QueueSet) : QueueSet :=
  if set_runner_closed q then q
  else
    let q := mark_runner_closed q in
    with_slots q (map QueueSlot_close (set_slots q)).
End QueueSet.

Arguments QueueSlot : clear implicits.
Arguments QueueSet : clear implicits.
