(* ===== verification/QueueRuns.v ===== *)
(** * Interleavings of the request queues

    Producers and the runner act on one [QueueSet] without a common lock. Each agent
    below is a call in progress; a step is one atomic action of one agent. The
    invariant relates the permits, the entries and the [queued] counters of every
    slot to the calls in progress, and holds along every interleaving. *)
From stdpp Require Import gmap.
From S2P Require Import Prelude QueueSet.

(** ** A semaphore

    Permits and a closed flag: an implementation of the interface. *)
Definition CountingSemaphore : Type := Z * bool.

#[global] Instance counting_semaphore : Semaphore CountingSemaphore := {
  sem_new n := (n, false);
  sem_try_acquire s :=
    if s.2 then (SemaphoreClosed, s)
    else if 0 <? s.1 then (Acquired, (s.1 - 1, false)) else (NoPermits, s);
  sem_release s := (s.1 + 1, s.2);
  sem_close s := (s.1, true);
  sem_available s := s.1;
  sem_is_closed s := s.2;
}.

#[global] Instance counting_semaphore_laws : SemaphoreLaws CountingSemaphore.
Proof.
  split; try reflexivity.
  - intros [n b]; cbn; intros ->; reflexivity.
  - intros [n b]; cbn; intros ->; intros. destruct (Z.ltb_spec 0 n); [lia | reflexivity].
  - intros [n b]; cbn; intros ->; intros. destruct (Z.ltb_spec 0 n); [| lia]. eauto.
Qed.

(** ** Calls in progress *)

Inductive Agent (T : Type) :=
  | Permitted (id : QueueId) (item : T)
  | Checked (id : QueueId) (item : T)
  | Uncounted (id : QueueId)
  | Holding (id : QueueId) (item : T)
  | Uncounting (id : QueueId).
Arguments Permitted {T}. Arguments Checked {T}. Arguments Uncounted {T}.
Arguments Holding {T}. Arguments Uncounting {T}.

Section Runs.
Context {T S : Type} `{SemaphoreLaws S}.

(** The shared state, the calls in progress, and two histories: the items that
    entered a queue and the items that left the set for good. *)
Record World := mkWorld {
  w_set : QueueSet T S;
  w_agents : list (Agent T);
  w_entered : list T;
  w_finished : list T;
}.

(** One atomic action. A producer takes a permit, reads [runner_closed], pushes back
    and counts; the runner pops from any slot, puts an entry back, or finishes it by
    giving back the permit and then counting down; closing marks the set and then closes the
    slots one by one. *)
Inductive step : World -> World -> Prop :=
  | step_acquire q ags en fi i slot permits item :
      set_slots q !! i = Some slot ->
      sem_try_acquire (slot_permits slot) = (Acquired, permits) ->
      step (mkWorld q ags en fi)
        (mkWorld (update_slot q i (with_permits permits))
           (Permitted (slot_id slot) item :: ags) en fi)
  | step_refuse q ags ags' en fi i slot item :
      set_slots q !! i = Some slot ->
      ags ≡ₚ Permitted (slot_id slot) item :: ags' ->
      set_runner_closed q = true ->
      step (mkWorld q ags en fi) (mkWorld (update_slot q i drop_permit) ags' en fi)
  | step_check q ags ags' en fi id item :
      ags ≡ₚ Permitted id item :: ags' ->
      set_runner_closed q = false ->
      step (mkWorld q ags en fi) (mkWorld q (Checked id item :: ags') en fi)
  | step_push_back q ags ags' en fi i slot item :
      set_slots q !! i = Some slot ->
      ags ≡ₚ Checked (slot_id slot) item :: ags' ->
      step (mkWorld q ags en fi)
        (mkWorld (update_slot q i (push_back item)) (Uncounted (slot_id slot) :: ags')
           (item :: en) fi)
  | step_count q ags ags' en fi i slot :
      set_slots q !! i = Some slot ->
      ags ≡ₚ Uncounted (slot_id slot) :: ags' ->
      step (mkWorld q ags en fi) (mkWorld (update_slot q i queued_add) ags' en fi)
  | step_pop q ags en fi i id item slots' :
      pop_front_at (set_slots q) i = Some (id, item, slots') ->
      step (mkWorld q ags en fi)
        (mkWorld (with_slots q slots') (Holding id item :: ags) en fi)
  | step_push_front q ags ags' en fi i slot item :
      set_slots q !! i = Some slot ->
      ags ≡ₚ Holding (slot_id slot) item :: ags' ->
      step (mkWorld q ags en fi)
        (mkWorld (update_slot q i (QueueSlot_push_front item)) ags' en fi)
  | step_release q ags ags' en fi i slot item :
      set_slots q !! i = Some slot ->
      ags ≡ₚ Holding (slot_id slot) item :: ags' ->
      step (mkWorld q ags en fi)
        (mkWorld (update_slot q i drop_permit) (Uncounting (slot_id slot) :: ags')
           en (item :: fi))
  | step_uncount q ags ags' en fi i slot :
      set_slots q !! i = Some slot ->
      ags ≡ₚ Uncounting (slot_id slot) :: ags' ->
      step (mkWorld q ags en fi) (mkWorld (update_slot q i queued_sub) ags' en fi)
  | step_priority q ags en fi i p :
      step (mkWorld q ags en fi) (mkWorld (update_slot q i (set_priority_word p)) ags en fi)
  | step_close_input q ags en fi :
      step (mkWorld q ags en fi) (mkWorld (QueueSet_close_input q) ags en fi)
  | step_mark_closed q ags en fi :
      step (mkWorld q ags en fi) (mkWorld (mark_runner_closed q) ags en fi)
  | step_close_slot q ags en fi i :
      set_runner_closed q = true ->
      step (mkWorld q ags en fi) (mkWorld (update_slot q i QueueSlot_close) ags en fi).

(** ** The invariant *)

(** What an agent adds to the permits out of a slot, and to its counter. *)
Definition agent_permits (id : QueueId) (a : Agent T) : Z :=
  match a with
  | Permitted d _ | Checked d _ | Holding d _ => if decide (d = id) then 1 else 0
  | Uncounted _ | Uncounting _ => 0
  end.

Definition agent_counts (id : QueueId) (a : Agent T) : Z :=
  match a with
  | Permitted _ _ | Checked _ _ => 0
  | Holding d _ | Uncounting d => if decide (d = id) then 1 else 0
  | Uncounted d => if decide (d = id) then -1 else 0
  end.

Definition agent_items (a : Agent T) : list T :=
  match a with Holding _ item => [item] | _ => [] end.

Definition total (f : Agent T -> Z) (ags : list (Agent T)) : Z :=
  foldr (fun a n => f a + n) 0 ags.

Record slot_ok (ags : list (Agent T)) (s : QueueSlot T S) : Prop := {
  slot_permits_ok :
    sem_available (slot_permits s) + zlen (slot_entries s)
      + total (agent_permits (slot_id s)) ags = slot_capacity s;
  slot_available_ok : 0 <= sem_available (slot_permits s);
  slot_queued_ok :
    slot_queued s
      = (zlen (slot_entries s) + total (agent_counts (slot_id s)) ags) mod (usize_max + 1);
}.

Record world_ok (w : World) : Prop := {
  world_ids : NoDup (slot_id <$> set_slots (w_set w));
  world_index : forall d i,
    set_indices (w_set w) !! QueueId_get d = Some i <->
    (slot_id <$> set_slots (w_set w)) !! i = Some d;
  world_slots : forall i s, set_slots (w_set w) !! i = Some s -> slot_ok (w_agents w) s;
  world_items :
    w_entered w ≡ₚ w_finished w ++ (w_agents w ≫= agent_items)
                     ++ (set_slots (w_set w) ≫= slot_entries);
}.

(** ** Preservation *)

Lemma total_cons f a ags : total f (a :: ags) = f a + total f ags.
Proof. reflexivity. Qed.

#[global] Instance total_proper f : Proper ((≡ₚ) ==> (=)) (total f).
Proof. intros l l' P. induction P; rewrite ?total_cons; lia. Qed.

Lemma total_nonneg f ags : (forall a, 0 <= f a) -> 0 <= total f ags.
Proof. intros Hf. induction ags as [|a ags IH]; [cbn; lia |]. rewrite total_cons. pose proof (Hf a). lia. Qed.

Lemma agent_permits_nonneg id a : 0 <= agent_permits id a.
Proof. destruct a; cbn; try case_decide; lia. Qed.

(** The invariant depends on the agents through three observations. *)
Lemma slot_ok_ext ags ags' s :
  total (agent_permits (slot_id s)) ags = total (agent_permits (slot_id s)) ags' ->
  total (agent_counts (slot_id s)) ags = total (agent_counts (slot_id s)) ags' ->
  slot_ok ags s -> slot_ok ags' s.
Proof. intros Hp Hc [H1 H2 H3]. split; rewrite <- ?Hp, <- ?Hc; assumption. Qed.

(** Same identifiers, so same index. *)
Lemma slots_update_ids (slots : list (QueueSlot T S)) i f :
  (forall s, slots !! i = Some s -> slot_id (f s) = slot_id s) ->
  slot_id <$> alter f i slots = slot_id <$> slots.
Proof.
  intros Hf. apply list_eq. intros j. rewrite !list_lookup_fmap.
  destruct (decide (j = i)) as [-> | Hne].
  - rewrite list_lookup_alter_eq. destruct (slots !! i) eqn:E; [| reflexivity].
    cbn. f_equal. auto.
  - rewrite list_lookup_alter_ne by congruence. reflexivity.
Qed.

Lemma ids_distinct (slots : list (QueueSlot T S)) i j s s' :
  NoDup (slot_id <$> slots) -> slots !! i = Some s -> slots !! j = Some s' ->
  i <> j -> slot_id s' <> slot_id s.
Proof.
  intros Hnd Hi Hj Hne Heq. apply Hne.
  apply (NoDup_lookup _ _ _ (slot_id s) Hnd); rewrite list_lookup_fmap.
  - rewrite Hi. reflexivity.
  - rewrite Hj. cbn. congruence.
Qed.

(** One slot and one agent list change, every other slot sees the same totals. *)
Lemma world_ok_update q ags en fi ags' en' fi' i s s' :
  world_ok (mkWorld q ags en fi) ->
  set_slots q !! i = Some s ->
  slot_id s' = slot_id s ->
  (forall d, d <> slot_id s ->
     total (agent_permits d) ags' = total (agent_permits d) ags /\
     total (agent_counts d) ags' = total (agent_counts d) ags) ->
  (slot_ok ags s -> slot_ok ags' s') ->
  (en ≡ₚ fi ++ (ags ≫= agent_items) ++ (set_slots q ≫= slot_entries) ->
   en' ≡ₚ fi' ++ (ags' ≫= agent_items) ++ (<[i := s']> (set_slots q) ≫= slot_entries)) ->
  world_ok (mkWorld (with_slots q (<[i := s']> (set_slots q))) ags' en' fi').
Proof.
  intros [Hnd Hix Hok Hit] Hi Hid Hother Hself Hitems; cbn in *.
  assert (Hids : slot_id <$> <[i := s']> (set_slots q) = slot_id <$> set_slots q).
  { rewrite list_fmap_insert, Hid. apply list_insert_id. rewrite list_lookup_fmap, Hi. reflexivity. }
  assert (Hlt : (i < length (set_slots q))%nat) by (eapply lookup_lt_Some; eassumption).
  split; cbn.
  - rewrite Hids. exact Hnd.
  - rewrite Hids. exact Hix.
  - intros j t. destruct (decide (j = i)) as [-> | Hne].
    + rewrite list_lookup_insert_eq by assumption. intros [= <-]. eauto.
    + rewrite list_lookup_insert_ne by congruence. intros Hj.
      destruct (Hother (slot_id t)) as [E1 E2].
      { eapply ids_distinct; eauto. }
      eapply slot_ok_ext; [symmetry; exact E1 | symmetry; exact E2 | eauto].
  - apply Hitems, Hit.
Qed.

Lemma update_slot_insert (q : QueueSet T S) i f s :
  set_slots q !! i = Some s -> update_slot q i f = with_slots q (<[i := f s]> (set_slots q)).
Proof.
  intros Hi. unfold update_slot. f_equal. rewrite list_insert_alter.
  apply list_alter_ext; [intros x Hx; congruence | reflexivity].
Qed.

Lemma bind_insert {A B} (f : A -> list B) (l : list A) i x y :
  l !! i = Some x ->
  exists pre post, l ≫= f = pre ++ f x ++ post /\ <[i := y]> l ≫= f = pre ++ f y ++ post.
Proof.
  intros Hi. exists (take i l ≫= f), (drop (Datatypes.S i) l ≫= f).
  pose proof (lookup_lt_Some _ _ _ Hi).
  split.
  - rewrite <- (take_drop_middle l i x Hi) at 1.
    rewrite bind_app, bind_cons. reflexivity.
  - rewrite insert_take_drop by assumption. rewrite bind_app, bind_cons. reflexivity.
Qed.

Ltac pull_items :=
  rewrite ?bind_cons; cbn [agent_items app]; rewrite <- ?app_assoc; cbn [app];
  rewrite <- ?Permutation_middle; reflexivity.

#[global] Instance items_proper : Proper ((≡ₚ) ==> (≡ₚ)) (fun ags => ags ≫= agent_items).
Proof. intros l l' P. apply bind_Permutation. exact P. Qed.

Lemma agent_totals d a ags ags' :
  ags ≡ₚ a :: ags' ->
  total (agent_permits d) ags = agent_permits d a + total (agent_permits d) ags' /\
  total (agent_counts d) ags = agent_counts d a + total (agent_counts d) ags'.
Proof. intros ->. split; reflexivity. Qed.

(** Only the slot named by the agents that move sees different totals. *)
Ltac totals :=
  intros;
  repeat match goal with
  | P : ?ags ≡ₚ _ :: _ |- context [total (agent_permits ?d) ?ags] =>
      rewrite (proj1 (agent_totals d _ _ _ P))
  | P : ?ags ≡ₚ _ :: _ |- context [total (agent_counts ?d) ?ags] =>
      rewrite (proj2 (agent_totals d _ _ _ P))
  end;
  rewrite ?total_cons; cbn [agent_permits agent_counts];
  repeat case_decide; try congruence; lia.

(** A slot after an action that moves the counter by [delta]. *)
Lemma slot_ok_change ags ags' (s s' : QueueSlot T S) delta :
  slot_ok ags s ->
  slot_id s' = slot_id s -> slot_capacity s' = slot_capacity s ->
  sem_available (slot_permits s') + zlen (slot_entries s')
    + total (agent_permits (slot_id s)) ags'
  = sem_available (slot_permits s) + zlen (slot_entries s)
    + total (agent_permits (slot_id s)) ags ->
  0 <= sem_available (slot_permits s') ->
  slot_queued s' = slot_queued s /\ delta = 0
    \/ slot_queued s' = (slot_queued s + delta) mod (usize_max + 1) ->
  zlen (slot_entries s') + total (agent_counts (slot_id s)) ags'
  = zlen (slot_entries s) + total (agent_counts (slot_id s)) ags + delta ->
  slot_ok ags' s'.
Proof.
  intros [Hp Ha Hq] Hid Hcap Hsum Hav Hd Hc. split; rewrite ?Hid; [lia | lia |].
  rewrite Hc. destruct Hd as [[-> ->] | ->].
  - rewrite Z.add_0_r. exact Hq.
  - rewrite Hq, Zplus_mod_idemp_l. reflexivity.
Qed.

Lemma world_slot_ok w i s :
  world_ok w -> set_slots (w_set w) !! i = Some s -> slot_ok (w_agents w) s.
Proof. intros Ok Hi. exact (world_slots _ Ok i s Hi). Qed.

Ltac slot_cbn :=
  cbn [with_permits with_queued with_entries drop_permit push_back queued_add queued_sub
       QueueSlot_push_front QueueSlot_close set_priority_word slot_id slot_capacity
       slot_permits slot_queued slot_entries slot_priority_word].

(** One slot changes by [f], with the totals and the items accounted for. *)
Ltac slot_step Ok delta :=
  erewrite update_slot_insert by eassumption;
  eapply world_ok_update; [exact Ok | eassumption | reflexivity | intros; split; totals | |];
  [ intros Hslot; apply (slot_ok_change _ _ _ _ delta Hslot);
    [ reflexivity | reflexivity
    | slot_cbn; rewrite ?sem_release_available, ?zlen_app; unfold zlen; cbn [length]; totals
    | slot_cbn; rewrite ?sem_release_available; destruct Hslot; lia | slot_cbn; auto; fail
    | slot_cbn; rewrite ?sem_release_available, ?zlen_app; unfold zlen; cbn [length]; totals ]
  | let Hitems := fresh in
    let E1 := fresh in let E2 := fresh in
    intros Hitems;
    match goal with
    | Hi : set_slots ?q !! ?i = Some ?s |- context [<[?i := ?s']> (set_slots ?q)] =>
        destruct (bind_insert slot_entries (set_slots q) i s s' Hi) as (? & ? & E1 & E2);
        rewrite E1 in Hitems; rewrite Hitems, E2
    end;
    match goal with P : ?ags ≡ₚ _ |- context [?ags ≫= _] => rewrite P | |- _ => idtac end;
    slot_cbn; pull_items ].
Lemma acquire_available (s s' : S) :
  sem_try_acquire s = (Acquired, s') ->
  sem_is_closed s = false /\ sem_available s' = sem_available s - 1 /\ 0 <= sem_available s'
  /\ sem_is_closed s' = false.
Proof.
  intros E. destruct (sem_is_closed s) eqn:C.
  - rewrite sem_acquire_closed in E by assumption. discriminate.
  - destruct (Z.le_gt_cases (sem_available s) 0).
    + rewrite sem_acquire_empty in E by assumption. discriminate.
    + destruct (sem_acquire_ok s C) as (s2 & E2 & A & B); [lia |].
      assert (s2 = s') as -> by congruence. repeat split; [lia | lia | exact B].
Qed.

Lemma acquire_preserves q ags en fi i slot permits item :
  set_slots q !! i = Some slot ->
  sem_try_acquire (slot_permits slot) = (Acquired, permits) ->
  world_ok (mkWorld q ags en fi) ->
  world_ok (mkWorld (update_slot q i (with_permits permits))
    (Permitted (slot_id slot) item :: ags) en fi).
Proof.
  intros Hi Hacq Ok. destruct (acquire_available _ _ Hacq) as (_ & A & P & _).
  slot_step Ok 0.
Qed.

Lemma refuse_preserves q ags ags' en fi i slot item :
  set_slots q !! i = Some slot -> ags ≡ₚ Permitted (slot_id slot) item :: ags' ->
  world_ok (mkWorld q ags en fi) -> world_ok (mkWorld (update_slot q i drop_permit) ags' en fi).
Proof. intros Hi P Ok. slot_step Ok 0. Qed.

Lemma push_back_preserves q ags ags' en fi i slot item :
  set_slots q !! i = Some slot -> ags ≡ₚ Checked (slot_id slot) item :: ags' ->
  world_ok (mkWorld q ags en fi) ->
  world_ok (mkWorld (update_slot q i (push_back item)) (Uncounted (slot_id slot) :: ags')
    (item :: en) fi).
Proof. intros Hi P Ok. slot_step Ok 0. Qed.

Lemma count_preserves q ags ags' en fi i slot :
  set_slots q !! i = Some slot -> ags ≡ₚ Uncounted (slot_id slot) :: ags' ->
  world_ok (mkWorld q ags en fi) -> world_ok (mkWorld (update_slot q i queued_add) ags' en fi).
Proof. intros Hi P Ok. slot_step Ok 1. Qed.

Lemma push_front_preserves q ags ags' en fi i slot item :
  set_slots q !! i = Some slot -> ags ≡ₚ Holding (slot_id slot) item :: ags' ->
  world_ok (mkWorld q ags en fi) ->
  world_ok (mkWorld (update_slot q i (QueueSlot_push_front item)) ags' en fi).
Proof. intros Hi P Ok. slot_step Ok 0. Qed.

Lemma release_preserves q ags ags' en fi i slot item :
  set_slots q !! i = Some slot -> ags ≡ₚ Holding (slot_id slot) item :: ags' ->
  world_ok (mkWorld q ags en fi) ->
  world_ok (mkWorld (update_slot q i drop_permit) (Uncounting (slot_id slot) :: ags')
    en (item :: fi)).
Proof. intros Hi P Ok. slot_step Ok 0. Qed.

Lemma uncount_preserves q ags ags' en fi i slot :
  set_slots q !! i = Some slot -> ags ≡ₚ Uncounting (slot_id slot) :: ags' ->
  world_ok (mkWorld q ags en fi) -> world_ok (mkWorld (update_slot q i queued_sub) ags' en fi).
Proof. intros Hi P Ok. slot_step Ok (-1). Qed.

Lemma list_alter_none {A} (f : A -> A) (l : list A) i : l !! i = None -> alter f i l = l.
Proof.
  intros Hi. apply list_eq. intros j. destruct (decide (j = i)) as [-> | Hne].
  - rewrite list_lookup_alter_eq, Hi. reflexivity.
  - apply list_lookup_alter_ne. congruence.
Qed.

Lemma priority_preserves q ags en fi i p :
  world_ok (mkWorld q ags en fi) ->
  world_ok (mkWorld (update_slot q i (set_priority_word p)) ags en fi).
Proof.
  intros Ok. destruct (set_slots q !! i) as [slot |] eqn:Hi.
  - slot_step Ok 0.
  - unfold update_slot. rewrite list_alter_none by assumption. destruct q. exact Ok.
Qed.

Lemma check_preserves q ags ags' en fi id item :
  ags ≡ₚ Permitted id item :: ags' ->
  world_ok (mkWorld q ags en fi) -> world_ok (mkWorld q (Checked id item :: ags') en fi).
Proof.
  intros P [Hnd Hix Hok Hit]. split; cbn [w_set w_agents w_entered w_finished] in *; try assumption.
  - intros i s Hi. apply (slot_ok_ext ags); [totals | totals | eauto].
  - rewrite Hit, P. reflexivity.
Qed.

Lemma pop_front_at_inv (slots : list (QueueSlot T S)) i id item slots' :
  pop_front_at slots i = Some (id, item, slots') ->
  exists slot entries, slots !! i = Some slot /\ slot_id slot = id /\
    slot_entries slot = item :: entries /\ slots' = <[i := with_entries slot entries]> slots.
Proof.
  unfold pop_front_at. destruct (slots !! i) as [slot |]; [| discriminate].
  destruct (slot_entries slot) as [| e es] eqn:E; [discriminate |].
  intros Hp. exists slot, es. repeat split; congruence.
Qed.

Lemma pop_preserves q ags en fi i id item slots' :
  pop_front_at (set_slots q) i = Some (id, item, slots') ->
  world_ok (mkWorld q ags en fi) ->
  world_ok (mkWorld (with_slots q slots') (Holding id item :: ags) en fi).
Proof.
  intros Hp Ok. destruct (pop_front_at_inv _ _ _ _ _ Hp) as (slot & entries & Hi & <- & He & ->).
  eapply world_ok_update; [exact Ok | exact Hi | reflexivity | intros; split; totals | |].
  - intros Hslot. apply (slot_ok_change _ _ _ _ 0 Hslot); try reflexivity; slot_cbn; rewrite ?He.
    + unfold zlen. cbn [length]. totals.
    + destruct Hslot; lia.
    + auto.
    + unfold zlen. cbn [length]. totals.
  - intros Hitems.
    destruct (bind_insert slot_entries (set_slots q) i slot (with_entries slot entries) Hi)
      as (pre & post & E1 & E2).
    rewrite E1, He in Hitems. rewrite Hitems, E2. slot_cbn. pull_items.
Qed.

Lemma close_slot_preserves q ags en fi i :
  world_ok (mkWorld q ags en fi) -> world_ok (mkWorld (update_slot q i QueueSlot_close) ags en fi).
Proof.
  intros Ok. destruct (set_slots q !! i) as [s|] eqn:Hi.
  - rewrite (update_slot_insert q i _ s) by exact Hi.
    eapply world_ok_update; [exact Ok | exact Hi | reflexivity | intros; split; totals | |].
    + intros []. split; slot_cbn; rewrite ?sem_close_available; assumption.
    + intros Hitems.
      destruct (bind_insert slot_entries (set_slots q) i s (QueueSlot_close s) Hi)
        as (pre & post & E1 & E2).
      rewrite E1 in Hitems. by rewrite Hitems, E2.
  - unfold update_slot. rewrite list_alter_none by assumption. destruct q. exact Ok.
Qed.

(** The slots that are left are closed one after the other. *)
Lemma close_slots_run q ags en fi closed slots :
  set_runner_closed q = true ->
  rtc step (mkWorld (with_slots q (closed ++ slots)) ags en fi)
    (mkWorld (with_slots q (closed ++ map QueueSlot_close slots)) ags en fi).
Proof.
  intros Hc. revert closed. induction slots as [|s slots IH]; intros closed; [reflexivity |].
  etransitivity.
  - apply rtc_once, (step_close_slot _ _ _ _ (length closed)). exact Hc.
  - unfold update_slot. cbn [with_slots set_slots set_indices set_input_closed set_runner_closed].
    rewrite alter_app_r_alt, Nat.sub_diag by lia. cbn [alter list_alter].
    specialize (IH (closed ++ [QueueSlot_close s])). rewrite <- !app_assoc in IH. exact IH.
Qed.

(** [close_runner] undisturbed. *)
Lemma close_runner_runs q ags en fi :
  rtc step (mkWorld q ags en fi) (mkWorld (QueueSet_close_runner q) ags en fi).
Proof.
  unfold QueueSet_close_runner. destruct (set_runner_closed q); [reflexivity |].
  etransitivity; [apply rtc_once, step_mark_closed |].
  exact (close_slots_run (mark_runner_closed q) ags en fi [] (set_slots q) eq_refl).
Qed.

Lemma step_preserves w w' : step w w' -> world_ok w -> world_ok w'.
Proof.
  intros St Ok. destruct St.
  - eapply acquire_preserves; eassumption.
  - eapply refuse_preserves; eassumption.
  - eapply check_preserves; eassumption.
  - eapply push_back_preserves; eassumption.
  - eapply count_preserves; eassumption.
  - eapply pop_preserves; eassumption.
  - eapply push_front_preserves; eassumption.
  - eapply release_preserves; eassumption.
  - eapply uncount_preserves; eassumption.
  - apply priority_preserves, Ok.
  - destruct Ok; split; assumption.
  - destruct Ok; split; assumption.
  - apply close_slot_preserves, Ok.
Qed.

Lemma run_preserves w w' : rtc step w w' -> world_ok w -> world_ok w'.
Proof. induction 1; eauto using step_preserves. Qed.

(** ** The start *)

Lemma validate_definitions_ids (definitions : list QueueConfig) ids n ids' :
  validate_definitions definitions ids n = Ok ids' ->
  NoDup ids -> NoDup ((qc_id <$> definitions) ++ ids) /\
  (forall d, d ∈ ids' <-> d ∈ (qc_id <$> definitions) ++ ids) /\
  (0 <= n <= MAXIMUM_TOTAL_QUEUE_CAPACITY -> Forall (fun c => 0 <= qc_capacity c) definitions ->
   n + foldr (fun c m => qc_capacity c + m) 0 definitions <= MAXIMUM_TOTAL_QUEUE_CAPACITY).
Proof.
  revert ids n. induction definitions as [| c cs IH]; intros ids n; cbn [validate_definitions].
  - intros [= <-] Hnd. cbn. repeat split; auto; lia.
  - destruct (bool_decide_reflect (qc_id c ∈ ids)) as [|Hin]; [discriminate |].
    unfold checked_add. destruct (Z.leb_spec (n + qc_capacity c) usize_max); [| discriminate].
    cbn [ok_or result_bind].
    destruct (Z.ltb_spec MAXIMUM_TOTAL_QUEUE_CAPACITY (n + qc_capacity c)); [discriminate |].
    intros E Hnd. destruct (IH _ _ E) as (Hnd' & Hids & Hsum); [constructor; assumption |].
    cbn [fmap list_fmap app foldr]. repeat split.
    + rewrite <- Permutation_middle in Hnd'. exact Hnd'.
    + intros Hd. apply Hids in Hd. rewrite <- Permutation_middle in Hd. exact Hd.
    + intros Hd. apply Hids. rewrite <- Permutation_middle. exact Hd.
    + intros Hn Hcap%Forall_cons_iff. destruct Hcap as [Hc Hcs].
      specialize (Hsum ltac:(lia) Hcs). lia.
Qed.

(** What [validate_layout] establishes. *)
Lemma validate_layout_ok (definitions : list QueueConfig) default :
  validate_layout definitions default = Ok tt ->
  NoDup (qc_id <$> definitions) /\ default ∈ qc_id <$> definitions /\
  0 < zlen definitions <= MAXIMUM_LINK_QUEUES /\
  (Forall (fun c => 0 <= qc_capacity c) definitions ->
   foldr (fun c m => qc_capacity c + m) 0 definitions <= MAXIMUM_TOTAL_QUEUE_CAPACITY).
Proof.
  unfold validate_layout. pose proof (zlen_nonneg definitions).
  destruct (Z.eqb_spec (zlen definitions) 0); [discriminate |].
  destruct (Z.ltb_spec MAXIMUM_LINK_QUEUES (zlen definitions)); [discriminate |].
  intros (ids & E & Hd)%result_bind_Ok.
  destruct (validate_definitions_ids _ _ _ _ E) as (Hnd & Hids & Hsum); [constructor |].
  rewrite app_nil_r in *.
  destruct (bool_decide_reflect (default ∈ ids)) as [Hin |]; [| discriminate].
  repeat split; [exact Hnd | apply Hids, Hin | lia | lia |].
  intros Hcap. specialize (Hsum ltac:(unfold MAXIMUM_TOTAL_QUEUE_CAPACITY; lia) Hcap). lia.
Qed.

Lemma slot_capacity_le (definitions : list QueueConfig) c :
  Forall (fun c => 0 <= qc_capacity c) definitions -> c ∈ definitions ->
  qc_capacity c <= foldr (fun c m => qc_capacity c + m) 0 definitions.
Proof.
  induction definitions as [| d ds IH]; intros Hc Hin; [inversion Hin |].
  apply Forall_cons_iff in Hc as [Hd Hds]. cbn [foldr].
  assert (0 <= foldr (fun c m => qc_capacity c + m) 0 ds).
  { clear -Hds. induction Hds; cbn [foldr]; lia. }
  apply elem_of_cons in Hin as [-> | Hin]; [lia | specialize (IH Hds Hin); lia].
Qed.

Lemma indices_collect (l : list (nat * QueueSlot T S)) (m : gmap Z nat) :
  NoDup ((fun p => QueueId_get (slot_id p.2)) <$> l) ->
  forall d i,
    foldl (fun m p => <[QueueId_get (slot_id p.2) := p.1]> m) m l !! d = Some i <->
    (exists s, (i, s) ∈ l /\ QueueId_get (slot_id s) = d) \/
    (d ∉ (fun p => QueueId_get (slot_id p.2)) <$> l) /\ m !! d = Some i.
Proof.
  revert m. induction l as [| [j s] l IH]; intros m Hnd d i; cbn [foldl fmap list_fmap].
  - split; [intros Hm; right; split; [apply not_elem_of_nil | exact Hm] |].
    intros [(s & Hin & _) | [_ Hm]]; [inversion Hin | exact Hm].
  - apply NoDup_cons in Hnd as [Hnin Hnd]. cbn [snd fst] in *. rewrite (IH _ Hnd).
    rewrite not_elem_of_cons. setoid_rewrite elem_of_cons.
    destruct (decide (d = QueueId_get (slot_id s))) as [-> | Hne].
    + rewrite lookup_insert_eq. split.
      * intros [(t & Hin & Hd) | [_ [= <-]]]; eauto 8.
      * intros [(t & [[= -> ->] | Hin] & Hd) | [[Hn _] _]]; [eauto 8 | eauto 8 | congruence].
    + rewrite lookup_insert_ne by congruence. split.
      * intros [(t & Hin & Hd) | [Hn Hm]]; eauto 8.
      * intros [(t & [[= -> ->] | Hin] & Hd) | [[_ Hn] Hm]]; [congruence | eauto 8 | eauto 8].
Qed.

Lemma imap_pair_lookup {A} (l : list A) i x : (i, x) ∈ imap pair l <-> l !! i = Some x.
Proof.
  rewrite list_elem_of_lookup. setoid_rewrite list_lookup_imap_Some. split.
  - intros (j & y & Hy & [= -> ->]). exact Hy.
  - intros Hx. eauto.
Qed.

Definition start (definitions : list QueueConfig) : World :=
  mkWorld (QueueSet_new definitions) [] [] [].

Lemma new_ids (definitions : list QueueConfig) :
  slot_id <$> set_slots (QueueSet_new (T:=T) (S:=S) definitions) = qc_id <$> definitions.
Proof. cbn [QueueSet_new set_slots]. rewrite <- list_fmap_compose. reflexivity. Qed.

Lemma indices_new (definitions : list QueueConfig) d i :
  NoDup (qc_id <$> definitions) ->
  set_indices (QueueSet_new (T:=T) (S:=S) definitions) !! d = Some i <->
  exists s, set_slots (QueueSet_new (T:=T) (S:=S) definitions) !! i = Some s /\
            QueueId_get (slot_id s) = d.
Proof.
  intros Hnd. cbn [QueueSet_new set_slots set_indices]. rewrite indices_collect.
  - setoid_rewrite imap_pair_lookup. rewrite lookup_empty. naive_solver.
  - rewrite fmap_imap. unfold compose. cbn [snd].
    assert (E : imap (fun _ s => QueueId_get (slot_id s)) (map (QueueSlot_new (T:=T) (S:=S)) definitions)
            = QueueId_get <$> (qc_id <$> definitions)).
    { apply list_eq. intros j. rewrite list_lookup_imap, !list_lookup_fmap.
      destruct (definitions !! j); reflexivity. }
    rewrite E. apply NoDup_fmap_2; [| exact Hnd].
    intros [x] [y]. cbn. congruence.
Qed.

Lemma start_ok (definitions : list QueueConfig) default :
  validate_layout definitions default = Ok tt ->
  Forall (fun c => 0 <= qc_capacity c) definitions ->
  world_ok (start definitions).
Proof.
  intros V Hcap. apply validate_layout_ok in V as (Hnd & _).
  split; cbn [start w_set w_agents w_entered w_finished].
  - rewrite new_ids. exact Hnd.
  - intros d i. rewrite indices_new by assumption. rewrite list_lookup_fmap, fmap_Some.
    split; intros (s & Hi & Hd); exists s; split; auto; [| congruence].
    destruct d, (slot_id s). cbn in Hd. congruence.
  - intros i s. cbn [QueueSet_new set_slots]. rewrite list_lookup_fmap.
    intros (c & Hc & ->)%fmap_Some.
    assert (0 <= qc_capacity c).
    { rewrite Forall_lookup in Hcap. eauto. }
    split; cbn [QueueSlot_new slot_id slot_entries slot_permits slot_queued slot_capacity];
      rewrite ?sem_new_available by assumption; unfold zlen, total; cbn [length foldr]; first [lia | reflexivity].
  - cbn [QueueSet_new set_slots].
    assert (E : map (QueueSlot_new (T:=T) (S:=S)) definitions ≫= slot_entries = []).
    { clear. induction definitions; [reflexivity |]. cbn [map]. rewrite bind_cons. auto. }
    rewrite E. reflexivity.
Qed.

(** ** The methods are runs

    A method called with no other call interfering is a sequence of steps. *)

(** The index of an identifier is the slot with that identifier. *)
Lemma slot_index_spec (q : QueueSet T S) ags en fi id :
  world_ok (mkWorld q ags en fi) ->
  match QueueSet_slot_index q id with
  | Ok i => exists s, set_slots q !! i = Some s /\ slot_id s = id
  | Err _ => id ∉ slot_id <$> set_slots q
  end.
Proof.
  intros Ok. pose proof (world_index _ Ok id) as Hix. cbn [w_set] in Hix.
  unfold QueueSet_slot_index. destruct (_ !! _) as [i |] eqn:E; cbn [ok_or].
  - pose proof (proj1 (Hix i) eq_refl) as Hl. revert Hl. rewrite list_lookup_fmap, fmap_Some. naive_solver.
  - intros Hin. apply list_elem_of_lookup in Hin as [i Hi]. apply Hix in Hi. discriminate.
Qed.

Lemma update_lookup (q : QueueSet T S) i f s :
  set_slots q !! i = Some s -> set_slots (update_slot q i f) !! i = Some (f s).
Proof. intros Hi. cbn. rewrite list_lookup_alter_eq, Hi. reflexivity. Qed.

Lemma finish_push_runs q ags en fi i slot item :
  set_slots q !! i = Some slot ->
  let '(r, q') := QueueSet_finish_push q i item in
  rtc step (mkWorld q (Permitted (slot_id slot) item :: ags) en fi)
    (mkWorld q' ags (if is_ok r then item :: en else en) fi).
Proof.
  intros Hi. unfold QueueSet_finish_push. destruct (set_runner_closed q) eqn:C; cbn [is_ok].
  - apply rtc_once. eapply step_refuse; eauto.
  - eapply rtc_l; [eapply step_check; [reflexivity | exact C] |].
    eapply rtc_l; [eapply step_push_back; [exact Hi | reflexivity] |].
    eapply rtc_l; [eapply step_count; [apply update_lookup, Hi | reflexivity] |].
    reflexivity.
Qed.

Lemma acquire_runs q ags en fi i slot permits item :
  set_slots q !! i = Some slot ->
  sem_try_acquire (slot_permits slot) = (Acquired, permits) ->
  let '(r, q') := QueueSet_finish_push (update_slot q i (with_permits permits)) i item in
  rtc step (mkWorld q ags en fi) (mkWorld q' ags (if is_ok r then item :: en else en) fi).
Proof.
  intros Hi Ha. pose proof (finish_push_runs (update_slot q i (with_permits permits)) ags en fi i
    (with_permits permits slot) item (update_lookup q i _ slot Hi)) as R.
  destruct (QueueSet_finish_push _ _ _) as [r q']. cbn [with_permits slot_id] in R.
  eapply rtc_l; [eapply step_acquire; eassumption | exact R].
Qed.

Lemma try_push_runs q ags en fi id item :
  let '(r, q') := QueueSet_try_push q id item in
  rtc step (mkWorld q ags en fi) (mkWorld q' ags (if is_ok r then item :: en else en) fi).
Proof.
  unfold QueueSet_try_push. destruct (QueueSet_slot_index q id) as [i |]; [| reflexivity].
  destruct (set_slots q !! i) as [slot |] eqn:Hi; [| reflexivity].
  destruct (set_runner_closed q); [reflexivity |].
  destruct (sem_try_acquire (slot_permits slot)) as [[] permits] eqn:Ha; try reflexivity.
  apply (acquire_runs q ags en fi i slot permits item Hi Ha).
Qed.

Lemma push_poll_runs q ags en fi i item expired :
  let '(r, q') := QueueSet_push_poll q i item expired in
  rtc step (mkWorld q ags en fi)
    (mkWorld q' ags (match r with Some (Ok _) => item :: en | _ => en end) fi).
Proof.
  unfold QueueSet_push_poll. destruct (set_slots q !! i) as [slot |] eqn:Hi; [| reflexivity].
  destruct (sem_try_acquire (slot_permits slot)) as [[] permits] eqn:Ha; try reflexivity.
  - pose proof (acquire_runs q ags en fi i slot permits item Hi Ha) as R.
    destruct (QueueSet_finish_push _ _ _) as [[[] | e] q']; exact R.
  - destruct expired; reflexivity.
Qed.

Lemma pop_from_runs q ags en fi id :
  world_ok (mkWorld q ags en fi) ->
  match QueueSet_pop_from q id with
  | (Some item, q') => step (mkWorld q ags en fi) (mkWorld q' (Holding id item :: ags) en fi)
  | (None, q') => q' = q
  end.
Proof.
  intros Ok. pose proof (slot_index_spec q ags en fi id Ok) as Hs.
  unfold QueueSet_pop_from. destruct (QueueSet_slot_index q id) as [i |]; [| reflexivity].
  destruct (pop_front_at (set_slots q) i) as [[[d item] slots'] |] eqn:Hp; [| reflexivity].
  destruct (pop_front_at_inv _ _ _ _ _ Hp) as (slot & entries & Hi & Hd & _).
  destruct Hs as (s & Hs & <-). assert (slot_id s = d) as -> by congruence.
  eapply step_pop. exact Hp.
Qed.

Lemma push_front_runs q ags en fi id item :
  world_ok (mkWorld q ags en fi) -> id ∈ slot_id <$> set_slots q ->
  step (mkWorld q (Holding id item :: ags) en fi)
    (mkWorld (QueueSet_push_front q id item) ags en fi).
Proof.
  intros Ok Hin. pose proof (slot_index_spec q ags en fi id Ok) as Hs.
  unfold QueueSet_push_front. destruct (QueueSet_slot_index q id) as [i |]; [| contradiction].
  destruct Hs as (s & Hs & <-). eapply step_push_front; [exact Hs | reflexivity].
Qed.

Lemma finish_entry_runs q ags en fi id item :
  world_ok (mkWorld q ags en fi) -> id ∈ slot_id <$> set_slots q ->
  (QueueSet_finish_entry q id item).1 = item /\
  rtc step (mkWorld q (Holding id item :: ags) en fi)
    (mkWorld (QueueSet_finish_entry q id item).2 ags en (item :: fi)).
Proof.
  intros Ok Hin. pose proof (slot_index_spec q ags en fi id Ok) as Hs.
  unfold QueueSet_finish_entry. destruct (QueueSet_slot_index q id) as [i |]; [| contradiction].
  destruct Hs as (s & Hs & <-). split; [reflexivity |]. cbn [snd].
  eapply rtc_l; [eapply step_release; [exact Hs | reflexivity] |].
  apply rtc_once. eapply step_uncount; [apply update_lookup, Hs | reflexivity].
Qed.
End Runs.
