(* ===== verification/QueueSched.v ===== *)
(** * Scheduling among the request queues

    What [pop_scheduled] selects: the largest ready strict rank first, then the
    weighted rotation; and the bound on how long a ready weighted queue waits. *)
From stdpp Require Import gmap.
From S2P Require Import Prelude QueueSet QueueRuns.

Section Sched.
Context {T S : Type} `{SemaphoreLaws S}.
Implicit Types slots : list (QueueSlot T S).

(** ** Scans *)

(** Slot [i] passes the test and has an entry. *)
Definition ready slots (admits : QueueSlot T S -> bool) (i : nat) : Prop :=
  exists s, slots !! i = Some s /\ admits s = true /\ slot_entries s <> [].

Lemma pop_front_at_None slots i :
  pop_front_at slots i = None <->
  forall s, slots !! i = Some s -> slot_entries s = [].
Proof.
  unfold pop_front_at. destruct (slots !! i) as [s |].
  - destruct (slot_entries s) eqn:E; split; try discriminate; try congruence.
    intros Hs. specialize (Hs s eq_refl). congruence.
  - split; [discriminate | reflexivity].
Qed.

Lemma pop_scan_Some slots admits indices i popped :
  pop_scan slots admits indices = Some (i, popped) ->
  exists pre post, indices = pre ++ i :: post /\
    (forall j, j ∈ pre -> ~ ready slots admits j) /\
    ready slots admits i /\ pop_front_at slots i = Some popped.
Proof.
  induction indices as [| j indices IH]; cbn [pop_scan]; [discriminate |].
  assert (Skip : ~ ready slots admits j -> pop_scan slots admits indices = Some (i, popped) ->
    exists pre post, j :: indices = pre ++ i :: post /\
      (forall j, j ∈ pre -> ~ ready slots admits j) /\
      ready slots admits i /\ pop_front_at slots i = Some popped).
  { intros Hn E. destruct (IH E) as (pre & post & -> & Hpre & Hr & Hp).
    exists (j :: pre), post. split; [reflexivity |]. split; [| auto].
    intros k [-> | Hk]%elem_of_cons; auto. }
  destruct (slots !! j) as [s |] eqn:Hj; [| apply Skip; intros (t & Ht & _); congruence].
  destruct (admits s) eqn:Ha; [| apply Skip; intros (t & Ht & Ht' & _); congruence].
  destruct (pop_front_at slots j) as [p |] eqn:Hp.
  - intros [= <- <-]. exists [], indices. split; [reflexivity |].
    split; [intros k Hk; inversion Hk |]. split; [| exact Hp]. exists s.
    split; [exact Hj |]. split; [exact Ha |]. intros E.
    assert (pop_front_at slots j = None) by (apply pop_front_at_None; congruence). congruence.
  - apply Skip. intros (t & Ht & _ & Hne). rewrite pop_front_at_None in Hp. eauto.
Qed.

Lemma pop_scan_None slots admits indices :
  pop_scan slots admits indices = None -> forall j, j ∈ indices -> ~ ready slots admits j.
Proof.
  induction indices as [| j indices IH]; cbn [pop_scan]; intros E k Hk; [inversion Hk |].
  apply elem_of_cons in Hk as [-> | Hk].
  - intros (s & Hs & Ha & Hne). rewrite Hs, Ha in E.
    destruct (pop_front_at slots j) eqn:Hp; [discriminate |].
    rewrite pop_front_at_None in Hp. eauto.
  - apply IH; [| exact Hk]. destruct (slots !! j); [| exact E].
    destruct (admits _); [| exact E]. destruct (pop_front_at slots j); [discriminate | exact E].
Qed.

(** ** The rotation

    The order in which the other slots are tried after slot [c]. *)
Definition rotation (n c : nat) : list nat :=
  map (fun offset => (c + offset) mod n)%nat (seq 1 (n - 1)).

Lemma rotation_split n c pre k post :
  (c < n)%nat -> rotation n c = pre ++ k :: post -> rotation n k = post ++ c :: pre.
Proof.
  intros Hc E. unfold rotation in *.
  assert (Hlen : (length pre + Datatypes.S (length post) = n - 1)%nat).
  { pose proof (f_equal length E) as L. rewrite length_map, length_seq, length_app in L. cbn in L. lia. }
  assert (Hat : forall o x, (pre ++ k :: post) !! o = Some x ->
    x = ((c + Datatypes.S o) mod n)%nat).
  { intros o x Hx. rewrite <- E in Hx. apply list_lookup_fmap_Some_1 in Hx as (y & -> & Hy).
    apply lookup_seq in Hy. f_equal. lia. }
  assert (Hk : k = ((c + Datatypes.S (length pre)) mod n)%nat).
  { apply Hat. apply list_lookup_middle. reflexivity. }
  apply list_eq_same_length with (n - 1)%nat; rewrite ?length_map, ?length_seq, ?length_app; cbn; [lia | lia |].
  intros o x y Ho Hx Hy.
  apply list_lookup_fmap_Some_1 in Hx as (z & -> & Hz). apply lookup_seq in Hz as [-> _].
  rewrite Hk, Nat.Div0.add_mod_idemp_l.
  destruct (Nat.lt_trichotomy o (length post)) as [Hlt | [-> | Hgt]].
  - rewrite lookup_app_l in Hy by lia.
    rewrite (Hat (length pre + 1 + o)%nat y); [f_equal; lia |].
    rewrite lookup_app_r by lia. rewrite lookup_cons_ne_0 by lia.
    rewrite <- Hy. f_equal. lia.
  - rewrite list_lookup_middle in Hy by reflexivity. injection Hy as <-.
    replace (c + _ + _)%nat with (c + 1 * n)%nat by lia.
    rewrite Nat.Div0.mod_add. apply Nat.mod_small. exact Hc.
  - rewrite lookup_app_r in Hy by lia. rewrite lookup_cons_ne_0 in Hy by lia.
    rewrite (Hat (o - length post - 1)%nat y).
    + replace (c + _ + _)%nat with (c + Datatypes.S (o - length post - 1) + 1 * n)%nat by lia.
      apply Nat.Div0.mod_add.
    + rewrite lookup_app_l by (apply lookup_lt_Some in Hy; lia).
      rewrite <- Hy. f_equal. lia.
Qed.

Lemma rotation_0 n : rotation n 0 = seq 1 (n - 1).
Proof.
  unfold rotation. rewrite <- (map_id (seq 1 (n - 1))) at 2. apply map_ext_in.
  intros o Ho. apply in_seq in Ho. cbn. apply Nat.mod_small. lia.
Qed.

Lemma rotation_perm n c : (c < n)%nat -> c :: rotation n c ≡ₚ seq 0 n.
Proof.
  intros Hc. assert (E0 : seq 0 n = 0%nat :: rotation n 0).
  { rewrite rotation_0. destruct n; [lia |]. cbn. rewrite Nat.sub_0_r. reflexivity. }
  rewrite E0. destruct (decide (c = 0%nat)) as [-> | Hne]; [reflexivity |].
  assert (Hin : c ∈ rotation n 0).
  { rewrite rotation_0. apply elem_of_seq. lia. }
  apply list_elem_of_split in Hin as (pre & post & E).
  rewrite (rotation_split n 0 pre c post) by (auto; lia). rewrite E.
  rewrite <- !Permutation_middle. rewrite (Permutation_app_comm pre post).
  apply Permutation_swap.
Qed.

(** ** One weighted pop *)

Definition cursor_ok (n : nat) (cursor : QueueCursor) : Prop :=
  (cur_weighted_index cursor < n)%nat /\ 0 <= cur_weighted_used cursor <= u16_max.

(** The ways a weighted pop ends: within the quota of the current slot, at the next
    ready slot of the rotation, back at the current slot when no other is ready, or
    with nothing. *)
Inductive weighted_pop slots (cursor : QueueCursor)
    : option (QueueId * T * list (QueueSlot T S)) -> QueueCursor -> Prop :=
  | pop_in_quota s popped :
      let c := cur_weighted_index cursor in
      slots !! c = Some s ->
      pop_front_at slots c = Some popped ->
      (exists w, QueueSlot_priority s = Weighted w /\ cur_weighted_used cursor < w) ->
      weighted_pop slots cursor (Some popped)
        (mkCursor c (saturating_add u16_max (cur_weighted_used cursor) 1) (cur_strict_index cursor))
  | pop_next pre k post popped :
      let c := cur_weighted_index cursor in
      rotation (length slots) c = pre ++ k :: post ->
      (forall j, j ∈ pre -> ~ ready slots is_weighted j) ->
      ready slots is_weighted k ->
      pop_front_at slots k = Some popped ->
      ~ (ready slots is_weighted c /\ within_quota slots c (cur_weighted_used cursor) = true) ->
      weighted_pop slots cursor (Some popped) (mkCursor k 1 (cur_strict_index cursor))
  | pop_again s w popped :
      let c := cur_weighted_index cursor in
      slots !! c = Some s -> QueueSlot_priority s = Weighted w ->
      pop_front_at slots c = Some popped ->
      (forall j, j ∈ rotation (length slots) c -> ~ ready slots is_weighted j) ->
      weighted_pop slots cursor (Some popped) (mkCursor c w (cur_strict_index cursor))
  | pop_nothing :
      (forall j, (j < length slots)%nat -> ~ ready slots is_weighted j) ->
      weighted_pop slots cursor None cursor.

Lemma weighted_pop_served slots cursor popped cursor' :
  weighted_pop slots cursor (Some popped) cursor' ->
  exists i, pop_front_at slots i = Some popped.
Proof. intros Hw. inversion Hw; eauto. Qed.

Lemma is_weighted_spec (s : QueueSlot T S) :
  is_weighted s = true <-> exists w, QueueSlot_priority s = Weighted w.
Proof.
  unfold is_weighted. destruct (QueueSlot_priority s) as [w | r].
  - split; eauto.
  - split; [discriminate | intros [w E]; discriminate].
Qed.

Lemma within_quota_spec slots c u :
  within_quota slots c u = true <->
  exists s w, slots !! c = Some s /\ QueueSlot_priority s = Weighted w /\ u < w.
Proof.
  unfold within_quota. split.
  - destruct (slots !! c) as [s |]; [| discriminate].
    destruct (QueueSlot_priority s) as [w | r] eqn:E; [| discriminate].
    intros Hlt%Z.ltb_lt. exists s, w. auto.
  - intros (s & w & -> & -> & Hlt). apply Z.ltb_lt, Hlt.
Qed.

Lemma ready_popped slots admits i :
  ready slots admits i <->
  (exists s, slots !! i = Some s /\ admits s = true) /\ pop_front_at slots i <> None.
Proof.
  rewrite pop_front_at_None. unfold ready. split.
  - intros (s & Hs & Ha & Hn). split; [eauto |]. intros Hall. apply Hn, Hall, Hs.
  - intros ((s & Hs & Ha) & Hn). exists s. split; [exact Hs |]. split; [exact Ha |].
    intros E. apply Hn. intros t Ht. congruence.
Qed.

Lemma rotation_all n c j :
  (c < n)%nat -> (j < n)%nat -> j <> c -> j ∈ rotation n c.
Proof.
  intros Hc Hj Hne. assert (Hin : j ∈ c :: rotation n c).
  { rewrite rotation_perm by assumption. apply elem_of_seq. lia. }
  apply elem_of_cons in Hin as [|]; [congruence | assumption].
Qed.

Lemma nothing_ready slots admits c :
  (c < length slots)%nat -> ~ ready slots admits c ->
  (forall j, j ∈ rotation (length slots) c -> ~ ready slots admits j) ->
  forall j, (j < length slots)%nat -> ~ ready slots admits j.
Proof.
  intros Hc Hnc Hnone j Hj. destruct (decide (j = c)) as [-> | Hne]; [exact Hnc |].
  apply Hnone, rotation_all; assumption.
Qed.

Lemma pop_weighted_spec slots cursor :
  cursor_ok (length slots) cursor ->
  weighted_pop slots cursor (pop_weighted slots cursor).1 (pop_weighted slots cursor).2.
Proof.
  intros [Hc Hu]. unfold pop_weighted.
  rewrite (proj2 (Nat.eqb_neq _ _)) by lia. rewrite (proj2 (Nat.leb_gt _ _)) by lia.
  set (c := cur_weighted_index cursor) in *.
  destruct (within_quota slots c (cur_weighted_used cursor)) eqn:Q;
    [destruct (pop_front_at slots c) as [popped |] eqn:Hp |].
  { apply within_quota_spec in Q as (s & w & Hs & Hw & Hlt).
    eapply pop_in_quota; eauto. }
  all: destruct (pop_scan slots is_weighted (map _ (seq 1 (length slots - 1))))
         as [[k popped] |] eqn:Hscan; cbn [fst snd].
  1, 3: apply pop_scan_Some in Hscan as (pre & post & E & Hpre & Hr & Hp');
        eapply pop_next; eauto; intros [Hrc Hq];
        apply ready_popped in Hrc as [_ Hn]; subst c; congruence.
  all: pose proof (pop_scan_None _ _ _ Hscan) as Hnone;
       destruct (lookup_lt_is_Some_2 slots c Hc) as [s Hs]; rewrite Hs.
  - replace (if is_weighted s then None else None)
      with (None : option (QueueId * T * list (QueueSlot T S))) by (destruct (is_weighted s); reflexivity).
    destruct cursor. apply pop_nothing. apply (nothing_ready slots _ c Hc); [| exact Hnone].
    intros [_ Hn]%ready_popped. congruence.
  - destruct (is_weighted s) eqn:Hw.
    + pose proof Hw as Hw'. apply is_weighted_spec in Hw' as [w Ew].
      destruct (pop_front_at slots c) as [popped |] eqn:Hp; cbn [fst snd].
      * rewrite Ew. eapply pop_again; eauto.
      * destruct cursor. apply pop_nothing. apply (nothing_ready slots _ c Hc); [| exact Hnone].
        intros [_ Hn]%ready_popped. congruence.
    + destruct cursor. apply pop_nothing. apply (nothing_ready slots _ c Hc); [| exact Hnone].
      intros (t & Ht & Hw' & _). congruence.
Qed.

(** ** The waiting bound *)

(** The weight of a slot, 0 for a strict one. *)
Definition weight_at (priorities : list QueuePriority) (j : nat) : Z :=
  match priorities !! j with Some (Weighted w) => w | _ => 0 end.

Definition weight_sum (priorities : list QueuePriority) (l : list nat) : Z :=
  foldr (fun j n => weight_at priorities j + n) 0 l.

(** The weights met along [l] before slot [i]. *)
Fixpoint weight_before (priorities : list QueuePriority) (i : nat) (l : list nat) : Z :=
  match l with
  | [] => 0
  | j :: l => if decide (j = i) then 0 else weight_at priorities j + weight_before priorities i l
  end.

(** How many weighted pops can still pass slot [i] by. *)
Definition potential (priorities : list QueuePriority) (i c : nat) (used : Z) : Z :=
  let n := length priorities in
  if decide (c = i) then
    if used <? weight_at priorities i then 0 else weight_sum priorities (rotation n i)
  else Z.max 0 (weight_at priorities c - used) + weight_before priorities i (rotation n c).

Definition weights_ok (priorities : list QueuePriority) : Prop :=
  forall j w, priorities !! j = Some (Weighted w) -> 0 < w <= u16_max.

Lemma decode_weight v w : QueuePriority_decode v = Weighted w -> 0 < w <= u16_max.
Proof.
  unfold QueuePriority_decode, u16_max.
  assert (B : forall x, 0 <= Z.land x 255 < 256).
  { intros x. change 255 with (Z.ones 8). rewrite Z.land_ones by lia.
    apply Z.mod_pos_bound. reflexivity. }
  pose proof (B v). pose proof (B (Z.shiftr v 8)).
  destruct (negb _); [discriminate |]. destruct (Z.eqb_spec (Z.land v 255 + Z.land (v ≫ 8) 255 * 256) 0);
    intros [= <-]; lia.
Qed.

Lemma slots_weights_ok slots : weights_ok (QueueSlot_priority <$> slots).
Proof.
  intros j w. rewrite list_lookup_fmap. intros (s & _ & E)%fmap_Some.
  symmetry in E. exact (decode_weight _ _ E).
Qed.

Section Weights.
Context (priorities : list QueuePriority) (Hw : weights_ok priorities).

Lemma weight_at_range j : 0 <= weight_at priorities j <= u16_max.
Proof.
  unfold weight_at, u16_max. destruct (priorities !! j) as [[w |] |] eqn:E; try lia.
  apply Hw in E. unfold u16_max in E. lia.
Qed.

Lemma weight_sum_nonneg l : 0 <= weight_sum priorities l.
Proof.
  induction l as [| j l IH]; cbn [weight_sum foldr]; [lia |].
  pose proof (weight_at_range j). unfold weight_sum in IH. lia.
Qed.

Lemma weight_sum_app l k :
  weight_sum priorities (l ++ k) = weight_sum priorities l + weight_sum priorities k.
Proof. induction l as [| j l IH]; cbn in *; unfold weight_sum in *; lia. Qed.

#[local] Instance weight_sum_proper : Proper ((≡ₚ) ==> (=)) (weight_sum priorities).
Proof. intros l l' P. unfold weight_sum. induction P; cbn [foldr]; lia. Qed.

Lemma weight_before_range i l :
  0 <= weight_before priorities i l <= weight_sum priorities l.
Proof.
  induction l as [| j l IH]; cbn [weight_before weight_sum foldr]; [lia |].
  pose proof (weight_at_range j). pose proof (weight_sum_nonneg l). unfold weight_sum in *.
  case_decide; lia.
Qed.

Lemma weight_before_app i l k :
  i ∉ l -> weight_before priorities i (l ++ k) = weight_sum priorities l + weight_before priorities i k.
Proof.
  induction l as [| j l IH]; cbn [weight_before weight_sum foldr app]; [lia |].
  rewrite not_elem_of_cons. intros [Hne Hn]. rewrite decide_False by congruence.
  unfold weight_sum in IH. rewrite IH by assumption. lia.
Qed.

Lemma weight_before_prefix i l k :
  i ∈ l -> weight_before priorities i (l ++ k) = weight_before priorities i l.
Proof.
  induction l as [| j l IH]; cbn [weight_before app]; [intros Hin; inversion Hin |].
  intros [-> | Hin]%elem_of_cons; case_decide; auto; [congruence | rewrite IH by assumption; reflexivity].
Qed.

Lemma rotation_NoDup n c : (c < n)%nat -> NoDup (c :: rotation n c).
Proof. intros Hc. rewrite rotation_perm by assumption. apply NoDup_seq. Qed.

Lemma rotation_weight i :
  (i < length priorities)%nat ->
  weight_sum priorities (rotation (length priorities) i)
  = weight_sum priorities (seq 0 (length priorities)) - weight_at priorities i.
Proof. intros Hi. rewrite <- (rotation_perm _ i Hi). unfold weight_sum. cbn [foldr]. lia. Qed.

Lemma potential_range i c used :
  (i < length priorities)%nat -> (c < length priorities)%nat -> 0 <= used ->
  0 <= potential priorities i c used
    <= weight_sum priorities (seq 0 (length priorities)) - weight_at priorities i.
Proof.
  intros Hi Hc Hu. rewrite <- rotation_weight by assumption. unfold potential.
  pose proof (weight_sum_nonneg (rotation (length priorities) i)).
  case_decide as Hci; [destruct (used <? _); lia |].
  assert (Hin : i ∈ rotation (length priorities) c) by (apply rotation_all; auto).
  apply list_elem_of_split_l in Hin as (pre & post & E & Hn).
  rewrite (rotation_split _ c pre i post Hc E), E, weight_before_app, weight_sum_app by exact Hn.
  cbn [weight_before]. rewrite decide_True by reflexivity.
  pose proof (weight_sum_nonneg pre). pose proof (weight_sum_nonneg post).
  pose proof (weight_at_range c). unfold weight_sum in *. cbn [foldr]. lia.
Qed.

(** A pop that moves the cursor on to a slot other than [i]. *)
Lemma potential_next i c used pre k post :
  (i < length priorities)%nat -> (c < length priorities)%nat ->
  rotation (length priorities) c = pre ++ k :: post ->
  i ∉ pre -> k <> i -> 0 < weight_at priorities k ->
  (c = i -> weight_at priorities i <= used) ->
  potential priorities i k 1 + 1 <= potential priorities i c used.
Proof.
  intros Hi Hc E Hpre Hki Hk Hq. unfold potential.
  rewrite decide_False by assumption. rewrite (rotation_split _ c pre k post Hc E).
  pose proof (weight_sum_nonneg pre). pose proof (rotation_NoDup _ c Hc) as Hnd.
  rewrite E in Hnd. apply NoDup_cons in Hnd as [Hncx _].
  destruct (decide (c = i)) as [-> | Hci].
  - rewrite (proj2 (Z.ltb_ge _ _)) by auto. rewrite E, weight_sum_app, weight_before_app.
    + cbn [weight_before]. rewrite decide_True by reflexivity. unfold weight_sum in *. cbn [foldr]. lia.
    + intros Hin. apply Hncx. rewrite elem_of_app, elem_of_cons. auto.
  - assert (Hin : i ∈ post).
    { assert (Hin : i ∈ rotation (length priorities) c) by (apply rotation_all; auto).
      rewrite E, elem_of_app, elem_of_cons in Hin. destruct Hin as [| [|]]; congruence. }
    rewrite weight_before_prefix by assumption. rewrite E, weight_before_app by assumption.
    cbn [weight_before]. rewrite decide_False by assumption. lia.
Qed.

(** A pop within the quota of a slot other than [i]. *)
Lemma potential_quota i c used :
  c <> i -> used < weight_at priorities c ->
  potential priorities i c (used + 1) + 1 <= potential priorities i c used.
Proof. intros Hci Hu. unfold potential. rewrite !decide_False by assumption. lia. Qed.
End Weights.

Lemma ready_weight slots i :
  ready slots is_weighted i -> 0 < weight_at (QueueSlot_priority <$> slots) i.
Proof.
  intros (s & Hs & Hw & _). apply is_weighted_spec in Hw as [w Hw].
  unfold weight_at. rewrite list_lookup_fmap, Hs. cbn. rewrite Hw.
  apply (decode_weight _ _ Hw).
Qed.

Lemma popped_ready slots c s w popped :
  slots !! c = Some s -> QueueSlot_priority s = Weighted w ->
  pop_front_at slots c = Some popped ->
  ready slots is_weighted c /\ weight_at (QueueSlot_priority <$> slots) c = w.
Proof.
  intros Hs Hw Hp. split.
  - apply ready_popped. split; [| congruence]. exists s. split; [exact Hs |].
    apply is_weighted_spec. eauto.
  - unfold weight_at. rewrite list_lookup_fmap, Hs. cbn. rewrite Hw. reflexivity.
Qed.

Lemma quota_exhausted slots i used :
  ready slots is_weighted i -> within_quota slots i used <> true ->
  weight_at (QueueSlot_priority <$> slots) i <= used.
Proof.
  intros (s & Hs & Hw & _) Hq. apply is_weighted_spec in Hw as [w Ew].
  unfold weight_at. rewrite list_lookup_fmap, Hs. cbn. rewrite Ew.
  apply Z.nlt_ge. intros Hlt. apply Hq, within_quota_spec. eauto.
Qed.

(** Each weighted pop serves slot [i] or brings it nearer. *)
Lemma weighted_pop_progress slots cursor i popped cursor' :
  cursor_ok (length slots) cursor -> ready slots is_weighted i ->
  weighted_pop slots cursor (Some popped) cursor' ->
  let priorities := QueueSlot_priority <$> slots in
  cursor_ok (length slots) cursor' /\
  pop_front_at slots (cur_weighted_index cursor') = Some popped /\
  ready slots is_weighted (cur_weighted_index cursor') /\
  (cur_weighted_index cursor' = i \/
   potential priorities i (cur_weighted_index cursor') (cur_weighted_used cursor') + 1
   <= potential priorities i (cur_weighted_index cursor) (cur_weighted_used cursor)).
Proof.
  intros [Hc Hu] Hi Hpop priorities. pose proof (slots_weights_ok slots) as Hws.
  assert (Hlen : length priorities = length slots) by apply length_fmap.
  assert (Hil : (i < length slots)%nat).
  { destruct Hi as (s & Hs & _). eapply lookup_lt_Some, Hs. }
  assert (Hr : forall j, weight_at priorities j <= u16_max).
  { intros j. apply (weight_at_range priorities Hws j). }
  inversion Hpop as [s p c Hs Hp (w & Ew & Hlt) | pre k post p c E Hpre Hk Hp Hq
                    | s w p c Hs Ew Hp Hnone |]; subst; cbn [cur_weighted_index cur_weighted_used].
  - destruct (popped_ready slots c s w popped Hs Ew Hp) as [Hrc Ewt].
    fold priorities in Ewt. specialize (Hr c). rewrite Ewt in Hr.
    fold c in Hu |- *. unfold cursor_ok, saturating_add. cbn [cur_weighted_index cur_weighted_used].
    rewrite Z.min_r by lia. split; [split; [exact Hc | lia] |]. split; [exact Hp |]. split; [exact Hrc |].
    destruct (decide (c = i)) as [Hci | Hci]; [auto |]. right.
    apply (potential_quota priorities i c); [exact Hci | lia].
  - assert (Hkl : (k < length slots)%nat).
    { destruct Hk as (s & Hs & _). eapply lookup_lt_Some, Hs. }
    split; [split; [exact Hkl | cbn; unfold u16_max; lia] |]. split; [exact Hp |].
    split; [exact Hk |]. destruct (decide (k = i)) as [Hki | Hki]; [auto |]. right.
    apply (potential_next priorities Hws i c (cur_weighted_used cursor) pre k post);
      rewrite ?Hlen; try assumption.
    + intros Hin. exact (Hpre i Hin Hi).
    + apply ready_weight, Hk.
    + intros <-. apply (quota_exhausted slots c); [exact Hi |]. intros Hwq. apply Hq. auto.
  - destruct (popped_ready slots c s w popped Hs Ew Hp) as [Hrc Ewt].
    pose proof (decode_weight _ _ Ew). split; [split; [exact Hc | cbn; lia] |].
    split; [exact Hp |]. split; [exact Hrc |]. left.
    destruct (decide (c = i)) as [Hci | Hci]; [exact Hci |].
    exfalso. apply (Hnone i); [apply rotation_all; auto | exact Hi].
Qed.

(** ** Strict pops *)

Lemma max_rank_spec ranks r :
  max_rank ranks = Some r -> r ∈ ranks /\ forall r', r' ∈ ranks -> r' <= r.
Proof.
  destruct ranks as [| r0 ranks]; [discriminate |]. cbn [max_rank]. intros [= <-].
  induction ranks as [| x ranks [IHin IHmax]]; cbn [foldr].
  - split; [left |]. intros r' [-> | Hin]%elem_of_cons; [lia | inversion Hin].
  - split.
    + destruct (Z.max_spec x (foldr Z.max r0 ranks)) as [[_ ->] | [_ ->]];
        rewrite !elem_of_cons in *; tauto.
    + intros r' Hin. rewrite !elem_of_cons in Hin.
      destruct Hin as [-> | [-> | Hin]]; [| lia |].
      * specialize (IHmax r0 ltac:(left)). lia.
      * specialize (IHmax r' ltac:(right; exact Hin)). lia.
Qed.

(** No push or finish is half way: the counter is the number of entries. *)
Definition counted slots : Prop :=
  forall i s, slots !! i = Some s -> slot_queued s = zlen (slot_entries s).

Lemma counted_ready slots s i :
  counted slots -> slots !! i = Some s -> (0 <? slot_queued s) = true <-> slot_entries s <> [].
Proof.
  intros Hc Hs. rewrite (Hc i s Hs), Z.ltb_lt. unfold zlen.
  destruct (slot_entries s); cbn [length]; split; try congruence; lia.
Qed.

(** Ready at a strict rank. *)
Definition strict_ready slots (r : Z) (i : nat) : Prop :=
  ready slots (fun s => bool_decide (QueueSlot_priority s = StrictRank r)) i.

Lemma strict_ready_ranks slots r :
  counted slots -> r ∈ omap strict_ready_rank slots <-> exists i, strict_ready slots r i.
Proof.
  intros Hc. rewrite list_elem_of_omap. unfold strict_ready, ready. split.
  - intros (s & Hin & Hr). apply list_elem_of_lookup in Hin as [i Hi].
    exists i, s. unfold strict_ready_rank in Hr.
    destruct (QueueSlot_priority s) as [| rank]; [discriminate |].
    destruct (0 <? slot_queued s) eqn:Q; [| discriminate]. injection Hr as ->.
    split; [exact Hi |]. split; [apply bool_decide_true; reflexivity |].
    apply (counted_ready slots s i Hc Hi), Q.
  - intros (i & s & Hi & Hp & Hne). apply bool_decide_eq_true in Hp. exists s.
    split; [apply list_elem_of_lookup; eauto |]. unfold strict_ready_rank.
    rewrite Hp, (proj2 (counted_ready slots s i Hc Hi) Hne). reflexivity.
Qed.

(** The indices tried by the strict scan are all of them. *)
Lemma strict_scan_all n c j :
  (j < n)%nat -> j ∈ map (fun offset => (c + offset) mod n)%nat (seq 1 n).
Proof.
  intros Hj. apply list_elem_of_fmap.
  set (d := ((j + n - c mod n) mod n)%nat).
  assert (Hd : (d < n)%nat) by (apply Nat.mod_upper_bound; lia).
  assert (Hcm : (c mod n < n)%nat) by (apply Nat.mod_upper_bound; lia).
  assert (E : ((c + d) mod n = j)%nat).
  { unfold d. rewrite Nat.Div0.add_mod_idemp_r, <- Nat.Div0.add_mod_idemp_l.
    replace (c mod n + (j + n - c mod n))%nat with (j + 1 * n)%nat by lia.
    rewrite Nat.Div0.mod_add. apply Nat.mod_small, Hj. }
  destruct (decide (d = 0%nat)) as [E0 | Hne].
  - exists n. split; [| apply elem_of_seq; lia].
    replace (c + n)%nat with (c + 1 * n)%nat by lia. rewrite Nat.Div0.mod_add.
    rewrite E0, Nat.add_0_r in E. auto.
  - exists d. split; [auto | apply elem_of_seq; lia].
Qed.

Lemma pop_strict_spec slots cursor :
  counted slots ->
  match pop_strict slots cursor with
  | (Some popped, cursor') =>
      exists i r, strict_ready slots r i /\ pop_front_at slots i = Some popped /\
        cursor' = mkCursor (cur_weighted_index cursor) (cur_weighted_used cursor) i /\
        forall r' j, strict_ready slots r' j -> r' <= r
  | (None, cursor') => cursor' = cursor /\ forall r j, ~ strict_ready slots r j
  end.
Proof.
  intros Hc. unfold pop_strict.
  destruct (max_rank (omap strict_ready_rank slots)) as [r |] eqn:Hm.
  - apply max_rank_spec in Hm as [Hin Hmax].
    assert (Hbest : forall r' j, strict_ready slots r' j -> r' <= r).
    { intros r' j Hj. apply Hmax. apply strict_ready_ranks; eauto. }
    destruct (pop_scan _ _ _) as [[i popped] |] eqn:Hscan.
    + apply pop_scan_Some in Hscan as (pre & post & _ & _ & Hr & Hp). exists i, r. auto.
    + exfalso. apply strict_ready_ranks in Hin as [i Hi]; [| exact Hc].
      refine (pop_scan_None _ _ _ Hscan i _ Hi). apply strict_scan_all.
      destruct Hi as (s & Hs & _). eapply lookup_lt_Some, Hs.
  - split; [reflexivity |]. intros r j Hj.
    assert (Hin : r ∈ omap strict_ready_rank slots) by (apply strict_ready_ranks; eauto).
    destruct (omap strict_ready_rank slots); [inversion Hin | discriminate].
Qed.

(** ** A series of scheduled pops

    The queue set may change in any way between two pops; the results and the last
    cursor. *)
Fixpoint serve (qs : list (QueueSet T S)) (cursor : QueueCursor)
    : list (option (QueueId * T)) * QueueCursor :=
  match qs with
  | [] => ([], cursor)
  | q :: qs =>
      let '(served, _, cursor) := QueueSet_pop_scheduled q cursor in
      let '(rest, cursor) := serve qs cursor in
      (served :: rest, cursor)
  end.

(** The identifiers and priorities of a set. *)
Definition describe (q : QueueSet T S) : list (QueueId * QueuePriority) :=
  (fun s => (slot_id s, QueueSlot_priority s)) <$> set_slots q.

Definition weighted_ids (layout : list (QueueId * QueuePriority)) : list QueueId :=
  omap (fun p => match p.2 with Weighted _ => Some p.1 | StrictRank _ => None end) layout.

(** How many of the pops came from a weighted queue. *)
Definition weighted_pops (layout : list (QueueId * QueuePriority))
    (served : list (option (QueueId * T))) : Z :=
  foldr (fun r n => match r with
                    | Some (id, _) => if bool_decide (id ∈ weighted_ids layout) then 1 + n else n
                    | None => n
                    end) 0 served.

Lemma pop_strict_cursor slots cursor :
  match pop_strict slots cursor with
  | (Some popped, cursor') =>
      exists i s r, slots !! i = Some s /\ QueueSlot_priority s = StrictRank r /\
        pop_front_at slots i = Some popped /\
        cursor' = mkCursor (cur_weighted_index cursor) (cur_weighted_used cursor) i
  | (None, cursor') => cursor' = cursor
  end.
Proof.
  unfold pop_strict. destruct (max_rank _) as [r |]; [| reflexivity].
  destruct (pop_scan _ _ _) as [[i popped] |] eqn:Hscan; [| reflexivity].
  apply pop_scan_Some in Hscan as (_ & _ & _ & _ & (s & Hs & Hr & _) & Hp).
  apply bool_decide_eq_true in Hr. eauto 8.
Qed.

Lemma weighted_ids_spec (q : QueueSet T S) i s :
  NoDup (slot_id <$> set_slots q) -> set_slots q !! i = Some s ->
  slot_id s ∈ weighted_ids (describe q) <-> is_weighted s = true.
Proof.
  intros Hnd Hs. unfold weighted_ids, describe. rewrite list_elem_of_omap. split.
  - intros ((d & p) & Hin & Hw). apply list_elem_of_fmap in Hin as (t & E & Ht).
    apply list_elem_of_lookup in Ht as [j Hj]. injection E as -> ->.
    cbn [fst snd] in Hw. unfold is_weighted. destruct (QueueSlot_priority t) eqn:Et; [| discriminate].
    destruct (decide (i = j)) as [<- | Hne].
    + assert (s = t) as -> by congruence. rewrite Et. reflexivity.
    + exfalso. injection Hw as Hid. exact (ids_distinct _ _ _ _ _ Hnd Hs Hj Hne Hid).
  - intros Hw. exists (slot_id s, QueueSlot_priority s). split.
    + apply list_elem_of_fmap. exists s. split; [reflexivity |]. apply list_elem_of_lookup. eauto.
    + cbn [fst snd]. unfold is_weighted in Hw. destruct (QueueSlot_priority s); [reflexivity | discriminate].
Qed.

(** One scheduled pop with slot [i] ready: it is served, or a strict queue is and the
    weighted rotation stands still, or another weighted queue is and the potential
    falls. *)
Lemma pop_scheduled_progress q cursor i s :
  NoDup (slot_id <$> set_slots q) -> cursor_ok (length (set_slots q)) cursor ->
  set_slots q !! i = Some s -> ready (set_slots q) is_weighted i ->
  let '(served, _, cursor') := QueueSet_pop_scheduled q cursor in
  let left cur := potential (QueueSlot_priority <$> set_slots q) i
                    (cur_weighted_index cur) (cur_weighted_used cur) in
  cursor_ok (length (set_slots q)) cursor' /\
  exists id item, served = Some (id, item) /\
    (id = slot_id s \/
     (id ∉ weighted_ids (describe q)) /\ left cursor' = left cursor \/
     (id ∈ weighted_ids (describe q)) /\ left cursor' + 1 <= left cursor).
Proof.
  intros Hnd Hcur Hs Hi. unfold QueueSet_pop_scheduled.
  pose proof (pop_strict_cursor (set_slots q) cursor) as Hst.
  destruct (pop_strict (set_slots q) cursor) as [[[[id item] slots'] |] cursor1].
  - destruct Hst as (j & t & r & Ht & Hr & Hp & ->). split; [exact Hcur |].
    exists id, item. split; [reflexivity |]. right; left. split; [| reflexivity].
    destruct (pop_front_at_inv _ _ _ _ _ Hp) as (t' & es & Ht' & Hid & _ & _).
    assert (t' = t) as -> by congruence. rewrite <- Hid, (weighted_ids_spec q j t Hnd Ht).
    unfold is_weighted. rewrite Hr. discriminate.
  - subst cursor1. pose proof (pop_weighted_spec (set_slots q) cursor Hcur) as Hw.
    destruct (pop_weighted (set_slots q) cursor) as [[[[id item] slots'] |] cursor'] eqn:E;
      cbn [fst snd] in Hw.
    + destruct (weighted_pop_progress _ _ _ _ _ Hcur Hi Hw) as (Hcur' & Hp & Hr & Hcase).
      split; [exact Hcur' |]. exists id, item. split; [reflexivity |].
      destruct (pop_front_at_inv _ _ _ _ _ Hp) as (t & es & Ht & Hid & _ & _).
      destruct Hcase as [Heq | Hlt].
      * left. rewrite Heq in Ht. congruence.
      * right; right. split; [| exact Hlt]. rewrite <- Hid, (weighted_ids_spec q _ t Hnd Ht).
        destruct Hr as (t' & Ht' & Hw' & _). congruence.
    + exfalso. inversion Hw as [| | | Hn]. apply (Hn i); [| exact Hi]. eapply lookup_lt_Some, Hs.
Qed.
Lemma weighted_pop_cursor slots cursor popped cursor' :
  cursor_ok (length slots) cursor -> weighted_pop slots cursor popped cursor' ->
  cursor_ok (length slots) cursor'.
Proof.
  intros [Hc Hu] Hpop. unfold cursor_ok.
  inversion Hpop as [s p c Hs Hp (w & Ew & Hlt) | pre k post p c E Hpre Hk Hp Hq
                    | s w p c Hs Ew Hp Hnone |]; subst; cbn [cur_weighted_index cur_weighted_used].
  - unfold saturating_add. subst c. lia.
  - destruct Hk as (s & Hs%lookup_lt_Some & _). unfold u16_max. lia.
  - pose proof (decode_weight _ _ Ew). lia.
  - auto.
Qed.

(** A scheduled pop takes the oldest entry of a queue of the largest strict rank that has one,
    of a weighted queue only when no strict queue has an entry, and nothing only when every
    queue is empty. *)
Lemma pop_scheduled_spec (q : QueueSet T S) cursor :
  counted (set_slots q) -> cursor_ok (length (set_slots q)) cursor ->
  match QueueSet_pop_scheduled q cursor with
  | (Some (id, item), q', cursor') =>
      cursor_ok (length (set_slots q)) cursor' /\
      exists i s rest, set_slots q !! i = Some s /\ slot_id s = id /\
        slot_entries s = item :: rest /\
        q' = with_slots q (<[i := with_entries s rest]> (set_slots q)) /\
        forall j t r, set_slots q !! j = Some t -> slot_entries t <> [] ->
          QueueSlot_priority t = StrictRank r ->
          exists r', QueueSlot_priority s = StrictRank r' /\ r <= r'
  | (None, q', cursor') =>
      cursor_ok (length (set_slots q)) cursor' /\
      q' = q /\ forall i s, set_slots q !! i = Some s -> slot_entries s = []
  end.
Proof.
  intros Hcnt Hcur. unfold QueueSet_pop_scheduled.
  pose proof (pop_strict_spec (set_slots q) cursor Hcnt) as Hst.
  destruct (pop_strict (set_slots q) cursor) as [[[[id item] slots'] |] cursor1].
  - destruct Hst as (i & r & (s & Hs & Hr & _) & Hp & -> & Hbest). split; [exact Hcur |].
    destruct (pop_front_at_inv _ _ _ _ _ Hp) as (s' & rest & Hs' & Hid & He & ->).
    assert (s' = s) as -> by congruence. exists i, s, rest.
    do 4 (split; [solve [auto] |]). intros j t r' Ht Hne Hpt. exists r.
    split; [apply bool_decide_eq_true in Hr; exact Hr |]. apply (Hbest r' j).
    exists t. split; [exact Ht |]. split; [apply bool_decide_true; exact Hpt | exact Hne].
  - destruct Hst as [-> Hnone].
    assert (Hstrict : forall j t r, set_slots q !! j = Some t -> slot_entries t <> [] ->
              QueueSlot_priority t <> StrictRank r).
    { intros j t r Ht Hne Hpt. apply (Hnone r j). exists t. split; [exact Ht |].
      split; [apply bool_decide_true; exact Hpt | exact Hne]. }
    pose proof (pop_weighted_spec (set_slots q) cursor Hcur) as Hw.
    destruct (pop_weighted (set_slots q) cursor) as [[[[id item] slots'] |] cursor'] eqn:E;
      cbn [fst snd] in Hw; (split; [exact (weighted_pop_cursor _ _ _ _ Hcur Hw) |]).
    + destruct (weighted_pop_served _ _ _ _ Hw) as [i Hp].
      destruct (pop_front_at_inv _ _ _ _ _ Hp) as (s & rest & Hs & Hid & He & ->).
      exists i, s, rest. do 4 (split; [solve [auto] |]).
      intros j t r Ht Hne Hpt. exfalso. exact (Hstrict j t r Ht Hne Hpt).
    + split; [reflexivity |]. intros i s Hs. inversion Hw as [| | | Hn].
      destruct (slot_entries s) as [| e es] eqn:He; [reflexivity | exfalso].
      destruct (QueueSlot_priority s) as [w | r] eqn:Hp.
      * apply (Hn i); [eapply lookup_lt_Some, Hs |]. exists s. split; [exact Hs |].
        split; [apply is_weighted_spec; eauto | congruence].
      * refine (Hstrict i s r Hs _ Hp). congruence.
Qed.
End Sched.
