(* ===== verification/QueueProps.v ===== *)
(** * Properties of the request queues *)
From stdpp Require Import gmap.
From S2P Require Import Prelude QueueSet QueueRuns QueueSched.

(** ** Priorities *)

Definition priority_ok (p : QueuePriority) : Prop :=
  match p with Weighted w => 0 < w <= u16_max | StrictRank r => 0 <= r <= u16_max end.

Lemma low_half v :
  Z.land v 0xff + Z.land (Z.shiftr v 8) 0xff * 256 = v mod 65536.
Proof.
  change 0xff with (Z.ones 8). rewrite !Z.land_ones, Z.shiftr_div_pow2 by lia.
  change (2 ^ 8) with 256. change 65536 with (256 * 256).
  rewrite Z.rem_mul_r by lia. lia.
Qed.

Lemma priority_roundtrip p : priority_ok p -> QueuePriority_decode (QueuePriority_encode p) = p.
Proof.
  unfold QueuePriority_decode, u16_max. rewrite low_half.
  destruct p as [w | r]; cbn [priority_ok QueuePriority_encode]; unfold u16_max; intros Hp.
  - rewrite (Z.land_comm w), land_shiftl_low by lia. cbn [negb Z.eqb].
    rewrite Z.mod_small by lia. destruct (Z.eqb_spec w 0); [lia | reflexivity].
  - assert (E : Z.land (Z.lor (Z.shiftl 1 31) r) (Z.shiftl 1 31) = Z.shiftl 1 31).
    { rewrite Z.land_lor_distr_l, Z.land_diag, (Z.land_comm r), land_shiftl_low by lia.
      apply Z.lor_0_r. }
    rewrite E, lor_shiftl_add by lia. cbn [negb].
    replace (1 * 2 ^ 31 + r) with (r + 32768 * 65536) by lia.
    rewrite Z.mod_add, Z.mod_small by lia. reflexivity.
Qed.

Section Props.
Context {T S : Type} `{SemaphoreLaws S}.

(** ** The slots of a run *)

Definition layout_of (q : QueueSet T S) : list (QueueId * Z) :=
  (fun s => (slot_id s, slot_capacity s)) <$> set_slots q.

Lemma update_layout (q : QueueSet T S) i f :
  (forall s, slot_id (f s) = slot_id s /\ slot_capacity (f s) = slot_capacity s) ->
  layout_of (update_slot q i f) = layout_of q.
Proof.
  intros Hf. unfold layout_of, update_slot. cbn [with_slots set_slots].
  apply list_eq. intros j. rewrite !list_lookup_fmap.
  destruct (decide (j = i)) as [-> | Hne].
  - rewrite list_lookup_alter_eq. destruct (set_slots q !! i) as [s |]; [| reflexivity].
    cbn. destruct (Hf s) as [-> ->]. reflexivity.
  - rewrite list_lookup_alter_ne by congruence. reflexivity.
Qed.

Lemma step_layout (w w' : World (T:=T) (S:=S)) :
  step w w' -> layout_of (w_set w') = layout_of (w_set w).
Proof.
  intros St. destruct St; cbn [w_set]; try (apply update_layout; intros; split; reflexivity).
  - reflexivity.
  - match goal with Hp : pop_front_at _ _ = _ |- _ =>
      destruct (pop_front_at_inv _ _ _ _ _ Hp) as (slot & es & Hi & _ & _ & ->) end.
    unfold layout_of. cbn [with_slots set_slots]. rewrite list_fmap_insert. cbn.
    apply list_insert_id. rewrite list_lookup_fmap, Hi. reflexivity.
  - reflexivity.
  - reflexivity.
Qed.

Lemma run_layout (w w' : World (T:=T) (S:=S)) :
  rtc step w w' -> layout_of (w_set w') = layout_of (w_set w).
Proof. induction 1 as [| x y z St _ IH]; [reflexivity |]. rewrite IH. apply step_layout, St. Qed.

(** The entries the runner holds of one queue. *)
Definition held (id : QueueId) (ags : list (Agent T)) : Z :=
  total (fun a => match a with Holding d _ => if decide (d = id) then 1 else 0 | _ => 0 end) ags.

(** No push or finish of this queue is between its two actions. *)
Definition settled (id : QueueId) (a : Agent T) : Prop :=
  match a with Uncounted d | Uncounting d => d <> id | _ => True end.

Lemma settled_counts id ags :
  Forall (settled id) ags ->
  total (agent_counts id) ags = held id ags /\ 0 <= held id ags <= total (agent_permits id) ags.
Proof.
  induction 1 as [| a ags Ha _ [IH1 IH2]]; [split; [reflexivity | cbn; lia] |].
  unfold held in *. rewrite !total_cons, IH1.
  destruct a; cbn in *; repeat case_decide; try congruence; lia.
Qed.

(** C11. Bounds and conservation. From a validated layout, along every interleaving of
    producers, runner and closing calls: the queues keep their identifiers and
    capacities; the entries of a queue, the entries held of it and the permits its
    producers have taken never exceed its capacity together; whenever no call is
    between moving an entry and counting it, [queued] is exactly the entries plus those
    held; and every item that entered is finished, held or still queued, once. *)
Theorem queues_bounded_and_conserved definitions default w :
  validate_layout definitions default = Ok tt ->
  Forall (fun c => 0 <= qc_capacity c) definitions ->
  rtc step (start (T:=T) (S:=S) definitions) w ->
  layout_of (w_set w) = (fun c => (qc_id c, qc_capacity c)) <$> definitions /\
  (forall i s, set_slots (w_set w) !! i = Some s ->
     zlen (slot_entries s) + total (agent_permits (slot_id s)) (w_agents w) <= slot_capacity s /\
     (Forall (settled (slot_id s)) (w_agents w) ->
      slot_queued s = zlen (slot_entries s) + held (slot_id s) (w_agents w))) /\
  w_entered w ≡ₚ w_finished w ++ (w_agents w ≫= agent_items)
                   ++ (set_slots (w_set w) ≫= slot_entries).
Proof.
  intros V Hcap R. pose proof (start_ok (T:=T) (S:=S) _ _ V Hcap) as Ok0.
  pose proof (run_preserves _ _ R Ok0) as Ok.
  assert (L : layout_of (w_set w) = (fun c => (qc_id c, qc_capacity c)) <$> definitions).
  { rewrite (run_layout _ _ R). unfold layout_of. cbn [start w_set QueueSet_new set_slots].
    rewrite <- list_fmap_compose. reflexivity. }
  split; [exact L |]. split; [| apply (world_items _ Ok)].
  intros i s Hi. destruct (world_slots _ Ok i s Hi) as [Hp Ha Hq].
  split; [lia |]. intros Hset. destruct (settled_counts _ _ Hset) as [Hc Hh].
  assert (Hle : slot_capacity s <= MAXIMUM_TOTAL_QUEUE_CAPACITY).
  { assert (Hin : (slot_id s, slot_capacity s) ∈ layout_of (w_set w)).
    { apply list_elem_of_fmap. exists s. split; [reflexivity |]. apply list_elem_of_lookup. eauto. }
    rewrite L in Hin. apply list_elem_of_fmap in Hin as (c & E & Hin). injection E as _ ->.
    apply validate_layout_ok in V as (_ & _ & _ & Hsum).
    pose proof (slot_capacity_le _ _ Hcap Hin). specialize (Hsum Hcap). lia. }
  rewrite Hq, Hc. apply Z.mod_small. pose proof (zlen_nonneg (slot_entries s)).
  unfold usize_max, u64_max, MAXIMUM_TOTAL_QUEUE_CAPACITY in *. lia.
Qed.

(** ** Closing *)

Definition is_checked (a : Agent T) : bool := match a with Checked _ _ => true | _ => false end.

(** The runner is closed and no producer is between its last look at the flag and its
    [push_back]. *)
Definition shut (w : World (T:=T) (S:=S)) : Prop :=
  set_runner_closed (w_set w) = true /\
  Forall (fun a => is_checked a = false) (w_agents w).

Lemma step_shut (w w' : World (T:=T) (S:=S)) :
  step w w' -> shut w -> shut w' /\ w_entered w' = w_entered w.
Proof.
  intros St (Hc & Ha).
  destruct St; cbn [w_set w_agents w_entered] in *;
    repeat match goal with P : ?ags ≡ₚ _ :: _ |- _ =>
      rewrite P in Ha; apply Forall_cons_iff in Ha as [Hhd Ha] end;
    try (split; [split; [exact Hc |] | reflexivity];
         repeat apply Forall_cons; auto; fail).
  - congruence.
  - discriminate Hhd.
  - split; [split; [reflexivity | exact Ha] | reflexivity].
Qed.

Lemma run_shut (w w' : World (T:=T) (S:=S)) :
  rtc step w w' -> shut w -> shut w' /\ w_entered w' = w_entered w.
Proof.
  induction 1 as [x | x y z St _ IH]; intros Sh; [auto |].
  destruct (step_shut _ _ St Sh) as [Sh' <-]. apply IH, Sh'.
Qed.

(** Closing. Once the runner is closed and no producer is past its check of the
    flag, no interleaving lets an item in: whatever the runner drains stays drained. *)
Theorem closed_runner_admits_nothing definitions w w' :
  rtc step (start (T:=T) (S:=S) definitions) w ->
  set_runner_closed (w_set w) = true ->
  Forall (fun a => is_checked a = false) (w_agents w) ->
  rtc step w w' ->
  w_entered w' = w_entered w /\ set_runner_closed (w_set w') = true.
Proof.
  intros _ Hc Ha R'. destruct (run_shut w w' R') as [(Hc' & _) E]; [split; auto | auto].
Qed.

(** C20. Selection. With every counter settled, [pop_scheduled] takes the oldest entry of
    a queue of the largest strict rank that has one; of a weighted queue only when no
    strict queue has an entry; and nothing only when every queue is empty. *)
Theorem scheduled_pop_is_prioritised (q : QueueSet T S) cursor :
  counted (set_slots q) -> cursor_ok (length (set_slots q)) cursor ->
  match QueueSet_pop_scheduled q cursor with
  | (Some (id, item), q', _) =>
      exists i s rest, set_slots q !! i = Some s /\ slot_id s = id /\
        slot_entries s = item :: rest /\
        q' = with_slots q (<[i := with_entries s rest]> (set_slots q)) /\
        forall j t r, set_slots q !! j = Some t -> slot_entries t <> [] ->
          QueueSlot_priority t = StrictRank r ->
          exists r', QueueSlot_priority s = StrictRank r' /\ r <= r'
  | (None, q', _) => q' = q /\ forall i s, set_slots q !! i = Some s -> slot_entries s = []
  end.
Proof.
  intros Hcnt Hcur. pose proof (pop_scheduled_spec q cursor Hcnt Hcur) as Hp.
  destruct (QueueSet_pop_scheduled q cursor) as [[[[id item] |] q'] cursor']; apply Hp.
Qed.

(** ** Fairness *)

(** Every set of the series has this layout, and slot [i] has an entry. *)
Definition waits (layout : list (QueueId * QueuePriority)) (i : nat) (q : QueueSet T S) : Prop :=
  describe q = layout /\ ready (set_slots q) is_weighted i.

Lemma describe_parts (q : QueueSet T S) layout :
  describe q = layout ->
  slot_id <$> set_slots q = layout.*1 /\ QueueSlot_priority <$> set_slots q = layout.*2 /\
  length (set_slots q) = length layout.
Proof.
  intros <-. unfold describe. rewrite <- !list_fmap_compose, length_fmap. auto.
Qed.

Lemma serve_potential layout i id qs : forall cursor,
  NoDup layout.*1 -> layout.*1 !! i = Some id -> weights_ok layout.*2 ->
  cursor_ok (length layout) cursor -> Forall (waits layout i) qs ->
  Forall (fun r => forall item, r <> Some (id, item)) (serve qs cursor).1 ->
  Forall is_Some (serve qs cursor).1 /\
  weighted_pops layout (serve qs cursor).1
  <= potential layout.*2 i (cur_weighted_index cursor) (cur_weighted_used cursor).
Proof.
  induction qs as [| q qs IH]; intros cursor Hnd Hi Hws Hcur Hq Hs.
  - split; [constructor |]. cbn [serve fst weighted_pops foldr].
    apply lookup_lt_Some in Hi. rewrite length_fmap in Hi. destruct Hcur as [Hc Hu].
    apply (potential_range _ Hws); rewrite ?length_fmap; [exact Hi | exact Hc | lia].
  - apply Forall_cons_iff in Hq as [[Hd Hr] Hqs].
    destruct (describe_parts q layout Hd) as (Eid & Ep & El).
    pose proof Hr as (s & Hsl & _). assert (Hid : slot_id s = id).
    { rewrite <- Eid, list_lookup_fmap, Hsl in Hi. injection Hi as ->. reflexivity. }
    rewrite <- El in Hcur. rewrite <- Eid in Hnd.
    pose proof (pop_scheduled_progress q cursor i s Hnd Hcur Hsl Hr) as Hstep.
    cbn [serve] in *. destruct (QueueSet_pop_scheduled q cursor) as [[served q'] cursor'].
    rewrite Eid in Hnd. rewrite El, Hd, Ep in Hstep.
    destruct Hstep as (Hcur' & d & item & -> & Hcase). specialize (IH cursor' Hnd Hi Hws Hcur' Hqs).
    destruct (serve qs cursor') as [rest cursor2]. cbn [fst] in *.
    apply Forall_cons_iff in Hs as [Hh Hs]. destruct (IH Hs) as [IHsome IHle].
    split; [constructor; [eauto | exact IHsome] |].
    unfold weighted_pops in *. cbn [foldr].
    destruct Hcase as [-> | [[Hn E] | [Hin E]]].
    + exfalso. apply (Hh item). congruence.
    + rewrite bool_decide_false by assumption. lia.
    + rewrite bool_decide_true by assumption. lia.
Qed.

(** C12. Fairness. Take any series of scheduled pops during which the layout stands and
    a weighted queue always has an entry, whatever else changes between the pops. As
    long as that queue is not served every pop serves some queue, and at most the sum of
    the other queues' weights of them serve weighted queues: it is starved by no weighted
    queue, only by strict ones. *)
Theorem weighted_queue_is_not_starved layout i id weight qs cursor :
  NoDup layout.*1 -> weights_ok layout.*2 -> layout !! i = Some (id, Weighted weight) ->
  cursor_ok (length layout) cursor -> Forall (waits layout i) qs ->
  Forall (fun r => forall item, r <> Some (id, item)) (serve qs cursor).1 ->
  Forall is_Some (serve qs cursor).1 /\
  weighted_pops layout (serve qs cursor).1
  <= weight_sum layout.*2 (seq 0 (length layout)) - weight.
Proof.
  intros Hnd Hws Hi [Hc Hu] Hq Hs.
  assert (Hid : layout.*1 !! i = Some id) by (rewrite list_lookup_fmap, Hi; reflexivity).
  destruct (serve_potential layout i id qs cursor Hnd Hid Hws (conj Hc Hu) Hq Hs) as [Hsome Hle].
  split; [exact Hsome |].
  assert (Hw : weight_at layout.*2 i = weight).
  { unfold weight_at. rewrite list_lookup_fmap, Hi. reflexivity. }
  assert (Hil : (i < length layout)%nat) by (eapply lookup_lt_Some, Hi).
  pose proof (potential_range layout.*2 Hws i (cur_weighted_index cursor) (cur_weighted_used cursor))
    as Hp. rewrite length_fmap in Hp. specialize (Hp Hil Hc (proj1 Hu)). lia.
Qed.

(** ** Reconfiguration *)

(** A priority that is stored is read back: after [set_priority] the queue reports
    exactly that priority, through the word of its atomic, and every other queue what it
    reported before; entries, counters and permits do not move. *)
Theorem set_priority_is_read_back (q q' : QueueSet T S) ags en fi id p :
  world_ok (mkWorld q ags en fi) -> priority_ok p ->
  QueueSet_set_priority q id p = Ok q' ->
  (forall d, QueueSet_priority q' d = if decide (d = id) then Ok p else QueueSet_priority q d) /\
  (fun s => (slot_id s, slot_capacity s, slot_permits s, slot_queued s, slot_entries s))
    <$> set_slots q' =
  (fun s => (slot_id s, slot_capacity s, slot_permits s, slot_queued s, slot_entries s))
    <$> set_slots q.
Proof.
  intros Wok Hp. unfold QueueSet_set_priority, QueueSet_priority, QueueSet_slot.
  intros (i & Hix & [= <-])%result_bind_Ok.
  pose proof (slot_index_spec q ags en fi id Wok) as Hs. rewrite Hix in Hs.
  destruct Hs as (s & Hs & Hid). split.
  - intros d. change (QueueSet_slot_index (update_slot q i (set_priority_word p)) d)
      with (QueueSet_slot_index q d).
    pose proof (slot_index_spec q ags en fi d Wok) as Hd.
    destruct (QueueSet_slot_index q d) as [j | e] eqn:Hjx; cbn [result_bind].
    + destruct Hd as (t & Ht & Hdt). cbn [update_slot with_slots set_slots]. case_decide as Hdi.
      * subst d. assert (j = i) as -> by congruence.
        rewrite list_lookup_alter_eq, Hs. cbn. f_equal. apply priority_roundtrip, Hp.
      * assert (j <> i) by congruence. rewrite list_lookup_alter_ne by congruence. reflexivity.
    + case_decide as Hdi; [subst d; congruence | reflexivity].
  - apply list_eq. intros j. cbn [update_slot with_slots set_slots]. rewrite !list_lookup_fmap.
    destruct (decide (j = i)) as [-> | Hne].
    + rewrite list_lookup_alter_eq, Hs. reflexivity.
    + rewrite list_lookup_alter_ne by congruence. reflexivity.
Qed.
End Props.

(** ** Witnesses

    A weighted queue of two entries and a strict one of one, over the counting
    semaphore. *)
Definition demo_layout : list QueueConfig :=
  [mkQueueConfig (QueueId_new 0) 2 (Weighted 2); mkQueueConfig (QueueId_new 1) 1 (StrictRank 7);
   mkQueueConfig (QueueId_new 2) 1 (Weighted 3)].

Definition demo_new : QueueSet Z CountingSemaphore := QueueSet_new demo_layout.

Definition demo_pushed : QueueSet Z CountingSemaphore :=
  (QueueSet_try_push (QueueSet_try_push demo_new (QueueId_new 0) 10).2 (QueueId_new 1) 11).2.

Lemma demo_run :
  rtc step (start (T:=Z) (S:=CountingSemaphore) demo_layout) (mkWorld demo_pushed [] [11; 10] []).
Proof.
  etransitivity; [exact (try_push_runs demo_new [] [] [] (QueueId_new 0) 10) |].
  exact (try_push_runs (QueueSet_try_push demo_new (QueueId_new 0) 10).2 [] [10] []
           (QueueId_new 1) 11).
Defined.

Lemma demo_capacities : Forall (fun c => 0 <= qc_capacity c) demo_layout.
Proof. repeat constructor; cbn; lia. Defined.

Lemma queues_bounded_and_conserved_witness :
  validate_layout demo_layout (QueueId_new 0) = Ok tt /\
  layout_of demo_pushed = [(QueueId_new 0, 2); (QueueId_new 1, 1); (QueueId_new 2, 1)] /\
  [11; 10] ≡ₚ set_slots demo_pushed ≫= slot_entries.
Proof.
  split; [reflexivity |].
  destruct (queues_bounded_and_conserved demo_layout (QueueId_new 0) _ eq_refl
              demo_capacities demo_run) as (L & _ & P).
  split; [exact L | exact P].
Defined.

Lemma closed_runner_admits_nothing_witness :
  set_runner_closed (QueueSet_pop_from (QueueSet_close_runner demo_pushed) (QueueId_new 1)).2 = true.
Proof.
  refine (proj2 (closed_runner_admits_nothing demo_layout
    (mkWorld (QueueSet_close_runner demo_pushed) [] [11; 10] [])
    (mkWorld (QueueSet_pop_from (QueueSet_close_runner demo_pushed) (QueueId_new 1)).2
       [Holding (QueueId_new 1) 11] [11; 10] []) _ eq_refl _ _)).
  - etransitivity; [exact demo_run | apply close_runner_runs].
  - constructor.
  - apply rtc_once. eapply (step_pop _ _ _ _ 1). reflexivity.
Defined.

(** The hypothesis on the producers is needed: a producer that has read the flag before
    the runner closed pushes its item after the runner has drained every queue. *)
Example late_push_after_drain :
  exists w w', rtc step (start (T:=Z) (S:=CountingSemaphore) demo_layout) w /\
    set_runner_closed (w_set w) = true /\
    Forall (fun s => slot_entries s = []) (set_slots (w_set w)) /\
    step w w' /\ ~ Forall (fun s => slot_entries s = []) (set_slots (w_set w')).
Proof.
  set (q1 := update_slot demo_new 0 (with_permits (1, false))).
  exists (mkWorld (QueueSet_close_runner q1) [Checked (QueueId_new 0) 10] [] []).
  eexists. split; [| split; [reflexivity | split; [repeat constructor | split]]].
  - eapply rtc_l; [eapply (step_acquire demo_new [] [] [] 0); reflexivity |].
    eapply rtc_l; [eapply step_check; reflexivity |].
    apply close_runner_runs.
  - eapply (step_push_back _ _ [] _ _ 0); reflexivity.
  - intros F. vm_compute in F. inversion F. discriminate.
Qed.

(** And the counter may run below zero for a moment: the runner finishes an entry
    before its producer has counted it, and [queued] wraps. *)
Example queued_wraps_when_overtaken :
  exists w, rtc step (start (T:=Z) (S:=CountingSemaphore) demo_layout) w /\
    slot_queued <$> set_slots (w_set w) = [usize_max; 0; 0].
Proof.
  eexists. split.
  - eapply rtc_l; [eapply (step_acquire demo_new [] [] [] 0 _ _ 10); reflexivity |].
    eapply rtc_l; [eapply step_check; reflexivity |].
    eapply rtc_l; [eapply (step_push_back _ _ [] _ _ 0); reflexivity |].
    eapply rtc_l; [eapply (step_pop _ _ _ _ 0); reflexivity |].
    eapply rtc_l; [eapply (step_release _ _ [Uncounted (QueueId_new 0)] _ _ 0); reflexivity |].
    apply rtc_once. eapply (step_uncount _ _ [Uncounted (QueueId_new 0)] _ _ 0); reflexivity.
  - vm_compute. reflexivity.
Qed.

Lemma demo_pushed_counted : counted (set_slots demo_pushed).
Proof.
  intros i s. destruct i as [| [| [| i]]]; intros E; vm_compute in E;
    first [discriminate E | injection E as <-]; reflexivity.
Defined.

Lemma demo_cursor_ok : cursor_ok 3 QueueCursor_new.
Proof. unfold cursor_ok, u16_max. cbn. lia. Defined.

Lemma scheduled_pop_is_prioritised_witness :
  exists i s rest, set_slots demo_pushed !! i = Some s /\ slot_id s = QueueId_new 1 /\
    slot_entries s = 11 :: rest.
Proof.
  pose proof (scheduled_pop_is_prioritised demo_pushed QueueCursor_new demo_pushed_counted) as P.
  destruct P as (i & s & rest & Hs & Hid & He & _); [exact demo_cursor_ok |].
  exists i, s, rest. auto.
Defined.

Definition demo_waiting : QueueSet Z CountingSemaphore :=
  (QueueSet_try_push (QueueSet_try_push demo_new (QueueId_new 0) 10).2 (QueueId_new 2) 12).2.

Lemma weighted_queue_is_not_starved_witness :
  weighted_pops (describe demo_waiting) (serve [demo_waiting; demo_waiting] QueueCursor_new).1 <= 2.
Proof.
  apply (weighted_queue_is_not_starved (describe demo_waiting) 2 (QueueId_new 2) 3
           [demo_waiting; demo_waiting] QueueCursor_new).
  - change (describe demo_waiting).*1 with [QueueId_new 0; QueueId_new 1; QueueId_new 2].
    apply (bool_decide_unpack _). reflexivity.
  - intros j w. destruct j as [| [| [| j]]]; intros E; vm_compute in E;
      first [discriminate E | injection E as <-]; unfold u16_max; lia.
  - reflexivity.
  - exact demo_cursor_ok.
  - repeat constructor; exists (default (QueueSlot_new (mkQueueConfig (QueueId_new 0) 0 (Weighted 1)))
      (set_slots demo_waiting !! 2%nat)); repeat split; discriminate.
  - repeat constructor; intros item; discriminate.
Defined.

Lemma set_priority_is_read_back_witness :
  match QueueSet_set_priority demo_pushed (QueueId_new 0) (StrictRank 9) with
  | Ok q => QueueSet_priority q (QueueId_new 0) = Ok (StrictRank 9) /\
            QueueSet_priority q (QueueId_new 2) = Ok (Weighted 3)
  | Err _ => False
  end.
Proof.
  assert (W : world_ok (mkWorld demo_pushed [] [11; 10] [])).
  { apply (run_preserves _ _ demo_run), (start_ok _ (QueueId_new 0)); [reflexivity | exact demo_capacities]. }
  destruct (QueueSet_set_priority demo_pushed (QueueId_new 0) (StrictRank 9)) as [q |] eqn:E;
    [| discriminate].
  destruct (set_priority_is_read_back demo_pushed q [] [11; 10] [] (QueueId_new 0) (StrictRank 9) W)
    as [P _]; [cbn; unfold u16_max; lia | exact E |].
  split; rewrite P; reflexivity.
Defined.
