(* ===== verification/Burst.v ===== *)
(** * The router of unsolicited messages (src/src/service/burst.rs)

    The state behind the mutex of one [BurstHub] and its operations. The delivery
    channel is third-party code (tokio's bounded [mpsc]) and a parameter: the class
    [Mpsc] states what the hub relies on. A subscription's channel is kept with its
    entry, and its receiver is reached by the identifier. Both clocks are arguments:
    [now] is the monotonic clock and [received_at] the system clock, in nanoseconds. *)
From stdpp Require Import gmap.
From S2P Require Import Prelude Wire Catalog Operation.

Definition MAXIMUM_BURST_SUBSCRIPTION_CAPACITY : Z := 65536.
Definition MAXIMUM_BURST_SUBSCRIPTIONS : Z := 65536.
Definition MAXIMUM_BURST_TRACKED_KEYS : Z := 65536.
Definition MAXIMUM_BURST_BUFFERED_DELIVERIES : Z := 1048576.

Record BurstKey := BurstKey_new { key_address : Address; key_command : CommandCode }.

#[global] Instance BurstKey_eq_dec : EqDecision BurstKey.
Proof. solve_decision. Defined.

(** Keys as finite data, so that they index maps. *)
Definition key_code (k : BurstKey) : (Z * Z * Z * bool) * Z :=
  (match key_address k with
   | Polling node m => (0, node, 0, bool_decide (m = Primary))
   | Unique ty id m => (1, ty, id, bool_decide (m = Primary))
   end,
   CommandCode_get (key_command k)).

Definition key_uncode (c : (Z * Z * Z * bool) * Z) : BurstKey :=
  let '((tag, a, b, p), n) := c in
  let m := if p then Primary else Secondary in
  BurstKey_new (if tag =? 0 then Polling a m else Unique a b m)
    (CommandCode_new n).

#[global] Instance BurstKey_countable : Countable BurstKey.
Proof.
  apply (inj_countable' key_code key_uncode).
  intros [[node [] | ty id []] [n]]; reflexivity.
Defined.

Record BurstMessage := mkMessage { msg_received_at : Z; msg_reply : DeviceReply }.

Record BurstSnapshot := mkBurstSnapshot {
  bs_subscriptions : Z;
  bs_reserved : Z;
  bs_received : Z;
  bs_duplicates : Z;
  bs_backpressure_drops : Z;
  bs_tracked_keys : Z;
  bs_fingerprint_evictions : Z;
  bs_invalid_messages : Z;
}.

Definition BurstSnapshot_default : BurstSnapshot := mkBurstSnapshot 0 0 0 0 0 0 0 0.

Record BurstConfig := mkBurstConfig {
  bc_maximum_subscriptions : Z;
  bc_maximum_buffered_deliveries : Z;
  bc_maximum_tracked_keys : Z;
  bc_duplicate_window : Z;
}.

Definition BurstConfig_default : BurstConfig := mkBurstConfig 4096 65536 1024 250000000.

Definition BurstConfig_with_maximum_subscriptions (c : BurstConfig) (n : Z) : BurstConfig :=
  mkBurstConfig n (bc_maximum_buffered_deliveries c) (bc_maximum_tracked_keys c)
    (bc_duplicate_window c).

Definition BurstConfig_with_maximum_buffered_deliveries (c : BurstConfig) (n : Z) : BurstConfig :=
  mkBurstConfig (bc_maximum_subscriptions c) n (bc_maximum_tracked_keys c)
    (bc_duplicate_window c).

Definition BurstConfig_with_maximum_tracked_keys (c : BurstConfig) (n : Z) : BurstConfig :=
  mkBurstConfig (bc_maximum_subscriptions c) (bc_maximum_buffered_deliveries c) n
    (bc_duplicate_window c).

Definition BurstConfig_with_duplicate_window (c : BurstConfig) (n : Z) : BurstConfig :=
  mkBurstConfig (bc_maximum_subscriptions c) (bc_maximum_buffered_deliveries c)
    (bc_maximum_tracked_keys c) n.

Inductive BurstConfigError :=
  | NoSubscriptions
  | ConfigSubscriptionLimit (n : Z)
  | NoBufferedDeliveries
  | BufferedDeliveryLimit (n : Z)
  | NoTrackedKeys
  | TrackedKeyLimit (n : Z).

Inductive BurstPublishError := PublishDataLength (n : Z) | PublishExpansionLength (n : Z).

Inductive BurstSubscriptionError :=
  | SubscriptionZeroCapacity
  | SubscriptionCapacityLimit (n : Z)
  | SubscriptionLimit (n : Z)
  | IdentifierSpace
  | AggregateCapacity (n : Z).

(** ** The delivery channel *)

Inductive TrySend := Sent | ChannelFull | ChannelClosed.

Class Mpsc (C : Type) := {
  chan_new : Z -> C;
  chan_try_send : C -> BurstMessage -> TrySend * C;
  chan_try_recv : C -> option BurstMessage * C;
  chan_backlog : C -> list BurstMessage;
  chan_capacity : C -> Z;
  chan_closed : C -> bool;
}.

(** The documented behaviour of a channel made with room for [capacity] messages. *)
Class MpscLaws (C : Type) `{Mpsc C} := {
  chan_new_spec : forall n, 0 < n ->
    chan_backlog (chan_new n) = [] /\ chan_capacity (chan_new n) = n /\
    chan_closed (chan_new n) = false;
  chan_send_closed : forall c m, chan_closed c = true -> chan_try_send c m = (ChannelClosed, c);
  chan_send_full : forall c m, chan_closed c = false ->
    chan_capacity c <= zlen (chan_backlog c) -> chan_try_send c m = (ChannelFull, c);
  chan_send_ok : forall c m, chan_closed c = false ->
    zlen (chan_backlog c) < chan_capacity c ->
    exists c', chan_try_send c m = (Sent, c') /\ chan_backlog c' = chan_backlog c ++ [m] /\
      chan_capacity c' = chan_capacity c /\ chan_closed c' = false;
  chan_recv_spec : forall c,
    chan_backlog (chan_try_recv c).2 = tail (chan_backlog c) /\
    (chan_try_recv c).1 = head (chan_backlog c) /\
    chan_capacity (chan_try_recv c).2 = chan_capacity c /\
    chan_closed (chan_try_recv c).2 = chan_closed c;
}.

(** ** The hub *)

Record Fingerprint := mkFingerprint { fp_bytes : bytes; fp_last_delivered_at : Z }.

(** [Instant::duration_since] saturates at zero. *)
Definition duration_since (later earlier : Z) : Z := Z.max 0 (later - earlier).

Section Hub.
Context {C : Type} `{Mpsc C}.

Record SubscriptionEntry := mkEntry {
  sub_key : BurstKey;
  sub_sender : C;
  sub_capacity : Z;
}.

(** [subscriptions] in the order of their identifiers, as the map is iterated. *)
Record BurstState := mkHub {
  hub_next_id : Z;
  hub_subscriptions : list (Z * SubscriptionEntry);
  hub_fingerprints : gmap BurstKey Fingerprint;
  hub_fingerprint_order : list BurstKey;
  hub_config : BurstConfig;
  hub_snapshot : BurstSnapshot;
}.

Definition BurstHub_from_valid_config (config : BurstConfig) : BurstState :=
  mkHub 0 [] ∅ [] config BurstSnapshot_default.

Definition BurstHub_default : BurstState := BurstHub_from_valid_config BurstConfig_default.

Definition BurstHub_new (config : BurstConfig) : result BurstConfigError BurstState :=
  return_if bc_maximum_subscriptions config =? 0 err NoSubscriptions ;;
  return_if MAXIMUM_BURST_SUBSCRIPTIONS <? bc_maximum_subscriptions config
    err ConfigSubscriptionLimit (bc_maximum_subscriptions config) ;;
  return_if bc_maximum_buffered_deliveries config =? 0 err NoBufferedDeliveries ;;
  return_if MAXIMUM_BURST_BUFFERED_DELIVERIES <? bc_maximum_buffered_deliveries config
    err BufferedDeliveryLimit (bc_maximum_buffered_deliveries config) ;;
  return_if bc_maximum_tracked_keys config =? 0 err NoTrackedKeys ;;
  return_if MAXIMUM_BURST_TRACKED_KEYS <? bc_maximum_tracked_keys config
    err TrackedKeyLimit (bc_maximum_tracked_keys config) ;;
  Ok (BurstHub_from_valid_config config).

Definition with_subscriptions (h : BurstState) (next_id : Z)
    (subscriptions : list (Z * SubscriptionEntry)) (reserved : Z) : BurstState :=
  let s := hub_snapshot h in
  mkHub next_id subscriptions (hub_fingerprints h) (hub_fingerprint_order h) (hub_config h)
    (mkBurstSnapshot (zlen subscriptions) reserved (bs_received s) (bs_duplicates s)
       (bs_backpressure_drops s) (bs_tracked_keys s) (bs_fingerprint_evictions s)
       (bs_invalid_messages s)).

(** [BTreeMap::insert] and [BTreeMap::remove] on the ordered list. *)
Fixpoint btree_insert {A} (id : Z) (x : A) (l : list (Z * A)) : list (Z * A) :=
  match l with
  | [] => [(id, x)]
  | (j, y) :: l =>
      if id <? j then (id, x) :: (j, y) :: l
      else if id =? j then (id, x) :: l
      else (j, y) :: btree_insert id x l
  end.

Definition btree_remove {A} (id : Z) (l : list (Z * A)) : list (Z * A) :=
  filter (fun p => p.1 <> id) l.

Fixpoint btree_get {A} (id : Z) (l : list (Z * A)) : option A :=
  match l with
  | [] => None
  | (j, y) :: l => if id =? j then Some y else btree_get id l
  end.

Definition BurstHub_subscribe_validated (h : BurstState) (key : BurstKey) (capacity : Z)
    : result BurstSubscriptionError (Z * BurstState) :=
  let maximum := bc_maximum_buffered_deliveries (hub_config h) in
  return_if bc_maximum_subscriptions (hub_config h) <=? zlen (hub_subscriptions h)
    err SubscriptionLimit (bc_maximum_subscriptions (hub_config h)) ;;
  let? aggregate_capacity :=
    ok_or (checked_add usize_max (bs_reserved (hub_snapshot h)) capacity)
      (AggregateCapacity maximum) ;;
  return_if maximum <? aggregate_capacity err AggregateCapacity maximum ;;
  let? id := ok_or (checked_add u64_max (hub_next_id h) 1) IdentifierSpace ;;
  Ok (id,
      with_subscriptions h id
        (btree_insert id (mkEntry key (chan_new capacity) capacity) (hub_subscriptions h))
        aggregate_capacity).

Definition BurstHub_try_subscribe (h : BurstState) (key : BurstKey) (capacity : Z)
    : result BurstSubscriptionError (Z * BurstState) :=
  return_if capacity =? 0 err SubscriptionZeroCapacity ;;
  return_if MAXIMUM_BURST_SUBSCRIPTION_CAPACITY <? capacity
    err SubscriptionCapacityLimit capacity ;;
  BurstHub_subscribe_validated h key capacity.

Definition BurstHub_subscribe := BurstHub_try_subscribe.

Definition BurstHub_subscribe_default (h : BurstState) (key : BurstKey) :=
  BurstHub_try_subscribe h key 64.

(** The slots given back by the entry of an identifier, when there is one. *)
Definition release_slots (id : Z) (subscriptions : list (Z * SubscriptionEntry)) (reserved : Z) : Z :=
  match btree_get id subscriptions with
  | Some entry => saturating_sub reserved (sub_capacity entry)
  | None => reserved
  end.

(** [Drop for BurstSubscription]. *)
Definition BurstSubscription_drop (h : BurstState) (id : Z) : BurstState :=
  with_subscriptions h (hub_next_id h) (btree_remove id (hub_subscriptions h))
    (release_slots id (hub_subscriptions h) (bs_reserved (hub_snapshot h))).

(** [try_receive] on the channel of a live subscription. *)
Definition BurstSubscription_try_receive (h : BurstState) (id : Z)
    : option BurstMessage * BurstState :=
  match btree_get id (hub_subscriptions h) with
  | Some entry =>
      let '(m, c) := chan_try_recv (sub_sender entry) in
      (m, mkHub (hub_next_id h)
            (btree_insert id (mkEntry (sub_key entry) c (sub_capacity entry))
               (hub_subscriptions h))
            (hub_fingerprints h) (hub_fingerprint_order h) (hub_config h) (hub_snapshot h))
  | None => (None, h)
  end.

Definition BurstHub_mark_invalid (h : BurstState) : BurstState :=
  let s := hub_snapshot h in
  mkHub (hub_next_id h) (hub_subscriptions h) (hub_fingerprints h) (hub_fingerprint_order h)
    (hub_config h)
    (mkBurstSnapshot (bs_subscriptions s) (bs_reserved s) (bs_received s) (bs_duplicates s)
       (bs_backpressure_drops s) (bs_tracked_keys s) (bs_fingerprint_evictions s)
       (saturating_add u64_max (bs_invalid_messages s) 1)).

(** The loop over the subscriptions: the entries after it, the deliveries dropped and
    the identifiers of the closed channels. *)
Fixpoint deliver (key : BurstKey) (message : BurstMessage)
    (subscriptions : list (Z * SubscriptionEntry)) (dropped : Z) (closed : list Z)
    : list (Z * SubscriptionEntry) * Z * list Z :=
  match subscriptions with
  | [] => ([], dropped, closed)
  | (id, entry) :: rest =>
      if negb (bool_decide (sub_key entry = key)) then
        let '(rest, dropped, closed) := deliver key message rest dropped closed in
        ((id, entry) :: rest, dropped, closed)
      else
        let '(outcome, c) := chan_try_send (sub_sender entry) message in
        let '(dropped, closed) :=
          match outcome with
          | Sent => (dropped, closed)
          | ChannelFull => (saturating_add u64_max dropped 1, closed)
          | ChannelClosed => (dropped, closed ++ [id])
          end in
        let '(rest, dropped, closed) := deliver key message rest dropped closed in
        ((id, mkEntry (sub_key entry) c (sub_capacity entry)) :: rest, dropped, closed)
  end.

(** The loop over the closed identifiers. *)
Fixpoint remove_closed (closed : list Z) (subscriptions : list (Z * SubscriptionEntry))
    (reserved : Z) : list (Z * SubscriptionEntry) * Z :=
  match closed with
  | [] => (subscriptions, reserved)
  | id :: closed =>
      remove_closed closed (btree_remove id subscriptions)
        (release_slots id subscriptions reserved)
  end.

Definition fingerprint_of (reply : DeviceReply) : bytes :=
  [rep_response_code reply; rep_device_status reply] ++ rep_data reply.

Definition is_duplicate (h : BurstState) (key : BurstKey) (fingerprint : bytes) (now : Z) : bool :=
  match hub_fingerprints h !! key with
  | Some previous =>
      negb (bc_duplicate_window (hub_config h) =? 0)
      && bool_decide (fp_bytes previous = fingerprint)
      && (duration_since now (fp_last_delivered_at previous)
          <? bc_duplicate_window (hub_config h))
  | None => false
  end.

(** The fingerprint tables and the eviction counter after remembering a payload. *)
Definition remember (h : BurstState) (key : BurstKey) (fingerprint : bytes) (now : Z)
    : gmap BurstKey Fingerprint * list BurstKey * Z :=
  let '(fps, order, evictions) :=
    if bool_decide (is_Some (hub_fingerprints h !! key)) then
      (hub_fingerprints h, filter (fun candidate => candidate <> key) (hub_fingerprint_order h),
       bs_fingerprint_evictions (hub_snapshot h))
    else if Z.of_nat (size (hub_fingerprints h)) =? bc_maximum_tracked_keys (hub_config h) then
      match hub_fingerprint_order h with
      | oldest :: order =>
          (delete oldest (hub_fingerprints h), order,
           saturating_add u64_max (bs_fingerprint_evictions (hub_snapshot h)) 1)
      | [] =>
          (hub_fingerprints h, [], bs_fingerprint_evictions (hub_snapshot h))
      end
    else
      (hub_fingerprints h, hub_fingerprint_order h,
       bs_fingerprint_evictions (hub_snapshot h)) in
  (<[key := mkFingerprint fingerprint now]> fps, order ++ [key], evictions).

Definition BurstHub_try_publish (h : BurstState) (reply : DeviceReply) (now received_at : Z)
    : result BurstPublishError unit * BurstState :=
  if u8_max <? zlen (rep_data reply) then
    (Err (PublishDataLength (zlen (rep_data reply))), BurstHub_mark_invalid h)
  else if 3 <? zlen (rep_frame_expansion reply) then
    (Err (PublishExpansionLength (zlen (rep_frame_expansion reply))), BurstHub_mark_invalid h)
  else
    let key := BurstKey_new (rep_address reply) (rep_command reply) in
    let fingerprint := fingerprint_of reply in
    let s := hub_snapshot h in
    let received := saturating_add u64_max (bs_received s) 1 in
    if is_duplicate h key fingerprint now then
      (Ok tt,
       mkHub (hub_next_id h) (hub_subscriptions h) (hub_fingerprints h)
         (hub_fingerprint_order h) (hub_config h)
         (mkBurstSnapshot (bs_subscriptions s) (bs_reserved s) received
            (saturating_add u64_max (bs_duplicates s) 1) (bs_backpressure_drops s)
            (bs_tracked_keys s) (bs_fingerprint_evictions s) (bs_invalid_messages s)))
    else
      let '(fps, order, evictions) := remember h key fingerprint now in
      let message := mkMessage received_at reply in
      let '(subscriptions, dropped, closed) :=
        deliver key message (hub_subscriptions h) 0 [] in
      let '(subscriptions, reserved) :=
        remove_closed closed subscriptions (bs_reserved s) in
      (Ok tt,
       mkHub (hub_next_id h) subscriptions fps order (hub_config h)
         (mkBurstSnapshot (zlen subscriptions) reserved received (bs_duplicates s)
            (saturating_add u64_max (bs_backpressure_drops s) dropped)
            (Z.of_nat (size fps)) evictions (bs_invalid_messages s))).

Definition BurstHub_publish (h : BurstState) (reply : DeviceReply) (now received_at : Z)
    : BurstState :=
  (BurstHub_try_publish h reply now received_at).2.

Definition with_fingerprints (h : BurstState) (fps : gmap BurstKey Fingerprint)
    (order : list BurstKey) : BurstState :=
  let s := hub_snapshot h in
  mkHub (hub_next_id h) (hub_subscriptions h) fps order (hub_config h)
    (mkBurstSnapshot (bs_subscriptions s) (bs_reserved s) (bs_received s) (bs_duplicates s)
       (bs_backpressure_drops s) (Z.of_nat (size fps)) (bs_fingerprint_evictions s)
       (bs_invalid_messages s)).

Definition BurstHub_reset_key (h : BurstState) (key : BurstKey) : BurstState :=
  with_fingerprints h (delete key (hub_fingerprints h))
    (filter (fun candidate => candidate <> key) (hub_fingerprint_order h)).

Definition BurstHub_reset_all (h : BurstState) : BurstState := with_fingerprints h ∅ [].
End Hub.

Arguments BurstState : clear implicits.
Arguments SubscriptionEntry : clear implicits.
