(* ===== verification/BurstProps.v ===== *)
(** * Properties of the router of unsolicited messages *)
From stdpp Require Import gmap sorting.
From S2P Require Import Prelude Wire Catalog Operation Burst.

(** ** A bounded channel

    Capacity, backlog and a closed flag: an implementation of the interface. *)
Definition ListChannel : Type := Z * list BurstMessage * bool.

#[global] Instance list_channel : Mpsc ListChannel := {
  chan_new n := (n, [], false);
  chan_try_send c m :=
    let '(n, l, closed) := c in
    if (closed : bool) then (ChannelClosed, c)
    else if zlen l <? n then (Sent, (n, l ++ [m], closed)) else (ChannelFull, c);
  chan_try_recv c := let '(n, l, closed) := c in (head l, (n, tail l, closed));
  chan_backlog c := c.1.2;
  chan_capacity c := c.1.1;
  chan_closed c := c.2;
}.

#[global] Instance list_channel_laws : MpscLaws ListChannel.
Proof.
  split.
  - intros n _. auto.
  - intros [[n l] b] m. cbn. intros ->. reflexivity.
  - intros [[n l] b] m. cbn. intros -> Hle. rewrite (proj2 (Z.ltb_ge _ _)) by assumption. reflexivity.
  - intros [[n l] b] m. cbn. intros -> Hlt. rewrite (proj2 (Z.ltb_lt _ _)) by assumption. eauto 8.
  - intros [[n l] b]. cbn. auto.
Qed.

(** ** Ordered maps as lists *)

Definition ids_sorted {A} (l : list (Z * A)) : Prop := StronglySorted Z.lt l.*1.

Lemma btree_insert_fresh {A} id (x : A) l :
  Forall (fun j => j < id) l.*1 -> btree_insert id x l = l ++ [(id, x)].
Proof.
  induction l as [| [j y] l IH]; cbn; [reflexivity |]. intros [Hj Hl]%Forall_cons_iff.
  cbn in Hj. destruct (Z.ltb_spec id j); [lia |]. destruct (Z.eqb_spec id j); [lia |].
  rewrite IH by assumption. reflexivity.
Qed.

Lemma btree_get_split {A} id (x y : A) l :
  ids_sorted l -> btree_get id l = Some x ->
  exists pre post, l = pre ++ (id, x) :: post /\ btree_insert id y l = pre ++ (id, y) :: post.
Proof.
  unfold ids_sorted. induction l as [| [j z] l IH]; cbn; [discriminate |].
  intros Hs Hg. apply StronglySorted_inv in Hs as [Hs Hj].
  destruct (Z.eqb_spec id j) as [-> | Hne].
  - injection Hg as ->. rewrite Z.ltb_irrefl. exists [], l. auto.
  - destruct (IH Hs Hg) as (pre & post & -> & E).
    assert (j < id).
    { rewrite Forall_forall in Hj. apply Hj. apply list_elem_of_fmap. exists (id, x).
      split; [reflexivity |]. apply elem_of_app. right. left. }
    rewrite (proj2 (Z.ltb_ge _ _)) by lia. rewrite E. exists ((j, z) :: pre), post. auto.
Qed.

Lemma btree_remove_sorted {A} id (l : list (Z * A)) :
  ids_sorted l -> ids_sorted (btree_remove id l) /\ Forall (fun j => j ∈ l.*1) (btree_remove id l).*1.
Proof.
  unfold ids_sorted, btree_remove. induction l as [| [j y] l IH]; cbn [fmap list_fmap filter list_filter].
  - intros _. split; constructor.
  - intros [Hs Hj]%StronglySorted_inv. destruct (IH Hs) as [IHs IHin].
    assert (Hin : Forall (fun k => k ∈ j :: l.*1) (filter (fun p => p.1 <> id) l).*1).
    { eapply Forall_impl; [exact IHin |]. intros k Hk. right. exact Hk. }
    case_decide; [| auto]. cbn [fmap list_fmap fst]. split.
    + constructor; [exact IHs |]. rewrite Forall_forall in *. intros k Hk. apply Hj, IHin, Hk.
    + constructor; [left | exact Hin].
Qed.

Section Props.
Context {C : Type} `{MpscLaws C}.
Implicit Types (h : BurstState C) (e : SubscriptionEntry C) (l : list (Z * SubscriptionEntry C)).

(** ** The invariant *)

Definition slots_sum l : Z := foldr (fun p n => sub_capacity p.2 + n) 0 l.

Record entry_ok (e : SubscriptionEntry C) : Prop := {
  entry_capacity : 0 < sub_capacity e;
  entry_channel : chan_capacity (sub_sender e) = sub_capacity e;
  entry_backlog : zlen (chan_backlog (sub_sender e)) <= sub_capacity e;
  entry_open : chan_closed (sub_sender e) = false;
}.

Definition counters_ok (s : BurstSnapshot) : Prop :=
  is_u64 (bs_received s) /\ is_u64 (bs_duplicates s) /\ is_u64 (bs_backpressure_drops s) /\
  is_u64 (bs_fingerprint_evictions s) /\ is_u64 (bs_invalid_messages s).

Record subs_ok h : Prop := {
  subs_sorted : ids_sorted (hub_subscriptions h);
  subs_ids : Forall (fun j => j <= hub_next_id h) (hub_subscriptions h).*1;
  subs_entries : Forall (fun p => entry_ok p.2) (hub_subscriptions h);
  subs_count : bs_subscriptions (hub_snapshot h) = zlen (hub_subscriptions h);
  subs_limit : zlen (hub_subscriptions h) <= bc_maximum_subscriptions (hub_config h);
  subs_reserved : bs_reserved (hub_snapshot h) = slots_sum (hub_subscriptions h);
  subs_slots : slots_sum (hub_subscriptions h) <= bc_maximum_buffered_deliveries (hub_config h);
}.

Record keys_ok h : Prop := {
  keys_order : NoDup (hub_fingerprint_order h);
  keys_dom : forall k, k ∈ hub_fingerprint_order h <-> is_Some (hub_fingerprints h !! k);
  keys_limit : Z.of_nat (size (hub_fingerprints h)) <= bc_maximum_tracked_keys (hub_config h);
  keys_positive : 0 < bc_maximum_tracked_keys (hub_config h);
  keys_count : bs_tracked_keys (hub_snapshot h) = Z.of_nat (size (hub_fingerprints h));
}.

Definition hub_ok h : Prop := subs_ok h /\ keys_ok h /\ counters_ok (hub_snapshot h).

(** ** Subscriptions *)

Lemma slots_sum_app l k : slots_sum (l ++ k) = slots_sum l + slots_sum k.
Proof. unfold slots_sum. induction l as [| p l IH]; cbn [foldr app]; lia. Qed.

Lemma slots_sum_nonneg l : Forall (fun p => entry_ok p.2) l -> 0 <= slots_sum l.
Proof.
  unfold slots_sum. induction 1 as [| p l [Hp _ _ _] _ IH]; cbn [foldr]; lia.
Qed.

Lemma btree_remove_cons {A} id j (y : A) (l : list (Z * A)) :
  btree_remove id ((j, y) :: l)
  = if decide (j = id) then btree_remove id l else (j, y) :: btree_remove id l.
Proof.
  unfold btree_remove. case_decide as Hj.
  - apply filter_cons_False. cbn. congruence.
  - apply filter_cons_True. exact Hj.
Qed.

Lemma btree_remove_none {A} id (l : list (Z * A)) : id ∉ l.*1 -> btree_remove id l = l.
Proof.
  induction l as [| [j y] l IH]; [reflexivity |].
  cbn [fmap list_fmap fst]. rewrite not_elem_of_cons. intros [Hne Hn].
  rewrite btree_remove_cons, decide_False, IH by congruence. reflexivity.
Qed.

Lemma release_slots_sum id l :
  ids_sorted l -> Forall (fun p => entry_ok p.2) l ->
  release_slots id l (slots_sum l) = slots_sum (btree_remove id l).
Proof.
  unfold release_slots, ids_sorted. induction l as [| [j e] l IH]; [reflexivity |].
  cbn [fmap list_fmap fst btree_get]. intros [Hs Hj]%StronglySorted_inv [He Hl]%Forall_cons_iff.
  specialize (IH Hs Hl). cbn [snd] in He. pose proof (slots_sum_nonneg l Hl).
  change (slots_sum ((j, e) :: l)) with (sub_capacity e + slots_sum l) in *.
  rewrite btree_remove_cons. destruct (Z.eqb_spec id j) as [-> | Hne].
  - rewrite decide_True by reflexivity. rewrite btree_remove_none.
    + unfold saturating_sub. lia.
    + intros Hin. rewrite Forall_forall in Hj. apply Hj in Hin. lia.
  - rewrite decide_False by congruence.
    change (slots_sum ((j, e) :: btree_remove id l))
      with (sub_capacity e + slots_sum (btree_remove id l)). rewrite <- IH.
    destruct (btree_get id l) as [e' |] eqn:G; [| lia]. unfold saturating_sub.
    destruct (btree_get_split id e' e' l Hs G) as (pre & post & -> & _).
    rewrite slots_sum_app. apply Forall_app in Hl as [Hpre [_ Hpost]%Forall_cons_iff].
    pose proof (slots_sum_nonneg _ Hpre). pose proof (slots_sum_nonneg _ Hpost).
    change (slots_sum ((id, e') :: post)) with (sub_capacity e' + slots_sum post).
    destruct He. lia.
Qed.

Lemma subscribe_ok h key capacity id h' :
  0 <= capacity -> hub_ok h -> BurstHub_try_subscribe h key capacity = Ok (id, h') -> hub_ok h'.
Proof.
  intros Hc [[Hs Hi He Hn Hl Hr Hm] [Hk Hcnt]]. unfold BurstHub_try_subscribe, BurstHub_subscribe_validated.
  destruct (Z.eqb_spec capacity 0); [discriminate |].
  destruct (Z.ltb_spec MAXIMUM_BURST_SUBSCRIPTION_CAPACITY capacity); [discriminate |].
  destruct (Z.leb_spec (bc_maximum_subscriptions (hub_config h)) (zlen (hub_subscriptions h)));
    [discriminate |].
  intros (agg & Ea & E)%result_bind_Ok. unfold checked_add in Ea.
  destruct (_ <=? usize_max); [injection Ea as <- | discriminate].
  destruct (Z.ltb_spec (bc_maximum_buffered_deliveries (hub_config h))
              (bs_reserved (hub_snapshot h) + capacity)); [discriminate |].
  apply result_bind_Ok in E as (nid & En & E). unfold checked_add in En.
  destruct (_ <=? u64_max); [injection En as <- | discriminate].
  assert (Hf : Forall (fun j => j < hub_next_id h + 1) (hub_subscriptions h).*1).
  { eapply Forall_impl; [exact Hi |]. cbn. lia. }
  rewrite btree_insert_fresh in E by exact Hf. injection E as _ <-.
  destruct (chan_new_spec capacity ltac:(lia)) as (B & Cap & Op).
  split; [| split; [destruct Hk; split; assumption | exact Hcnt]].
  split; cbn [with_subscriptions hub_subscriptions hub_next_id hub_snapshot hub_config
              bs_subscriptions bs_reserved].
  - unfold ids_sorted in *. rewrite fmap_app. apply StronglySorted_app_2.
    + intros x1 x2 Hx1 [-> | Hx2]%elem_of_cons; [| inversion Hx2].
      rewrite Forall_forall in Hf. apply Hf, Hx1.
    + exact Hs.
    + repeat constructor.
  - rewrite fmap_app. apply Forall_app. split; [eapply Forall_impl; [exact Hf | cbn; lia] |].
    repeat constructor. cbn. lia.
  - apply Forall_app. split; [exact He |]. constructor; [| constructor].
    split; cbn [snd sub_capacity sub_sender]; rewrite ?B; unfold zlen; cbn [length]; auto; lia.
  - reflexivity.
  - rewrite zlen_app. unfold zlen in *. cbn [length]. lia.
  - rewrite slots_sum_app, Hr. cbn. lia.
  - rewrite slots_sum_app. cbn. lia.
Qed.

Lemma btree_remove_Forall {A} (P : Z * A -> Prop) id (l : list (Z * A)) :
  Forall P l -> Forall P (btree_remove id l).
Proof.
  rewrite !Forall_forall. unfold btree_remove. intros HP p [_ Hin]%list_elem_of_filter. auto.
Qed.

Lemma slots_sum_remove id l :
  Forall (fun p => entry_ok p.2) l ->
  slots_sum (btree_remove id l) <= slots_sum l /\ zlen (btree_remove id l) <= zlen l.
Proof.
  induction 1 as [| [j e] l [He _ _ _] _ [IH1 IH2]]; [split; reflexivity |].
  rewrite btree_remove_cons. unfold zlen, slots_sum in *. cbn [snd] in He.
  case_decide; cbn [foldr length snd]; lia.
Qed.

Lemma drop_ok h id : hub_ok h -> hub_ok (BurstSubscription_drop h id).
Proof.
  intros [[Hs Hi He Hn Hl Hr Hm] [Hk Hcnt]].
  split; [| split; [destruct Hk; split; assumption | exact Hcnt]].
  destruct (btree_remove_sorted id _ Hs) as [Hs' Hin].
  destruct (slots_sum_remove id _ He) as [Hsum Hlen].
  split; cbn [BurstSubscription_drop with_subscriptions hub_subscriptions hub_next_id hub_snapshot
              hub_config bs_subscriptions bs_reserved].
  - exact Hs'.
  - rewrite Forall_forall in *. auto.
  - apply btree_remove_Forall, He.
  - reflexivity.
  - lia.
  - rewrite Hr. apply release_slots_sum; assumption.
  - lia.
Qed.

(** The subscriptions after each entry changed in place. *)
Lemma subs_ok_map h h' (f : SubscriptionEntry C -> SubscriptionEntry C) :
  subs_ok h ->
  hub_subscriptions h' = map (fun p => (p.1, f p.2)) (hub_subscriptions h) ->
  (forall e, entry_ok e -> entry_ok (f e) /\ sub_capacity (f e) = sub_capacity e) ->
  hub_next_id h' = hub_next_id h -> hub_config h' = hub_config h ->
  bs_subscriptions (hub_snapshot h') = zlen (hub_subscriptions h') ->
  bs_reserved (hub_snapshot h') = bs_reserved (hub_snapshot h) ->
  subs_ok h'.
Proof.
  intros [Hs Hi He Hn Hl Hr Hm] E Hf En Ec Ecnt Er.
  set (g := fun p : Z * SubscriptionEntry C => (p.1, f p.2)) in *.
  assert (Eid : (map g (hub_subscriptions h)).*1 = (hub_subscriptions h).*1).
  { rewrite <- list_fmap_compose. apply list_fmap_ext. reflexivity. }
  assert (Esum : slots_sum (map g (hub_subscriptions h)) = slots_sum (hub_subscriptions h)).
  { clear -He Hf. unfold slots_sum.
    induction He as [| p l Hp _ IH]; [reflexivity |]. cbn [map foldr snd g].
    rewrite IH. destruct (Hf _ Hp) as [_ ->]. reflexivity. }
  assert (Elen : zlen (map g (hub_subscriptions h)) = zlen (hub_subscriptions h)).
  { unfold zlen. rewrite length_map. reflexivity. }
  split; rewrite ?Er, ?Ecnt, ?E, ?En, ?Ec, ?Elen, ?Esum; unfold ids_sorted; rewrite ?Eid; try assumption.
  - rewrite Forall_fmap. eapply Forall_impl; [exact He |]. intros p Hp. apply Hf, Hp.
  - reflexivity.
Qed.

Lemma receive_ok h id : hub_ok h -> hub_ok (BurstSubscription_try_receive h id).2.
Proof.
  intros [Hsubs [Hk Hcnt]]. unfold BurstSubscription_try_receive.
  destruct (btree_get id (hub_subscriptions h)) as [e |] eqn:G; [| split; auto].
  pose proof (chan_recv_spec (sub_sender e)) as (B & _ & Cap & Op).
  destruct (chan_try_recv (sub_sender e)) as [m c]. cbn [fst snd] in *.
  split; [| split; [destruct Hk; split; assumption | exact Hcnt]].
  pose proof (subs_sorted _ Hsubs) as Hs.
  destruct (btree_get_split id e (mkEntry (sub_key e) c (sub_capacity e)) _ Hs G)
    as (pre & post & E & E').
  destruct Hsubs as [_ Hi He Hn Hl Hr Hm].
  assert (Hee : entry_ok e).
  { rewrite E in He. apply Forall_app in He as [_ [He _]%Forall_cons_iff]. exact He. }
  assert (Hee' : entry_ok (mkEntry (sub_key e) c (sub_capacity e))).
  { destruct Hee as [H1 H2 H3 H4]. split; cbn [sub_capacity sub_sender]; [exact H1 | congruence | | congruence].
    rewrite B. unfold zlen in *. destruct (chan_backlog (sub_sender e)); cbn [length tail] in *; lia. }
  split; cbn [hub_subscriptions hub_next_id hub_snapshot hub_config]; rewrite ?E'.
  - unfold ids_sorted in *. rewrite E in Hs. rewrite fmap_app in *. exact Hs.
  - rewrite E in Hi. rewrite fmap_app in *. exact Hi.
  - rewrite E in He. apply Forall_app in He as [Hpre [_ Hpost]%Forall_cons_iff].
    apply Forall_app. auto.
  - rewrite Hn, E. unfold zlen. rewrite !length_app. reflexivity.
  - rewrite E in Hl. unfold zlen in *. rewrite length_app in *. exact Hl.
  - rewrite Hr, E, !slots_sum_app. reflexivity.
  - rewrite E in Hm. rewrite slots_sum_app in *. exact Hm.
Qed.

(** ** Delivery *)

(** A channel with room for another message. *)
Definition has_room e : bool := zlen (chan_backlog (sub_sender e)) <? sub_capacity e.

(** What the delivery of a message makes of an entry. *)
Definition send_entry (key : BurstKey) (m : BurstMessage) e : SubscriptionEntry C :=
  if bool_decide (sub_key e = key)
  then mkEntry (sub_key e) (chan_try_send (sub_sender e) m).2 (sub_capacity e) else e.

(** Matching subscriptions without room. *)
Definition full_count (key : BurstKey) l : Z :=
  foldr (fun p n => (if bool_decide (sub_key p.2 = key) && negb (has_room p.2) then 1 else 0) + n)
    0 l.

Lemma full_count_nonneg key l : 0 <= full_count key l.
Proof. unfold full_count. induction l as [| p l IH]; cbn [foldr]; [lia |]. destruct (_ && _); lia. Qed.

Lemma try_send_open e m :
  entry_ok e ->
  (chan_try_send (sub_sender e) m).1 = (if has_room e then Sent else ChannelFull) /\
  chan_backlog (chan_try_send (sub_sender e) m).2
    = chan_backlog (sub_sender e) ++ (if has_room e then [m] else []) /\
  chan_capacity (chan_try_send (sub_sender e) m).2 = sub_capacity e /\
  chan_closed (chan_try_send (sub_sender e) m).2 = false.
Proof.
  intros [Hp Hc Hb Ho]. unfold has_room.
  destruct (Z.ltb_spec (zlen (chan_backlog (sub_sender e))) (sub_capacity e)) as [Hlt | Hge].
  - destruct (chan_send_ok (sub_sender e) m Ho) as (c & -> & B & Cap & Op); [lia |].
    cbn [fst snd]. repeat split; [exact B | congruence | exact Op].
  - rewrite chan_send_full by (assumption || lia). cbn [fst snd]. rewrite app_nil_r. auto.
Qed.

Lemma send_entry_ok key m e :
  entry_ok e -> entry_ok (send_entry key m e) /\ sub_capacity (send_entry key m e) = sub_capacity e.
Proof.
  intros He. unfold send_entry. case_bool_decide; [| auto]. split; [| reflexivity].
  destruct (try_send_open e m He) as (_ & B & Cap & Op). destruct He as [Hp Hc Hb Ho].
  split; cbn [sub_capacity sub_sender]; [exact Hp | exact Cap | | exact Op].
  rewrite B, zlen_app. unfold has_room, zlen in *.
  destruct (Z.ltb_spec (Z.of_nat (length (chan_backlog (sub_sender e)))) (sub_capacity e)); cbn [length]; lia.
Qed.

Lemma deliver_spec key m l : forall dropped closed,
  Forall (fun p => entry_ok p.2) l -> 0 <= dropped <= u64_max ->
  deliver key m l dropped closed =
  (map (fun p => (p.1, send_entry key m p.2)) l,
   saturating_add u64_max dropped (full_count key l), closed).
Proof.
  induction l as [| [id e] l IH]; intros dropped closed Hl Hd; cbn [deliver map].
  - unfold full_count. cbn [foldr]. rewrite saturating_add_0_r by lia. reflexivity.
  - apply Forall_cons_iff in Hl as [He Hl]. cbn [fst snd] in *.
    pose proof (full_count_nonneg key l). change (full_count key ((id, e) :: l)) with
      ((if bool_decide (sub_key e = key) && negb (has_room e) then 1 else 0) + full_count key l).
    unfold send_entry at 1. case_bool_decide; cbn [negb andb].
    + destruct (try_send_open e m He) as (O & _).
      destruct (chan_try_send (sub_sender e) m) as [outcome c]. cbn [fst snd] in *. rewrite O.
      destruct (has_room e); cbn [negb]; rewrite IH by (try assumption; unfold saturating_add; lia).
      * rewrite Z.add_0_l. reflexivity.
      * rewrite saturating_add_assoc by lia. reflexivity.
    + rewrite IH, Z.add_0_l by assumption. reflexivity.
Qed.

(** ** Fingerprints *)

(** The order lists the keys of the map, each once. *)
Definition ordered (order : list BurstKey) (fps : gmap BurstKey Fingerprint) : Prop :=
  NoDup order /\ forall k, k ∈ order <-> is_Some (fps !! k).

Lemma ordered_push order fps key x :
  ordered order fps -> fps !! key = None ->
  ordered (order ++ [key]) (<[key := x]> fps) /\ size (<[key := x]> fps) = S (size fps).
Proof.
  intros [Hnd Hdom] Hn. split; [split |].
  - apply NoDup_app. split; [exact Hnd |]. split; [| apply NoDup_singleton].
    intros k Hk ->%list_elem_of_singleton. apply Hdom in Hk. rewrite Hn in Hk.
    destruct Hk; discriminate.
  - intros k. rewrite elem_of_app, Hdom, list_elem_of_singleton.
    destruct (decide (k = key)) as [-> | Hne].
    + rewrite lookup_insert_eq. split; eauto.
    + rewrite lookup_insert_ne by congruence. tauto.
  - apply map_size_insert_None, Hn.
Qed.

Lemma ordered_remove order fps key :
  ordered order fps -> ordered (filter (fun k => k <> key) order) (delete key fps).
Proof.
  intros [Hnd Hdom]. split; [apply NoDup_filter, Hnd |].
  intros k. rewrite list_elem_of_filter, Hdom. destruct (decide (k = key)) as [-> | Hne].
  - rewrite lookup_delete_eq. split; [tauto |]. intros [? ?]; discriminate.
  - rewrite lookup_delete_ne by congruence. tauto.
Qed.

Lemma ordered_pop oldest order fps :
  ordered (oldest :: order) fps ->
  ordered order (delete oldest fps) /\ S (size (delete oldest fps)) = size fps.
Proof.
  intros [[Hn Hnd]%NoDup_cons Hdom]. split; [split; [exact Hnd |] |].
  - intros k. specialize (Hdom k). rewrite elem_of_cons in Hdom.
    destruct (decide (k = oldest)) as [-> | Hne].
    + rewrite lookup_delete_eq. split; [contradiction |]. intros [? ?]; discriminate.
    + rewrite lookup_delete_ne by congruence. rewrite <- Hdom. tauto.
  - destruct (proj1 (Hdom oldest) ltac:(left)) as [x Hx].
    rewrite (map_size_delete_Some oldest fps) by eauto.
    assert (size fps <> 0%nat).
    { rewrite map_size_ne_0_lookup. exists oldest. eauto. }
    lia.
Qed.

Lemma ordered_size order fps : ordered order fps -> length order = size fps.
Proof.
  revert fps. induction order as [| k order IH]; intros fps Ho.
  - destruct Ho as [_ Hdom]. symmetry. apply map_size_empty_iff, map_empty. intros k.
    destruct (fps !! k) eqn:E; [| reflexivity]. exfalso.
    assert (Hin : k ∈ @nil BurstKey) by (apply Hdom; eauto). inversion Hin.
  - apply ordered_pop in Ho as [Ho E]. rewrite <- E, <- (IH _ Ho). reflexivity.
Qed.

Lemma remember_ok h key fp now :
  keys_ok h -> counters_ok (hub_snapshot h) ->
  let '(fps, order, evictions) := remember h key fp now in
  ordered order fps /\ Z.of_nat (size fps) <= bc_maximum_tracked_keys (hub_config h) /\
  fps !! key = Some (mkFingerprint fp now) /\ is_u64 evictions.
Proof.
  intros [Hnd Hdom Hl Hp _] (_ & _ & _ & Hev & _). unfold remember.
  assert (Ho : ordered (hub_fingerprint_order h) (hub_fingerprints h)) by (split; auto).
  case_bool_decide as Hin.
  - destruct (ordered_push _ _ key (mkFingerprint fp now) (ordered_remove _ _ key Ho)) as [Ho' _];
      [apply lookup_delete_eq |].
    rewrite insert_delete_eq in Ho'. split; [exact Ho' |]. split; [| split; [apply lookup_insert_eq | exact Hev]].
    rewrite map_size_insert_Some by exact Hin. exact Hl.
  - apply eq_None_not_Some in Hin.
    destruct (Z.eqb_spec (Z.of_nat (size (hub_fingerprints h))) (bc_maximum_tracked_keys (hub_config h)))
      as [Hfull | Hnfull].
    + destruct (hub_fingerprint_order h) as [| oldest order].
      { apply ordered_size in Ho. cbn in Ho. lia. }
      destruct (ordered_pop _ _ _ Ho) as [Ho1 Hsz].
      destruct (ordered_push order (delete oldest (hub_fingerprints h)) key (mkFingerprint fp now) Ho1)
        as [Ho2 Hsz2].
      { rewrite lookup_delete. case_decide; [reflexivity | exact Hin]. }
      split; [exact Ho2 |]. split; [lia |]. split; [apply lookup_insert_eq |].
      unfold is_u64, saturating_add, u64_max in *. lia.
    + destruct (ordered_push _ _ key (mkFingerprint fp now) Ho Hin) as [Ho2 Hsz2].
      split; [exact Ho2 |]. split; [lia |]. split; [apply lookup_insert_eq | exact Hev].
Qed.

(** ** Publishing *)

Definition reply_key (reply : DeviceReply) : BurstKey :=
  BurstKey_new (rep_address reply) (rep_command reply).

Definition reply_fits (reply : DeviceReply) : bool :=
  (zlen (rep_data reply) <=? u8_max) && (zlen (rep_frame_expansion reply) <=? 3).

Definition suppressed h (reply : DeviceReply) (now : Z) : bool :=
  is_duplicate h (reply_key reply) (fingerprint_of reply) now.

(** The whole of [try_publish] on a hub in order. *)
Lemma publish_spec h reply now received_at :
  hub_ok h ->
  BurstHub_try_publish h reply now received_at =
  if reply_fits reply then
    let s := hub_snapshot h in
    let received := saturating_add u64_max (bs_received s) 1 in
    if suppressed h reply now then
      (Ok tt,
       mkHub (hub_next_id h) (hub_subscriptions h) (hub_fingerprints h) (hub_fingerprint_order h)
         (hub_config h)
         (mkBurstSnapshot (bs_subscriptions s) (bs_reserved s) received
            (saturating_add u64_max (bs_duplicates s) 1) (bs_backpressure_drops s)
            (bs_tracked_keys s) (bs_fingerprint_evictions s) (bs_invalid_messages s)))
    else
      let '(fps, order, evictions) := remember h (reply_key reply) (fingerprint_of reply) now in
      let subs := map (fun p => (p.1, send_entry (reply_key reply) (mkMessage received_at reply) p.2))
                    (hub_subscriptions h) in
      (Ok tt,
       mkHub (hub_next_id h) subs fps order (hub_config h)
         (mkBurstSnapshot (zlen subs) (bs_reserved s) received (bs_duplicates s)
            (saturating_add u64_max (bs_backpressure_drops s)
               (Z.min u64_max (full_count (reply_key reply) (hub_subscriptions h))))
            (Z.of_nat (size fps)) evictions (bs_invalid_messages s)))
  else
    (Err (if u8_max <? zlen (rep_data reply) then PublishDataLength (zlen (rep_data reply))
          else PublishExpansionLength (zlen (rep_frame_expansion reply))),
     BurstHub_mark_invalid h).
Proof.
  intros [Hsubs _]. unfold BurstHub_try_publish, reply_fits.
  fold (reply_key reply). fold (suppressed h reply now).
  rewrite !Z.leb_antisym. destruct (u8_max <? zlen (rep_data reply)); [reflexivity |].
  destruct (3 <? zlen (rep_frame_expansion reply)); [reflexivity |]. cbn [negb andb].
  destruct (suppressed h reply now); [reflexivity |].
  destruct (remember h (reply_key reply) (fingerprint_of reply) now) as [[fps order] evictions].
  rewrite deliver_spec by (apply (subs_entries _ Hsubs) || (unfold u64_max; lia)).
  reflexivity.
Qed.

Lemma sat_u64 a b : is_u64 a -> 0 <= b -> is_u64 (saturating_add u64_max a b).
Proof. unfold is_u64, saturating_add, u64_max. lia. Qed.

Ltac counters :=
  refine (conj _ (conj _ (conj _ (conj _ _)))); cbn;
  first [assumption | apply sat_u64; [assumption | unfold u64_max; lia]].

Lemma publish_ok h reply now received_at :
  hub_ok h -> hub_ok (BurstHub_publish h reply now received_at).
Proof.
  intros Hok. pose proof Hok as (Hsubs & Hkeys & Hcnt). unfold BurstHub_publish. rewrite (publish_spec _ _ _ _ Hok).
  pose proof Hcnt as (H1 & H2 & H3 & H4 & H5).
  destruct (reply_fits reply); [destruct (suppressed h reply now) |].
  - split; [destruct Hsubs; split; assumption |]. split; [destruct Hkeys; split; assumption |].
    counters.
  - pose proof (remember_ok h (reply_key reply) (fingerprint_of reply) now Hkeys Hcnt) as Hrem.
    destruct (remember h (reply_key reply) (fingerprint_of reply) now) as [[fps order] evictions].
    destruct Hrem as ([Hnd Hdom] & Hl & _ & Hev). split; [| split].
    + eapply (subs_ok_map h _ (send_entry (reply_key reply) (mkMessage received_at reply)) Hsubs);
        try reflexivity. apply send_entry_ok.
    + split; cbn; try assumption; [apply Hkeys | reflexivity].
    + pose proof (full_count_nonneg (reply_key reply) (hub_subscriptions h)).
      counters.
  - split; [destruct Hsubs; split; assumption |]. split; [destruct Hkeys; split; assumption |].
    counters.
Qed.

Lemma reset_key_ok h key : hub_ok h -> hub_ok (BurstHub_reset_key h key).
Proof.
  intros (Hsubs & [Hnd Hdom Hl Hp Hc] & Hcnt).
  split; [destruct Hsubs; split; assumption |]. split; [| exact Hcnt].
  destruct (ordered_remove _ _ key (conj Hnd Hdom)) as [Hnd' Hdom'].
  split; cbn; try assumption; [| reflexivity].
  assert (size (delete key (hub_fingerprints h)) <= size (hub_fingerprints h))%nat.
  { rewrite map_size_delete. destruct (hub_fingerprints h !! key); cbn; lia. }
  lia.
Qed.

Lemma reset_all_ok h : hub_ok h -> hub_ok (BurstHub_reset_all h).
Proof.
  intros (Hsubs & [Hnd Hdom Hl Hp Hc] & Hcnt).
  split; [destruct Hsubs; split; assumption |]. split; [| exact Hcnt].
  split; cbn.
  - constructor.
  - intros k. rewrite lookup_empty. split; [intros Hk; inversion Hk | intros [? ?]; discriminate].
  - rewrite map_size_empty. lia.
  - exact Hp.
  - reflexivity.
Qed.

(** ** Runs of a hub *)

Inductive hub_step : BurstState C -> BurstState C -> Prop :=
  | hub_subscribe h key capacity id h' :
      0 <= capacity -> BurstHub_subscribe h key capacity = Ok (id, h') -> hub_step h h'
  | hub_drop h id : hub_step h (BurstSubscription_drop h id)
  | hub_receive h id : hub_step h (BurstSubscription_try_receive h id).2
  | hub_publish h reply now received_at : hub_step h (BurstHub_publish h reply now received_at)
  | hub_reset_key h key : hub_step h (BurstHub_reset_key h key)
  | hub_reset_all h : hub_step h (BurstHub_reset_all h).

Lemma hub_run_ok h h' : rtc hub_step h h' -> hub_ok h -> hub_ok h'.
Proof.
  induction 1 as [| x y z St _ IH]; [auto |]. intros Hx. apply IH.
  destruct St; eauto using subscribe_ok, drop_ok, receive_ok, publish_ok, reset_key_ok, reset_all_ok.
Qed.

Lemma hub_new_ok config h :
  0 <= bc_maximum_subscriptions config -> 0 <= bc_maximum_buffered_deliveries config ->
  0 <= bc_maximum_tracked_keys config ->
  BurstHub_new (C:=C) config = Ok h -> hub_ok h /\ hub_config h = config /\
  bc_maximum_buffered_deliveries config <= MAXIMUM_BURST_BUFFERED_DELIVERIES.
Proof.
  intros H1 H2 H3. unfold BurstHub_new.
  destruct (Z.eqb_spec (bc_maximum_subscriptions config) 0); [discriminate |].
  destruct (MAXIMUM_BURST_SUBSCRIPTIONS <? _); [discriminate |].
  destruct (Z.eqb_spec (bc_maximum_buffered_deliveries config) 0); [discriminate |].
  destruct (Z.ltb_spec MAXIMUM_BURST_BUFFERED_DELIVERIES (bc_maximum_buffered_deliveries config));
    [discriminate |].
  destruct (Z.eqb_spec (bc_maximum_tracked_keys config) 0); [discriminate |].
  destruct (MAXIMUM_BURST_TRACKED_KEYS <? _); [discriminate |]. intros [= <-].
  split; [| auto]. split; [split; cbn; try lia; first [exact (SSorted_nil _) | exact (List.Forall_nil _) | unfold zlen; cbn [length]; lia] |].
    split; [| unfold counters_ok, is_u64; cbn; lia].
  split; cbn; rewrite ?map_size_empty; try lia; [constructor |].
  intros k. rewrite lookup_empty. split; [intros Hk; inversion Hk | intros [? ?]; discriminate].
Qed.

Lemma hub_config_step h h' : hub_step h h' -> hub_config h' = hub_config h.
Proof.
  intros St. destruct St; try reflexivity.
  - unfold BurstHub_subscribe, BurstHub_try_subscribe, BurstHub_subscribe_validated in *.
    repeat match goal with
    | E : (if ?c then _ else _) = Ok _ |- _ => destruct c; [discriminate |]
    | E : result_bind _ _ = Ok _ |- _ => apply result_bind_Ok in E as (? & ? & E)
    end.
    match goal with E : Ok _ = Ok _ |- _ => injection E as _ <- end. reflexivity.
  - unfold BurstSubscription_try_receive. destruct (btree_get _ _); [| reflexivity].
    destruct (chan_try_recv _). reflexivity.
  - unfold BurstHub_publish, BurstHub_try_publish. destruct (u8_max <? _); [reflexivity |].
    destruct (3 <? _); [reflexivity |]. destruct (is_duplicate _ _ _ _); [reflexivity |].
    destruct (remember _ _ _ _) as [[? ?] ?]. destruct (deliver _ _ _ _ _) as [[? ?] ?].
    destruct (remove_closed _ _ _). reflexivity.
Qed.

Lemma hub_config_run h h' : rtc hub_step h h' -> hub_config h' = hub_config h.
Proof. induction 1 as [| x y z St _ IH]; [reflexivity |]. rewrite IH. apply hub_config_step, St. Qed.

(** The messages waiting in all channels. *)
Definition backlog_sum l : Z := foldr (fun p n => zlen (chan_backlog (sub_sender p.2)) + n) 0 l.

Lemma backlog_reserved l : Forall (fun p => entry_ok p.2) l -> backlog_sum l <= slots_sum l.
Proof.
  unfold backlog_sum, slots_sum. induction 1 as [| p l [_ _ Hp _] _ IH]; cbn [foldr]; lia.
Qed.

(** C31. A hub keeps its bounds. From creation on, whatever is subscribed, dropped,
    received, published and reset, in any order: the subscriptions and the remembered keys
    stay within the configured limits and are counted exactly; the slots reserved are the
    sum of the capacities, within the configured and the hard limit, and bound the messages
    waiting; identifiers are not reused; and the eviction order lists each remembered key
    once. *)
Theorem burst_hub_stays_bounded config h0 h :
  0 <= bc_maximum_subscriptions config -> 0 <= bc_maximum_buffered_deliveries config ->
  0 <= bc_maximum_tracked_keys config ->
  BurstHub_new (C:=C) config = Ok h0 -> rtc hub_step h0 h ->
  let s := hub_snapshot h in
  bs_subscriptions s = zlen (hub_subscriptions h) /\
  bs_subscriptions s <= bc_maximum_subscriptions config /\
  backlog_sum (hub_subscriptions h) <= slots_sum (hub_subscriptions h) /\
  bs_reserved s = slots_sum (hub_subscriptions h) /\
  bs_reserved s <= bc_maximum_buffered_deliveries config <= MAXIMUM_BURST_BUFFERED_DELIVERIES /\
  StronglySorted Z.lt (hub_subscriptions h).*1 /\
  Forall (fun id => id <= hub_next_id h) (hub_subscriptions h).*1 /\
  bs_tracked_keys s = Z.of_nat (size (hub_fingerprints h)) /\
  bs_tracked_keys s <= bc_maximum_tracked_keys config /\
  ordered (hub_fingerprint_order h) (hub_fingerprints h).
Proof.
  intros H1 H2 H3 Hnew R s. destruct (hub_new_ok config h0 H1 H2 H3 Hnew) as (Ok0 & Ec & Hmax).
  pose proof (hub_config_run _ _ R) as Ec'. rewrite Ec in Ec'.
  destruct (hub_run_ok _ _ R Ok0) as ([Ss Si Se Sn Sl Sr Sm] & [Kn Kd Kl Kp Kc] & _).
  rewrite Ec' in *. pose proof (backlog_reserved _ Se). unfold s.
  rewrite Sn, Sr, Kc. repeat split; try assumption; apply Kd.
Qed.

Lemma map_lookup_send key m l i id e :
  l !! i = Some (id, e) ->
  map (fun p => (p.1, send_entry key m p.2)) l !! i = Some (id, send_entry key m e).
Proof. intros Hi. rewrite list_lookup_fmap, Hi. reflexivity. Qed.

(** C30. Delivery and duplicate suppression. Publishing a well-sized message either
    suppresses it, and then every backlog and every remembered payload stays as it was, or
    appends it to exactly the backlogs of the matching subscriptions with room, in place,
    and counts the matching ones without room as drops. Directly afterwards a message of the
    same key is suppressed exactly when its payload is the one remembered and the window
    since that one's delivery is not over: a suppressed repetition does not extend it. *)
Theorem burst_publish_exact h reply now received_at :
  hub_ok h -> reply_fits reply = true ->
  let h' := BurstHub_publish h reply now received_at in
  let m := mkMessage received_at reply in
  let key := reply_key reply in
  let window := bc_duplicate_window (hub_config h) in
  if suppressed h reply now then
    hub_subscriptions h' = hub_subscriptions h /\
    forall r t, suppressed h' r t = suppressed h r t
  else
    length (hub_subscriptions h') = length (hub_subscriptions h) /\
    (forall i id e, hub_subscriptions h !! i = Some (id, e) ->
       exists e', hub_subscriptions h' !! i = Some (id, e') /\
         sub_key e' = sub_key e /\ sub_capacity e' = sub_capacity e /\
         chan_backlog (sub_sender e') = chan_backlog (sub_sender e)
           ++ (if bool_decide (sub_key e = key) && has_room e then [m] else [])) /\
    bs_backpressure_drops (hub_snapshot h')
      = saturating_add u64_max (bs_backpressure_drops (hub_snapshot h))
          (Z.min u64_max (full_count key (hub_subscriptions h))) /\
    forall r t, reply_key r = key ->
      suppressed h' r t =
        negb (window =? 0) && bool_decide (fingerprint_of reply = fingerprint_of r)
        && (duration_since t now <? window).
Proof.
  intros Hok Hfit. cbn zeta. unfold BurstHub_publish. rewrite (publish_spec _ _ _ _ Hok), Hfit.
  pose proof Hok as (Hsubs & Hkeys & Hcnt). cbn zeta.
  destruct (suppressed h reply now); [split; reflexivity |].
  pose proof (remember_ok h (reply_key reply) (fingerprint_of reply) now Hkeys Hcnt) as Hrem.
  destruct (remember h (reply_key reply) (fingerprint_of reply) now) as [[fps order] evictions].
  destruct Hrem as (_ & _ & Hfp & _).
  cbn [snd hub_subscriptions hub_snapshot bs_backpressure_drops].
  split; [apply length_map |]. split; [| split; [reflexivity |]].
  - intros i id e Hi. exists (send_entry (reply_key reply) (mkMessage received_at reply) e).
    split; [apply map_lookup_send, Hi |].
    assert (He : entry_ok e).
    { pose proof (subs_entries _ Hsubs) as He. rewrite Forall_lookup in He. exact (He i _ Hi). }
    destruct (try_send_open e (mkMessage received_at reply) He) as (_ & B & _ & _).
    unfold send_entry. case_bool_decide; cbn [andb sub_key sub_capacity sub_sender];
      [auto | rewrite app_nil_r; auto].
  - intros r t Hr. unfold suppressed, is_duplicate. rewrite Hr. cbn [hub_fingerprints hub_config].
    rewrite Hfp. reflexivity.
Qed.
End Props.

(** ** Witnesses *)

Definition demo_key : BurstKey := BurstKey_new (Polling 1 Primary) (CommandCode_new 9).

Definition demo_reply : DeviceReply :=
  mkReply (Polling 1 Primary) (CommandCode_new 9) 0 0 [1; 2] true Fsk 5 [].

Definition demo_hub : BurstState ListChannel :=
  match BurstHub_subscribe (BurstHub_from_valid_config BurstConfig_default) demo_key 1 with
  | Ok (_, h) => h
  | Err _ => BurstHub_from_valid_config BurstConfig_default
  end.

Definition demo_run_h : BurstState ListChannel :=
  BurstHub_publish (BurstHub_publish demo_hub demo_reply 0 0) demo_reply 500000000 1.

Lemma demo_hub_run :
  rtc hub_step (BurstHub_from_valid_config (C:=ListChannel) BurstConfig_default) demo_run_h.
Proof.
  eapply rtc_l; [apply (hub_subscribe _ demo_key 1 1 demo_hub); [lia | reflexivity] |].
  eapply rtc_l; [apply hub_publish |]. apply rtc_once, hub_publish.
Defined.

Lemma burst_hub_stays_bounded_witness :
  bs_reserved (hub_snapshot demo_run_h) <= 65536 /\ bs_tracked_keys (hub_snapshot demo_run_h) <= 1024.
Proof.
  destruct (burst_hub_stays_bounded BurstConfig_default
              (BurstHub_from_valid_config BurstConfig_default) demo_run_h)
    as (_ & _ & _ & _ & Hr & _ & _ & _ & Hk & _);
    [cbn; lia | cbn; lia | cbn; lia | reflexivity | exact demo_hub_run |].
  split; [apply Hr | exact Hk].
Defined.

Lemma demo_hub_ok : hub_ok demo_hub.
Proof.
  apply (subscribe_ok (BurstHub_from_valid_config BurstConfig_default) demo_key 1 1 demo_hub);
    [lia | | reflexivity].
  apply (hub_new_ok BurstConfig_default); cbn; first [lia | reflexivity].
Defined.

Lemma burst_publish_exact_witness :
  suppressed demo_hub demo_reply 0 = false /\
  suppressed (BurstHub_publish demo_hub demo_reply 0 0) demo_reply 249999999 = true /\
  suppressed (BurstHub_publish demo_hub demo_reply 0 0) demo_reply 250000000 = false.
Proof.
  split; [reflexivity |].
  destruct (burst_publish_exact demo_hub demo_reply 0 0 demo_hub_ok eq_refl) as (_ & _ & _ & P).
  split; (rewrite P by reflexivity); reflexivity.
Defined.
