(* ===== verification/Link.v ===== *)
(** * Links: policies, configuration and admission (src/src/service/link.rs)

    Retry policies, command policies and routing, the configuration of a link and its
    construction, and the client side of a link: what happens to a request before it
    waits in a queue. Durations and instants are nanoseconds; the largest instant the
    runtime clock represents is an argument. A oneshot reply channel is its number. *)
From stdpp Require Import gmap.
From S2P Require Import Prelude Wire Decoder Catalog Codec Operation QueueSet.

Definition MAXIMUM_LINK_READ_BUFFER : Z := 1048576.
Definition MAXIMUM_LINK_DECODER_BUFFER : Z := MAXIMUM_DECODE_BUFFER_CAPACITY.
Definition MAXIMUM_LINK_EVENT_CAPACITY : Z := 1048576.
Definition MAXIMUM_TRANSMIT_PREFIX : Z := 4096.
Definition NANOS_PER_SECOND : Z := 1000000000.
Definition DEFAULT_LATE_RESPONSE_GUARD : Z := 25 * 1000000.
Definition MAXIMUM_LATE_RESPONSE_GUARD : Z := 60 * NANOS_PER_SECOND.
Definition MAXIMUM_RETRY_DURATION : Z := 24 * 3600 * NANOS_PER_SECOND.

(** [Instant::checked_add]. *)
Definition instant_checked_add (instant_max now duration : Z) : option Z :=
  if now + duration <=? instant_max then Some (now + duration) else None.

(** ** Safety of a request *)

Definition resolved_safety (request : Request) : OperationSafety :=
  match req_retry_safety request with
  | Some safety => safety
  | None =>
      match command_descriptor (req_command request) with
      | Some entry => desc_safety entry
      | None => Action
      end
  end.

Definition catalog_safety (request : Request) : option OperationSafety :=
  desc_safety <$> command_descriptor (req_command request).

(** ** Command policies and routing *)

Record CommandContext := mkContext {
  ctx_request : Request;
  ctx_safety : OperationSafety;
  ctx_catalog_safety : option OperationSafety;
  ctx_queue : QueueId;
}.

Record CommandPolicy := mkPolicy { pol_guard : CommandContext -> bool; pol_name : string }.

Definition CommandPolicy_admits (p : CommandPolicy) (context : CommandContext) : bool :=
  pol_guard p context.

Definition CommandPolicy_custom_named (name : string) (guard : CommandContext -> bool)
    : CommandPolicy := mkPolicy guard name.

Definition CommandPolicy_allow_all : CommandPolicy := CommandPolicy_custom_named "allow-all"
    (fun _ => true).

Definition CommandPolicy_read_only : CommandPolicy :=
  CommandPolicy_custom_named "read-only"
    (fun context => bool_decide (ctx_catalog_safety context = Some ReadOnly)).

Definition CommandPolicy_retry_safe : CommandPolicy :=
  CommandPolicy_custom_named "retry-safe" (fun context =>
    match ctx_catalog_safety context with
    | Some safety => negb (bool_decide (safety = Action))
    | None => false
    end).

Definition CommandPolicy_allow_commands (commands : list CommandCode) : CommandPolicy :=
  CommandPolicy_custom_named "allow-list"
    (fun context => bool_decide (req_command (ctx_request context) ∈ commands)).

Definition CommandPolicy_deny_commands (commands : list CommandCode) : CommandPolicy :=
  CommandPolicy_custom_named "deny-list"
    (fun context => negb (bool_decide (req_command (ctx_request context) ∈ commands))).

Definition CommandPolicy_queue_allowlist (queue : QueueId) (commands : list CommandCode)
    : CommandPolicy :=
  CommandPolicy_custom_named "queue-allow-list" (fun context =>
    negb (bool_decide (ctx_queue context = queue))
    || bool_decide (req_command (ctx_request context) ∈ commands)).

Definition CommandPolicy_and (p other : CommandPolicy) : CommandPolicy :=
  CommandPolicy_custom_named "and"
    (fun context => CommandPolicy_admits p context && CommandPolicy_admits other context).

Definition CommandPolicy_or (p other : CommandPolicy) : CommandPolicy :=
  CommandPolicy_custom_named "or"
    (fun context => CommandPolicy_admits p context || CommandPolicy_admits other context).

Definition CommandPolicy_custom (guard : CommandContext -> bool) : CommandPolicy :=
  CommandPolicy_custom_named "custom" guard.

Definition CommandPolicy_default : CommandPolicy := CommandPolicy_allow_all.

Record CommandRouting := mkRouting { rt_router : CommandContext -> QueueId; rt_name : string }.

Definition CommandRouting_route (r : CommandRouting) (context : CommandContext) : QueueId :=
  rt_router r context.

Definition CommandRouting_custom_named (name : string) (router : CommandContext -> QueueId)
    : CommandRouting := mkRouting router name.

Definition CommandRouting_preserve_requested : CommandRouting :=
  CommandRouting_custom_named "preserve-requested" ctx_queue.

Definition CommandRouting_commands_to (queue : QueueId) (commands : list CommandCode)
    : CommandRouting :=
  CommandRouting_custom_named "command-list" (fun context =>
    if bool_decide (req_command (ctx_request context) ∈ commands) then queue
    else ctx_queue context).

Definition CommandRouting_custom (router : CommandContext -> QueueId) : CommandRouting :=
  CommandRouting_custom_named "custom" router.

Definition CommandRouting_default : CommandRouting := CommandRouting_preserve_requested.

(** ** Retry policies *)

Record RetryPolicy := mkRetry {
  rp_transport_retries : Z;
  rp_busy_retries : Z;
  rp_delayed_response_polls : Z;
  rp_retry_delay : Z;
  rp_response_timeout : Z;
  rp_total_timeout : Z;
}.

#[global] Instance RetryPolicy_eq_dec : EqDecision RetryPolicy.
Proof. solve_decision. Defined.

Definition RetryPolicy_default : RetryPolicy :=
  mkRetry 1 2 8 (50 * 1000000) (1600 * 1000000) (8 * NANOS_PER_SECOND).

Definition RetryPolicy_single_attempt (response_timeout total_timeout : Z) : RetryPolicy :=
  mkRetry 0 0 0 0 response_timeout total_timeout.

Inductive RetryPolicyError :=
  | RetryResponseTimeout
  | RetryTotalTimeout
  | RetryDeadlineOverflow
  | RetryResponseDeadlineOverflow
  | RetryDelayOverflow
  | RetryResponseTimeoutLimit
  | RetryTotalTimeoutLimit
  | RetryDelayLimit.

Definition RetryPolicy_validate (p : RetryPolicy) : result RetryPolicyError unit :=
  return_if rp_response_timeout p =? 0 err RetryResponseTimeout ;;
  return_if rp_total_timeout p =? 0 err RetryTotalTimeout ;;
  Ok tt.

Definition RetryPolicy_validate_runtime (p : RetryPolicy) (instant_max now : Z)
    : result RetryPolicyError unit :=
  let? _ := RetryPolicy_validate p ;;
  return_if MAXIMUM_RETRY_DURATION <? rp_response_timeout p err RetryResponseTimeoutLimit ;;
  return_if MAXIMUM_RETRY_DURATION <? rp_total_timeout p err RetryTotalTimeoutLimit ;;
  return_if MAXIMUM_RETRY_DURATION <? rp_retry_delay p err RetryDelayLimit ;;
  let? _ := ok_or (instant_checked_add instant_max now (rp_response_timeout p))
              RetryResponseDeadlineOverflow ;;
  let? _ := ok_or (instant_checked_add instant_max now (rp_total_timeout p))
              RetryDeadlineOverflow ;;
  let? _ := ok_or (instant_checked_add instant_max now (rp_retry_delay p)) RetryDelayOverflow ;;
  Ok tt.

(** ** Link configuration *)

Record LinkConfig := mkLinkConfig {
  lc_queue_capacity : Z;
  lc_read_buffer_size : Z;
  lc_decoder : DecodeLimits;
}.

Definition LinkConfig_default : LinkConfig := mkLinkConfig 256 512 DecodeLimits_default.

Inductive LinkConfigError :=
  | LinkQueueCapacity
  | LinkQueueCapacityLimit (n : Z)
  | LinkReadBufferSize
  | LinkReadBufferLimit (n : Z)
  | LinkDecoderCapacity
  | LinkDecoderCapacityLimit (n : Z)
  | LinkDecoderFrameCapacity (actual required : Z)
  | LinkMinimumPreambles
  | LinkChecksumSourceNode.

Definition required_decoder_capacity (minimum_preambles : Z) : Z :=
  MAX_ENCODED_FRAME_SIZE - u8_max + minimum_preambles.

Definition bad_source_node (policy : ChecksumPolicy) : bool :=
  match policy with
  | KnownGateway _ (Some node) => 63 <? node
  | _ => false
  end.

Definition LinkConfig_validate (c : LinkConfig) : result LinkConfigError unit :=
  return_if lc_queue_capacity c =? 0 err LinkQueueCapacity ;;
  return_if MAXIMUM_QUEUE_CAPACITY <? lc_queue_capacity c
    err LinkQueueCapacityLimit (lc_queue_capacity c) ;;
  return_if lc_read_buffer_size c =? 0 err LinkReadBufferSize ;;
  return_if MAXIMUM_LINK_READ_BUFFER <? lc_read_buffer_size c
    err LinkReadBufferLimit (lc_read_buffer_size c) ;;
  return_if buffer_capacity (lc_decoder c) =? 0 err LinkDecoderCapacity ;;
  return_if minimum_preambles (lc_decoder c) =? 0 err LinkMinimumPreambles ;;
  return_if bad_source_node (checksum_policy (lc_decoder c)) err LinkChecksumSourceNode ;;
  return_if MAXIMUM_LINK_DECODER_BUFFER <? buffer_capacity (lc_decoder c)
    err LinkDecoderCapacityLimit (buffer_capacity (lc_decoder c)) ;;
  let required := required_decoder_capacity (minimum_preambles (lc_decoder c)) in
  return_if buffer_capacity (lc_decoder c) <? required
    err LinkDecoderFrameCapacity (buffer_capacity (lc_decoder c)) required ;;
  Ok tt.

Definition normalized_checksum_policy (policy : ChecksumPolicy) : ChecksumPolicy :=
  match policy with
  | KnownGateway delimiter_bit (Some node) =>
      if 63 <? node then KnownGateway delimiter_bit None else policy
  | _ => policy
  end.

(** The configuration [create_link] builds from any other. *)
Definition create_link_config (c : LinkConfig) : LinkConfig :=
  let preambles := Z.max (minimum_preambles (lc_decoder c)) 1 in
  mkLinkConfig (clamp (lc_queue_capacity c) 1 MAXIMUM_QUEUE_CAPACITY)
    (clamp (lc_read_buffer_size c) 64 MAXIMUM_LINK_READ_BUFFER)
    (mkLimits
       (clamp (buffer_capacity (lc_decoder c)) (required_decoder_capacity preambles)
          MAXIMUM_LINK_DECODER_BUFFER)
       preambles
       (normalized_checksum_policy (checksum_policy (lc_decoder c)))).

Inductive LinkBuildError :=
  | BuildConfig (e : LinkConfigError)
  | BuildQueues (e : QueueConfigError)
  | BuildRetryPolicy (e : RetryPolicyError)
  | BuildEventCapacity
  | BuildEventCapacityLimit (n : Z)
  | BuildLateResponseGuard.

Record LinkBuilder := mkBuilder {
  lb_config : LinkConfig;
  lb_event_capacity : Z;
  lb_maximum_coalesced : Z;
  lb_queue_layout : option (list QueueConfig);
  lb_default_queue : QueueId;
  lb_default_retry : RetryPolicy;
  lb_late_response_guard : Z;
  lb_command_policy : CommandPolicy;
  lb_command_routing : CommandRouting;
}.

Definition LinkBuilder_new : LinkBuilder :=
  mkBuilder LinkConfig_default 512 64 None QueueId_DEFAULT RetryPolicy_default
    DEFAULT_LATE_RESPONSE_GUARD CommandPolicy_allow_all CommandRouting_preserve_requested.

Record LinkRuntimeOptions := mkRuntimeOptions {
  ro_event_capacity : Z;
  ro_maximum_coalesced : Z;
  ro_queue_layout : list QueueConfig;
  ro_default_queue : QueueId;
  ro_default_retry : RetryPolicy;
  ro_late_response_guard : Z;
  ro_command_policy : CommandPolicy;
  ro_command_routing : CommandRouting;
}.

(** The one-queue layout; [expect] on a failure is [None]. *)
Definition default_layout (capacity : Z) : option (list QueueConfig) :=
  match QueueConfig_weighted QueueId_DEFAULT capacity 1 with
  | Ok queue => Some [queue]
  | Err _ => None
  end.

(** [LinkBuilder::build] up to the options of the runtime; the outer [None] is the
    panic of [expect]. *)
Definition LinkBuilder_build (b : LinkBuilder) (instant_max now : Z)
    : option (result LinkBuildError LinkRuntimeOptions) :=
  match LinkConfig_validate (lb_config b) with
  | Err e => Some (Err (BuildConfig e))
  | Ok _ =>
      match RetryPolicy_validate_runtime (lb_default_retry b) instant_max now with
      | Err e => Some (Err (BuildRetryPolicy e))
      | Ok _ =>
          if lb_event_capacity b =? 0 then Some (Err BuildEventCapacity)
          else if MAXIMUM_LINK_EVENT_CAPACITY <? lb_event_capacity b then
            Some (Err (BuildEventCapacityLimit (lb_event_capacity b)))
          else if MAXIMUM_LATE_RESPONSE_GUARD <? lb_late_response_guard b then
            Some (Err BuildLateResponseGuard)
          else
            match (match lb_queue_layout b with
                   | Some layout => Some layout
                   | None => default_layout (lc_queue_capacity (lb_config b))
                   end) with
            | None => None
            | Some queue_layout =>
                match validate_layout queue_layout (lb_default_queue b) with
                | Err e => Some (Err (BuildQueues e))
                | Ok _ =>
                    Some (Ok (mkRuntimeOptions (lb_event_capacity b) (lb_maximum_coalesced b)
                                queue_layout (lb_default_queue b) (lb_default_retry b)
                                (lb_late_response_guard b) (lb_command_policy b)
                                (lb_command_routing b)))
                end
            end
      end
  end.

Definition LinkRuntimeOptions_default : option LinkRuntimeOptions :=
  match default_layout 256 with
  | Some layout =>
      Some (mkRuntimeOptions 512 64 layout QueueId_DEFAULT RetryPolicy_default
              DEFAULT_LATE_RESPONSE_GUARD CommandPolicy_allow_all
              CommandRouting_preserve_requested)
  | None => None
  end.

(** The defaults with a layout of the configured capacity. *)
Definition default_runtime_options (c : LinkConfig) : option LinkRuntimeOptions :=
  match default_layout (lc_queue_capacity c), LinkRuntimeOptions_default with
  | Some layout, Some o =>
      Some (mkRuntimeOptions (ro_event_capacity o) (ro_maximum_coalesced o) layout
              (ro_default_queue o) (ro_default_retry o) (ro_late_response_guard o)
              (ro_command_policy o) (ro_command_routing o))
  | _, _ => None
  end.

(** ** Errors, events and counters *)

(** Of an I/O error only its kind is looked at: whether it is [TimedOut]. *)
Inductive ChannelError :=
  | ChannelIo (timed_out : bool)
  | ChannelSerial
  | ChannelIsClosed
  | ChannelTimeout (operation : string)
  | ChannelConfiguration (reason : string)
  | ChannelProtocol (reason : string).

Inductive StartError :=
  | StartCommandDenied (command : Z) (safety : OperationSafety) (queue : QueueId)
  | StartUnknownQueue (queue : QueueId)
  | StartFull
  | StartClosed
  | StartDeadline
  | StartRetryPolicy (e : RetryPolicyError)
  | StartOperation (e : OperationError)
  | StartTransmitPrefix (length : Z).

Inductive ExchangeError :=
  | ExCommandDenied (command : Z) (safety : OperationSafety) (queue : QueueId)
  | ExUnknownQueue (queue : QueueId)
  | ExDeadline
  | ExResponseTimeout
  | ExSendTimeout
  | ExBusy (code : Z)
  | ExDelayedResponse (code : Z)
  | ExChannel (e : ChannelError)
  | ExWire (e : WireError)
  | ExOperation (e : OperationError)
  | ExRunnerStopped
  | ExRetryPolicy (e : RetryPolicyError)
  | ExTransmitPrefix (length : Z).

Definition error_reason (e : ExchangeError) : string :=
  match e with
  | ExCommandDenied _ _ _ => "command policy"
  | ExUnknownQueue _ => "unknown queue"
  | ExDeadline => "end-to-end deadline"
  | ExResponseTimeout => "response timeout"
  | ExSendTimeout => "send timeout"
  | ExBusy _ => "transient device rejection"
  | ExDelayedResponse _ => "delayed response"
  | ExChannel _ => "transport"
  | ExWire _ => "link-layer frame"
  | ExOperation _ => "application format"
  | ExRunnerStopped => "runner stopped"
  | ExRetryPolicy _ => "invalid retry policy"
  | ExTransmitPrefix _ => "transmit prefix limit"
  end.

Inductive RetryCause := CauseTransport | CauseBusy | CauseDelayedResponse.

Inductive LinkEvent :=
  | LinkQueued (id : Z) (command : CommandCode) (queue : QueueId)
  | LinkDenied (command : Z) (safety : OperationSafety) (queue : QueueId)
  | LinkStarted (id : Z) (command : CommandCode)
  | LinkEchoDiscarded (id : Z)
  | LinkUnsolicited (reply : DeviceReply)
  | LinkStaleFrame (id : Z) (command : CommandCode)
  | LinkLateResponse (reply : DeviceReply)
  | LinkRejectedFrame (id : Z) (error : WireError)
  | LinkIdleRejectedFrame (error : WireError)
  | LinkChannelStopped (reason : string)
  | LinkCancelled (id : Z)
  | LinkCoalesced (id leader_id : Z)
  | LinkRetrying (id attempt : Z) (cause : RetryCause)
  | LinkCompleted (id : Z)
  | LinkFailed (id : Z) (reason : string).

(** Atomic 64-bit counters; [fetch_add] wraps. *)
Record Counters := mkCounters {
  cnt_started : Z;
  cnt_completed : Z;
  cnt_failed : Z;
  cnt_cancelled : Z;
  cnt_coalesced : Z;
  cnt_denied : Z;
  cnt_next_id : Z;
}.

Definition Counters_default : Counters := mkCounters 0 0 0 0 0 0 0.

Definition fetch_add (n : Z) : Z := (n + 1) mod (u64_max + 1).

Record Job := mkJob {
  job_id : Z;
  job_request : Request;
  job_transmit_prefix : bytes;
  job_policy : RetryPolicy;
  job_deadline : Z;
  job_reply : option Z;
}.

Definition map_queue_push_error (e : QueuePushError) : StartError :=
  match e with
  | PushFull => StartFull
  | PushClosed => StartClosed
  | PushDeadline => StartDeadline
  | PushUnknown queue => StartUnknownQueue queue
  end.

Definition start_to_exchange_error (e : StartError) : ExchangeError :=
  match e with
  | StartCommandDenied command safety queue => ExCommandDenied command safety queue
  | StartUnknownQueue queue => ExUnknownQueue queue
  | StartDeadline => ExDeadline
  | StartRetryPolicy e => ExRetryPolicy e
  | StartOperation e => ExOperation e
  | StartTransmitPrefix length => ExTransmitPrefix length
  | StartClosed | StartFull => ExRunnerStopped
  end.

(** ** The client *)

Section Client.
Context {S : Type} `{Semaphore S}.

Record LinkClient := mkClient {
  cl_queues : QueueSet Job S;
  cl_events : list LinkEvent;
  cl_counters : Counters;
  cl_default_queue : QueueId;
  cl_default_retry : RetryPolicy;
  cl_command_policy : CommandPolicy;
  cl_command_routing : CommandRouting;
}.

(** [events] holds what was broadcast, the latest first. *)
Definition emit (c : LinkClient) (event : LinkEvent) : LinkClient :=
  mkClient (cl_queues c) (event :: cl_events c) (cl_counters c) (cl_default_queue c)
    (cl_default_retry c) (cl_command_policy c) (cl_command_routing c).

Definition with_counters (c : LinkClient) (counters : Counters) : LinkClient :=
  mkClient (cl_queues c) (cl_events c) counters (cl_default_queue c)
    (cl_default_retry c) (cl_command_policy c) (cl_command_routing c).

Definition with_queues (c : LinkClient) (queues : QueueSet Job S) : LinkClient :=
  mkClient queues (cl_events c) (cl_counters c) (cl_default_queue c)
    (cl_default_retry c) (cl_command_policy c) (cl_command_routing c).

Definition count_denied (c : Counters) : Counters :=
  mkCounters (cnt_started c) (cnt_completed c) (cnt_failed c) (cnt_cancelled c)
    (cnt_coalesced c) (fetch_add (cnt_denied c)) (cnt_next_id c).

Definition take_id (c : Counters) : Counters :=
  mkCounters (cnt_started c) (cnt_completed c) (cnt_failed c) (cnt_cancelled c)
    (cnt_coalesced c) (cnt_denied c) (fetch_add (cnt_next_id c)).

Definition LinkClient_resolve_queue (c : LinkClient) (request : Request) (requested : QueueId)
    : result StartError QueueId :=
  return_if negb (QueueSet_contains (cl_queues c) requested) err StartUnknownQueue requested ;;
  let queue := CommandRouting_route (cl_command_routing c)
                 (mkContext request (resolved_safety request) (catalog_safety request) requested) in
  return_if negb (QueueSet_contains (cl_queues c) queue) err StartUnknownQueue queue ;;
  Ok queue.

(** [now] is read twice: for the policy and for the deadline; [ticket] is the reply
    channel made for the job. *)
Definition LinkClient_make_job (c : LinkClient) (request : Request) (transmit_prefix : bytes)
    (queue : QueueId) (policy : RetryPolicy) (instant_max now later ticket : Z)
    : result StartError Job * LinkClient :=
  match RetryPolicy_validate_runtime policy instant_max now with
  | Err e => (Err (StartRetryPolicy e), c)
  | Ok _ =>
      match Request_validate request with
      | Err e => (Err (StartOperation e), c)
      | Ok _ =>
          let safety := resolved_safety request in
          let command := CommandCode_get (req_command request) in
          if negb (CommandPolicy_admits (cl_command_policy c)
                     (mkContext request safety (catalog_safety request) queue)) then
            (Err (StartCommandDenied command safety queue),
             emit (with_counters c (count_denied (cl_counters c)))
               (LinkDenied command safety queue))
          else if MAXIMUM_TRANSMIT_PREFIX <? zlen transmit_prefix then
            (Err (StartTransmitPrefix (zlen transmit_prefix)), c)
          else
            let id := fetch_add (cnt_next_id (cl_counters c)) in
            let c := with_counters c (take_id (cl_counters c)) in
            match instant_checked_add instant_max later (rp_total_timeout policy) with
            | None => (Err (StartRetryPolicy RetryDeadlineOverflow), c)
            | Some deadline =>
                (Ok (mkJob id request transmit_prefix policy deadline (Some ticket)), c)
            end
      end
  end.

Definition LinkClient_try_start (c : LinkClient) (request : Request) (queue : QueueId)
    (policy : RetryPolicy) (instant_max now later ticket : Z)
    : result StartError Z * LinkClient :=
  match LinkClient_resolve_queue c request queue with
  | Err e => (Err e, c)
  | Ok queue =>
      match LinkClient_make_job c request [] queue policy instant_max now later ticket with
      | (Err e, c) => (Err e, c)
      | (Ok job, c) =>
          match QueueSet_try_push (cl_queues c) queue job with
          | (Err e, queues) => (Err (map_queue_push_error e), with_queues c queues)
          | (Ok _, queues) =>
              (Ok (job_id job),
               emit (with_queues c queues)
                 (LinkQueued (job_id job) (req_command (job_request job)) queue))
          end
      end
  end.

Definition LinkClient_try_start_default (c : LinkClient) (request : Request)
    (instant_max now later ticket : Z) : result StartError Z * LinkClient :=
  LinkClient_try_start c request (cl_default_queue c) (cl_default_retry c)
    instant_max now later ticket.

(** [start_with_prefix] up to its wait for capacity: the job and the slot it waits on. *)
Definition LinkClient_start_begin (c : LinkClient) (request : Request) (transmit_prefix : bytes)
    (queue : QueueId) (policy : RetryPolicy) (instant_max now later ticket : Z)
    : result StartError (Job * QueueId * nat) * LinkClient :=
  match LinkClient_resolve_queue c request queue with
  | Err e => (Err e, c)
  | Ok queue =>
      match LinkClient_make_job c request transmit_prefix queue policy instant_max now later
              ticket with
      | (Err e, c) => (Err e, c)
      | (Ok job, c) =>
          match QueueSet_push_begin (cl_queues c) queue with
          | Err e => (Err (map_queue_push_error e), c)
          | Ok i => (Ok (job, queue, i), c)
          end
      end
  end.

(** One look at the capacity; [None] keeps waiting. *)
Definition LinkClient_start_poll (c : LinkClient) (job : Job) (queue : QueueId) (i : nat)
    (expired : bool) : option (result StartError Z) * LinkClient :=
  match QueueSet_push_poll (cl_queues c) i job expired with
  | (None, queues) => (None, with_queues c queues)
  | (Some (Err e), queues) => (Some (Err (map_queue_push_error e)), with_queues c queues)
  | (Some (Ok _), queues) =>
      (Some (Ok (job_id job)),
       emit (with_queues c queues)
         (LinkQueued (job_id job) (req_command (job_request job)) queue))
  end.
End Client.

Arguments LinkClient : clear implicits.
