(* ===== verification/LinkRunner.v ===== *)
(** * The link runner (src/src/service/link.rs, [LinkRunner])

    One exchange with its retries, the reception loop, the coalescing of equal reads,
    and the serving of the queues. What the runner meets outside is the class [Runtime]:
    the byte channel (the trait [ByteChannel] of src/src/channel/mod.rs) under tokio's
    timeouts, the clocks, and the far ends of the reply channels. [None] from a send or
    a receive is the timeout elapsing. What the runner does outside is a list of
    effects, the latest first. A reception loop ends with the channel, so its definition
    takes fuel, one unit per read; running out of it is [None]. *)
From stdpp Require Import gmap.
From S2P Require Import Prelude Wire Decoder Catalog Codec Operation QueueSet Burst Link.

Class Runtime (E : Type) := {
  rt_instant_max : Z;
  rt_now : E -> Z * E;
  rt_system_now : E -> Z * E;
  rt_send : E -> Z -> bytes -> option (result ChannelError unit) * E;
  rt_receive : E -> Z -> Z -> option (result ChannelError (Z * bytes)) * E;
  rt_idle : E -> Z -> option (result ChannelError (Z * bytes)) * E;
  rt_sleep_until : E -> Z -> E;
  rt_reply_closed : E -> Z -> bool;
}.

(** Bytes handed to the channel, events broadcast, answers given on reply channels. *)
Inductive Effect :=
  | Transmit (l : bytes)
  | Broadcast (event : LinkEvent)
  | Answer (ticket : Z) (r : result ExchangeError DeviceReply).

Definition is_receive_timeout (e : ChannelError) : bool :=
  match e with
  | ChannelTimeout _ => true
  | ChannelIo timed_out => timed_out
  | _ => false
  end.

Definition is_retryable_transport_error (e : ExchangeError) : bool :=
  match e with ExResponseTimeout => true | _ => false end.

Definition logical_command (frame : Frame) : CommandCode :=
  if (frame_wire_command frame =? 31) && (2 <=? zlen (frame_payload frame))
  then CommandCode_new (from_be_bytes (take 2 (frame_payload frame)))
  else CommandCode_new (frame_wire_command frame).

Definition requests_can_coalesce (leader candidate : Job) : bool :=
  bool_decide (job_request candidate = job_request leader)
  && bool_decide (job_transmit_prefix candidate = [])
  && bool_decide (job_policy candidate = job_policy leader).

Section Runner.
Context {E S C : Type} `{Runtime E} `{Semaphore S} `{Mpsc C}.

Record LinkRunner := mkRunner {
  ln_env : E;
  ln_effects : list Effect;
  ln_queues : QueueSet Job S;
  ln_counters : Counters;
  ln_decoder : FrameDecoder;
  ln_read_buffer : Z;
  ln_burst_hub : option (BurstState C);
  ln_channel_usable : bool;
  ln_maximum_coalesced : Z;
  ln_late_response_guard : Z;
}.

(** ** State updates *)

Definition with_env (l : LinkRunner) (e : E) : LinkRunner :=
  mkRunner e (ln_effects l) (ln_queues l) (ln_counters l) (ln_decoder l) (ln_read_buffer l)
    (ln_burst_hub l) (ln_channel_usable l) (ln_maximum_coalesced l) (ln_late_response_guard l).

Definition effect (l : LinkRunner) (x : Effect) : LinkRunner :=
  mkRunner (ln_env l) (x :: ln_effects l) (ln_queues l) (ln_counters l) (ln_decoder l)
    (ln_read_buffer l) (ln_burst_hub l) (ln_channel_usable l) (ln_maximum_coalesced l)
    (ln_late_response_guard l).

Definition broadcast (l : LinkRunner) (event : LinkEvent) : LinkRunner :=
  effect l (Broadcast event).

Definition with_queues (l : LinkRunner) (q : QueueSet Job S) : LinkRunner :=
  mkRunner (ln_env l) (ln_effects l) q (ln_counters l) (ln_decoder l) (ln_read_buffer l)
    (ln_burst_hub l) (ln_channel_usable l) (ln_maximum_coalesced l) (ln_late_response_guard l).

Definition with_counters (l : LinkRunner) (c : Counters) : LinkRunner :=
  mkRunner (ln_env l) (ln_effects l) (ln_queues l) c (ln_decoder l) (ln_read_buffer l)
    (ln_burst_hub l) (ln_channel_usable l) (ln_maximum_coalesced l) (ln_late_response_guard l).

Definition with_decoder (l : LinkRunner) (d : FrameDecoder) : LinkRunner :=
  mkRunner (ln_env l) (ln_effects l) (ln_queues l) (ln_counters l) d (ln_read_buffer l)
    (ln_burst_hub l) (ln_channel_usable l) (ln_maximum_coalesced l) (ln_late_response_guard l).

Definition with_hub (l : LinkRunner) (hub : option (BurstState C)) : LinkRunner :=
  mkRunner (ln_env l) (ln_effects l) (ln_queues l) (ln_counters l) (ln_decoder l)
    (ln_read_buffer l) hub (ln_channel_usable l) (ln_maximum_coalesced l)
    (ln_late_response_guard l).

(** [channel_usable = false]. *)
Definition unusable (l : LinkRunner) : LinkRunner :=
  mkRunner (ln_env l) (ln_effects l) (ln_queues l) (ln_counters l) (ln_decoder l)
    (ln_read_buffer l) (ln_burst_hub l) false (ln_maximum_coalesced l)
    (ln_late_response_guard l).

Definition now (l : LinkRunner) : Z * LinkRunner :=
  let '(t, e) := rt_now (ln_env l) in (t, with_env l e).

Definition count_started (c : Counters) : Counters :=
  mkCounters (fetch_add (cnt_started c)) (cnt_completed c) (cnt_failed c) (cnt_cancelled c)
    (cnt_coalesced c) (cnt_denied c) (cnt_next_id c).

Definition count_completed (c : Counters) : Counters :=
  mkCounters (cnt_started c) (fetch_add (cnt_completed c)) (cnt_failed c) (cnt_cancelled c)
    (cnt_coalesced c) (cnt_denied c) (cnt_next_id c).

Definition count_failed (c : Counters) : Counters :=
  mkCounters (cnt_started c) (cnt_completed c) (fetch_add (cnt_failed c)) (cnt_cancelled c)
    (cnt_coalesced c) (cnt_denied c) (cnt_next_id c).

Definition count_cancelled (c : Counters) : Counters :=
  mkCounters (cnt_started c) (cnt_completed c) (cnt_failed c) (fetch_add (cnt_cancelled c))
    (cnt_coalesced c) (cnt_denied c) (cnt_next_id c).

Definition count_coalesced (c : Counters) : Counters :=
  mkCounters (cnt_started c) (cnt_completed c) (cnt_failed c) (cnt_cancelled c)
    (fetch_add (cnt_coalesced c)) (cnt_denied c) (cnt_next_id c).

Definition mark_cancelled (l : LinkRunner) (id : Z) : LinkRunner :=
  broadcast (with_counters l (count_cancelled (ln_counters l))) (LinkCancelled id).

Definition mark_completed (l : LinkRunner) (id : Z) : LinkRunner :=
  broadcast (with_counters l (count_completed (ln_counters l))) (LinkCompleted id).

Definition mark_failed (l : LinkRunner) (id : Z) (e : ExchangeError) : LinkRunner :=
  broadcast (with_counters l (count_failed (ln_counters l))) (LinkFailed id (error_reason e)).

(** ** Reception *)

(** An unsolicited reply goes to the hub, if any, and to the observers. *)
Definition publish_unsolicited (l : LinkRunner) (reply : DeviceReply) : LinkRunner :=
  let l :=
    match ln_burst_hub l with
    | Some hub =>
        let '(t, l) := now l in
        let '(received_at, e) := rt_system_now (ln_env l) in
        with_hub (with_env l e) (Some (BurstHub_publish hub reply t received_at))
    | None => l
    end in
  broadcast l (LinkUnsolicited reply).

Definition is_echo (frame request_frame : Frame) : bool :=
  bool_decide (frame_kind frame = KindRequest)
  && (frame_wire_command frame =? frame_wire_command request_frame)
  && bool_decide (frame_address frame = frame_address request_frame)
  && bool_decide (frame_physical_layer frame = frame_physical_layer request_frame)
  && bool_decide (frame_expansion frame = frame_expansion request_frame)
  && bool_decide (frame_payload frame = frame_payload request_frame).

Definition matches_request (reply : DeviceReply) (request_frame : Frame) : bool :=
  bool_decide (rep_command reply = logical_command request_frame)
  && bool_decide (rep_address reply = frame_address request_frame)
  && bool_decide (rep_physical_layer reply = frame_physical_layer request_frame)
  && bool_decide (rep_frame_expansion reply = frame_expansion request_frame).

(** The loop over the events of one read: the reply it returns, if any; the events
    behind that reply are dropped. *)
Fixpoint handle_events (l : LinkRunner) (id : Z) (request_frame : Frame)
    (events : list DecodeEvent) : option DeviceReply * LinkRunner :=
  match events with
  | [] => (None, l)
  | EventRejected error :: events =>
      handle_events (broadcast l (LinkRejectedFrame id error)) id request_frame events
  | EventFrame frame :: events =>
      if is_echo frame request_frame then
        handle_events (broadcast l (LinkEchoDiscarded id)) id request_frame events
      else
        match DeviceReply_from_frame frame with
        | Err _ => handle_events l id request_frame events
        | Ok reply =>
            if rep_burst reply then
              handle_events (publish_unsolicited l reply) id request_frame events
            else if matches_request reply request_frame then (Some reply, l)
            else
              handle_events (broadcast l (LinkStaleFrame id (rep_command reply))) id
                request_frame events
        end
  end.

(** The receiving loop of [exchange_once]. *)
Fixpoint receive_loop (fuel : nat) (l : LinkRunner) (id : Z) (request_frame : Frame)
    (deadline : Z) : option (result ExchangeError DeviceReply) * LinkRunner :=
  match fuel with
  | O => (None, l)
  | Datatypes.S fuel =>
      match rt_receive (ln_env l) deadline (ln_read_buffer l) with
      | (None, e) => (Some (Err ExResponseTimeout), with_env l e)
      | (Some (Err error), e) =>
          if is_receive_timeout error then (Some (Err ExResponseTimeout), with_env l e)
          else (Some (Err (ExChannel error)), unusable (with_env l e))
      | (Some (Ok (read, buffer)), e) =>
          let l := with_env l e in
          if read =? 0 then (Some (Err (ExChannel ChannelIsClosed)), unusable l)
          else if ln_read_buffer l <? read then
            (Some (Err (ExChannel (ChannelConfiguration
               "channel returned more bytes than the receive buffer can hold"))), unusable l)
          else
            let '(events, d) := FrameDecoder_push (ln_decoder l) (take (Z.to_nat read) buffer) in
            match handle_events (with_decoder l d) id request_frame events with
            | (Some reply, l) => (Some (Ok reply), l)
            | (None, l) => receive_loop fuel l id request_frame deadline
            end
      end
  end.

Definition exchange_once (fuel : nat) (l : LinkRunner) (id : Z) (request_frame : Frame)
    (encoded : bytes) (deadline : Z) : option (result ExchangeError DeviceReply) * LinkRunner :=
  match rt_send (ln_env l) deadline encoded with
  | (Some (Ok _), e) =>
      receive_loop fuel (effect (with_env l e) (Transmit encoded)) id request_frame deadline
  | (Some (Err error), e) =>
      (Some (Err (ExChannel error)), unusable (effect (with_env l e) (Transmit encoded)))
  | (None, e) =>
      (Some (Err ExSendTimeout), unusable (effect (with_env l e) (Transmit encoded)))
  end.

(** ** Retries *)

Definition wait_before_retry (l : LinkRunner) (delay deadline : Z)
    : result ExchangeError unit * LinkRunner :=
  if delay =? 0 then (Ok tt, l)
  else
    let '(t, l) := now l in
    match instant_checked_add rt_instant_max t delay with
    | None => (Err ExDeadline, l)
    | Some wake =>
        if deadline <=? wake then (Err ExDeadline, l)
        else (Ok tt, with_env l (rt_sleep_until (ln_env l) wake))
    end.

Record Attempts := mkAttempts {
  at_number : Z;
  at_transport : Z;
  at_busy : Z;
  at_delayed : Z;
}.

(** What one pass of the loop of [exchange] comes to. *)
Inductive Pass := Finished (r : result ExchangeError DeviceReply) | Again (a : Attempts).

(** The match on the result of one attempt. *)
Definition after_attempt (l : LinkRunner) (job : Job) (transport_limit : Z) (a : Attempts)
    (attempt : result ExchangeError DeviceReply) : Pass * LinkRunner :=
  let policy := job_policy job in
  let number := saturating_add u8_max (at_number a) 1 in
  match attempt with
  | Ok reply =>
      if rep_response_code reply =? 32 then
        if rp_busy_retries policy <=? at_busy a then
          (Finished (Err (ExBusy (rep_response_code reply))), l)
        else
          let a := mkAttempts number (at_transport a) (saturating_add u8_max (at_busy a) 1)
                     (at_delayed a) in
          let l := broadcast l (LinkRetrying (job_id job) number CauseBusy) in
          match wait_before_retry l (rp_retry_delay policy) (job_deadline job) with
          | (Err e, l) => (Finished (Err e), l)
          | (Ok _, l) => (Again a, l)
          end
      else if (rep_response_code reply =? 33) || (rep_response_code reply =? 34) then
        if rp_delayed_response_polls policy <=? at_delayed a then
          (Finished (Err (ExDelayedResponse (rep_response_code reply))), l)
        else
          let a := mkAttempts number (at_transport a) (at_busy a)
                     (saturating_add u8_max (at_delayed a) 1) in
          let l := broadcast l (LinkRetrying (job_id job) number CauseDelayedResponse) in
          match wait_before_retry l (rp_retry_delay policy) (job_deadline job) with
          | (Err e, l) => (Finished (Err e), l)
          | (Ok _, l) => (Again a, l)
          end
      else (Finished (Ok reply), l)
  | Err error =>
      if is_retryable_transport_error error && (at_transport a <? transport_limit) then
        (Again (mkAttempts number (saturating_add u8_max (at_transport a) 1) (at_busy a)
                  (at_delayed a)),
         broadcast l (LinkRetrying (job_id job) number CauseTransport))
      else (Finished (Err error), l)
  end.

(** The loop of [exchange]; [attempts] counts its passes, [fuel] bounds each reception. *)
Fixpoint exchange_loop (attempts fuel : nat) (l : LinkRunner) (job : Job) (frame : Frame)
    (encoded : bytes) (transport_limit : Z) (a : Attempts)
    : option (result ExchangeError DeviceReply) * LinkRunner :=
  match attempts with
  | O => (None, l)
  | Datatypes.S attempts =>
      let '(t, l) := now l in
      let exchange_deadline :=
        Z.min (default (job_deadline job)
                 (instant_checked_add rt_instant_max t (rp_response_timeout (job_policy job))))
          (job_deadline job) in
      match exchange_once fuel l (job_id job) frame encoded exchange_deadline with
      | (None, l) => (None, l)
      | (Some attempt, l) =>
          match after_attempt l job transport_limit a attempt with
          | (Finished r, l) => (Some r, l)
          | (Again a, l) =>
              let '(t, l) := now l in
              if job_deadline job <=? t then (Some (Err ExDeadline), l)
              else exchange_loop attempts fuel l job frame encoded transport_limit a
          end
      end
  end.

Definition transport_limit (job : Job) : Z :=
  if bool_decide (resolved_safety (job_request job) = Action) then 0
  else rp_transport_retries (job_policy job).

(** The bytes of a request on the channel. *)
Definition encode_job (job : Job) : result ExchangeError (Frame * bytes) :=
  let? frame := result_map_err ExOperation (Request_to_frame (job_request job)) ;;
  let? frame_bytes := result_map_err ExWire (Frame_encode frame) ;;
  Ok (frame, if bool_decide (job_transmit_prefix job = []) then frame_bytes
             else job_transmit_prefix job ++ frame_bytes).

Definition exchange (attempts fuel : nat) (l : LinkRunner) (job : Job)
    : option (result ExchangeError DeviceReply) * LinkRunner :=
  let '(t, l) := now l in
  if job_deadline job <=? t then (Some (Err ExDeadline), l)
  else
    match encode_job job with
    | Err e => (Some (Err e), l)
    | Ok (frame, encoded) =>
        exchange_loop attempts fuel l job frame encoded (transport_limit job)
          (mkAttempts 1 0 0 0)
    end.

(** ** Input between exchanges *)

(** The loop over the events of an idle read. *)
Fixpoint handle_idle_events (l : LinkRunner) (events : list DecodeEvent) : LinkRunner :=
  match events with
  | [] => l
  | EventRejected error :: events =>
      handle_idle_events (broadcast l (LinkIdleRejectedFrame error)) events
  | EventFrame frame :: events =>
      match DeviceReply_from_frame frame with
      | Err _ => handle_idle_events l events
      | Ok reply =>
          if rep_burst reply then handle_idle_events (publish_unsolicited l reply) events
          else handle_idle_events (broadcast l (LinkLateResponse reply)) events
      end
  end.

Definition process_idle_input (l : LinkRunner) (input : result ChannelError (Z * bytes))
    : bool * LinkRunner :=
  match input with
  | Ok (read, buffer) =>
      if (0 <? read) && (read <=? ln_read_buffer l) then
        let '(events, d) := FrameDecoder_push (ln_decoder l) (take (Z.to_nat read) buffer) in
        (true, handle_idle_events (with_decoder l d) events)
      else if read =? 0 then (false, broadcast l (LinkChannelStopped "channel closed"))
      else (false, broadcast l (LinkChannelStopped "invalid receive length"))
  | Err error =>
      if is_receive_timeout error then (true, l)
      else
        match error with
        | ChannelIsClosed => (false, broadcast l (LinkChannelStopped "channel closed"))
        | _ => (false, broadcast l (LinkChannelStopped "channel error"))
        end
  end.

Fixpoint drain_loop (fuel : nat) (l : LinkRunner) (deadline : Z) : option LinkRunner :=
  match fuel with
  | O => None
  | Datatypes.S fuel =>
      match rt_receive (ln_env l) deadline (ln_read_buffer l) with
      | (None, e) => Some (with_env l e)
      | (Some input, e) =>
          match process_idle_input (with_env l e) input with
          | (true, l) => drain_loop fuel l deadline
          | (false, l) => Some (unusable l)
          end
      end
  end.

Definition drain_late_responses (fuel : nat) (l : LinkRunner) : option LinkRunner :=
  if ln_late_response_guard l =? 0 then Some l
  else
    let '(t, l) := now l in
    match instant_checked_add rt_instant_max t (ln_late_response_guard l) with
    | None => Some l
    | Some deadline => drain_loop fuel l deadline
    end.

(** ** Coalescing *)

(** [None] or a closed reply channel. *)
Definition abandoned (l : LinkRunner) (job : Job) : bool :=
  match job_reply job with
  | Some ticket => rt_reply_closed (ln_env l) ticket
  | None => true
  end.

(** The loop of [take_coalescible_followers]; every pass takes one entry from the
    queue for good or ends it, so [fuel] above the entries of the queue is enough. *)
Fixpoint take_followers (fuel : nat) (l : LinkRunner) (queue : QueueId) (leader : Job)
    (followers : list Job) : list Job * LinkRunner :=
  match fuel with
  | O => (followers, l)
  | Datatypes.S fuel =>
      if zlen followers <? ln_maximum_coalesced l then
        match QueueSet_pop_from (ln_queues l) queue with
        | (None, _) => (followers, l)
        | (Some candidate, q) =>
            if requests_can_coalesce leader candidate then
              if abandoned l candidate then
                let '(candidate, q) := QueueSet_finish_entry q queue candidate in
                take_followers fuel (mark_cancelled (with_queues l q) (job_id candidate)) queue
                  leader followers
              else
                let l := with_queues l q in
                let l := with_counters l (count_coalesced (ln_counters l)) in
                take_followers fuel
                  (broadcast l (LinkCoalesced (job_id candidate) (job_id leader)))
                  queue leader (followers ++ [candidate])
            else (followers, with_queues l (QueueSet_push_front q queue candidate))
        end
      else (followers, l)
  end.

(** The entries of one queue. *)
Definition entries_of (q : QueueSet Job S) (queue : QueueId) : list Job :=
  match QueueSet_slot q queue with Ok s => slot_entries s | Err _ => [] end.

Definition take_coalescible_followers (l : LinkRunner) (queue : QueueId) (leader : Job)
    : list Job * LinkRunner :=
  if negb (bool_decide (resolved_safety (job_request leader) = ReadOnly))
     || negb (bool_decide (job_transmit_prefix leader = []))
     || (ln_maximum_coalesced l =? 0)
  then ([], l)
  else take_followers (Datatypes.S (length (entries_of (ln_queues l) queue))) l queue leader [].

Fixpoint complete_followers (l : LinkRunner) (queue : QueueId) (followers : list Job)
    (value : DeviceReply) : LinkRunner :=
  match followers with
  | [] => l
  | follower :: followers =>
      let '(follower, q) := QueueSet_finish_entry (ln_queues l) queue follower in
      let l := with_queues l q in
      let l :=
        match job_reply follower with
        | None => mark_cancelled l (job_id follower)
        | Some ticket =>
            if rt_reply_closed (ln_env l) ticket then mark_cancelled l (job_id follower)
            else
              let '(t, l) := now l in
              if job_deadline follower <=? t then
                effect (mark_failed l (job_id follower) ExDeadline) (Answer ticket (Err ExDeadline))
              else
                effect (mark_completed l (job_id follower)) (Answer ticket (Ok value))
        end in
      complete_followers l queue followers value
  end.

(** [into_iter().rev()]: the last follower goes back first. *)
Definition requeue_followers (l : LinkRunner) (queue : QueueId) (followers : list Job)
    : LinkRunner :=
  with_queues l
    (foldl (fun q follower => QueueSet_push_front q queue follower) (ln_queues l)
       (rev followers)).

(** ** Serving *)

Definition fail_stopped_job (l : LinkRunner) (job : Job) : LinkRunner :=
  match job_reply job with
  | None => mark_cancelled l (job_id job)
  | Some ticket =>
      if rt_reply_closed (ln_env l) ticket then mark_cancelled l (job_id job)
      else effect (mark_failed l (job_id job) ExRunnerStopped) (Answer ticket (Err ExRunnerStopped))
  end.

(** The [while] loop over one queue; its entries bound the passes. *)
Fixpoint drain_queue (fuel : nat) (l : LinkRunner) (queue : QueueId) : LinkRunner :=
  match fuel with
  | O => l
  | Datatypes.S fuel =>
      match QueueSet_pop_from (ln_queues l) queue with
      | (None, _) => l
      | (Some entry, q) =>
          let '(job, q) := QueueSet_finish_entry q queue entry in
          drain_queue fuel (fail_stopped_job (with_queues l q) job) queue
      end
  end.

Definition fail_pending_jobs (l : LinkRunner) : LinkRunner :=
  let l := with_queues l (QueueSet_close_runner (ln_queues l)) in
  foldl (fun l snapshot =>
           drain_queue (length (entries_of (ln_queues l) (qs_id snapshot))) l (qs_id snapshot))
    l (QueueSet_snapshots (ln_queues l)).

(** The body of the [while] loop of [run] for one popped entry; [None] is fuel. *)
Definition serve_job (attempts fuel : nat) (l : LinkRunner) (queue : QueueId) (entry : Job)
    : option LinkRunner :=
  let '(job, q) := QueueSet_finish_entry (ln_queues l) queue entry in
  let l := with_queues l q in
  match job_reply job with
  | None => Some (mark_cancelled l (job_id job))
  | Some ticket =>
      if rt_reply_closed (ln_env l) ticket then Some (mark_cancelled l (job_id job))
      else
        let '(t, l) := now l in
        if job_deadline job <=? t then
          Some (effect (mark_failed l (job_id job) ExDeadline) (Answer ticket (Err ExDeadline)))
        else
          let '(followers, l) := take_coalescible_followers l queue job in
          let l := with_counters l (count_started (ln_counters l)) in
          let l := broadcast l (LinkStarted (job_id job) (req_command (job_request job))) in
          match exchange attempts fuel l job with
          | (None, _) => None
          | (Some (Ok value), l) =>
              let l :=
                if rt_reply_closed (ln_env l) ticket then mark_cancelled l (job_id job)
                else effect (mark_completed l (job_id job)) (Answer ticket (Ok value)) in
              Some (complete_followers l queue followers value)
          | (Some (Err error), l) =>
              let l := requeue_followers l queue followers in
              let l :=
                if rt_reply_closed (ln_env l) ticket then mark_cancelled l (job_id job)
                else effect (mark_failed l (job_id job) error) (Answer ticket (Err error)) in
              match error with
              | ExResponseTimeout =>
                  if ln_channel_usable l then drain_late_responses fuel l else Some l
              | _ => Some l
              end
          end
  end.

(** [next_job]: [Some None] ends the runner; each idle wait uses one unit of fuel. *)
Fixpoint next_job (fuel : nat) (l : LinkRunner) (cursor : QueueCursor)
    : option (option (QueueId * Job)) * LinkRunner * QueueCursor :=
  match fuel with
  | O => (None, l, cursor)
  | Datatypes.S fuel =>
      match QueueSet_pop_scheduled (ln_queues l) cursor with
      | (Some popped, q, cursor) => (Some (Some popped), with_queues l q, cursor)
      | (None, _, cursor) =>
          if set_input_closed (ln_queues l) then (Some None, l, cursor)
          else
            match rt_idle (ln_env l) (ln_read_buffer l) with
            | (None, e) => next_job fuel (with_env l e) cursor
            | (Some input, e) =>
                match process_idle_input (with_env l e) input with
                | (true, l) => next_job fuel l cursor
                | (false, l) => (Some None, l, cursor)
                end
            end
      end
  end.

Fixpoint run (jobs attempts fuel : nat) (l : LinkRunner) (cursor : QueueCursor)
    : option LinkRunner :=
  match jobs with
  | O => None
  | Datatypes.S jobs =>
      match next_job fuel l cursor with
      | (None, _, _) => None
      | (Some None, l, _) => Some (fail_pending_jobs l)
      | (Some (Some (queue, entry)), l, cursor) =>
          match serve_job attempts fuel l queue entry with
          | None => None
          | Some l =>
              if ln_channel_usable l then run jobs attempts fuel l cursor
              else Some (fail_pending_jobs l)
          end
      end
  end.
End Runner.

Arguments LinkRunner : clear implicits.
