(* ===== verification/ExchangeProps.v ===== *)
(** * Properties of one exchange

    The budget of transmissions, what a returned reply is, when the channel is given
    up, and that an exchange ends. *)
From stdpp Require Import gmap.
From S2P Require Import Prelude Wire Decoder Catalog Codec Operation QueueSet QueueRuns Burst BurstProps Link LinkRunner.

Section Exchange.
Context {E S C : Type} `{Runtime E} `{Semaphore S} `{Mpsc C}.
Implicit Types (l : LinkRunner E S C) (job : Job).

(** ** Effects are only added *)

(** [l'] is [l] after the effects [added], latest first. *)
Definition added_effects l l' (added : list Effect) : Prop := ln_effects l' = added ++ ln_effects l.

Definition is_transmit (x : Effect) : bool := match x with Transmit _ => true | _ => false end.

Definition is_retry (cause : RetryCause) (x : Effect) : bool :=
  match x, cause with
  | Broadcast (LinkRetrying _ _ CauseTransport), CauseTransport
  | Broadcast (LinkRetrying _ _ CauseBusy), CauseBusy
  | Broadcast (LinkRetrying _ _ CauseDelayedResponse), CauseDelayedResponse => true
  | _, _ => false
  end.

Definition count (p : Effect -> bool) (xs : list Effect) : Z :=
  foldr (fun x n => (if p x then 1 else 0) + n) 0 xs.

Lemma count_app p xs ys : count p (xs ++ ys) = count p xs + count p ys.
Proof. unfold count. induction xs as [| x xs IH]; cbn [foldr app]; lia. Qed.

(** Neither a transmission nor a retry. *)
Definition quiet (x : Effect) : bool :=
  negb (is_transmit x)
  && negb (is_retry CauseTransport x || is_retry CauseBusy x || is_retry CauseDelayedResponse x).

(** A piece of the runner that only adds quiet effects. *)
Definition quietly l l' : Prop :=
  exists xs, added_effects l l' xs /\ Forall (fun x => quiet x = true) xs.

Lemma quietly_refl l l' : ln_effects l' = ln_effects l -> quietly l l'.
Proof. intros E'. exists []. split; [exact E' | constructor]. Qed.

Lemma quietly_trans l1 l2 l3 : quietly l1 l2 -> quietly l2 l3 -> quietly l1 l3.
Proof.
  intros (xs & E1 & Q1) (ys & E2 & Q2). exists (ys ++ xs). unfold added_effects in *.
  split; [rewrite E2, E1, app_assoc; reflexivity | apply Forall_app; auto].
Qed.

Lemma quietly_broadcast l l' event :
  quiet (Broadcast event) = true -> quietly (broadcast l event) l' -> quietly l l'.
Proof.
  intros Q. apply quietly_trans. exists [Broadcast event]. split; [reflexivity | auto].
Qed.

Lemma publish_quietly l reply : quietly l (publish_unsolicited l reply).
Proof.
  unfold publish_unsolicited. eapply quietly_trans with
    (match ln_burst_hub l with
     | Some hub =>
         let '(t, l0) := now l in
         let '(received_at, e) := rt_system_now (ln_env l0) in
         with_hub (with_env l0 e) (Some (BurstHub_publish hub reply t received_at))
     | None => l
     end).
  - apply quietly_refl. destruct (ln_burst_hub l); [| reflexivity].
    unfold now. destruct (rt_now (ln_env l)). destruct (rt_system_now _). reflexivity.
  - exists [Broadcast (LinkUnsolicited reply)]. split; [reflexivity | auto].
Qed.

Lemma handle_events_quietly id request_frame events : forall l,
  quietly l (handle_events l id request_frame events).2.
Proof.
  induction events as [| [frame | error] events IH]; intros l; cbn [handle_events].
  - apply quietly_refl. reflexivity.
  - destruct (is_echo frame request_frame); [eapply quietly_broadcast, IH; reflexivity |].
    destruct (DeviceReply_from_frame frame) as [reply |]; [| apply IH].
    destruct (rep_burst reply); [eapply quietly_trans; [apply publish_quietly | apply IH] |].
    destruct (matches_request reply request_frame); [apply quietly_refl; reflexivity |].
    eapply quietly_broadcast, IH. reflexivity.
  - eapply quietly_broadcast, IH. reflexivity.
Qed.

Lemma receive_loop_quietly fuel id request_frame deadline : forall l,
  quietly l (receive_loop fuel l id request_frame deadline).2.
Proof.
  induction fuel as [| fuel IH]; intros l; cbn [receive_loop]; [apply quietly_refl; reflexivity |].
  destruct (rt_receive _ _ _) as [[[[read buffer] | error] |] e];
    [| destruct (is_receive_timeout error); apply quietly_refl; reflexivity
     | apply quietly_refl; reflexivity].
  cbn zeta. destruct (read =? 0); [apply quietly_refl; reflexivity |].
  destruct (_ <? read); [apply quietly_refl; reflexivity |].
  destruct (FrameDecoder_push _ _) as [events d].
  pose proof (handle_events_quietly id request_frame events (with_decoder (with_env l e) d)) as Q.
  destruct (handle_events _ id request_frame events) as [[reply |] l']; cbn [snd] in *.
  - eapply quietly_trans; [apply (quietly_refl l (with_decoder (with_env l e) d)); reflexivity | exact Q].
  - eapply quietly_trans; [| apply IH].
    eapply quietly_trans; [apply (quietly_refl l (with_decoder (with_env l e) d)); reflexivity | exact Q].
Qed.

(** ** The budget *)

Definition only_transmits (encoded : bytes) (xs : list Effect) : Prop :=
  Forall (fun x => forall b, x = Transmit b -> b = encoded) xs.

Lemma quiet_counts xs :
  Forall (fun x => quiet x = true) xs ->
  count is_transmit xs = 0 /\ count (is_retry CauseTransport) xs = 0 /\
  count (is_retry CauseBusy) xs = 0 /\ count (is_retry CauseDelayedResponse) xs = 0 /\
  forall encoded, only_transmits encoded xs.
Proof.
  induction 1 as [| x xs Hx _ (I1 & I2 & I3 & I4 & I5)]; [repeat split; constructor |].
  unfold quiet in Hx. apply andb_true_iff in Hx as [Ht Hr].
  apply negb_true_iff in Ht. apply negb_true_iff, orb_false_iff in Hr as [Hr Hd].
  apply orb_false_iff in Hr as [Hr Hb]. unfold count in *. cbn [foldr].
  rewrite Ht, Hr, Hb, Hd. repeat split; try assumption.
  intros encoded. constructor; [| apply I5]. intros b ->. discriminate.
Qed.

(** The effects of an exchange with so many retries of each kind left. *)
Record budget (encoded : bytes) (transport busy delayed first : Z) (xs : list Effect) : Prop := {
  budget_same : only_transmits encoded xs;
  budget_transport : count (is_retry CauseTransport) xs <= transport;
  budget_busy : count (is_retry CauseBusy) xs <= busy;
  budget_delayed : count (is_retry CauseDelayedResponse) xs <= delayed;
  budget_sends : count is_transmit xs <= first + count (is_retry CauseTransport) xs
    + count (is_retry CauseBusy) xs + count (is_retry CauseDelayedResponse) xs;
}.

Lemma budget_quiet encoded t b d f xs :
  0 <= t -> 0 <= b -> 0 <= d -> 0 <= f ->
  Forall (fun x => quiet x = true) xs -> budget encoded t b d f xs.
Proof.
  intros Ht Hb Hd Hf (I1 & I2 & I3 & I4 & I5)%quiet_counts. split; rewrite ?I1, ?I2, ?I3, ?I4; auto; lia.
Qed.

Lemma budget_app encoded t b d f t' b' d' f' xs ys :
  budget encoded t b d f xs -> budget encoded t' b' d' f' ys ->
  budget encoded (t + t') (b + b') (d + d') (f + f') (xs ++ ys).
Proof.
  intros [S1 T1 B1 D1 C1] [S2 T2 B2 D2 C2]. split; rewrite ?count_app; try lia.
  apply Forall_app. auto.
Qed.

Lemma budget_weaken encoded t b d f t' b' d' f' xs :
  budget encoded t b d f xs -> t <= t' -> b <= b' -> d <= d' -> f <= f' ->
  budget encoded t' b' d' f' xs.
Proof. intros [S1 T1 B1 D1 C1] Ht Hb Hd Hf. split; try assumption; lia. Qed.

Lemma exchange_once_budget fuel l id frame encoded deadline :
  exists xs, added_effects l (exchange_once fuel l id frame encoded deadline).2 xs /\
    budget encoded 0 0 0 1 xs.
Proof.
  unfold exchange_once.
  assert (One : budget encoded 0 0 0 1 [Transmit encoded]).
  { split; cbn; try lia. constructor; [intros b [= <-]; reflexivity | constructor]. }
  destruct (rt_send _ _ _) as [[[u | error] |] e]; [| exists [Transmit encoded]; split; [reflexivity | exact One] ..].
  destruct (receive_loop_quietly fuel id frame deadline (effect (with_env l e) (Transmit encoded)))
    as (xs & Ex & Q).
  exists (xs ++ [Transmit encoded]). split.
  - unfold added_effects in *. rewrite Ex, <- app_assoc. reflexivity.
  - apply (budget_weaken _ (0 + 0) (0 + 0) (0 + 0) (0 + 1)); try lia.
    apply budget_app; [apply budget_quiet; auto; lia | exact One].
Qed.

Lemma now_effects l : ln_effects (now l).2 = ln_effects l.
Proof. unfold now. destruct (rt_now (ln_env l)). reflexivity. Qed.

Lemma wait_before_retry_effects l delay deadline :
  ln_effects (wait_before_retry l delay deadline).2 = ln_effects l.
Proof.
  unfold wait_before_retry. destruct (delay =? 0); [reflexivity |].
  pose proof (now_effects l) as En. destruct (now l) as [t l']. cbn [snd] in En.
  destruct (instant_checked_add _ _ _); [| exact En].
  destruct (_ <=? _); exact En.
Qed.

(** The retries an attempt state still has. *)
Definition left_budget (p : RetryPolicy) (limit : Z) (a : Attempts) (xs : list Effect)
    (encoded : bytes) (first : Z) : Prop :=
  budget encoded (limit - at_transport a) (rp_busy_retries p - at_busy a)
    (rp_delayed_response_polls p - at_delayed a) first xs.

Definition attempts_ok (p : RetryPolicy) (limit : Z) (a : Attempts) : Prop :=
  0 <= at_transport a <= limit /\ 0 <= at_busy a <= rp_busy_retries p /\
  0 <= at_delayed a <= rp_delayed_response_polls p.

Definition policy_ok (p : RetryPolicy) : Prop :=
  is_u8 (rp_transport_retries p) /\ is_u8 (rp_busy_retries p) /\ is_u8 (rp_delayed_response_polls p).

Lemma retry_budget encoded cause id number :
  budget encoded (match cause with CauseTransport => 1 | _ => 0 end)
    (match cause with CauseBusy => 1 | _ => 0 end)
    (match cause with CauseDelayedResponse => 1 | _ => 0 end) (-1)
    [Broadcast (LinkRetrying id number cause)].
Proof.
  split; destruct cause; cbn; try lia; (constructor; [intros b Hb; discriminate | constructor]).
Qed.

Definition at_sum (a : Attempts) : Z := at_transport a + at_busy a + at_delayed a.

(** What the outcome of one attempt adds: another pass spends one retry. *)
Definition pass_ok (p : RetryPolicy) (limit : Z) (a : Attempts) (encoded : bytes) (pass : Pass)
    (xs : list Effect) : Prop :=
  match pass with
  | Finished _ => left_budget p limit a xs encoded 0
  | Again a' =>
      attempts_ok p limit a' /\ at_sum a' = at_sum a + 1 /\
      budget encoded (at_transport a' - at_transport a) (at_busy a' - at_busy a)
        (at_delayed a' - at_delayed a) (-1) xs
  end.

Lemma finished_ok p limit a encoded r :
  attempts_ok p limit a -> pass_ok p limit a encoded (Finished r) [].
Proof. intros (Ht & Hb & Hd). apply budget_quiet; auto; lia. Qed.

(** A retry that is announced and waited for. *)
Lemma waited_retry p limit a a' encoded cause l id number delay deadline pass l2 :
  attempts_ok p limit a -> attempts_ok p limit a' ->
  at_transport a' - at_transport a = (match cause with CauseTransport => 1 | _ => 0 end) ->
  at_busy a' - at_busy a = (match cause with CauseBusy => 1 | _ => 0 end) ->
  at_delayed a' - at_delayed a = (match cause with CauseDelayedResponse => 1 | _ => 0 end) ->
  match wait_before_retry (broadcast l (LinkRetrying id number cause)) delay deadline with
  | (Err e, l2) => (Finished (Err e), l2)
  | (Ok _, l2) => (Again a', l2)
  end = (pass, l2) ->
  exists xs, added_effects l l2 xs /\ pass_ok p limit a encoded pass xs.
Proof.
  intros (Ht & Hb & Hd) Ha' Et Eb Ed Hw.
  pose proof (wait_before_retry_effects (broadcast l (LinkRetrying id number cause)) delay deadline) as Ew.
  pose proof (retry_budget encoded cause id number) as B.
  exists [Broadcast (LinkRetrying id number cause)].
  destruct (wait_before_retry _ delay deadline) as [[u | e] l3]; cbn [snd] in Ew; injection Hw as <- <-.
  - split; [exact Ew |]. cbn [pass_ok]. rewrite Et, Eb, Ed. split; [exact Ha' |]. split; [| exact B].
    unfold at_sum. destruct cause; lia.
  - split; [exact Ew |]. destruct Ha' as (Ht' & Hb' & Hd'). cbn [pass_ok]. unfold left_budget.
    eapply budget_weaken; [exact B | destruct cause; lia ..].
Qed.

Lemma sat_u8 n m : is_u8 m -> n < m -> 0 <= n -> saturating_add u8_max n 1 = n + 1.
Proof. unfold is_u8, saturating_add, u8_max. lia. Qed.

Lemma after_attempt_ok l job limit a encoded attempt :
  policy_ok (job_policy job) -> is_u8 limit -> attempts_ok (job_policy job) limit a ->
  let '(pass, l') := after_attempt l job limit a attempt in
  exists xs, added_effects l l' xs /\ pass_ok (job_policy job) limit a encoded pass xs.
Proof.
  intros (Pt & Pb & Pd) Hl Ha. pose proof Ha as (Ht & Hb & Hd). unfold after_attempt.
  destruct attempt as [reply | error].
  - destruct (rep_response_code reply =? 32).
    + destruct (Z.leb_spec (rp_busy_retries (job_policy job)) (at_busy a)) as [_ | Hlt].
      { exists []. split; [reflexivity | apply finished_ok, Ha]. }
      rewrite (sat_u8 (at_busy a) _ Pb Hlt) by lia.
      destruct (match wait_before_retry _ _ _ with (Ok _, _) => _ | (Err _, _) => _ end) as [pass l2] eqn:E2.
      eapply (waited_retry _ _ _ _ _ CauseBusy); [exact Ha | .. | exact E2];
        unfold attempts_ok; cbn; lia.
    + destruct (_ || _); [| exists []; split; [reflexivity | apply finished_ok, Ha]].
      destruct (Z.leb_spec (rp_delayed_response_polls (job_policy job)) (at_delayed a)) as [_ | Hlt].
      { exists []. split; [reflexivity | apply finished_ok, Ha]. }
      rewrite (sat_u8 (at_delayed a) _ Pd Hlt) by lia.
      destruct (match wait_before_retry _ _ _ with (Ok _, _) => _ | (Err _, _) => _ end) as [pass l2] eqn:E2.
      eapply (waited_retry _ _ _ _ _ CauseDelayedResponse); [exact Ha | .. | exact E2];
        unfold attempts_ok; cbn; lia.
  - destruct (is_retryable_transport_error error); cbn [andb];
      [| exists []; split; [reflexivity | apply finished_ok, Ha]].
    destruct (Z.ltb_spec (at_transport a) limit) as [Hlt | _];
      [| exists []; split; [reflexivity | apply finished_ok, Ha]].
    rewrite (sat_u8 (at_transport a) _ Hl Hlt) by lia.
    exists [Broadcast (LinkRetrying (job_id job) (saturating_add u8_max (at_number a) 1) CauseTransport)].
    split; [reflexivity |]. split; [| split].
    + unfold attempts_ok. cbn. lia.
    + unfold at_sum. cbn. lia.
    + pose proof (retry_budget encoded CauseTransport (job_id job) (saturating_add u8_max (at_number a) 1)) as B.
      cbn [at_transport at_busy at_delayed] in *. eapply budget_weaken; [exact B | lia ..].
Qed.

Lemma exchange_loop_budget attempts fuel frame encoded limit job : forall l a,
  policy_ok (job_policy job) -> is_u8 limit -> attempts_ok (job_policy job) limit a ->
  exists xs, added_effects l (exchange_loop attempts fuel l job frame encoded limit a).2 xs /\
    left_budget (job_policy job) limit a xs encoded 1.
Proof.
  induction attempts as [| attempts IH]; intros l a Hp Hl Ha; cbn [exchange_loop].
  { exists []. split; [reflexivity |]. destruct Ha as (? & ? & ?). apply budget_quiet; auto; lia. }
  pose proof (now_effects l) as En. destruct (now l) as [t l1]. cbn [snd] in En.
  set (deadline := Z.min _ _).
  destruct (exchange_once_budget fuel l1 (job_id job) frame encoded deadline) as (xs & Ex & Bx).
  destruct (exchange_once fuel l1 (job_id job) frame encoded deadline) as [[attempt |] l2];
    cbn [snd] in Ex; unfold added_effects in *; rewrite En in Ex.
  2: { exists xs. split; [exact Ex |]. destruct Ha as (? & ? & ?).
       eapply budget_weaken; [exact Bx | lia ..]. }
  pose proof (after_attempt_ok l2 job limit a encoded attempt Hp Hl Ha) as Hpass.
  destruct (after_attempt l2 job limit a attempt) as [[r | a'] l3]; destruct Hpass as (ys & Ey & By);
    unfold added_effects in Ey; cbn [pass_ok] in By.
  { exists (ys ++ xs). cbn [snd]. split; [rewrite Ey, Ex, app_assoc; reflexivity |].
    eapply budget_weaken; [exact (budget_app _ _ _ _ _ _ _ _ _ _ _ By Bx) | lia ..]. }
  destruct By as (Ha' & _ & By).
  pose proof (now_effects l3) as En3. destruct (now l3) as [t3 l4]. cbn [snd] in En3.
  pose proof (budget_app _ _ _ _ _ _ _ _ _ _ _ By Bx) as Byx.
  destruct (job_deadline job <=? t3); cbn [snd].
  { exists (ys ++ xs). split; [rewrite En3, Ey, Ex, app_assoc; reflexivity |].
    destruct Ha' as (? & ? & ?). eapply budget_weaken; [exact Byx | lia ..]. }
  destruct (IH l4 a' Hp Hl Ha') as (zs & Ez & Bz).
  exists (zs ++ ys ++ xs). split; [rewrite Ez, En3, Ey, Ex, !app_assoc; reflexivity |].
  eapply budget_weaken; [exact (budget_app _ _ _ _ _ _ _ _ _ _ _ Bz Byx) | lia ..].
Qed.

(** C8. The retry budget of an exchange. Everything handed to the channel is the one
    encoding of the request; every transmission after the first is announced as a retry with
    its cause, never more often for a cause than the policy allows; and a request classified
    as an action is never transmitted again because a response is missing. *)
Theorem exchange_stays_within_budget attempts fuel l job r l' :
  policy_ok (job_policy job) -> exchange attempts fuel l job = (r, l') ->
  exists added, ln_effects l' = added ++ ln_effects l /\
    (forall b, Transmit b ∈ added -> exists frame, encode_job job = Ok (frame, b)) /\
    count is_transmit added <= 1 + count (is_retry CauseTransport) added
      + count (is_retry CauseBusy) added + count (is_retry CauseDelayedResponse) added /\
    count (is_retry CauseTransport) added <=
      (if bool_decide (resolved_safety (job_request job) = Action) then 0
       else rp_transport_retries (job_policy job)) /\
    count (is_retry CauseBusy) added <= rp_busy_retries (job_policy job) /\
    count (is_retry CauseDelayedResponse) added <= rp_delayed_response_polls (job_policy job).
Proof.
  intros Hp Hx. pose proof Hp as (Pt & Pb & Pd). unfold is_u8 in *.
  assert (Hlim : is_u8 (transport_limit job)).
  { unfold transport_limit, is_u8. case_bool_decide; lia. }
  assert (Nothing : forall l0 : LinkRunner E S C, ln_effects l0 = ln_effects l ->
    exists added, ln_effects l0 = added ++ ln_effects l /\
      (forall b, Transmit b ∈ added -> exists frame, encode_job job = Ok (frame, b)) /\
      left_budget (job_policy job) (transport_limit job) (mkAttempts 1 0 0 0) added [] 1).
  { intros l0 E0. exists []. split; [exact E0 |]. split; [intros b Hb; inversion Hb |].
    unfold is_u8 in Hlim. apply budget_quiet; cbn; auto; lia. }
  assert (Main : exists added, ln_effects l' = added ++ ln_effects l /\
    (forall b, Transmit b ∈ added -> exists frame, encode_job job = Ok (frame, b)) /\
    exists encoded, left_budget (job_policy job) (transport_limit job) (mkAttempts 1 0 0 0) added encoded 1).
  { unfold exchange in Hx. pose proof (now_effects l) as En. destruct (now l) as [t l1]. cbn [snd] in En.
    destruct (job_deadline job <=? t); [injection Hx as _ <-; destruct (Nothing l1 En) as (xs & ? & ? & ?); eauto 8 |].
    destruct (encode_job job) as [[frame encoded] | e] eqn:Ee;
      [| injection Hx as _ <-; destruct (Nothing l1 En) as (xs & ? & ? & ?); eauto 8].
    destruct (exchange_loop_budget attempts fuel frame encoded (transport_limit job) job l1
                (mkAttempts 1 0 0 0) Hp Hlim) as (xs & Ex & Bx).
    { unfold attempts_ok, is_u8 in *. cbn. lia. }
    rewrite Hx in Ex. cbn [snd] in Ex. exists xs. unfold added_effects in Ex. rewrite En in Ex.
    split; [exact Ex |]. split; [| eauto].
    intros b Hb. exists frame. pose proof (budget_same _ _ _ _ _ _ Bx) as Same.
    unfold only_transmits in Same. rewrite Forall_forall in Same.
    rewrite (Same _ Hb b eq_refl). reflexivity. }
  destruct Main as (xs & Ex & Hb & encoded & [_ B1 B2 B3 B4]). exists xs.
  cbn [at_transport at_busy at_delayed] in *. unfold transport_limit in B1.
  repeat split; try assumption; lia.
Qed.

(** ** Outcomes *)

(** The errors after which the byte stream is not trusted any more. *)
Definition breaks_channel (e : ExchangeError) : bool :=
  match e with ExChannel _ | ExSendTimeout => true | _ => false end.

(** A reply taken from a frame of the stream as the answer to a request. *)
Definition answers (frame : Frame) (reply : DeviceReply) : Prop :=
  matches_request reply frame = true /\ rep_burst reply = false /\
  exists received, DeviceReply_from_frame received = Ok reply /\ is_echo received frame = false.

Definition usable_after l l' (r : result ExchangeError DeviceReply) : Prop :=
  ln_channel_usable l' =
    match r with
    | Ok _ => ln_channel_usable l
    | Err e => if breaks_channel e then false else ln_channel_usable l
    end.

Lemma publish_usable l reply :
  ln_channel_usable (publish_unsolicited l reply) = ln_channel_usable l.
Proof.
  unfold publish_unsolicited. destruct (ln_burst_hub l); [| reflexivity].
  unfold now. destruct (rt_now (ln_env l)). destruct (rt_system_now _). reflexivity.
Qed.

Lemma handle_events_outcome id frame events : forall l,
  let '(r, l') := handle_events l id frame events in
  ln_channel_usable l' = ln_channel_usable l /\ forall reply, r = Some reply -> answers frame reply.
Proof.
  induction events as [| [received | error] events IH]; intros l; cbn [handle_events].
  - split; [reflexivity | discriminate].
  - destruct (is_echo received frame) eqn:Ee; [apply (IH (broadcast l _)) |].
    destruct (DeviceReply_from_frame received) as [reply |] eqn:Er; [| apply IH].
    destruct (rep_burst reply) eqn:Eb.
    + pose proof (IH (publish_unsolicited l reply)) as I.
      destruct (handle_events _ id frame events). rewrite publish_usable in I. exact I.
    + destruct (matches_request reply frame) eqn:Em; [| apply (IH (broadcast l _))].
      split; [reflexivity |]. intros r [= <-]. split; [exact Em |]. split; [exact Eb |].
      exists received. auto.
  - apply (IH (broadcast l _)).
Qed.

Lemma receive_loop_outcome fuel id frame deadline : forall l,
  let '(r, l') := receive_loop fuel l id frame deadline in
  forall result, r = Some result ->
    usable_after l l' result /\ forall reply, result = Ok reply -> answers frame reply.
Proof.
  induction fuel as [| fuel IH]; intros l; cbn [receive_loop]; [discriminate |].
  assert (Bad : forall e l', usable_after l l' (Err e) -> forall result,
    Some (Err e) = Some result ->
    usable_after l l' result /\ forall reply, result = Ok reply -> answers frame reply).
  { intros e l' Hu result [= <-]. split; [exact Hu | discriminate]. }
  destruct (rt_receive _ _ _) as [[[[read buffer] | error] |] e].
  - cbn zeta. destruct (read =? 0); [apply Bad; reflexivity |].
    destruct (_ <? read); [apply Bad; reflexivity |].
    destruct (FrameDecoder_push _ _) as [events d].
    pose proof (handle_events_outcome id frame events (with_decoder (with_env l e) d)) as Ho.
    destruct (handle_events _ id frame events) as [[reply |] l']; destruct Ho as [Hu Hr].
    + intros result [= <-]. split; [exact Hu |]. intros r [= <-]. auto.
    + pose proof (IH l') as I. destruct (receive_loop fuel l' id frame deadline) as [r l2].
      intros result Er. destruct (I result Er) as [Iu Ir]. split; [| exact Ir].
      unfold usable_after in *. rewrite Iu, Hu. reflexivity.
  - destruct (is_receive_timeout error); apply Bad; reflexivity.
  - apply Bad. reflexivity.
Qed.

Lemma exchange_once_outcome fuel l id frame encoded deadline :
  let '(r, l') := exchange_once fuel l id frame encoded deadline in
  forall result, r = Some result ->
    usable_after l l' result /\ forall reply, result = Ok reply -> answers frame reply.
Proof.
  unfold exchange_once. destruct (rt_send _ _ _) as [[[u | error] |] e].
  - exact (receive_loop_outcome fuel id frame deadline (effect (with_env l e) (Transmit encoded))).
  - intros result [= <-]. split; [reflexivity | discriminate].
  - intros result [= <-]. split; [reflexivity | discriminate].
Qed.

Definition final_code (reply : DeviceReply) : Prop :=
  rep_response_code reply <> 32 /\ rep_response_code reply <> 33 /\ rep_response_code reply <> 34.

Lemma now_usable l : ln_channel_usable (now l).2 = ln_channel_usable l.
Proof. unfold now. destruct (rt_now (ln_env l)). reflexivity. Qed.

Lemma wait_usable l delay deadline :
  ln_channel_usable (wait_before_retry l delay deadline).2 = ln_channel_usable l /\
  forall e, (wait_before_retry l delay deadline).1 = Err e -> e = ExDeadline.
Proof.
  unfold wait_before_retry. destruct (delay =? 0); [split; [reflexivity | discriminate] |].
  pose proof (now_usable l) as En. destruct (now l) as [t l']. cbn [snd] in En.
  destruct (instant_checked_add _ _ _); [| split; [exact En | intros e [= <-]; reflexivity]].
  destruct (_ <=? _); (split; [exact En |]); [intros e [= <-]; reflexivity | discriminate].
Qed.

(** What an attempt's outcome means for the whole exchange. *)
Lemma after_attempt_outcome l0 l job limit a attempt :
  usable_after l0 l attempt ->
  let '(pass, l') := after_attempt l job limit a attempt in
  match pass with
  | Finished r =>
      usable_after l0 l' r /\
      forall reply, r = Ok reply -> attempt = Ok reply /\ final_code reply
  | Again _ => ln_channel_usable l' = ln_channel_usable l0
  end.
Proof.
  intros Hu. unfold after_attempt. destruct attempt as [reply | error]; unfold usable_after in Hu.
  - assert (Waited : forall cause number a',
      let '(pass, l') :=
        match wait_before_retry (broadcast l (LinkRetrying (job_id job) number cause))
                (rp_retry_delay (job_policy job)) (job_deadline job) with
        | (Err e, l2) => (Finished (Err e), l2)
        | (Ok _, l2) => (Again a', l2)
        end in
      match pass with
      | Finished r => usable_after l0 l' r /\ forall x, r = Ok x ->
          (Ok reply : result ExchangeError DeviceReply) = Ok x /\ final_code x
      | Again _ => ln_channel_usable l' = ln_channel_usable l0
      end).
    { intros cause number a'.
      destruct (wait_usable (broadcast l (LinkRetrying (job_id job) number cause))
                  (rp_retry_delay (job_policy job)) (job_deadline job)) as [Wu We].
      destruct (wait_before_retry _ _ _) as [[u | e] l2]; cbn [fst snd] in Wu, We.
      - rewrite <- Hu. exact Wu.
      - rewrite (We e eq_refl). split; [| discriminate].
        unfold usable_after. cbn [breaks_channel]. rewrite <- Hu. exact Wu. }
    destruct (Z.eqb_spec (rep_response_code reply) 32) as [| H32].
    { destruct (_ <=? _); [split; [exact Hu | discriminate] | apply Waited]. }
    destruct (Z.eqb_spec (rep_response_code reply) 33) as [| H33]; cbn [orb].
    { destruct (_ <=? _); [split; [exact Hu | discriminate] | apply Waited]. }
    destruct (Z.eqb_spec (rep_response_code reply) 34) as [| H34].
    { destruct (_ <=? _); [split; [exact Hu | discriminate] | apply Waited]. }
    split; [exact Hu |]. intros x [= <-]. split; [reflexivity | repeat split; assumption].
  - destruct (is_retryable_transport_error error) eqn:Er; cbn [andb];
      [| split; [exact Hu | discriminate]].
    destruct (_ <? limit); [| split; [exact Hu | discriminate]].
    destruct error; try discriminate. exact Hu.
Qed.

Lemma exchange_loop_outcome attempts fuel frame encoded limit job : forall l0 l a,
  ln_channel_usable l = ln_channel_usable l0 ->
  let '(r, l') := exchange_loop attempts fuel l job frame encoded limit a in
  forall result, r = Some result ->
    usable_after l0 l' result /\
    forall reply, result = Ok reply -> answers frame reply /\ final_code reply.
Proof.
  induction attempts as [| attempts IH]; intros l0 l a Hl; cbn [exchange_loop]; [discriminate |].
  pose proof (now_usable l) as En. destruct (now l) as [t l1]. cbn [snd] in En.
  set (deadline := Z.min _ _).
  pose proof (exchange_once_outcome fuel l1 (job_id job) frame encoded deadline) as Ho.
  destruct (exchange_once fuel l1 (job_id job) frame encoded deadline) as [[attempt |] l2];
    [| discriminate].
  destruct (Ho attempt eq_refl) as [Hu Hans].
  assert (Hu0 : usable_after l0 l2 attempt).
  { unfold usable_after in *. rewrite Hu, En, Hl. reflexivity. }
  pose proof (after_attempt_outcome l0 l2 job limit a attempt Hu0) as Hp.
  destruct (after_attempt l2 job limit a attempt) as [[r | a'] l3].
  - intros result [= <-]. destruct Hp as [Hpu Hpr]. split; [exact Hpu |].
    intros reply Er. destruct (Hpr reply Er) as [Ea Hf]. auto.
  - pose proof (now_usable l3) as En3. destruct (now l3) as [t3 l4]. cbn [snd] in En3.
    destruct (job_deadline job <=? t3).
    + intros result [= <-]. split; [| discriminate]. unfold usable_after. cbn [breaks_channel].
      congruence.
    + apply (IH l0 l4 a'). congruence.
Qed.

(** The frame of a request names its command unless that is the escape 31. *)
Lemma request_frame_command r f :
  is_u16 (CommandCode_get (req_command r)) -> CommandCode_get (req_command r) <> 31 ->
  Request_to_frame r = Ok f ->
  logical_command f = req_command r /\ frame_address f = req_address r /\
  frame_physical_layer f = req_physical_layer r /\ frame_expansion f = req_frame_expansion r.
Proof.
  intros Hc H31 Hf. unfold Request_to_frame in Hf.
  apply result_bind_Ok in Hf as (u & _ & Hf). apply result_bind_Ok in Hf as ((wc, pl) & Hw & Hf).
  apply result_bind_Ok in Hf as (d & _ & [= <-]). unfold logical_command.
  cbn [frame_wire_command frame_payload frame_address frame_physical_layer frame_expansion].
  split; [| auto]. unfold CommandCode_is_expanded in Hw. destruct (req_command r) as [n].
  cbn [CommandCode_get] in *. destruct (u8_max <? n).
  - assert (wc = 31) as -> by congruence.
    assert (pl = to_be_bytes 2 n ++ req_data r) as -> by congruence. change (31 =? 31) with true.
    cbn [andb]. rewrite zlen_app. unfold zlen at 1. rewrite length_to_be_bytes.
    rewrite (proj2 (Z.leb_le _ _)) by (pose proof (zlen_nonneg (req_data r)); lia).
    rewrite take_app_length' by (rewrite length_to_be_bytes; reflexivity).
    rewrite from_to_be_bytes. f_equal. apply Z.mod_small. exact Hc.
  - injection Hw as <- <-. rewrite (proj2 (Z.eqb_neq _ _)) by assumption. reflexivity.
Qed.

(** C9. Outcomes of an exchange. A reply that is returned was decoded from a frame of the
    stream that is not an echo of the request, is a solicited response with the request's
    command, address, physical layer and expansion, and carries none of the transient codes 32
    to 34; and the channel is given up exactly on the errors that leave the byte stream
    unknown, a failed or timed-out send and a receive error other than a timeout. *)
Theorem exchange_outcomes_are_exact attempts fuel l job r l' :
  is_u16 (CommandCode_get (req_command (job_request job))) ->
  CommandCode_get (req_command (job_request job)) <> 31 ->
  exchange attempts fuel l job = (Some r, l') ->
  ln_channel_usable l' = (match r with
                          | Err (ExChannel _) | Err ExSendTimeout => false
                          | _ => ln_channel_usable l
                          end) /\
  forall reply, r = Ok reply ->
    rep_command reply = req_command (job_request job) /\
    rep_address reply = req_address (job_request job) /\
    rep_physical_layer reply = req_physical_layer (job_request job) /\
    rep_frame_expansion reply = req_frame_expansion (job_request job) /\
    rep_burst reply = false /\ final_code reply /\
    exists received, DeviceReply_from_frame received = Ok reply.
Proof.
  intros Hc H31 Hx. unfold exchange in Hx.
  pose proof (now_usable l) as En. destruct (now l) as [t l1]. cbn [snd] in En.
  destruct (job_deadline job <=? t); [injection Hx as <- <-; split; [exact En | discriminate] |].
  unfold encode_job in Hx.
  destruct (Request_to_frame (job_request job)) as [frame | e] eqn:Ef; cbn [result_map_err result_bind] in Hx;
    [| injection Hx as <- <-; split; [exact En | discriminate]].
  destruct (Frame_encode frame) as [bytes_ | e] eqn:Ee; cbn [result_map_err result_bind] in Hx;
    [| injection Hx as <- <-; split; [exact En | discriminate]].
  set (encoded := if bool_decide _ then _ else _) in Hx.
  pose proof (exchange_loop_outcome attempts fuel frame encoded (transport_limit job) job l l1
                (mkAttempts 1 0 0 0) En) as Ho.
  rewrite Hx in Ho. destruct (Ho r eq_refl) as [Hu Hr]. split.
  - rewrite Hu. destruct r as [reply | []]; reflexivity.
  - intros reply Er. destruct (Hr reply Er) as [(Hm & Hb & received & Hrec & _) Hf].
    destruct (request_frame_command _ _ Hc H31 Ef) as (Fc & Fa & Fp & Fe).
    unfold matches_request in Hm. rewrite Fc, Fa, Fp, Fe in Hm.
    rewrite !andb_true_iff, !bool_decide_eq_true in Hm. destruct Hm as [[[M1 M2] M3] M4]. eauto 10.
Qed.

(** ** Termination *)

(** A channel that will deliver only so many more chunks: a read that returns bytes uses
    one up, and nothing adds to them. *)
Class FiniteInput (rt_chunks : E -> nat) : Prop := {
  chunks_receive : forall e d n r e', rt_receive e d n = (Some (Ok r), e') ->
    (rt_chunks e' < rt_chunks e)%nat;
  chunks_receive_le : forall e d n, (rt_chunks (rt_receive e d n).2 <= rt_chunks e)%nat;
  chunks_send : forall e d b, (rt_chunks (rt_send e d b).2 <= rt_chunks e)%nat;
  chunks_now : forall e, (rt_chunks (rt_now e).2 <= rt_chunks e)%nat;
  chunks_system_now : forall e, (rt_chunks (rt_system_now e).2 <= rt_chunks e)%nat;
  chunks_sleep : forall e t, (rt_chunks (rt_sleep_until e t) <= rt_chunks e)%nat;
}.

Section Termination.
Context (rt_chunks : E -> nat) `{!FiniteInput rt_chunks}.

Definition chunks l : nat := rt_chunks (ln_env l).

Lemma now_chunks l : (chunks (now l).2 <= chunks l)%nat.
Proof.
  unfold now, chunks. pose proof (chunks_now (ln_env l)) as Hn.
  destruct (rt_now (ln_env l)). exact Hn.
Qed.

Lemma publish_chunks l reply : (chunks (publish_unsolicited l reply) <= chunks l)%nat.
Proof.
  unfold publish_unsolicited. destruct (ln_burst_hub l); [| reflexivity].
  pose proof (now_chunks l) as Hn. destruct (now l) as [t l1]. cbn [snd] in Hn. unfold chunks in *.
  pose proof (chunks_system_now (ln_env l1)) as Hs. destruct (rt_system_now (ln_env l1)).
  cbn in *. lia.
Qed.

Lemma handle_events_chunks id frame events : forall l,
  (chunks (handle_events l id frame events).2 <= chunks l)%nat.
Proof.
  induction events as [| [received | error] events IH]; intros l; cbn [handle_events]; [reflexivity | |].
  - destruct (is_echo received frame); [apply (IH (broadcast l _)) |].
    destruct (DeviceReply_from_frame received) as [reply |]; [| apply IH].
    destruct (rep_burst reply).
    + etransitivity; [apply IH | apply publish_chunks].
    + destruct (matches_request reply frame); [reflexivity | apply (IH (broadcast l _))].
  - apply (IH (broadcast l _)).
Qed.

Lemma receive_loop_ends fuel id frame deadline : forall l,
  (chunks l < fuel)%nat ->
  exists r, (receive_loop fuel l id frame deadline).1 = Some r /\
    (chunks (receive_loop fuel l id frame deadline).2 <= chunks l)%nat.
Proof.
  induction fuel as [| fuel IH]; intros l Hl; [lia |]. cbn [receive_loop].
  pose proof (chunks_receive_le (ln_env l) deadline (ln_read_buffer l)) as Hle.
  pose proof (chunks_receive (ln_env l) deadline (ln_read_buffer l)) as Hlt.
  destruct (rt_receive _ _ _) as [[[[read buffer] | error] |] e]; cbn [snd] in Hle;
    [| destruct (is_receive_timeout error); eauto | eauto].
  cbn zeta. destruct (read =? 0); [eauto |]. destruct (_ <? read); [eauto |].
  destruct (FrameDecoder_push _ _) as [events d].
  pose proof (handle_events_chunks id frame events (with_decoder (with_env l e) d)) as Hh.
  specialize (Hlt _ _ eq_refl). unfold chunks in *.
  destruct (handle_events _ id frame events) as [[reply |] l']; cbn in Hh |- *; [eauto with lia |].
  destruct (IH l') as (r & Er & Hr); [lia |]. exists r. split; [exact Er | lia].
Qed.

Lemma exchange_once_ends fuel l id frame encoded deadline :
  (chunks l < fuel)%nat ->
  exists r, (exchange_once fuel l id frame encoded deadline).1 = Some r /\
    (chunks (exchange_once fuel l id frame encoded deadline).2 <= chunks l)%nat.
Proof.
  intros Hl. unfold exchange_once. pose proof (chunks_send (ln_env l) deadline encoded) as Hs.
  destruct (rt_send _ _ _) as [[[u | error] |] e]; cbn [snd] in Hs; [| eauto | eauto].
  destruct (receive_loop_ends fuel id frame deadline (effect (with_env l e) (Transmit encoded)))
    as (r & Er & Hr); [unfold chunks in *; cbn; lia |].
  exists r. split; [exact Er |]. unfold chunks in *. cbn in Hr. lia.
Qed.

Lemma wait_chunks l delay deadline : (chunks (wait_before_retry l delay deadline).2 <= chunks l)%nat.
Proof.
  unfold wait_before_retry. destruct (delay =? 0); [reflexivity |].
  pose proof (now_chunks l) as Hn. destruct (now l) as [t l1]. cbn [snd] in Hn.
  destruct (instant_checked_add _ _ _) as [wake |]; [| exact Hn].
  destruct (_ <=? _); [exact Hn |]. unfold chunks in *. cbn.
  pose proof (chunks_sleep (ln_env l1) wake). lia.
Qed.

Lemma after_attempt_chunks l job limit a attempt :
  (chunks (after_attempt l job limit a attempt).2 <= chunks l)%nat.
Proof.
  unfold after_attempt.
  assert (W : forall event (a' : Attempts) delay deadline,
    (chunks (match wait_before_retry (broadcast l event) delay deadline with
             | (Err e, l) => (Finished (Err e), l) | (Ok _, l) => (Again a', l) end).2 <= chunks l)%nat).
  { intros event a' delay deadline. pose proof (wait_chunks (broadcast l event) delay deadline) as Hw.
    destruct (wait_before_retry _ _ _) as [[] ?]; exact Hw. }
  destruct attempt as [reply | error].
  - destruct (_ =? 32); [destruct (_ <=? _); [reflexivity | apply W] |].
    destruct (_ || _); [destruct (_ <=? _); [reflexivity | apply W] | reflexivity].
  - destruct (_ && _); reflexivity.
Qed.

Lemma exchange_loop_ends attempts fuel frame encoded limit job : forall l a,
  policy_ok (job_policy job) -> is_u8 limit -> attempts_ok (job_policy job) limit a ->
  limit + rp_busy_retries (job_policy job) + rp_delayed_response_polls (job_policy job) - at_sum a
    < Z.of_nat attempts ->
  (chunks l < fuel)%nat ->
  exists r, (exchange_loop attempts fuel l job frame encoded limit a).1 = Some r /\
    (chunks (exchange_loop attempts fuel l job frame encoded limit a).2 <= chunks l)%nat.
Proof.
  induction attempts as [| attempts IH]; intros l a Hp Hlim Ha Hn Hf.
  { destruct Ha as (? & ? & ?). unfold at_sum in Hn. lia. }
  cbn [exchange_loop]. pose proof (now_chunks l) as K1. destruct (now l) as [t l1]. cbn [snd] in K1.
  set (deadline := Z.min _ _).
  destruct (exchange_once_ends fuel l1 (job_id job) frame encoded deadline) as (attempt & Ea & K2); [lia |].
  destruct (exchange_once fuel l1 (job_id job) frame encoded deadline) as [r2 l2].
  cbn [fst snd] in Ea, K2. rewrite Ea.
  pose proof (after_attempt_ok l2 job limit a encoded attempt Hp Hlim Ha) as Hpass.
  pose proof (after_attempt_chunks l2 job limit a attempt) as K3.
  destruct (after_attempt l2 job limit a attempt) as [[r | a'] l3]; cbn [snd] in K3;
    [exists r; split; [reflexivity | cbn; lia] |].
  destruct Hpass as (xs & _ & Ha' & Hsum & _).
  pose proof (now_chunks l3) as K4. destruct (now l3) as [t3 l4]. cbn [snd] in K4.
  destruct (job_deadline job <=? t3); [eexists; split; [reflexivity | cbn; lia] |].
  destruct (IH l4 a') as (r & Er & K5); auto; [lia | lia |]. exists r. split; [exact Er | lia].
Qed.

Lemma exchange_bounded attempts fuel l job :
  policy_ok (job_policy job) ->
  transport_limit job + rp_busy_retries (job_policy job)
    + rp_delayed_response_polls (job_policy job) < Z.of_nat attempts ->
  (chunks l < fuel)%nat ->
  exists r, (exchange attempts fuel l job).1 = Some r /\
    (chunks (exchange attempts fuel l job).2 <= chunks l)%nat.
Proof.
  intros Hp Hn Hf. unfold exchange. pose proof (now_chunks l) as K1. destruct (now l) as [t l1].
  cbn [snd] in K1. destruct (job_deadline job <=? t); [eauto |].
  destruct (encode_job job) as [[frame encoded] | e]; [| eauto].
  assert (Hlim : is_u8 (transport_limit job)).
  { destruct Hp as (Pt & _ & _). unfold transport_limit, is_u8 in *. case_bool_decide; lia. }
  destruct (exchange_loop_ends attempts fuel frame encoded (transport_limit job) job l1 (mkAttempts 1 0 0 0))
    as (r & Er & K2); auto; [| unfold at_sum; cbn; lia | lia | exists r; split; [exact Er | lia]].
  destruct Hp as (Pt & Pb & Pd). unfold attempts_ok, is_u8 in *. cbn. lia.
Qed.

(** C21. An exchange ends. On a channel that delivers finitely many more chunks, an exchange
    returns a result within one pass more than the retries its policy allows, reading each
    attempt at most one time more than there are chunks left. *)
Theorem exchange_ends attempts fuel l job :
  policy_ok (job_policy job) ->
  transport_limit job + rp_busy_retries (job_policy job)
    + rp_delayed_response_polls (job_policy job) < Z.of_nat attempts ->
  (chunks l < fuel)%nat ->
  exists r l', exchange attempts fuel l job = (Some r, l').
Proof.
  intros Hp Hn Hf. destruct (exchange_bounded attempts fuel l job Hp Hn Hf) as (r & Er & _).
  exists r, (exchange attempts fuel l job).2. rewrite <- Er. apply surjective_pairing.
Qed.
End Termination.
End Exchange.

(** ** Witnesses

    A runtime that plays a list of chunks and is silent afterwards. *)
Definition Script : Type := Z * list bytes.

Definition script_receive (s : Script) (deadline _ : Z)
    : option (result ChannelError (Z * bytes)) * Script :=
  match s with
  | (t, []) => (None, (Z.max t deadline, []))
  | (t, chunk :: rest) => (Some (Ok (zlen chunk, chunk)), (t + 1, rest))
  end.

#[global] Instance script_runtime : Runtime Script := {
  rt_instant_max := u64_max;
  rt_now s := (s.1, s);
  rt_system_now s := (s.1, s);
  rt_send s _ _ := (Some (Ok tt), s);
  rt_receive := script_receive;
  rt_idle s n := script_receive s s.1 n;
  rt_sleep_until s t := (Z.max s.1 t, s.2);
  rt_reply_closed _ _ := false;
}.

Definition script_chunks (s : Script) : nat := length s.2.

#[global] Instance script_finite : FiniteInput script_chunks.
Proof.
  split; unfold script_chunks.
  - intros [t [| chunk rest]] d n r e'; cbn; [discriminate |]. intros [= _ <-]. cbn. lia.
  - intros [t [| chunk rest]] d n; cbn; lia.
  - intros [t cs] d b. cbn. lia.
  - intros [t cs]. cbn. lia.
  - intros [t cs]. cbn. lia.
  - intros [t cs] wake. cbn. lia.
Qed.

Definition demo_request : Request := Request_new (Polling 1 Primary) (CommandCode_new 3) [].

Definition demo_job : Job :=
  mkJob 7 demo_request [] RetryPolicy_default (8 * NANOS_PER_SECOND) (Some 1).

(** The encoding of a response to it with this response code. *)
Definition demo_response (code : Z) : bytes :=
  match Frame_encode (mkFrame 5 KindResponse Fsk (Polling 1 Primary) [] 3 [code; 0] None) with
  | Ok l => l
  | Err _ => []
  end.

Definition demo_runner (chunks : list bytes) : LinkRunner Script CountingSemaphore ListChannel :=
  mkRunner (0, chunks) [] (QueueSet_new []) Counters_default
    (FrameDecoder_new DecodeLimits_default) 512 None true 64 DEFAULT_LATE_RESPONSE_GUARD.

(** A busy answer, then the answer in two pieces. *)
Definition demo_start : LinkRunner Script CountingSemaphore ListChannel :=
  demo_runner [demo_response 32; take 6 (demo_response 0); drop 6 (demo_response 0)].

Definition demo_exchange
    : option (result ExchangeError DeviceReply) * LinkRunner Script CountingSemaphore ListChannel :=
  exchange 12 4 demo_start demo_job.

Lemma demo_policy_ok : policy_ok (job_policy demo_job).
Proof. unfold policy_ok, is_u8. cbn. lia. Defined.

Lemma exchange_stays_within_budget_witness :
  exists added, ln_effects demo_exchange.2 = added ++ [] /\
    count is_transmit added <= 1 + count (is_retry CauseTransport) added
      + count (is_retry CauseBusy) added + count (is_retry CauseDelayedResponse) added /\
    count (is_retry CauseBusy) added <= 2.
Proof.
  destruct (exchange_stays_within_budget 12 4 demo_start demo_job demo_exchange.1 demo_exchange.2
              demo_policy_ok (surjective_pairing _)) as (added & E & _ & Hs & _ & Hb & _).
  exists added. split; [exact E |]. split; [exact Hs | exact Hb].
Defined.

Definition demo_reply_3 : DeviceReply :=
  mkReply (Polling 1 Primary) (CommandCode_new 3) 0 0 [] false Fsk 5 [].

Lemma demo_exchange_runs :
  exchange 12 4 demo_start demo_job = (Some (Ok demo_reply_3), demo_exchange.2).
Proof.
  unfold demo_exchange. rewrite (surjective_pairing (exchange 12 4 demo_start demo_job)) at 1.
  assert (E : (exchange 12 4 demo_start demo_job).1 = Some (Ok demo_reply_3)) by (vm_compute; reflexivity).
  rewrite E. reflexivity.
Qed.

Lemma exchange_outcomes_are_exact_witness :
  rep_command demo_reply_3 = req_command demo_request /\ ln_channel_usable demo_exchange.2 = true.
Proof.
  destruct (exchange_outcomes_are_exact 12 4 demo_start demo_job (Ok demo_reply_3) demo_exchange.2)
    as [Hu Hr]; [unfold is_u16; cbn; lia | cbn; lia | exact demo_exchange_runs |].
  destruct (Hr demo_reply_3 eq_refl) as [Hc _]. split; [exact Hc | exact Hu].
Defined.

Lemma exchange_ends_witness :
  exists r l', exchange 12 4 (demo_runner [demo_response 32; demo_response 32; demo_response 32])
                 demo_job = (Some r, l').
Proof.
  apply (exchange_ends script_chunks).
  - exact demo_policy_ok.
  - vm_compute. reflexivity.
  - vm_compute. lia.
Defined.

(** That exchange takes two transmissions. *)
Example demo_exchange_transmits : count is_transmit (ln_effects demo_exchange.2) = 2.
Proof. vm_compute. reflexivity. Qed.

(** A burst message behind the awaited reply in the same read is neither published to the
    hub nor announced, though alone in a read it is. *)
Definition demo_burst_bytes : bytes :=
  match Frame_encode (mkFrame 5 KindBurst Fsk (Polling 1 Primary) [] 9 [0; 0; 1; 2] None) with
  | Ok l => l
  | Err _ => []
  end.

Definition is_unsolicited (x : Effect) : bool :=
  match x with Broadcast (LinkUnsolicited _) => true | _ => false end.

Example burst_behind_reply_is_lost :
  count is_unsolicited (ln_effects (exchange 1 3
    (demo_runner [demo_response 0 ++ demo_burst_bytes]) demo_job).2) = 0 /\
  count is_unsolicited (ln_effects (exchange 1 3
    (demo_runner [demo_burst_bytes; demo_response 0]) demo_job).2) = 1.
Proof. vm_compute. auto. Qed.
