(* ===== verification/LinkProps.v ===== *)
(** * Properties of links: coalescing, configuration and admission *)
From stdpp Require Import gmap.
From S2P Require Import Prelude Wire WireProps Decoder Catalog Codec Operation QueueSet QueueRuns Burst BurstProps Link LinkRunner ExchangeProps.

(** ** The entries of the queues *)

Section Entries.
Context {S : Type} `{Semaphore S}.
Implicit Types q : QueueSet Job S.

(** The entries of every slot. *)
Definition views q : list (list Job) := slot_entries <$> set_slots q.

Lemma views_update q i f g :
  (forall s, slot_entries (f s) = g (slot_entries s)) -> views (update_slot q i f) = alter g i (views q).
Proof.
  intros Hf. unfold views. cbn [update_slot with_slots set_slots].
  apply list_eq. intros j. rewrite list_lookup_fmap. destruct (decide (j = i)) as [-> | Hne].
  - rewrite !list_lookup_alter_eq, list_lookup_fmap.
    destruct (set_slots q !! i); [| reflexivity]. cbn. rewrite Hf. reflexivity.
  - rewrite !list_lookup_alter_ne by congruence. rewrite list_lookup_fmap. reflexivity.
Qed.

Lemma alter_insert {A} (f : A -> A) i x (l : list A) : alter f i (<[i := x]> l) = <[i := f x]> l.
Proof.
  apply list_eq. intros j. destruct (decide (j = i)) as [-> | Hne].
  - rewrite list_lookup_alter_eq. destruct (decide (i < length l)%nat) as [Hlt | Hge].
    + rewrite !list_lookup_insert_eq by assumption. reflexivity.
    + rewrite !lookup_ge_None_2; [reflexivity | rewrite length_insert; lia ..].
  - rewrite list_lookup_alter_ne, !list_lookup_insert_ne by congruence. reflexivity.
Qed.

Lemma views_finish q queue x : views (QueueSet_finish_entry q queue x).2 = views q.
Proof.
  unfold QueueSet_finish_entry. destruct (QueueSet_slot_index q queue) as [i |]; [| reflexivity].
  cbn [snd]. rewrite !(views_update _ _ _ id) by reflexivity.
  rewrite !list_alter_id by reflexivity. reflexivity.
Qed.

Lemma index_finish q queue x d :
  QueueSet_slot_index (QueueSet_finish_entry q queue x).2 d = QueueSet_slot_index q d.
Proof. unfold QueueSet_finish_entry. destruct (QueueSet_slot_index q queue); reflexivity. Qed.

Lemma views_push_front q queue i x :
  QueueSet_slot_index q queue = Ok i ->
  views (QueueSet_push_front q queue x) = alter (cons x) i (views q).
Proof.
  intros Hi. unfold QueueSet_push_front. rewrite Hi. apply views_update. reflexivity.
Qed.

(** [pop_from] takes the head of the entries of that queue, when there is one. *)
Lemma pop_from_views q queue i entries :
  QueueSet_slot_index q queue = Ok i -> views q !! i = Some entries ->
  match QueueSet_pop_from q queue with
  | (Some x, q') =>
      exists rest, entries = x :: rest /\ views q' = <[i := rest]> (views q) /\
        forall d, QueueSet_slot_index q' d = QueueSet_slot_index q d
  | (None, _) => entries = []
  end.
Proof.
  intros Hi He. unfold QueueSet_pop_from. rewrite Hi. unfold views in He.
  rewrite list_lookup_fmap in He. apply fmap_Some in He as (s & Hs & ->).
  destruct (pop_front_at (set_slots q) i) as [[[d x] slots'] |] eqn:Hp.
  - destruct (pop_front_at_inv _ _ _ _ _ Hp) as (s' & rest & Hs' & _ & He & ->).
    assert (s' = s) as -> by congruence. exists rest. split; [exact He |].
    split; [| reflexivity]. unfold views. cbn [with_slots set_slots]. apply list_fmap_insert.
  - unfold pop_front_at in Hp. rewrite Hs in Hp. destruct (slot_entries s); [reflexivity | discriminate].
Qed.

(** Putting jobs back in reverse order restores their order in front. *)
Lemma requeue_views jobs q queue i entries :
  QueueSet_slot_index q queue = Ok i -> views q !! i = Some entries ->
  views (foldl (fun q job => QueueSet_push_front q queue job) q (rev jobs))
  = <[i := jobs ++ entries]> (views q).
Proof.
  intros Hi He. assert (Main :
    views (foldl (fun q job => QueueSet_push_front q queue job) q (rev jobs))
      = <[i := jobs ++ entries]> (views q) /\
    QueueSet_slot_index (foldl (fun q job => QueueSet_push_front q queue job) q (rev jobs)) queue = Ok i).
  { induction jobs as [| job jobs [IHv IHi]]; cbn [rev app foldl].
    - split; [symmetry; apply list_insert_id, He | exact Hi].
    - rewrite foldl_app. cbn [foldl]. split.
      + rewrite (views_push_front _ _ i) by exact IHi. rewrite IHv. apply alter_insert.
      + unfold QueueSet_push_front at 1. rewrite IHi. exact IHi. }
  apply Main.
Qed.
End Entries.

(** ** Coalescing *)

Section Coalesce.
Context {E S C : Type} `{Runtime E} `{Semaphore S} `{Mpsc C}.
Implicit Types l : LinkRunner E S C.

Definition waiting (e : E) (job : Job) : bool :=
  match job_reply job with Some ticket => negb (rt_reply_closed e ticket) | None => false end.

Lemma abandoned_waiting l job : abandoned l job = negb (waiting (ln_env l) job).
Proof. unfold abandoned, waiting. destruct (job_reply job); [rewrite negb_involutive |]; reflexivity. Qed.

(** What the loop of [take_coalescible_followers] took from the entries of a queue. *)
Definition taken (e : E) (leader : Job) (entries prefix rest fs : list Job) : Prop :=
  entries = prefix ++ rest /\ fs = filter (fun job => waiting e job = true) prefix /\
  Forall (fun job => requests_can_coalesce leader job = true) prefix.

(** The runner after one coalescible candidate [x] was popped, leaving [q]. *)
Definition followed l (q : QueueSet Job S) (queue : QueueId) (leader x : Job) : LinkRunner E S C :=
  if abandoned l x then mark_cancelled (with_queues l (QueueSet_finish_entry q queue x).2) (job_id x)
  else broadcast (with_counters (with_queues l q) (count_coalesced (ln_counters l)))
         (LinkCoalesced (job_id x) (job_id leader)).

Lemma followed_facts l q queue leader x :
  views (ln_queues (followed l q queue leader x)) = views q /\
  (forall d, QueueSet_slot_index (ln_queues (followed l q queue leader x)) d = QueueSet_slot_index q d) /\
  ln_maximum_coalesced (followed l q queue leader x) = ln_maximum_coalesced l /\
  ln_env (followed l q queue leader x) = ln_env l.
Proof.
  unfold followed. destruct (abandoned l x); cbn; [| auto].
  rewrite views_finish. split; [reflexivity |]. split; [| auto]. intros d. apply index_finish.
Qed.

(** One pass of the loop. *)
Lemma take_followers_step fuel l queue leader fs x q :
  zlen fs < ln_maximum_coalesced l -> QueueSet_pop_from (ln_queues l) queue = (Some x, q) ->
  requests_can_coalesce leader x = true ->
  take_followers (Datatypes.S fuel) l queue leader fs =
  take_followers fuel (followed l q queue leader x) queue leader
    (fs ++ if waiting (ln_env l) x then [x] else []).
Proof.
  intros Hlt Hp Hc. cbn [take_followers]. rewrite (proj2 (Z.ltb_lt _ _)) by assumption.
  rewrite Hp, Hc. unfold followed. rewrite abandoned_waiting.
  destruct (waiting (ln_env l) x); cbn [negb]; [reflexivity |]. rewrite app_nil_r.
  unfold QueueSet_finish_entry. destruct (QueueSet_slot_index q queue); reflexivity.
Qed.

Lemma take_followers_spec fuel queue leader i : forall l fs entries,
  QueueSet_slot_index (ln_queues l) queue = Ok i -> views (ln_queues l) !! i = Some entries ->
  0 <= ln_maximum_coalesced l -> zlen fs <= ln_maximum_coalesced l ->
  let '(fs', l') := take_followers fuel l queue leader fs in
  exists prefix rest more, fs' = fs ++ more /\ taken (ln_env l) leader entries prefix rest more /\
    zlen fs' <= ln_maximum_coalesced l /\
    views (ln_queues l') = <[i := rest]> (views (ln_queues l)) /\
    QueueSet_slot_index (ln_queues l') queue = Ok i /\ ln_env l' = ln_env l.
Proof.
  induction fuel as [| fuel IH]; intros l fs entries Hi He Hm Hfs;
    (assert (Stop : exists prefix rest more, fs = fs ++ more /\
        taken (ln_env l) leader entries prefix rest more /\ zlen fs <= ln_maximum_coalesced l /\
        views (ln_queues l) = <[i := rest]> (views (ln_queues l)) /\
        QueueSet_slot_index (ln_queues l) queue = Ok i /\ ln_env l = ln_env l);
     [exists [], entries, []; rewrite app_nil_r; repeat split; auto; symmetry; apply list_insert_id, He |]).
  { exact Stop. }
  destruct (Z.ltb_spec (zlen fs) (ln_maximum_coalesced l)) as [Hlt | Hge].
  2: { cbn [take_followers]. rewrite (proj2 (Z.ltb_ge _ _)) by assumption. exact Stop. }
  pose proof (pop_from_views (ln_queues l) queue i entries Hi He) as Hp.
  destruct (QueueSet_pop_from (ln_queues l) queue) as [[x |] q] eqn:Epop.
  2: { cbn [take_followers]. rewrite (proj2 (Z.ltb_lt _ _)), Epop by assumption. exact Stop. }
  destruct Hp as (rest & -> & Hv & Hix).
  pose proof (lookup_lt_Some _ _ _ He) as Hlen.
  destruct (requests_can_coalesce leader x) eqn:Hc.
  - destruct (followed_facts l q queue leader x) as (Fv & Fi & Fm & Fe).
    pose proof (IH (followed l q queue leader x) (fs ++ if waiting (ln_env l) x then [x] else []) rest) as I.
    rewrite Fv, Fi, Hix, Hv, Fm, Fe, list_lookup_insert_eq in I by assumption.
    rewrite (take_followers_step fuel l queue leader fs x q Hlt Epop Hc).
    destruct (take_followers fuel _ queue leader _) as [fs' l'].
    destruct I as (prefix & rest' & more & -> & (-> & -> & Hall) & Hlen' & Hv' & Hi' & He'); auto.
    { rewrite zlen_app. destruct (waiting (ln_env l) x); unfold zlen in *; cbn [length]; lia. }
    exists (x :: prefix), rest'. eexists. rewrite <- app_assoc. split; [reflexivity |].
    split; [split; [reflexivity | split; [| constructor; [exact Hc | exact Hall]]] |].
    + rewrite filter_cons. destruct (waiting (ln_env l) x); [rewrite decide_True by reflexivity |
        rewrite decide_False by discriminate]; reflexivity.
    + rewrite app_assoc. split; [exact Hlen' |]. split; [| auto]. rewrite Hv'. apply list_insert_insert_eq.
  - cbn [take_followers]. rewrite (proj2 (Z.ltb_lt _ _)), Epop, Hc by assumption.
    exists [], (x :: rest), []. rewrite app_nil_r. split; [reflexivity |].
    split; [repeat split; constructor |]. split; [lia |].
    cbn [with_queues ln_queues ln_env]. split; [| split; [| reflexivity]].
    + rewrite (views_push_front q queue i) by (rewrite Hix; exact Hi). rewrite Hv.
      apply alter_insert.
    + unfold QueueSet_push_front. rewrite Hix, Hi. cbn. exact (eq_trans (Hix queue) Hi).
Qed.

(** C29. Coalescing keeps the queue in order. The followers taken for a leader come off the
    front of its queue, are requests equal to the leader's with the same policy and no prefix,
    for a leader that only reads and has no prefix itself, no more than configured; the jobs
    skipped over are those nobody waits for. When the exchange fails, putting the followers back
    restores the queue as it was without the abandoned jobs; other queues are not touched. *)
Theorem coalescing_keeps_order l queue leader i entries :
  0 <= ln_maximum_coalesced l ->
  QueueSet_slot_index (ln_queues l) queue = Ok i -> views (ln_queues l) !! i = Some entries ->
  let '(fs, l1) := take_coalescible_followers l queue leader in
  exists prefix rest,
    entries = prefix ++ rest /\ fs = filter (fun job => waiting (ln_env l) job = true) prefix /\
    Forall (fun job => job_request job = job_request leader /\ job_policy job = job_policy leader /\
                       job_transmit_prefix job = []) prefix /\
    (prefix <> [] -> resolved_safety (job_request leader) = ReadOnly /\
                     job_transmit_prefix leader = []) /\
    zlen fs <= ln_maximum_coalesced l /\
    views (ln_queues l1) = <[i := rest]> (views (ln_queues l)) /\
    views (ln_queues (requeue_followers l1 queue fs)) = <[i := fs ++ rest]> (views (ln_queues l)).
Proof.
  intros Hm Hi He. unfold take_coalescible_followers.
  destruct (negb _ || negb _ || (ln_maximum_coalesced l =? 0)) eqn:G.
  { exists [], entries. split; [reflexivity |]. split; [reflexivity |]. split; [constructor |].
    split; [congruence |]. split; [exact Hm |].
    assert (Id : views (ln_queues l) = <[i := entries]> (views (ln_queues l)))
      by (symmetry; apply list_insert_id, He).
    split; exact Id. }
  apply orb_false_iff in G as [G _]. apply orb_false_iff in G as [G1 G2].
  apply negb_false_iff, bool_decide_eq_true in G1. apply negb_false_iff, bool_decide_eq_true in G2.
  pose proof (take_followers_spec (Datatypes.S (length (entries_of (ln_queues l) queue))) queue leader i
                l [] entries Hi He Hm Hm) as T.
  destruct (take_followers _ l queue leader []) as [fs l1].
  destruct T as (prefix & rest & more & -> & (-> & -> & Hall) & Hlen & Hv & Hi1 & _).
  exists prefix, rest. cbn [app] in *. split; [reflexivity |]. split; [reflexivity |].
  split; [| split; [auto | split; [exact Hlen | split; [exact Hv |]]]].
  - eapply Forall_impl; [exact Hall |]. intros job Hc. unfold requests_can_coalesce in Hc.
    rewrite !andb_true_iff, !bool_decide_eq_true in Hc. tauto.
  - unfold requeue_followers. cbn [with_queues ln_queues].
    rewrite (requeue_views _ _ _ i rest) by
      (try exact Hi1; rewrite Hv; apply list_lookup_insert_eq; eapply lookup_lt_Some, He).
    rewrite Hv. apply list_insert_insert_eq.
Qed.
End Coalesce.

(** ** Configuration *)

(** The values the fields of a configuration can have. *)
Definition config_typed (c : LinkConfig) : Prop :=
  0 <= lc_queue_capacity c /\ 0 <= lc_read_buffer_size c /\ 0 <= buffer_capacity (lc_decoder c) /\
  is_u8 (minimum_preambles (lc_decoder c)).

Lemma LinkConfig_validate_Ok c :
  config_typed c ->
  LinkConfig_validate c = Ok tt <->
  1 <= lc_queue_capacity c <= MAXIMUM_QUEUE_CAPACITY /\
  1 <= lc_read_buffer_size c <= MAXIMUM_LINK_READ_BUFFER /\
  1 <= minimum_preambles (lc_decoder c) /\ bad_source_node (checksum_policy (lc_decoder c)) = false /\
  required_decoder_capacity (minimum_preambles (lc_decoder c)) <= buffer_capacity (lc_decoder c)
    <= MAXIMUM_LINK_DECODER_BUFFER.
Proof.
  intros (T1 & T2 & T3 & T4). unfold LinkConfig_validate.
  assert (0 < required_decoder_capacity (minimum_preambles (lc_decoder c))).
  { unfold required_decoder_capacity, is_u8, u8_max in *; unfold MAX_ENCODED_FRAME_SIZE. lia. }
  destruct (Z.eqb_spec (lc_queue_capacity c) 0); [split; [discriminate | lia] |].
  destruct (Z.ltb_spec MAXIMUM_QUEUE_CAPACITY (lc_queue_capacity c)); [split; [discriminate | lia] |].
  destruct (Z.eqb_spec (lc_read_buffer_size c) 0); [split; [discriminate | lia] |].
  destruct (Z.ltb_spec MAXIMUM_LINK_READ_BUFFER (lc_read_buffer_size c)); [split; [discriminate | lia] |].
  destruct (Z.eqb_spec (buffer_capacity (lc_decoder c)) 0); [split; [discriminate | lia] |].
  unfold is_u8 in T4.
  destruct (Z.eqb_spec (minimum_preambles (lc_decoder c)) 0); [split; [discriminate | lia] |].
  destruct (bad_source_node _); [split; [discriminate | intros (_ & _ & _ & ? & _); discriminate] |].
  destruct (Z.ltb_spec MAXIMUM_LINK_DECODER_BUFFER (buffer_capacity (lc_decoder c)));
    [split; [discriminate | lia] |].
  destruct (Z.ltb_spec (buffer_capacity (lc_decoder c))
              (required_decoder_capacity (minimum_preambles (lc_decoder c))));
    [split; [discriminate | lia] |].
  split; [intros _; repeat split; lia | reflexivity].
Qed.

Lemma frame_fits f l :
  Frame_encode f = Ok l -> 0 <= frame_preambles f ->
  zlen l <= required_decoder_capacity (frame_preambles f).
Proof.
  intros (He & Hp & ->)%Frame_encode_Ok_inv Hpre.
  pose proof (Frame_body_length f) as Hb. rewrite !zlen_app. unfold zlen in *.
  rewrite length_replicate. cbn [length]. rewrite Z2Nat.id by assumption.
  unfold required_decoder_capacity, MAX_ENCODED_FRAME_SIZE, u8_max.
  destruct (frame_address f); cbn [Address_encoded_len] in Hb; lia.
Qed.

Lemma create_link_config_typed c : config_typed c -> config_typed (create_link_config c).
Proof.
  intros (T1 & T2 & T3 & T4). unfold create_link_config, config_typed, clamp, is_u8 in *.
  cbn [lc_queue_capacity lc_read_buffer_size lc_decoder buffer_capacity minimum_preambles].
  unfold MAXIMUM_QUEUE_CAPACITY, MAXIMUM_LINK_READ_BUFFER, required_decoder_capacity,
    MAX_ENCODED_FRAME_SIZE, u8_max. lia.
Qed.

Lemma default_layout_ok capacity :
  1 <= capacity <= MAXIMUM_QUEUE_CAPACITY -> exists layout, default_layout capacity = Some layout.
Proof.
  intros Hc. unfold default_layout, QueueConfig_weighted, QueueConfig_new. cbn [QueuePriority_weighted Z.eqb result_bind].
  destruct (Z.eqb_spec capacity 0); [lia |].
  destruct (Z.ltb_spec MAXIMUM_QUEUE_CAPACITY capacity); [lia |]. eauto.
Qed.

Lemma retry_runtime_ok p instant_max now :
  RetryPolicy_validate_runtime p instant_max now = Ok tt ->
  (rp_response_timeout p <> 0 /\ rp_response_timeout p <= MAXIMUM_RETRY_DURATION) /\
  (rp_total_timeout p <> 0 /\ rp_total_timeout p <= MAXIMUM_RETRY_DURATION) /\
  now + rp_total_timeout p <= instant_max.
Proof.
  unfold RetryPolicy_validate_runtime, RetryPolicy_validate.
  destruct (Z.eqb_spec (rp_response_timeout p) 0); [discriminate |].
  destruct (Z.eqb_spec (rp_total_timeout p) 0); [discriminate |]. cbn [result_bind].
  destruct (Z.ltb_spec MAXIMUM_RETRY_DURATION (rp_response_timeout p)); [discriminate |].
  destruct (Z.ltb_spec MAXIMUM_RETRY_DURATION (rp_total_timeout p)); [discriminate |].
  destruct (MAXIMUM_RETRY_DURATION <? rp_retry_delay p); [discriminate |].
  unfold instant_checked_add. destruct (_ <=? instant_max); [| discriminate]. cbn [ok_or result_bind].
  destruct (Z.leb_spec (now + rp_total_timeout p) instant_max); [| discriminate].
  intros _. lia.
Qed.

(** Link configuration. [create_link] turns any configuration into a valid one; a valid
    configuration's decoder can hold the largest frame that arrives with the least preambles;
    and building a link never panics: it fails with an error, or yields a queue layout with
    distinct queues that contains the default one, and timeouts within the hard limits. *)
Theorem link_configuration_is_safe c b instant_max now :
  config_typed c -> config_typed (lb_config b) ->
  LinkConfig_validate (create_link_config c) = Ok tt /\
  default_runtime_options (create_link_config c) <> None /\
  (LinkConfig_validate c = Ok tt -> forall f l,
     Frame_encode f = Ok l -> frame_preambles f = minimum_preambles (lc_decoder c) ->
     zlen l <= buffer_capacity (lc_decoder c)) /\
  match LinkBuilder_build b instant_max now with
  | None => False
  | Some (Err _) => True
  | Some (Ok options) =>
      NoDup (qc_id <$> ro_queue_layout options) /\
      (ro_default_queue options ∈ qc_id <$> ro_queue_layout options) /\
      (rp_response_timeout (ro_default_retry options) <> 0 /\ rp_response_timeout (ro_default_retry options) <= MAXIMUM_RETRY_DURATION) /\
      now + rp_total_timeout (ro_default_retry options) <= instant_max /\
      ro_late_response_guard options <= MAXIMUM_LATE_RESPONSE_GUARD
  end.
Proof.
  intros Tc Tb. pose proof (create_link_config_typed c Tc) as Tc'.
  assert (V : LinkConfig_validate (create_link_config c) = Ok tt).
  { apply LinkConfig_validate_Ok; [exact Tc' |]. destruct Tc as (T1 & T2 & T3 & T4).
    unfold create_link_config, clamp, is_u8 in *.
    cbn [lc_queue_capacity lc_read_buffer_size lc_decoder buffer_capacity minimum_preambles checksum_policy].
    unfold required_decoder_capacity, MAX_ENCODED_FRAME_SIZE, u8_max, MAXIMUM_LINK_DECODER_BUFFER,
      MAXIMUM_DECODE_BUFFER_CAPACITY, MAXIMUM_QUEUE_CAPACITY, MAXIMUM_LINK_READ_BUFFER.
    repeat split; try lia. unfold normalized_checksum_policy.
    destruct (checksum_policy (lc_decoder c)) as [| bit [node |]]; try reflexivity.
    destruct (63 <? node) eqn:En; [reflexivity | exact En]. }
  split; [exact V |]. split; [| split].
  - apply LinkConfig_validate_Ok in V as (Hq & _); [| exact Tc'].
    destruct (default_layout_ok _ Hq) as [layout El]. unfold default_runtime_options. rewrite El. discriminate.
  - intros Vc f l Hf Hpre. apply LinkConfig_validate_Ok in Vc as (_ & _ & Hmin & _ & Hcap); [| exact Tc].
    pose proof (frame_fits f l Hf ltac:(lia)). rewrite Hpre in *. lia.
  - unfold LinkBuilder_build.
    destruct (LinkConfig_validate (lb_config b)) as [[] |] eqn:Vb; [| exact I].
    destruct (RetryPolicy_validate_runtime _ _ _) as [[] |] eqn:Vr; [| exact I].
    destruct (lb_event_capacity b =? 0); [exact I |].
    destruct (MAXIMUM_LINK_EVENT_CAPACITY <? _); [exact I |].
    destruct (Z.ltb_spec MAXIMUM_LATE_RESPONSE_GUARD (lb_late_response_guard b)); [exact I |].
    apply LinkConfig_validate_Ok in Vb as (Hq & _); [| exact Tb].
    destruct (default_layout_ok _ Hq) as [layout El]. rewrite El.
    set (chosen := match lb_queue_layout b with Some _ => _ | None => _ end).
    assert (Ech : exists q, chosen = Some q) by (unfold chosen; destruct (lb_queue_layout b); eauto).
    destruct Ech as [q ->]. destruct (validate_layout q (lb_default_queue b)) as [[] |] eqn:Vl; [| exact I].
    apply validate_layout_ok in Vl as (Hnd & Hin & _). cbn [ro_queue_layout ro_default_queue ro_default_retry ro_late_response_guard].
    split; [exact Hnd |]. split; [exact Hin |].
    destruct (retry_runtime_ok _ _ _ Vr) as (R1 & R2 & R3). auto.
Qed.

(** ** Admission *)

Section Admission.
Context {S : Type} `{Semaphore S}.
Implicit Types c : LinkClient S.

(** A refused push leaves every entry where it was; an accepted one appends. *)
Lemma try_push_views (q : QueueSet Job S) queue job :
  match QueueSet_try_push q queue job with
  | (Ok _, q') =>
      exists i, QueueSet_slot_index q queue = Ok i /\ set_runner_closed q = false /\
        views q' = alter (fun entries => entries ++ [job]) i (views q)
  | (Err _, q') => views q' = views q
  end.
Proof.
  unfold QueueSet_try_push. destruct (QueueSet_slot_index q queue) as [i |] eqn:Hi; [| reflexivity].
  destruct (set_slots q !! i) as [slot |]; [| reflexivity].
  destruct (set_runner_closed q) eqn:Hc; [reflexivity |].
  destruct (sem_try_acquire (slot_permits slot)) as [[] permits]; try reflexivity.
  unfold QueueSet_finish_push. cbn [update_slot with_slots set_runner_closed]. rewrite Hc.
  exists i. split; [reflexivity |]. split; [reflexivity |].
  rewrite (views_update _ _ queued_add id) by reflexivity.
  rewrite list_alter_id by reflexivity.
  rewrite (views_update _ _ (push_back job) (fun entries => entries ++ [job])) by reflexivity.
  f_equal. change (views (update_slot q i (with_permits permits)) = views q).
  rewrite (views_update _ _ _ id) by reflexivity. apply list_alter_id. reflexivity.
Qed.

Lemma make_job_spec c request prefix queue policy instant_max now later ticket :
  match LinkClient_make_job c request prefix queue policy instant_max now later ticket with
  | (Ok job, c') =>
      cl_queues c' = cl_queues c /\
      RetryPolicy_validate_runtime policy instant_max now = Ok tt /\ Request_validate request = Ok tt /\
      CommandPolicy_admits (cl_command_policy c)
        (mkContext request (resolved_safety request) (catalog_safety request) queue) = true /\
      later + rp_total_timeout policy <= instant_max /\
      job = mkJob (fetch_add (cnt_next_id (cl_counters c))) request prefix policy
              (later + rp_total_timeout policy) (Some ticket)
  | (Err e, c') =>
      cl_queues c' = cl_queues c /\
      (CommandPolicy_admits (cl_command_policy c)
         (mkContext request (resolved_safety request) (catalog_safety request) queue) = false ->
       RetryPolicy_validate_runtime policy instant_max now = Ok tt ->
       Request_validate request = Ok tt ->
       e = StartCommandDenied (CommandCode_get (req_command request)) (resolved_safety request) queue)
  end.
Proof.
  unfold LinkClient_make_job.
  destruct (RetryPolicy_validate_runtime _ _ _) as [[] |]; [| split; [reflexivity | discriminate]].
  destruct (Request_validate request) as [[] |]; [| split; [reflexivity | discriminate]].
  destruct (CommandPolicy_admits _ _) eqn:Ha; cbn [negb]; [| split; [reflexivity | auto]].
  destruct (_ <? zlen prefix); [split; [reflexivity | discriminate] |]. cbn zeta.
  unfold instant_checked_add. destruct (Z.leb_spec (later + rp_total_timeout policy) instant_max);
    [| split; [reflexivity | discriminate]].
  repeat split; auto.
Qed.

(** C39. Admission. A request is accepted only when its policy and its frame are valid, the
    requested and the routed queue exist, and the command policy admits it for the routed queue;
    it is then the last entry of exactly that queue, with the deadline of its policy. A refused
    request leaves every queue's entries as they were; and under the read-only policy what is
    accepted is registered as read-only, whatever the request declares of itself. *)
Theorem admission_is_exact c request requested policy instant_max now later ticket :
  match LinkClient_try_start c request requested policy instant_max now later ticket with
  | (Ok id, c') =>
      exists queue i job,
        QueueSet_contains (cl_queues c) requested = true /\
        queue = CommandRouting_route (cl_command_routing c)
                  (mkContext request (resolved_safety request) (catalog_safety request) requested) /\
        QueueSet_slot_index (cl_queues c) queue = Ok i /\
        CommandPolicy_admits (cl_command_policy c)
          (mkContext request (resolved_safety request) (catalog_safety request) queue) = true /\
        RetryPolicy_validate_runtime policy instant_max now = Ok tt /\
        Request_validate request = Ok tt /\
        job = mkJob id request [] policy (later + rp_total_timeout policy) (Some ticket) /\
        views (cl_queues c') = alter (fun entries => entries ++ [job]) i (views (cl_queues c)) /\
        (cl_command_policy c = CommandPolicy_read_only -> catalog_safety request = Some ReadOnly)
  | (Err _, c') => views (cl_queues c') = views (cl_queues c)
  end.
Proof.
  unfold LinkClient_try_start, LinkClient_resolve_queue.
  destruct (QueueSet_contains (cl_queues c) requested) eqn:Hr; cbn [negb]; [| reflexivity].
  set (queue := CommandRouting_route _ _).
  destruct (QueueSet_contains (cl_queues c) queue); cbn [negb]; [| reflexivity].
  pose proof (make_job_spec c request [] queue policy instant_max now later ticket) as Hj.
  destruct (LinkClient_make_job c request [] queue policy instant_max now later ticket) as [[job | e] c1];
    [| destruct Hj as [-> _]; reflexivity].
  destruct Hj as (Eq & Hp & Hv & Ha & _ & ->). cbn [job_id job_request].
  set (job := mkJob _ _ _ _ _ _).
  pose proof (try_push_views (cl_queues c1) queue job) as Ht.
  destruct (QueueSet_try_push (cl_queues c1) queue job) as [[u | e] q'];
    cbn [with_queues cl_queues emit]; rewrite Eq in Ht; [| exact Ht].
  destruct Ht as (i & Hi & _ & Hviews). exists queue, i, job.
  repeat (split; [first [reflexivity | assumption] |]).
  intros Epol. rewrite Epol in Ha. apply bool_decide_eq_true in Ha. exact Ha.
Qed.
End Admission.

(** ** Witnesses *)

Definition demo_follower (id : Z) : Job :=
  mkJob id demo_request [] RetryPolicy_default (8 * NANOS_PER_SECOND) (Some id).

Definition demo_queue : QueueSet Job CountingSemaphore :=
  (QueueSet_try_push
     (QueueSet_try_push (QueueSet_new [mkQueueConfig QueueId_DEFAULT 4 (Weighted 1)])
        QueueId_DEFAULT (demo_follower 8)).2
     QueueId_DEFAULT (demo_follower 9)).2.

Definition demo_link : LinkRunner Script CountingSemaphore ListChannel :=
  with_queues (demo_runner []) demo_queue.

Definition demo_taken := take_coalescible_followers demo_link QueueId_DEFAULT demo_job.

Lemma coalescing_keeps_order_witness :
  exists prefix rest, [demo_follower 8; demo_follower 9] = prefix ++ rest /\
    views (ln_queues (requeue_followers demo_taken.2 QueueId_DEFAULT demo_taken.1))
    = <[0%nat := demo_taken.1 ++ rest]> (views demo_queue).
Proof.
  pose proof (coalescing_keeps_order demo_link QueueId_DEFAULT demo_job 0
                [demo_follower 8; demo_follower 9] ltac:(cbn; lia) eq_refl eq_refl) as T.
  fold demo_taken in T. rewrite (surjective_pairing demo_taken) in T.
  destruct T as (prefix & rest & He & _ & _ & _ & _ & _ & Hq). exists prefix, rest. auto.
Defined.

(** Both followers are taken, and both are put back. *)
Example demo_followers :
  demo_taken.1 = [demo_follower 8; demo_follower 9] /\
  views (ln_queues demo_taken.2) = [[]] /\
  views (ln_queues (requeue_followers demo_taken.2 QueueId_DEFAULT demo_taken.1))
  = [[demo_follower 8; demo_follower 9]].
Proof. vm_compute. auto. Qed.

Lemma link_configuration_is_safe_witness :
  LinkConfig_validate (create_link_config (mkLinkConfig 0 0 (mkLimits 0 0 (KnownGateway true (Some 99))))) = Ok tt.
Proof.
  refine (proj1 (link_configuration_is_safe
    (mkLinkConfig 0 0 (mkLimits 0 0 (KnownGateway true (Some 99)))) LinkBuilder_new u64_max 0 _ _)).
  - unfold config_typed, is_u8. cbn. lia.
  - unfold config_typed, is_u8. cbn. lia.
Defined.
