(* ===== verification/RunMoves.v ===== *)
(** * Where the jobs of a runner go

    Along a run, a job is in a queue, held by the runner, or settled: cancelled because nobody
    waits for it, or completed or failed with one answer on its reply channel. Every operation
    of [LinkRunner] only moves jobs from one of the three to the next. *)
From stdpp Require Import gmap.
From S2P Require Import Prelude Wire Decoder Catalog Codec Operation QueueSet QueueRuns QueueSched Burst BurstProps.
From S2P Require Import Link LinkRunner ExchangeProps LinkProps.

(** ** The jobs in the queues *)

Lemma concat_insert {A} (l : list (list A)) i x y :
  l !! i = Some x ->
  exists pre post, concat l = pre ++ x ++ post /\ concat (<[i := y]> l) = pre ++ y ++ post.
Proof.
  intros Hi. exists (concat (take i l)), (concat (drop (Datatypes.S i) l)).
  pose proof (lookup_lt_Some _ _ _ Hi). split.
  - rewrite <- (take_drop_middle l i x Hi) at 1. by rewrite concat_app.
  - rewrite insert_take_drop by done. by rewrite concat_app.
Qed.

Lemma bind_single {A B} (f : A -> B) (l : list A) : (l ≫= fun x => [f x]) = f <$> l.
Proof. induction l as [|x l IH]; [done|]. cbn. by f_equal. Qed.

Lemma bind_option {A B} (f : A -> option B) (l : list A) : (l ≫= fun x => option_list (f x)) = omap f l.
Proof.
  induction l as [|x l IH]; [done|]. cbn. cbn in IH. rewrite IH. by destruct (f x).
Qed.

Section Queues.
Context {S : Type} `{Semaphore S}.
Implicit Types q : QueueSet Job S.

Definition waiting_jobs q : list Job := concat (views q).

(** The same queues with other jobs in them. *)
Record framed q q' : Prop := {
  fr_index : set_indices q' = set_indices q;
  fr_ids : slot_id <$> set_slots q' = slot_id <$> set_slots q;
  fr_input : set_input_closed q' = set_input_closed q;
}.

Lemma framed_refl q : framed q q.
Proof. done. Qed.

Lemma framed_trans q1 q2 q3 : framed q1 q2 -> framed q2 q3 -> framed q1 q3.
Proof. intros [] []. split; congruence. Qed.

Lemma framed_update q i f : (forall s, slot_id (f s) = slot_id s) -> framed q (update_slot q i f).
Proof. intros Hf. split; try done. apply slots_update_ids. auto. Qed.

(** A queue that is there. *)
Definition present q (queue : QueueId) : Prop :=
  exists i s, QueueSet_slot_index q queue = Ok i /\ set_slots q !! i = Some s.

Lemma framed_lookup q q' i s :
  framed q q' -> set_slots q !! i = Some s ->
  exists s', set_slots q' !! i = Some s' /\ slot_id s' = slot_id s.
Proof.
  intros [_ Hids _] Hs. assert (E : (slot_id <$> set_slots q') !! i = Some (slot_id s)).
  { by rewrite Hids, list_lookup_fmap, Hs. }
  rewrite list_lookup_fmap in E. apply fmap_Some in E as (s' & Hs' & E). by exists s'.
Qed.

Lemma framed_present q q' queue : framed q q' -> present q queue -> present q' queue.
Proof.
  intros Hf (i & s & Hi & Hs). destruct (framed_lookup _ _ _ _ Hf Hs) as (s' & Hs' & _).
  exists i, s'. unfold QueueSet_slot_index in *. by rewrite (fr_index _ _ Hf).
Qed.

(** Every slot is the one its identifier leads to. *)
Definition well_indexed q : Prop :=
  forall i s, set_slots q !! i = Some s -> set_indices q !! QueueId_get (slot_id s) = Some i.

Lemma framed_well_indexed q q' : framed q q' -> well_indexed q -> well_indexed q'.
Proof.
  intros Hf Hw i s' Hs'.
  assert (Hb : framed q' q) by (destruct Hf; by split).
  destruct (framed_lookup _ _ _ _ Hb Hs') as (s & Hs & Es).
  rewrite (fr_index _ _ Hf), <- Es. by apply Hw.
Qed.

Lemma views_lookup q i s : set_slots q !! i = Some s -> views q !! i = Some (slot_entries s).
Proof. intros Hs. unfold views. by rewrite list_lookup_fmap, Hs. Qed.

Lemma pop_front_conserves q i id x slots' :
  pop_front_at (set_slots q) i = Some (id, x, slots') ->
  waiting_jobs q ≡ₚ x :: waiting_jobs (with_slots q slots') /\ framed q (with_slots q slots')
  /\ is_Some (set_slots q !! i).
Proof.
  intros Hp. destruct (pop_front_at_inv _ _ _ _ _ Hp) as (s & rest & Hs & _ & He & ->).
  destruct (concat_insert (views q) i (slot_entries s) rest) as (pre & post & E1 & E2);
    [by apply views_lookup|].
  assert (Ev : views (with_slots q (<[i := with_entries s rest]> (set_slots q))) = <[i := rest]> (views q)).
  { unfold views. cbn. by rewrite list_fmap_insert. }
  split_and!.
  - unfold waiting_jobs. rewrite Ev, E1, E2, He. cbn. by rewrite <- Permutation_middle.
  - split; try done. cbn. rewrite list_fmap_insert. apply list_insert_id. by rewrite list_lookup_fmap, Hs.
  - by exists s.
Qed.

Lemma pop_from_conserves q queue x q' :
  QueueSet_pop_from q queue = (Some x, q') ->
  waiting_jobs q ≡ₚ x :: waiting_jobs q' /\ framed q q' /\ present q' queue.
Proof.
  unfold QueueSet_pop_from. destruct (QueueSet_slot_index q queue) as [i|] eqn:Ei; [|done].
  destruct (pop_front_at (set_slots q) i) as [[[id y] slots']|] eqn:Hp; [|done]. intros [= -> <-].
  destruct (pop_front_conserves q i id x slots' Hp) as (Hw & Hf & s & Hs). split_and!; [done|done|].
  apply (framed_present q); [done|]. by exists i, s.
Qed.

Lemma push_front_conserves q queue x :
  present q queue ->
  waiting_jobs (QueueSet_push_front q queue x) ≡ₚ x :: waiting_jobs q
  /\ framed q (QueueSet_push_front q queue x).
Proof.
  intros (i & s & Hi & Hs). split.
  - unfold waiting_jobs. rewrite (views_push_front q queue i) by done.
    pose proof (views_lookup q i s Hs) as Hv.
    destruct (concat_insert (views q) i (slot_entries s) (x :: slot_entries s) Hv) as (pre & post & E1 & E2).
    assert (Ea : alter (cons x) i (views q) = <[i := x :: slot_entries s]> (views q)).
    { rewrite list_insert_alter. apply list_alter_ext; [intros y Hy; congruence|done]. }
    rewrite Ea, E1, E2. cbn. by rewrite <- Permutation_middle.
  - unfold QueueSet_push_front. rewrite Hi. by apply framed_update.
Qed.

Lemma finish_conserves q queue x :
  waiting_jobs (QueueSet_finish_entry q queue x).2 = waiting_jobs q
  /\ framed q (QueueSet_finish_entry q queue x).2 /\ (QueueSet_finish_entry q queue x).1 = x.
Proof.
  split; [unfold waiting_jobs; by rewrite views_finish|].
  unfold QueueSet_finish_entry. destruct (QueueSet_slot_index q queue) as [i|]; [|done].
  split; [|done]. cbn [snd]. eapply framed_trans; by apply framed_update.
Qed.

Lemma finish_pair q queue x :
  QueueSet_finish_entry q queue x = (x, (QueueSet_finish_entry q queue x).2).
Proof.
  destruct (finish_conserves q queue x) as (_ & _ & Ex). rewrite <- Ex at 2. apply surjective_pairing.
Qed.

Lemma pop_weighted_popped (slots : list (QueueSlot Job S)) cursor popped cursor' :
  pop_weighted slots cursor = (Some popped, cursor') -> exists i, pop_front_at slots i = Some popped.
Proof.
  unfold pop_weighted. destruct (length slots =? 0)%nat; [done|].
  set (cur := if (_ <=? _)%nat then _ else cursor). set (index := cur_weighted_index cur).
  destruct (if within_quota slots index (cur_weighted_used cur) then _ else None) as [p|] eqn:E1.
  { intros [= <- _]. destruct (within_quota _ _ _); [by exists index|done]. }
  destruct (pop_scan _ _ _) as [[i p]|] eqn:E2.
  { intros [= <- _]. apply pop_scan_Some in E2 as (_ & _ & _ & _ & _ & Hp). by exists i. }
  destruct (slots !! index) as [s|]; [|done].
  destruct (is_weighted s); [|done]. destruct (pop_front_at slots index) as [p|] eqn:E3; [|done].
  intros [= <- _]. by exists index.
Qed.

Lemma pop_scheduled_conserves q cursor queue x q' cursor' :
  QueueSet_pop_scheduled q cursor = (Some (queue, x), q', cursor') ->
  waiting_jobs q ≡ₚ x :: waiting_jobs q' /\ framed q q' /\ (well_indexed q -> present q' queue).
Proof.
  assert (Hdone : forall i id y slots', pop_front_at (set_slots q) i = Some (id, y, slots') ->
    waiting_jobs q ≡ₚ y :: waiting_jobs (with_slots q slots') /\ framed q (with_slots q slots')
    /\ (well_indexed q -> present (with_slots q slots') id)).
  { intros i id y slots' Hp. destruct (pop_front_conserves q i id y slots' Hp) as (Hw & Hf & _).
    split_and!; [done|done|]. intros Hx. apply (framed_present q); [done|].
    destruct (pop_front_at_inv _ _ _ _ _ Hp) as (s & rest & Hs & <- & _).
    exists i, s. split; [|done]. unfold QueueSet_slot_index. by rewrite (Hx i s Hs). }
  unfold QueueSet_pop_scheduled. pose proof (pop_strict_cursor (set_slots q) cursor) as Hs.
  destruct (pop_strict (set_slots q) cursor) as [[[[id y] slots']|] c1].
  - destruct Hs as (i & s & r & _ & _ & Hp & _). intros [= <- <- <- _].
    by eapply Hdone.
  - destruct (pop_weighted (set_slots q) c1) as [[[[id y] slots']|] c2] eqn:Ew; [|done].
    apply pop_weighted_popped in Ew as [i Hp]. intros [= <- <- <- _].
    by eapply Hdone.
Qed.
End Queues.

(** ** What is no settlement *)

(** Transmissions, and events that do not end a request. *)
Definition bystander (x : Effect) : bool :=
  match x with
  | Transmit _ => true
  | Answer _ _ => false
  | Broadcast (LinkCancelled _ | LinkCompleted _ | LinkFailed _ _) => false
  | Broadcast _ => true
  end.

Section Aside.
Context {E S C : Type} `{Runtime E} `{Semaphore S} `{Mpsc C}.
Implicit Types l : LinkRunner E S C.

(** A piece of the runner that settles nothing and touches no queue. *)
Definition aside l l' : Prop :=
  ln_queues l' = ln_queues l
  /\ exists xs, ln_effects l' = xs ++ ln_effects l /\ Forall (fun x => bystander x = true) xs.

Lemma aside_same l l' : ln_queues l' = ln_queues l -> ln_effects l' = ln_effects l -> aside l l'.
Proof. intros E1 E2. split; [done|]. by exists []. Qed.

Lemma aside_trans l1 l2 l3 : aside l1 l2 -> aside l2 l3 -> aside l1 l3.
Proof.
  intros (Q1 & xs & E1 & F1) (Q2 & ys & E2 & F2). split; [congruence|]. exists (ys ++ xs).
  split; [by rewrite E2, E1, app_assoc|]. by apply Forall_app.
Qed.

Lemma aside_effect l x : bystander x = true -> aside l (effect l x).
Proof. intros Hx. split; [done|]. exists [x]. split; [done|by constructor]. Qed.

Lemma aside_now l : aside l (now l).2.
Proof. unfold now. destruct (rt_now (ln_env l)). by apply aside_same. Qed.

Lemma aside_publish l reply : aside l (publish_unsolicited l reply).
Proof.
  unfold publish_unsolicited. destruct (ln_burst_hub l) as [hub|]; [|by apply aside_effect].
  pose proof (aside_now l) as Hn. destruct (now l) as [t l1]. cbn [snd] in Hn.
  destruct (rt_system_now (ln_env l1)) as [r e]. eapply aside_trans; [exact Hn|].
  eapply aside_trans; [|by apply aside_effect]. by apply aside_same.
Qed.

Lemma aside_handle id req events : forall l, aside l (handle_events l id req events).2.
Proof.
  induction events as [|[frame|error] events IH]; intros l; cbn [handle_events]; [by apply aside_same| |].
  - destruct (is_echo frame req); [eapply aside_trans; [|apply IH]; by apply aside_effect|].
    destruct (DeviceReply_from_frame frame) as [reply|]; [|apply IH].
    destruct (rep_burst reply); [eapply aside_trans; [apply aside_publish|apply IH]|].
    destruct (matches_request reply req); [by apply aside_same|].
    eapply aside_trans; [|apply IH]. by apply aside_effect.
  - eapply aside_trans; [|apply IH]. by apply aside_effect.
Qed.

Lemma aside_receive fuel id req deadline : forall l, aside l (receive_loop fuel l id req deadline).2.
Proof.
  induction fuel as [|fuel IH]; intros l; cbn [receive_loop]; [by apply aside_same|].
  destruct (rt_receive _ _ _) as [[[[read buffer]|error]|] e]; [| |by apply aside_same].
  - cbn zeta. destruct (read =? 0); [by apply aside_same|]. destruct (_ <? read); [by apply aside_same|].
    destruct (FrameDecoder_push _ _) as [events d].
    pose proof (aside_handle id req events (with_decoder (with_env l e) d)) as Hh.
    destruct (handle_events _ id req events) as [[reply|] l']; cbn [snd] in Hh |- *.
    + eapply aside_trans; [|exact Hh]. by apply aside_same.
    + eapply aside_trans; [|apply IH]. eapply aside_trans; [|exact Hh]. by apply aside_same.
  - destruct (is_receive_timeout error); by apply aside_same.
Qed.

Lemma aside_once fuel l id req encoded deadline :
  aside l (exchange_once fuel l id req encoded deadline).2.
Proof.
  unfold exchange_once. destruct (rt_send _ _ _) as [[[u|error]|] e]; cbn [snd].
  - eapply aside_trans; [|apply aside_receive]. eapply aside_trans; [|by apply aside_effect]. by apply aside_same.
  - split; [done|]. exists [Transmit encoded]. split; [done|by constructor].
  - split; [done|]. exists [Transmit encoded]. split; [done|by constructor].
Qed.

Lemma aside_wait l delay deadline : aside l (wait_before_retry l delay deadline).2.
Proof.
  unfold wait_before_retry. destruct (delay =? 0); [by apply aside_same|].
  pose proof (aside_now l) as Hn. destruct (now l) as [t l1]. cbn [snd] in Hn.
  destruct (instant_checked_add _ _ _); [|done]. destruct (_ <=? _); [done|].
  eapply aside_trans; [exact Hn|]. by apply aside_same.
Qed.

Lemma aside_attempt l job limit a attempt : aside l (after_attempt l job limit a attempt).2.
Proof.
  unfold after_attempt.
  assert (Hw : forall event (a' : Attempts) delay deadline, bystander (Broadcast event) = true ->
    aside l (match wait_before_retry (broadcast l event) delay deadline with
             | (Err e, l) => (Finished (Err e), l) | (Ok _, l) => (Again a', l) end).2).
  { intros event a' delay deadline He. pose proof (aside_wait (broadcast l event) delay deadline) as Hw.
    destruct (wait_before_retry _ _ _) as [[] ?]; (eapply aside_trans; [|exact Hw]); by apply aside_effect. }
  destruct attempt as [reply|error].
  - destruct (_ =? 32); [destruct (_ <=? _); [by apply aside_same|by apply Hw]|].
    destruct (_ || _); [destruct (_ <=? _); [by apply aside_same|by apply Hw]|by apply aside_same].
  - destruct (_ && _); [by apply aside_effect|by apply aside_same].
Qed.

Lemma aside_loop attempts fuel job frame encoded limit : forall l a,
  aside l (exchange_loop attempts fuel l job frame encoded limit a).2.
Proof.
  induction attempts as [|attempts IH]; intros l a; cbn [exchange_loop]; [by apply aside_same|].
  pose proof (aside_now l) as Hn. destruct (now l) as [t l1]. cbn [snd] in Hn.
  set (deadline := Z.min _ _).
  pose proof (aside_once fuel l1 (job_id job) frame encoded deadline) as Ho.
  destruct (exchange_once _ _ _ _ _ _) as [[attempt|] l2]; cbn [snd] in Ho;
    [|exact (aside_trans _ _ _ Hn Ho)].
  pose proof (aside_attempt l2 job limit a attempt) as Ha.
  destruct (after_attempt _ _ _ _ _) as [[r|a'] l3]; cbn [snd] in Ha.
  - exact (aside_trans _ _ _ Hn (aside_trans _ _ _ Ho Ha)).
  - pose proof (aside_now l3) as Hn3. destruct (now l3) as [t3 l4]. cbn [snd] in Hn3.
    pose proof (aside_trans _ _ _ (aside_trans _ _ _ Hn Ho) (aside_trans _ _ _ Ha Hn3)) as H4.
    destruct (job_deadline job <=? t3); [exact H4|]. exact (aside_trans _ _ _ H4 (IH _ _)).
Qed.

Lemma aside_exchange attempts fuel l job : aside l (exchange attempts fuel l job).2.
Proof.
  unfold exchange. pose proof (aside_now l) as Hn. destruct (now l) as [t l1]. cbn [snd] in Hn.
  destruct (_ <=? t); [done|]. destruct (encode_job job) as [[frame encoded]|e]; [|done].
  eapply aside_trans; [exact Hn|apply aside_loop].
Qed.

Lemma aside_idle_events events : forall l, aside l (handle_idle_events l events).
Proof.
  induction events as [|[frame|error] events IH]; intros l; cbn [handle_idle_events]; [by apply aside_same| |].
  - destruct (DeviceReply_from_frame frame) as [reply|]; [|apply IH].
    destruct (rep_burst reply); (eapply aside_trans; [|apply IH]); [apply aside_publish|by apply aside_effect].
  - eapply aside_trans; [|apply IH]. by apply aside_effect.
Qed.

Lemma aside_idle l input : aside l (process_idle_input l input).2.
Proof.
  unfold process_idle_input. destruct input as [[read buffer]|error].
  - destruct (_ && _).
    + destruct (FrameDecoder_push _ _) as [events d]. cbn [snd].
      eapply aside_trans; [|apply aside_idle_events]. by apply aside_same.
    + destruct (read =? 0); by apply aside_effect.
  - destruct (is_receive_timeout error); [by apply aside_same|].
    destruct error; by apply aside_effect.
Qed.

Lemma aside_drain_loop fuel deadline : forall l l',
  drain_loop fuel l deadline = Some l' -> aside l l'.
Proof.
  induction fuel as [|fuel IH]; intros l l'; cbn [drain_loop]; [done|].
  destruct (rt_receive _ _ _) as [[input|] e]; [|intros [= <-]; by apply aside_same].
  pose proof (aside_idle (with_env l e) input) as Hi.
  destruct (process_idle_input _ input) as [[] l1]; cbn [snd] in Hi.
  - intros Hd%IH. eapply aside_trans; [|exact Hd]. eapply aside_trans; [|exact Hi]. by apply aside_same.
  - intros [= <-]. eapply aside_trans; [|by apply (aside_same l1)].
    eapply aside_trans; [|exact Hi]. by apply aside_same.
Qed.

Lemma aside_drain fuel l l' : drain_late_responses fuel l = Some l' -> aside l l'.
Proof.
  unfold drain_late_responses. destruct (_ =? 0); [intros [= <-]; by apply aside_same|].
  pose proof (aside_now l) as Hn. destruct (now l) as [t l1]. cbn [snd] in Hn.
  destruct (instant_checked_add _ _ _); [|by intros [= <-]].
  intros Hd%aside_drain_loop. by eapply aside_trans.
Qed.
End Aside.

(** ** Conservation

    Something every job carries ([w]) and every settlement shows ([m]) is never lost or made:
    what the effects show, what the queues carry and what the runner holds is one collection. *)

Section Settle.
Context {E S C X : Type} `{Runtime E} `{Semaphore S} `{Mpsc C}.
Implicit Types (l : LinkRunner E S C) (held : list Job).
Context (R : relation (list X)) (m : Effect -> list X) (w : Job -> list X).

(** [R] compares collections: the same, or a part. *)
Class Settlement : Prop := {
  set_preorder :: PreOrder R;
  set_perm : forall xs ys, xs ≡ₚ ys -> R xs ys;
  set_app : forall xs ys zs, R xs ys -> R (xs ++ zs) (ys ++ zs);
  set_aside : forall x, bystander x = true -> m x = [];
  set_nobody : forall job, job_reply job = None -> R (m (Broadcast (LinkCancelled (job_id job)))) (w job);
  set_left : forall (e : E) job ticket,
    job_reply job = Some ticket -> rt_reply_closed e ticket = true ->
    R (m (Broadcast (LinkCancelled (job_id job)))) (w job);
  set_completed : forall job ticket r,
    job_reply job = Some ticket -> R (m (Answer ticket r) ++ m (Broadcast (LinkCompleted (job_id job)))) (w job);
  set_failed : forall job ticket r reason,
    job_reply job = Some ticket ->
    R (m (Answer ticket r) ++ m (Broadcast (LinkFailed (job_id job) reason))) (w job);
}.
Context `{!Settlement}.

Definition carried held l : list X :=
  (ln_effects l ≫= m) ++ (waiting_jobs (ln_queues l) ≫= w) ++ (held ≫= w).

Definition moves held l held' l' : Prop :=
  R (carried held' l') (carried held l) /\ framed (ln_queues l) (ln_queues l').

Lemma moves_refl held l : moves held l held l.
Proof. by split. Qed.

Lemma moves_trans held1 held2 held3 l1 l2 l3 :
  moves held1 l1 held2 l2 -> moves held2 l2 held3 l3 -> moves held1 l1 held3 l3.
Proof. intros [P1 F1] [P2 F2]. split; [by etransitivity|]. by eapply framed_trans. Qed.

Lemma moves_same held l held' l' :
  carried held' l' ≡ₚ carried held l -> framed (ln_queues l) (ln_queues l') -> moves held l held' l'.
Proof. intros Hp Hf. split; [by apply set_perm|done]. Qed.

Lemma moves_held held held' l : held ≡ₚ held' -> moves held l held' l.
Proof. intros Hp. apply moves_same; [|done]. unfold carried. by rewrite Hp. Qed.

(** Effects that pay for a job. *)
Lemma moves_paid held l job xs l' :
  ln_queues l' = ln_queues l -> ln_effects l' = xs ++ ln_effects l -> R (xs ≫= m) (w job) ->
  moves (job :: held) l held l'.
Proof.
  intros Eq Ex Hx. split; [|by rewrite Eq]. unfold carried. rewrite Eq, Ex, bind_app, <- app_assoc.
  etransitivity; [apply set_app, Hx|]. apply set_perm. cbn. solve_Permutation.
Qed.

Lemma moves_aside held l l' : aside l l' -> moves held l held l'.
Proof.
  intros (Eq & xs & Ex & Hx). apply moves_same; [|by rewrite Eq].
  unfold carried. rewrite Eq, Ex, bind_app.
  assert (E0 : xs ≫= m = []).
  { clear Ex. induction Hx as [|x xs Hx _ IH]; [done|]. cbn. by rewrite IH, set_aside. }
  by rewrite E0.
Qed.

Lemma moves_pop held l queue x q :
  QueueSet_pop_from (ln_queues l) queue = (Some x, q) -> moves held l (x :: held) (with_queues l q).
Proof.
  intros (Hw & Hf & _)%pop_from_conserves. apply moves_same; [|done]. unfold carried. cbn. rewrite Hw. cbn.
  solve_Permutation.
Qed.

Lemma moves_push held l queue x :
  present (ln_queues l) queue ->
  moves (x :: held) l held (with_queues l (QueueSet_push_front (ln_queues l) queue x)).
Proof.
  intros (Hw & Hf)%(push_front_conserves _ _ x). apply moves_same; [|done].
  unfold carried. cbn. rewrite Hw. cbn. solve_Permutation.
Qed.

Lemma moves_finish held l queue x :
  moves held l held (with_queues l (QueueSet_finish_entry (ln_queues l) queue x).2).
Proof.
  destruct (finish_conserves (ln_queues l) queue x) as (Hw & Hf & _). apply moves_same; [|done].
  unfold carried. cbn. by rewrite Hw.
Qed.

Lemma moves_cancelled held l job :
  abandoned l job = true -> moves (job :: held) l held (mark_cancelled l (job_id job)).
Proof.
  intros Ha. eapply (moves_paid _ _ _ [_]); [done|done|]. cbn. rewrite app_nil_r.
  unfold abandoned in Ha. destruct (job_reply job) as [ticket|] eqn:Er; [|by apply set_nobody].
  by apply (set_left (ln_env l) job ticket).
Qed.

Lemma moves_left held l job ticket :
  job_reply job = Some ticket -> rt_reply_closed (ln_env l) ticket = true ->
  moves (job :: held) l held (mark_cancelled l (job_id job)).
Proof. intros Er Ec. apply moves_cancelled. unfold abandoned. by rewrite Er. Qed.

Lemma moves_completed held l job ticket r :
  job_reply job = Some ticket ->
  moves (job :: held) l held (effect (mark_completed l (job_id job)) (Answer ticket r)).
Proof.
  intros Er. eapply (moves_paid _ _ _ [_; _]); [done|done|]. cbn. rewrite app_nil_r. by apply set_completed.
Qed.

Lemma moves_failed held l job ticket r e :
  job_reply job = Some ticket ->
  moves (job :: held) l held (effect (mark_failed l (job_id job) e) (Answer ticket r)).
Proof.
  intros Er. eapply (moves_paid _ _ _ [_; _]); [done|done|]. cbn. rewrite app_nil_r. by apply set_failed.
Qed.

Lemma moves_followers fuel queue leader held : forall l fs,
  moves (fs ++ held) l ((take_followers fuel l queue leader fs).1 ++ held)
    (take_followers fuel l queue leader fs).2.
Proof.
  induction fuel as [|fuel IH]; intros l fs; cbn [take_followers]; [apply moves_refl|].
  destruct (_ <? _); [|apply moves_refl].
  destruct (QueueSet_pop_from (ln_queues l) queue) as [[x|] q] eqn:Ep; [|apply moves_refl].
  pose proof (moves_pop (fs ++ held) l queue x q Ep) as Hp.
  destruct (requests_can_coalesce leader x).
  - destruct (abandoned l x) eqn:Ea.
    + rewrite finish_pair.
      eapply moves_trans; [exact Hp|]. eapply moves_trans; [apply (moves_finish _ (with_queues l q))|].
      eapply moves_trans; [|apply IH]. by apply moves_cancelled.
    + eapply moves_trans; [exact Hp|]. eapply moves_trans; [|apply IH].
      apply moves_same; [|done]. unfold carried. cbn. rewrite set_aside by done. rewrite !bind_app. cbn.
      solve_Permutation.
  - eapply moves_trans; [exact Hp|]. apply (moves_push (fs ++ held) (with_queues l q)).
    by apply pop_from_conserves in Ep as (_ & _ & Hpr).
Qed.

Lemma moves_coalesce l queue leader held :
  moves held l ((take_coalescible_followers l queue leader).1 ++ held)
    (take_coalescible_followers l queue leader).2.
Proof.
  unfold take_coalescible_followers. destruct (_ || _); [apply moves_refl|]. apply moves_followers.
Qed.

Lemma moves_complete queue value held : forall followers l,
  moves (followers ++ held) l held (complete_followers l queue followers value).
Proof.
  induction followers as [|x followers IH]; intros l; cbn [complete_followers]; [apply moves_refl|].
  rewrite finish_pair. eapply moves_trans; [apply (moves_finish _ l queue x)|].
  set (l1 := with_queues l _). eapply moves_trans; [|apply IH]. cbn [app].
  destruct (job_reply x) as [ticket|] eqn:Er;
    [|apply moves_cancelled; unfold abandoned; by rewrite Er].
  destruct (rt_reply_closed (ln_env l1) ticket) eqn:Ec; [by eapply moves_left|].
  pose proof (aside_now l1) as Hn. destruct (now l1) as [t l2]. cbn [snd] in Hn.
  eapply moves_trans; [by apply moves_aside|].
  destruct (job_deadline x <=? t); [by apply moves_failed|by apply moves_completed].
Qed.

Lemma moves_requeue l queue followers held :
  present (ln_queues l) queue -> moves (followers ++ held) l held (requeue_followers l queue followers).
Proof.
  intros Hp. unfold requeue_followers. revert held.
  induction followers as [|x followers IH]; intros held;
    [destruct l; apply moves_refl|].
  cbn [rev app]. rewrite foldl_app. cbn [foldl].
  eapply moves_trans; [|eapply (moves_push held (with_queues l _) queue x)].
  - eapply moves_trans; [apply (moves_held _ (followers ++ x :: held)); solve_Permutation|apply IH].
  - cbn. eapply framed_present; [|exact Hp]. apply (IH []).
Qed.

Lemma moves_stopped held l job : moves (job :: held) l held (fail_stopped_job l job).
Proof.
  unfold fail_stopped_job. destruct (job_reply job) as [ticket|] eqn:Er;
    [|apply moves_cancelled; unfold abandoned; by rewrite Er].
  destruct (rt_reply_closed (ln_env l) ticket) eqn:Ec; [by eapply moves_left|by apply moves_failed].
Qed.

Lemma moves_drain_queue fuel queue held : forall l, moves held l held (drain_queue fuel l queue).
Proof.
  induction fuel as [|fuel IH]; intros l; cbn [drain_queue]; [apply moves_refl|].
  destruct (QueueSet_pop_from (ln_queues l) queue) as [[x|] q] eqn:Ep; [|apply moves_refl].
  rewrite finish_pair. eapply moves_trans; [|apply IH]. eapply moves_trans; [by eapply moves_pop|].
  eapply moves_trans; [apply (moves_finish _ (with_queues l q) queue x)|]. apply moves_stopped.
Qed.

Lemma moves_pending held l : moves held l held (fail_pending_jobs l).
Proof.
  unfold fail_pending_jobs. set (l1 := with_queues l _).
  assert (Hc : moves held l held l1).
  { unfold l1, QueueSet_close_runner. destruct (set_runner_closed (ln_queues l)); [by destruct l|].
    assert (Ev : forall slots : list (QueueSlot Job S),
      slot_entries <$> map QueueSlot_close slots = slot_entries <$> slots
      /\ slot_id <$> map QueueSlot_close slots = slot_id <$> slots).
    { induction slots as [|s slots [IH1 IH2]]; [done|]. cbn. by rewrite IH1, IH2. }
    destruct (Ev (set_slots (ln_queues l))) as [E1 E2].
    apply moves_same; [|by split]. unfold carried, waiting_jobs, views. cbn. by rewrite E1. }
  eapply moves_trans; [exact Hc|]. clear Hc. generalize (QueueSet_snapshots (ln_queues l1)) as snapshots.
  generalize l1 as l'. clear l1. intros l' snapshots. revert l'.
  induction snapshots as [|s snapshots IH]; intros l'; cbn [foldl]; [apply moves_refl|].
  eapply moves_trans; [apply moves_drain_queue|apply IH].
Qed.

(** A job is settled on the way: until then it is held, with some followers, and the
    settlement itself touches no queue. *)
Definition settles_in held entry l l' : Prop :=
  exists followers l1 l2,
    moves held l (entry :: followers) l1 /\ moves (entry :: followers) l1 followers l2 /\
    ln_queues l2 = ln_queues l1 /\ moves followers l2 [] l'.

Lemma settles_moves held entry l l' : settles_in held entry l l' -> moves held l [] l'.
Proof.
  intros (fs & l1 & l2 & K1 & K2 & _ & K3). eapply moves_trans; [exact K1|]. by eapply moves_trans.
Qed.

Lemma settles_after held held1 entry l l1 l' :
  moves held l held1 l1 -> settles_in held1 entry l1 l' -> settles_in held entry l l'.
Proof.
  intros K (fs & l2 & l3 & K1 & K2 & K3 & K4). exists fs, l2, l3.
  split_and!; [by eapply moves_trans|done|done|done].
Qed.

Lemma settles_now entry l l' :
  moves [entry] l [] l' -> ln_queues l' = ln_queues l -> settles_in [entry] entry l l'.
Proof. intros K Eq. exists [], l, l'. split_and!; [apply moves_refl|done|done|apply moves_refl]. Qed.

(** What becomes of the leader and of its followers after the exchange. *)
Lemma settles_answered queue followers entry ticket value l :
  job_reply entry = Some ticket ->
  settles_in (followers ++ [entry]) entry l
    (complete_followers
       (if rt_reply_closed (ln_env l) ticket then mark_cancelled l (job_id entry)
        else effect (mark_completed l (job_id entry)) (Answer ticket (Ok value))) queue followers value).
Proof.
  intros Er. set (l1 := if rt_reply_closed _ _ then _ else _). exists followers, l, l1. split_and!.
  - apply moves_held. solve_Permutation.
  - unfold l1. destruct (rt_reply_closed (ln_env l) ticket) eqn:Ec;
      [by eapply moves_left|by apply moves_completed].
  - unfold l1. by destruct (rt_reply_closed (ln_env l) ticket).
  - pose proof (moves_complete queue value [] followers l1) as K. by rewrite app_nil_r in K.
Qed.

Lemma settles_refused queue followers entry ticket error fuel l l' :
  job_reply entry = Some ticket -> present (ln_queues l) queue ->
  (let l := requeue_followers l queue followers in
   let l :=
     if rt_reply_closed (ln_env l) ticket then mark_cancelled l (job_id entry)
     else effect (mark_failed l (job_id entry) error) (Answer ticket (Err error)) in
   match error with
   | ExResponseTimeout => if ln_channel_usable l then drain_late_responses fuel l else Some l
   | _ => Some l
   end) = Some l' ->
  settles_in (followers ++ [entry]) entry l l'.
Proof.
  intros Er Hp. cbn zeta. set (l1 := requeue_followers l queue followers).
  set (l2 := if rt_reply_closed _ _ then _ else _). intros Hr. exists [], l1, l2. split_and!.
  - by apply moves_requeue.
  - unfold l2. destruct (rt_reply_closed (ln_env l1) ticket) eqn:Ec;
      [by eapply moves_left|by apply moves_failed].
  - unfold l2. by destruct (rt_reply_closed (ln_env l1) ticket).
  - assert (Hd : Some l2 = Some l' \/ drain_late_responses fuel l2 = Some l').
    { destruct error; auto. destruct (ln_channel_usable l2); auto. }
    destruct Hd as [[= <-]|Hd]; [apply moves_refl|]. apply moves_aside. by eapply aside_drain.
Qed.

Lemma settles_serve attempts fuel l queue entry l' :
  present (ln_queues l) queue -> serve_job attempts fuel l queue entry = Some l' ->
  settles_in [entry] entry l l'.
Proof.
  intros Hpr. unfold serve_job. rewrite finish_pair.
  pose proof (moves_finish [entry] l queue entry) as K1. set (l1 := with_queues l _) in *.
  destruct (job_reply entry) as [ticket|] eqn:Er.
  2: { intros [= <-]. eapply settles_after; [exact K1|]. apply settles_now; [|done].
       apply moves_cancelled. unfold abandoned. by rewrite Er. }
  destruct (rt_reply_closed (ln_env l1) ticket) eqn:Ec.
  { intros [= <-]. eapply settles_after; [exact K1|]. apply settles_now; [|done]. by eapply moves_left. }
  pose proof (aside_now l1) as Hn. destruct (now l1) as [t l2]. cbn [snd] in Hn.
  pose proof (moves_trans _ _ _ _ _ _ K1 (moves_aside _ _ _ Hn)) as K2. clear K1 Hn.
  destruct (job_deadline entry <=? t).
  { intros [= <-]. eapply settles_after; [exact K2|]. apply settles_now; [|done]. by apply moves_failed. }
  pose proof (moves_coalesce l2 queue entry [entry]) as K3.
  destruct (take_coalescible_followers l2 queue entry) as [followers l3]. cbn [fst snd] in K3.
  pose proof (moves_trans _ _ _ _ _ _ K2 K3) as K4. clear K2 K3. cbn zeta.
  set (l4 := broadcast _ _).
  assert (Ha : aside l3 l4) by by apply (aside_effect (with_counters l3 _)).
  pose proof (aside_exchange attempts fuel l4 entry) as Hx.
  destruct (exchange attempts fuel l4 entry) as [[[value|error]|] l5]; [| |done]; cbn [snd] in Hx;
    pose proof (moves_trans _ _ _ _ _ _ K4 (moves_aside _ _ _ (aside_trans _ _ _ Ha Hx))) as K5.
  - intros [= <-]. eapply settles_after; [exact K5|by apply settles_answered].
  - intros Hr. eapply settles_after; [exact K5|]. eapply settles_refused; [exact Er| |exact Hr].
    by eapply framed_present; [apply K5|].
Qed.

Lemma moves_serve attempts fuel l queue entry l' :
  present (ln_queues l) queue -> serve_job attempts fuel l queue entry = Some l' -> moves [entry] l [] l'.
Proof. intros Hp Hs. by eapply settles_moves, settles_serve. Qed.

Lemma moves_next fuel : forall l cursor l' cursor' r,
  next_job fuel l cursor = (Some r, l', cursor') ->
  moves [] l (match r with Some (_, entry) => [entry] | None => [] end) l'.
Proof.
  induction fuel as [|fuel IH]; intros l cursor l' cursor' r; cbn [next_job]; [done|].
  destruct (QueueSet_pop_scheduled (ln_queues l) cursor) as [[[[queue x]|] q] c1] eqn:Ep.
  { intros [= <- <- _]. apply pop_scheduled_conserves in Ep as (Hw & Hf & _). apply moves_same; [|done].
    unfold carried. cbn. rewrite Hw. cbn. solve_Permutation. }
  destruct (set_input_closed (ln_queues l)); [intros [= <- <- _]; apply moves_refl|].
  destruct (rt_idle _ _) as [[input|] e].
  - pose proof (aside_idle (with_env l e) input) as Hi.
    destruct (process_idle_input (with_env l e) input) as [[] l1]; cbn [snd] in Hi.
    + intros Hn%IH. eapply moves_trans; [|exact Hn]. apply moves_aside.
      eapply aside_trans; [|exact Hi]. by apply aside_same.
    + intros [= <- <- _]. apply moves_aside. eapply aside_trans; [|exact Hi]. by apply aside_same.
  - intros Hn%IH. eapply moves_trans; [|exact Hn]. apply moves_aside. by apply aside_same.
Qed.

Lemma next_present fuel : forall l cursor l' cursor' queue entry,
  well_indexed (ln_queues l) -> next_job fuel l cursor = (Some (Some (queue, entry)), l', cursor') ->
  present (ln_queues l') queue.
Proof.
  induction fuel as [|fuel IH]; intros l cursor l' cursor' queue entry Hx; cbn [next_job]; [done|].
  destruct (QueueSet_pop_scheduled (ln_queues l) cursor) as [[[[queue' x]|] q] c1] eqn:Ep.
  { intros [= <- <- <- _]. apply pop_scheduled_conserves in Ep as (_ & _ & Hp). by apply Hp. }
  destruct (set_input_closed (ln_queues l)); [done|].
  destruct (rt_idle _ _) as [[input|] e]; [|by apply IH].
  pose proof (aside_idle (with_env l e) input) as [Eq _].
  destruct (process_idle_input (with_env l e) input) as [[] l1]; [|done]. cbn in Eq.
  apply IH. by rewrite Eq.
Qed.

Lemma moves_run jobs attempts fuel : forall l cursor l',
  well_indexed (ln_queues l) -> run jobs attempts fuel l cursor = Some l' -> moves [] l [] l'.
Proof.
  induction jobs as [|jobs IH]; intros l cursor l' Hx; cbn [run]; [done|].
  destruct (next_job fuel l cursor) as [[[[[queue entry]|]|] l1] cursor1] eqn:En; [| |done];
    pose proof (moves_next fuel l cursor l1 cursor1 _ En) as Kn.
  2: { intros [= <-]. eapply moves_trans; [exact Kn|apply moves_pending]. }
  pose proof (next_present fuel l cursor l1 cursor1 queue entry Hx En) as Hp.
  destruct (serve_job attempts fuel l1 queue entry) as [l2|] eqn:Es; [|done].
  pose proof (moves_trans _ _ _ _ _ _ Kn (moves_serve attempts fuel l1 queue entry l2 Hp Es)) as K2.
  destruct (ln_channel_usable l2).
  - intros Hr. eapply moves_trans; [exact K2|]. eapply IH; [|exact Hr].
    by eapply framed_well_indexed; [apply K2|].
  - intros [= <-]. eapply moves_trans; [exact K2|apply moves_pending].
Qed.
End Settle.
