(* ===== verification/RunProps.v ===== *)
(** * The runner settles every request exactly once

    A run leaves no job behind, ends when its input does, and what it settles are the jobs that
    were waiting. *)
From stdpp Require Import gmap.
From S2P Require Import Prelude Wire Decoder Catalog Codec Operation QueueSet QueueRuns QueueSched Burst BurstProps.
From S2P Require Import Link LinkRunner ExchangeProps LinkProps RunMoves.

(** ** Nothing is left behind *)

Section Empty.
Context {E S C : Type} `{Runtime E} `{Semaphore S} `{Mpsc C}.
Implicit Types l : LinkRunner E S C.

Lemma stopped_queues l job : ln_queues (fail_stopped_job l job) = ln_queues l.
Proof.
  unfold fail_stopped_job. destruct (job_reply job); [|done]. by destruct (rt_reply_closed _ _).
Qed.

Lemma drain_queue_views queue i : forall entries l,
  QueueSet_slot_index (ln_queues l) queue = Ok i -> views (ln_queues l) !! i = Some entries ->
  views (ln_queues (drain_queue (length entries) l queue)) = <[i := []]> (views (ln_queues l)).
Proof.
  induction entries as [|x entries IH]; intros l Hi He; cbn [length drain_queue].
  { by rewrite list_insert_id. }
  pose proof (pop_from_views (ln_queues l) queue i _ Hi He) as Hp.
  destruct (QueueSet_pop_from (ln_queues l) queue) as [[y|] q]; [|done].
  destruct Hp as (rest & [= <- <-] & Hv & Hx). rewrite finish_pair.
  rewrite IH; rewrite stopped_queues; cbn [with_queues ln_queues].
  - by rewrite views_finish, Hv, list_insert_insert_eq.
  - by rewrite index_finish, Hx.
  - rewrite views_finish, Hv. apply list_lookup_insert_eq. by eapply lookup_lt_Some.
Qed.

Lemma entries_of_views l queue i entries :
  QueueSet_slot_index (ln_queues l) queue = Ok i -> views (ln_queues l) !! i = Some entries ->
  entries_of (ln_queues l) queue = entries.
Proof.
  intros Hi He. unfold entries_of, QueueSet_slot. rewrite Hi. cbn.
  unfold views in He. rewrite list_lookup_fmap in He. apply fmap_Some in He as (s & -> & ->). done.
Qed.

(** What is left to do is part of what there was to do. *)
#[local] Instance remaining : Settlement (E := E) submseteq (fun _ => []) (fun job => [job]).
Proof.
  split.
  - apply _.
  - intros xs ys ->. done.
  - intros xs ys zs Hs. by apply submseteq_app.
  - done.
  - intros. apply submseteq_nil_l.
  - intros. apply submseteq_nil_l.
  - intros. apply submseteq_nil_l.
  - intros. apply submseteq_nil_l.
Qed.

Lemma carried_remaining held l :
  carried (fun _ => []) (fun job => [job]) held l = waiting_jobs (ln_queues l) ++ held.
Proof.
  unfold carried.
  assert (E2 : forall xs : list Effect, (xs ≫= fun _ => []) = @nil Job).
  { induction xs as [|x xs IH]; [done|]. done. }
  by rewrite E2, !(bind_single id), !list_fmap_id.
Qed.

Lemma moves_waiting held l held' l' :
  moves submseteq (fun _ => []) (fun job => [job]) held l held' l' ->
  waiting_jobs (ln_queues l') ++ held' ⊆+ waiting_jobs (ln_queues l) ++ held.
Proof. intros [Hs _]. by rewrite !carried_remaining in Hs. Qed.

(** Serving a job leaves at most the others. *)
Lemma serve_waiting attempts fuel l queue entry l' :
  present (ln_queues l) queue -> serve_job attempts fuel l queue entry = Some l' ->
  waiting_jobs (ln_queues l') ⊆+ waiting_jobs (ln_queues l) /\ framed (ln_queues l) (ln_queues l').
Proof.
  intros Hp Hs.
  pose proof (settles_serve submseteq (fun _ => []) (fun job => [job]) _ _ _ _ _ _ Hp Hs) as Hi.
  split; [|apply (settles_moves _ _ _ _ _ _ _ Hi)].
  destruct Hi as (fs & l1 & l2 & K1%moves_waiting & _ & Eq & K3%moves_waiting).
  rewrite app_nil_r in K3. rewrite K3, Eq. apply (submseteq_app_inv_l _ _ [entry]).
  etransitivity; [|etransitivity; [exact K1|]]; apply Permutation_submseteq; solve_Permutation.
Qed.

Lemma drain_queue_framed fuel l queue : framed (ln_queues l) (ln_queues (drain_queue fuel l queue)).
Proof. exact (proj2 (moves_drain_queue submseteq (fun _ => []) (fun job => [job]) fuel queue [] l)). Qed.

Lemma empty_views (q : QueueSet Job S) : (forall i s, set_slots q !! i = Some s -> slot_entries s = []) -> waiting_jobs q = [].
Proof.
  unfold waiting_jobs, views. generalize (set_slots q). intros slots Hs.
  induction slots as [|s slots IH]; [done|]. cbn. rewrite (Hs 0%nat s eq_refl). cbn.
  apply IH. intros i. apply (Hs (Datatypes.S i)).
Qed.

Lemma drains_empty : forall ids l,
  Forall (present (ln_queues l)) ids -> well_indexed (ln_queues l) ->
  (forall i s, set_slots (ln_queues l) !! i = Some s -> slot_id s ∈ ids \/ slot_entries s = []) ->
  waiting_jobs (ln_queues (foldl (fun l id =>
    drain_queue (length (entries_of (ln_queues l) id)) l id) l ids)) = [].
Proof.
  induction ids as [|id ids IH]; intros l Hp Hx Hs; cbn [foldl].
  { apply empty_views. intros i s Hi. destruct (Hs i s Hi) as [Hin|]; [|done].
    by apply elem_of_nil in Hin. }
  apply Forall_cons in Hp as ((i & s & Hi & Hsi) & Hp).
  pose proof (views_lookup _ _ _ Hsi) as Hv. rewrite (entries_of_views l id i _ Hi Hv).
  pose proof (drain_queue_views id i _ l Hi Hv) as Hd.
  pose proof (drain_queue_framed (length (slot_entries s)) l id) as Hf.
  set (l1 := drain_queue _ l id) in *. apply IH.
  - eapply Forall_impl; [exact Hp|]. intros. by eapply framed_present.
  - by eapply framed_well_indexed.
  - intros j t' Ht'. assert (Hb : framed (ln_queues l1) (ln_queues l)) by (destruct Hf; by split).
    destruct (framed_lookup _ _ _ _ Hb Ht') as (t & Ht & Et). rewrite <- Et.
    pose proof (views_lookup _ _ _ Ht') as Hv'. rewrite Hd in Hv'.
    destruct (decide (j = i)) as [->|Hne].
    + rewrite list_lookup_insert_eq in Hv' by (by eapply lookup_lt_Some). right. congruence.
    + rewrite list_lookup_insert_ne, (views_lookup _ _ _ Ht) in Hv' by done.
      destruct (Hs j t Ht) as [Hin|He]; [|right; congruence].
      apply elem_of_cons in Hin as [Hid|]; [|by left]. exfalso. apply Hne.
      pose proof (Hx j t Ht) as Hj. unfold QueueSet_slot_index in Hi. rewrite Hid in Hj.
      rewrite Hj in Hi. cbn in Hi. congruence.
Qed.

Lemma pending_emptied l :
  well_indexed (ln_queues l) -> waiting_jobs (ln_queues (fail_pending_jobs l)) = [].
Proof.
  intros Hx. unfold fail_pending_jobs. set (l1 := with_queues l _).
  assert (Hx1 : well_indexed (ln_queues l1)).
  { unfold l1, QueueSet_close_runner. cbn. destruct (set_runner_closed (ln_queues l)); [done|].
    intros i s Hs. cbn in *. rewrite list_lookup_fmap in Hs.
    apply fmap_Some in Hs as (t & Ht & ->). exact (Hx i t Ht). }
  assert (Ef : forall snapshots (l' : LinkRunner E S C),
    foldl (fun l snapshot => drain_queue (length (entries_of (ln_queues l) (qs_id snapshot))) l (qs_id snapshot))
      l' snapshots
    = foldl (fun l id => drain_queue (length (entries_of (ln_queues l) id)) l id) l' (qs_id <$> snapshots)).
  { induction snapshots as [|s snapshots IH]; intros l'; [done|]. apply IH. }
  rewrite Ef. apply drains_empty; [|done|].
  - apply Forall_forall. intros id Hid. apply list_elem_of_fmap in Hid as (snap & -> & Hsn).
    unfold QueueSet_snapshots in Hsn. apply list_elem_of_fmap in Hsn as (s & -> & Hsn).
    apply list_elem_of_lookup in Hsn as [i Hi]. exists i, s. split; [|done].
    unfold QueueSet_slot_index. change (qs_id (QueueSlot_snapshot s)) with (slot_id s).
    by rewrite (Hx1 i s Hi).
  - intros i s Hs. left. apply list_elem_of_fmap. exists (QueueSlot_snapshot s). split; [done|].
    apply list_elem_of_fmap. exists s. split; [done|]. by eapply list_elem_of_lookup_2.
Qed.

Lemma run_emptied jobs attempts fuel : forall l cursor l',
  well_indexed (ln_queues l) -> run jobs attempts fuel l cursor = Some l' ->
  waiting_jobs (ln_queues l') = [].
Proof.
  induction jobs as [|jobs IH]; intros l cursor l' Hx; cbn [run]; [done|].
  destruct (next_job fuel l cursor) as [[[[[queue entry]|]|] l1] cursor1] eqn:En; [| |done];
    pose proof (moves_next submseteq (fun _ => []) (fun job => [job]) fuel l cursor l1 cursor1 _ En) as [_ Fn];
    pose proof (framed_well_indexed _ _ Fn Hx) as Hx1.
  2: { intros [= <-]. by apply pending_emptied. }
  pose proof (next_present fuel l cursor l1 cursor1 queue entry Hx En) as Hp.
  destruct (serve_job attempts fuel l1 queue entry) as [l2|] eqn:Es; [|done].
  destruct (moves_serve submseteq (fun _ => []) (fun job => [job]) attempts fuel l1 queue entry l2 Hp Es) as [_ Fs].
  pose proof (framed_well_indexed _ _ Fs Hx1) as Hx2.
  destruct (ln_channel_usable l2); [by apply IH|]. intros [= <-]. by apply pending_emptied.
Qed.
End Empty.

(** ** A run ends *)

(** A read that fails with a timeout of the channel's own, after which the runner reads on, uses
    up part of a finite input as well. Nothing is asked of other failures, such as those of a
    channel that stays closed: the runner stops at the first. *)
Class FiniteErrors {E} `{Runtime E} (rt_chunks : E -> nat) : Prop :=
  chunks_error : forall e d n r e', rt_receive e d n = (Some (Err r), e') ->
    is_receive_timeout r = true -> (rt_chunks e' < rt_chunks e)%nat.

Section Ends.
Context {E S C : Type} `{Runtime E} `{Semaphore S} `{Mpsc C}.
Context (rt_chunks : E -> nat) `{!FiniteInput rt_chunks} `{!FiniteErrors rt_chunks}.
Implicit Types l : LinkRunner E S C.

Lemma idle_events_chunks events : forall l, (chunks rt_chunks (handle_idle_events l events) <= chunks rt_chunks l)%nat.
Proof.
  induction events as [|[frame|error] events IH]; intros l; cbn [handle_idle_events]; [done| |apply (IH (broadcast l _))].
  destruct (DeviceReply_from_frame frame) as [reply|]; [|apply IH].
  destruct (rep_burst reply); [|apply (IH (broadcast l _))].
  etransitivity; [apply IH|]. by apply publish_chunks.
Qed.

Lemma idle_chunks l input : (chunks rt_chunks (process_idle_input l input).2 <= chunks rt_chunks l)%nat.
Proof.
  unfold process_idle_input. destruct input as [[read buffer]|error].
  - destruct (_ && _); [|by destruct (read =? 0)].
    destruct (FrameDecoder_push _ _) as [events d]. apply (idle_events_chunks events (with_decoder l d)).
  - destruct (is_receive_timeout error); [done|]. by destruct error.
Qed.

(** The runner reads on only after a timeout. *)
Lemma idle_error_timeout l error l' :
  process_idle_input l (Err error) = (true, l') -> is_receive_timeout error = true.
Proof. cbn. destruct (is_receive_timeout error); [done|]. by destruct error. Qed.

Lemma drain_loop_ends fuel deadline : forall l,
  (chunks rt_chunks l < fuel)%nat ->
  exists l', drain_loop fuel l deadline = Some l' /\ (chunks rt_chunks l' <= chunks rt_chunks l)%nat.
Proof.
  induction fuel as [|fuel IH]; intros l Hl; [lia|]. cbn [drain_loop].
  pose proof (chunks_receive_le (ln_env l) deadline (ln_read_buffer l)) as Hle.
  pose proof (chunks_receive (ln_env l) deadline (ln_read_buffer l)) as Hlt.
  pose proof (chunks_error (ln_env l) deadline (ln_read_buffer l)) as Hlt'.
  destruct (rt_receive _ _ _) as [[input|] e]; cbn [snd] in Hle; [|by eexists].
  pose proof (idle_chunks (with_env l e) input) as Hi. change (chunks rt_chunks (with_env l e)) with (rt_chunks e) in Hi.
  destruct (process_idle_input (with_env l e) input) as [[] l1] eqn:Ep; cbn [snd] in Hi.
  - assert (Hc : (rt_chunks e < chunks rt_chunks l)%nat).
    { destruct input as [?|error]; [by eapply Hlt|]. eapply Hlt'; [done|].
      by apply (idle_error_timeout (with_env l e) error l1). }
    destruct (IH l1) as (l' & El & Hc'); [lia|]. exists l'. split; [done|lia].
  - eexists. split; [done|]. change (chunks rt_chunks (unusable l1)) with (chunks rt_chunks l1). unfold chunks in *. lia.
Qed.

Lemma drain_ends fuel l :
  (chunks rt_chunks l < fuel)%nat ->
  exists l', drain_late_responses fuel l = Some l' /\ (chunks rt_chunks l' <= chunks rt_chunks l)%nat.
Proof.
  intros Hl. unfold drain_late_responses. destruct (_ =? 0); [by eexists|].
  pose proof (now_chunks rt_chunks l) as Hn. destruct (now l) as [t l1]. cbn [snd] in Hn.
  destruct (instant_checked_add _ _ _) as [deadline|]; [|by eexists].
  destruct (drain_loop_ends fuel deadline l1) as (l' & -> & Hc); [lia|]. exists l'. split; [done|lia].
Qed.

Lemma take_followers_env fuel queue leader : forall l fs,
  ln_env (take_followers fuel l queue leader fs).2 = ln_env l.
Proof.
  induction fuel as [|fuel IH]; intros l fs; cbn [take_followers]; [done|].
  destruct (_ <? _); [|done]. destruct (QueueSet_pop_from _ _) as [[x|] q]; [|done].
  destruct (requests_can_coalesce leader x); [|done].
  destruct (abandoned l x); [rewrite finish_pair|]; by rewrite IH.
Qed.

Lemma coalesce_chunks l queue leader : chunks rt_chunks (take_coalescible_followers l queue leader).2 = chunks rt_chunks l.
Proof.
  unfold take_coalescible_followers. destruct (_ || _); [done|].
  unfold chunks. by rewrite take_followers_env.
Qed.

Lemma complete_chunks queue value : forall followers l,
  (chunks rt_chunks (complete_followers l queue followers value) <= chunks rt_chunks l)%nat.
Proof.
  induction followers as [|x followers IH]; intros l; cbn [complete_followers]; [done|].
  rewrite finish_pair. etransitivity; [apply IH|]. set (l1 := with_queues l _).
  change (chunks rt_chunks l) with (chunks rt_chunks l1).
  destruct (job_reply x) as [ticket|]; [|done]. destruct (rt_reply_closed _ _); [done|].
  pose proof (now_chunks rt_chunks l1) as Hn. destruct (now l1) as [t l2]. cbn [snd] in Hn.
  by destruct (job_deadline x <=? t).
Qed.

(** The attempts the policy of a job can ask for. *)
Definition affordable (attempts : nat) (job : Job) : Prop :=
  policy_ok (job_policy job) /\
  transport_limit job + rp_busy_retries (job_policy job)
    + rp_delayed_response_polls (job_policy job) < Z.of_nat attempts.

Lemma serve_ends attempts fuel l queue entry :
  affordable attempts entry -> (chunks rt_chunks l < fuel)%nat ->
  exists l', serve_job attempts fuel l queue entry = Some l' /\ (chunks rt_chunks l' <= chunks rt_chunks l)%nat.
Proof.
  intros [Hp Hn] Hl. unfold serve_job. rewrite finish_pair. set (l1 := with_queues l _).
  change (chunks rt_chunks l) with (chunks rt_chunks l1) in *.
  destruct (job_reply entry) as [ticket|]; [|by eexists].
  destruct (rt_reply_closed _ _); [by eexists|].
  pose proof (now_chunks rt_chunks l1) as K1. destruct (now l1) as [t l2]. cbn [snd] in K1.
  destruct (job_deadline entry <=? t); [by eexists|].
  pose proof (coalesce_chunks l2 queue entry) as K2.
  destruct (take_coalescible_followers l2 queue entry) as [followers l3]. cbn [snd] in K2. cbn zeta.
  set (l4 := broadcast _ _). change (chunks rt_chunks l3) with (chunks rt_chunks l4) in K2.
  destruct (exchange_bounded rt_chunks attempts fuel l4 entry Hp Hn) as (r & Er & K3); [lia|].
  destruct (exchange attempts fuel l4 entry) as [r' l5]. cbn [fst snd] in Er, K3. subst r'.
  destruct r as [value|error].
  - eexists. split; [done|]. pose proof (complete_chunks queue value followers) as K4.
    destruct (rt_reply_closed _ _); (etransitivity; [apply K4|]); (etransitivity; [exact K3|]); lia.
  - set (l6 := if rt_reply_closed _ _ then _ else _).
    assert (K6 : chunks rt_chunks l6 = chunks rt_chunks l5) by (unfold l6; by destruct (rt_reply_closed _ _)).
    destruct (drain_ends fuel l6) as (l' & El & K7); [lia|].
    destruct error; try (exists l6; split; [done|lia]).
    destruct (ln_channel_usable l6); [exists l'|exists l6]; split; done || lia.
Qed.

Lemma run_ends jobs attempts fuel : forall l cursor,
  well_indexed (ln_queues l) -> set_input_closed (ln_queues l) = true ->
  Forall (affordable attempts) (waiting_jobs (ln_queues l)) ->
  (length (waiting_jobs (ln_queues l)) < jobs)%nat -> (chunks rt_chunks l < fuel)%nat ->
  exists l', run jobs attempts fuel l cursor = Some l'.
Proof.
  induction jobs as [|jobs IH]; intros l cursor Hx Hi Hw Hj Hf; [lia|]. cbn [run].
  destruct fuel as [|fuel]; [lia|]. cbn [next_job].
  destruct (QueueSet_pop_scheduled (ln_queues l) cursor) as [[[[queue entry]|] q] c1] eqn:Ep;
    [|rewrite Hi; by eexists].
  apply pop_scheduled_conserves in Ep as (Hperm & Fq & Hpr). specialize (Hpr Hx).
  rewrite Hperm in Hw, Hj. apply Forall_cons in Hw as [He Hw]. cbn [length] in Hj.
  set (l1 := with_queues l q).
  destruct (serve_ends attempts (Datatypes.S fuel) l1 queue entry He Hf) as (l2 & Es & Hc). rewrite Es.
  destruct (ln_channel_usable l2); [|by eexists].
  destruct (serve_waiting attempts _ l1 queue entry l2 Hpr Es) as (Hs & Fs).
  pose proof (framed_trans _ _ _ Fq Fs) as F2. apply IH.
  - by eapply framed_well_indexed.
  - by rewrite (fr_input _ _ F2).
  - rewrite Forall_forall in Hw |- *. intros job Hin. apply Hw. by eapply elem_of_submseteq.
  - pose proof (submseteq_length _ _ Hs). cbn in *. lia.
  - change (chunks rt_chunks l) with (chunks rt_chunks l1) in Hf. lia.
Qed.
End Ends.

(** Queues reached from new ones by the operations of clients and runner are indexed. *)
Lemma world_indexed {S : Type} `{Semaphore S} (w : World (T := Job) (S := S)) : world_ok w -> well_indexed (w_set w).
Proof. intros Hw i s Hs. apply (world_index _ Hw). by rewrite list_lookup_fmap, Hs. Qed.

(** ** What is settled *)

(** The jobs an effect ends, by their numbers, and the waiters it answers. *)
Definition ended (x : Effect) : list Z :=
  match x with
  | Broadcast (LinkCancelled id) | Broadcast (LinkCompleted id) | Broadcast (LinkFailed id _) => [id]
  | _ => []
  end.

Definition answered_tickets (x : Effect) : list Z :=
  match x with Answer ticket _ => [ticket] | _ => [] end.

Section Settled.
Context {E S C : Type} `{Runtime E} `{Semaphore S} `{Mpsc C}.
Implicit Types l : LinkRunner E S C.

#[local] Instance ended_once : Settlement (E := E) Permutation ended (fun job => [job_id job]).
Proof.
  split; try done.
  - apply _.
  - intros xs ys zs Hp. by rewrite Hp.
  - by intros [|[]|].
Qed.

Lemma answered_once :
  (forall (e : E) ticket, rt_reply_closed e ticket = false) ->
  Settlement (E := E) Permutation answered_tickets (fun job => option_list (job_reply job)).
Proof.
  intros Hopen. split; try done.
  - apply _.
  - intros xs ys zs Hp. by rewrite Hp.
  - by intros [|[]|].
  - intros job Hj. by rewrite Hj.
  - intros e job ticket _. by rewrite Hopen.
  - intros job ticket r Hj. by rewrite Hj.
  - intros job ticket r reason Hj. by rewrite Hj.
Qed.

(** C4. Every request is settled, once. A runner whose clients are gone, on a channel that
    delivers finitely many more chunks, stops; it then holds no job, the jobs that were waiting
    are exactly those it announced as cancelled, completed or failed since, each once, and as
    long as nobody stops waiting for an answer each of them is given exactly one answer. *)
Theorem every_request_is_settled_once jobs attempts fuel l cursor (rt_chunks : E -> nat)
    `{!FiniteInput rt_chunks} `{!FiniteErrors rt_chunks} :
  well_indexed (ln_queues l) -> set_input_closed (ln_queues l) = true ->
  Forall (affordable attempts) (waiting_jobs (ln_queues l)) ->
  (length (waiting_jobs (ln_queues l)) < jobs)%nat -> (chunks rt_chunks l < fuel)%nat ->
  exists l', run jobs attempts fuel l cursor = Some l' /\
    waiting_jobs (ln_queues l') = [] /\
    (ln_effects l' ≫= ended) ≡ₚ (ln_effects l ≫= ended) ++ (job_id <$> waiting_jobs (ln_queues l)) /\
    ((forall (e : E) ticket, rt_reply_closed e ticket = false) ->
     (ln_effects l' ≫= answered_tickets) ≡ₚ
       (ln_effects l ≫= answered_tickets) ++ omap job_reply (waiting_jobs (ln_queues l))).
Proof.
  intros Hx Hi Hw Hj Hf.
  destruct (run_ends rt_chunks jobs attempts fuel l cursor Hx Hi Hw Hj Hf) as [l' Hr].
  exists l'. pose proof (run_emptied jobs attempts fuel l cursor l' Hx Hr) as He. split_and!; [done|done| |].
  - destruct (moves_run Permutation ended (fun job => [job_id job]) jobs attempts fuel l cursor l' Hx Hr)
      as [Hp _].
    unfold carried in Hp. rewrite He in Hp. cbn in Hp. rewrite !app_nil_r in Hp. rewrite Hp.
    by rewrite bind_single.
  - intros Hopen. pose proof (answered_once Hopen) as Hs.
    destruct (moves_run Permutation answered_tickets (fun job => option_list (job_reply job))
                jobs attempts fuel l cursor l' Hx Hr) as [Hp _].
    unfold carried in Hp. rewrite He in Hp. cbn in Hp. rewrite !app_nil_r in Hp.
    by rewrite Hp, bind_option.
Qed.
End Settled.

(** ** Witness

    Two equal requests in the default queue and one in a strict queue, after the last client
    is gone; the device answers twice. *)
Definition run_urgent : QueueId := QueueId_new 9.

Definition run_queues : QueueSet Job CountingSemaphore :=
  QueueSet_close_input
    (QueueSet_try_push
       (QueueSet_try_push
          (QueueSet_try_push
             (QueueSet_new [mkQueueConfig QueueId_DEFAULT 4 (Weighted 1); mkQueueConfig run_urgent 4 (StrictRank 1)])
             QueueId_DEFAULT (demo_follower 8)).2
          QueueId_DEFAULT (demo_follower 9)).2
       run_urgent (demo_follower 10)).2.

Definition run_start : LinkRunner Script CountingSemaphore ListChannel :=
  with_queues (demo_runner [demo_response 0; demo_response 0]) run_queues.

#[global] Instance script_no_errors : FiniteErrors script_chunks.
Proof. intros [t [|chunk rest]] d n r e'; cbn; discriminate. Qed.

Lemma run_queues_indexed : well_indexed run_queues.
Proof.
  intros [|[|i]] s; vm_compute; intros Hs; [| |discriminate]; injection Hs as <-; reflexivity.
Defined.

Lemma every_request_is_settled_once_witness :
  exists l', run 4 12 3 run_start QueueCursor_new = Some l' /\
    (ln_effects l' ≫= ended) ≡ₚ [8; 9; 10] /\ (ln_effects l' ≫= answered_tickets) ≡ₚ [8; 9; 10].
Proof.
  destruct (every_request_is_settled_once 4 12 3 run_start QueueCursor_new script_chunks)
    as (l' & Hr & _ & He & Ha).
  - exact run_queues_indexed.
  - reflexivity.
  - repeat constructor; vm_compute; intros; congruence.
  - vm_compute. lia.
  - vm_compute. lia.
  - exists l'. split; [exact Hr|]. split; [exact He|]. apply Ha. reflexivity.
Defined.
