(* ===== verification/Ip.v ===== *)
(** * HART-IP: packets, sessions and the packet channel (src/src/ip.rs)

    The packet format, the managed session with its bounded queue of Publish packets,
    and the adapter that makes a session a byte channel. The stream under a session and
    tokio's timeouts are the class [IpStream]: an operation completes, fails, or is ended
    by the deadline of one operation or by the deadline of the whole exchange. When the
    latter elapses tokio drops the exchange where it stands, which is [Interrupted]. The
    loops over packets end with the stream, so they take fuel, one unit per packet. *)
From S2P Require Import Prelude Link.

Definition DEFAULT_PORT : Z := 5094.
Definition PROTOCOL_VERSION_1 : Z := 1.
Definition HEADER_SIZE : Z := 8.
Definition MAXIMUM_IP_BODY_BYTES : Z := 65535 - HEADER_SIZE.
Definition MAXIMUM_IP_PUBLISHED_PACKETS : Z := 4096.
Definition MAXIMUM_IP_UNMATCHED_PACKETS : Z := 4096.
Definition MAXIMUM_IP_TIMEOUT : Z := 24 * 3600 * NANOS_PER_SECOND.
Definition DEFAULT_MAXIMUM_IP_PUBLISHED_BYTES : Z := 1024 * 1024.
Definition MAXIMUM_IP_PUBLISHED_BYTES : Z := 64 * 1024 * 1024.

(** ** Packets *)

Inductive MessageType := TypeRequest | TypeResponse | TypePublish | TypeNak.

#[global] Instance MessageType_eq_dec : EqDecision MessageType.
Proof. solve_decision. Defined.

(** [message_type as u8]. *)
Definition MessageType_code (t : MessageType) : Z :=
  match t with TypeRequest => 0 | TypeResponse => 1 | TypePublish => 2 | TypeNak => 15 end.

Inductive IpError :=
  | IpIo (timed_out : bool)
  | IpTruncated
  | IpMessageType (value : Z)
  | IpReservedMessageBits (bits : Z)
  | IpLength (n : Z)
  | IpPacketLength (declared actual : Z)
  | IpBodyLimit (n : Z)
  | IpSequence
  | IpProtocolVersion (expected actual : Z)
  | IpRemoteStatus (status : Z)
  | IpUnexpectedMessageType (t : MessageType)
  | IpAlreadyOpen
  | IpNotOpen
  | IpInactivityTimeout
  | IpTimeout (operation : string)
  | IpZeroTimeout
  | IpTimeoutLimit (operation : string)
  | IpStreamUnusable.

#[global] Instance IpError_eq_dec : EqDecision IpError.
Proof. solve_decision. Defined.

Definition MessageType_try_from (value : Z) : result IpError MessageType :=
  if value =? 0 then Ok TypeRequest
  else if value =? 1 then Ok TypeResponse
  else if value =? 2 then Ok TypePublish
  else if value =? 15 then Ok TypeNak
  else Err (IpMessageType value).

Inductive MessageId := SessionInitiate | SessionClose | KeepAlive | TokenPassingPdu.

Definition MessageId_code (i : MessageId) : Z :=
  match i with SessionInitiate => 0 | SessionClose => 1 | KeepAlive => 2 | TokenPassingPdu => 3 end.

Record IpPacket := mkPacket {
  pk_version : Z;
  pk_message_type : MessageType;
  pk_message_id : Z;
  pk_status : Z;
  pk_sequence : Z;
  pk_body : bytes;
}.

#[global] Instance IpPacket_eq_dec : EqDecision IpPacket.
Proof. solve_decision. Defined.

(** The bytes of a packet whose total length is [total]. *)
Definition packet_bytes (p : IpPacket) (total : Z) : bytes :=
  [pk_version p; MessageType_code (pk_message_type p); pk_message_id p; pk_status p]
  ++ to_be_bytes 2 (pk_sequence p) ++ to_be_bytes 2 total ++ pk_body p.

Definition IpPacket_encode (p : IpPacket) : result IpError bytes :=
  let? total := ok_or (checked_add usize_max HEADER_SIZE (zlen (pk_body p)))
                  (IpLength (zlen (pk_body p))) ;;
  return_if u16_max <? total err IpLength (zlen (pk_body p)) ;;
  Ok (packet_bytes p total).

Definition IpPacket_decode (l : bytes) (maximum_body : Z) : result IpError IpPacket :=
  return_if zlen l <? HEADER_SIZE err IpTruncated ;;
  let total := from_be_bytes [nth 6 l 0; nth 7 l 0] in
  return_if negb (total =? zlen l) || (total <? HEADER_SIZE) err IpPacketLength total (zlen l) ;;
  let body_len := total - HEADER_SIZE in
  return_if maximum_body <? body_len err IpBodyLimit body_len ;;
  return_if negb (Z.land (nth 1 l 0) 0xf0 =? 0)
    err IpReservedMessageBits (Z.land (nth 1 l 0) 0xf0) ;;
  let? message_type := MessageType_try_from (Z.land (nth 1 l 0) 0x0f) ;;
  Ok (mkPacket (nth 0 l 0) message_type (nth 2 l 0) (nth 3 l 0)
        (from_be_bytes [nth 4 l 0; nth 5 l 0]) (drop 8 l)).

(** ** Options *)

Record SessionOptions := mkSessionOptions { so_inactivity_close : Z }.

Definition SessionOptions_default : SessionOptions := mkSessionOptions (60 * NANOS_PER_SECOND).

Record IpTimeouts := mkTimeouts { to_io : Z; to_exchange : Z }.

Definition IpTimeouts_default : IpTimeouts :=
  mkTimeouts (10 * NANOS_PER_SECOND) (30 * NANOS_PER_SECOND).

Definition IpTimeouts_validate (t : IpTimeouts) : result IpError unit :=
  return_if (to_io t =? 0) || (to_exchange t =? 0) err IpZeroTimeout ;;
  return_if MAXIMUM_IP_TIMEOUT <? to_io t err IpTimeoutLimit "I/O" ;;
  return_if MAXIMUM_IP_TIMEOUT <? to_exchange t err IpTimeoutLimit "exchange" ;;
  Ok tt.

Record IpSessionSnapshot := mkIpSnapshot {
  is_published_queued : Z;
  is_published_bytes : Z;
  is_published_dropped : Z;
  is_unmatched_skipped : Z;
}.

(** ** The stream *)

Inductive Outcome (A : Type) :=
  | Completed (a : A)
  | Failed (timed_out : bool)
  | OperationElapsed
  | ExchangeElapsed.
Arguments Completed {A} a.
Arguments Failed {A} timed_out.
Arguments OperationElapsed {A}.
Arguments ExchangeElapsed {A}.

(** [write_all] with [flush], and [read_exact], each under the deadline of the
    operation and, within an exchange, that of the exchange. *)
Class IpStream (S : Type) := {
  st_now : S -> Z;
  st_write : S -> Z -> option Z -> bytes -> Outcome unit * S;
  st_read_exact : S -> Z -> option Z -> Z -> Outcome bytes * S;
}.

(** What an asynchronous call comes to: it returns, or the exchange's deadline drops it,
    or the fuel of the model is used up. *)
Inductive Ran (A : Type) :=
  | Returned (a : A)
  | Interrupted
  | OutOfFuel.
Arguments Returned {A} a.
Arguments Interrupted {A}.
Arguments OutOfFuel {A}.

(** ** Sessions *)

Section Session.
Context {S : Type} `{IpStream S}.

Record IpSession := mkSession {
  ss_stream : S;
  ss_next_sequence : Z;
  ss_maximum_body : Z;
  ss_protocol_version : Z;
  ss_open : bool;
  ss_published : list IpPacket;
  ss_published_bytes : Z;
  ss_maximum_published : Z;
  ss_maximum_published_bytes : Z;
  ss_maximum_unmatched : Z;
  ss_timeouts : IpTimeouts;
  ss_published_dropped : Z;
  ss_unmatched_skipped : Z;
  ss_usable : bool;
}.

Definition IpSession_new (stream : S) : IpSession :=
  mkSession stream 1 8192 PROTOCOL_VERSION_1 false [] 0 128 DEFAULT_MAXIMUM_IP_PUBLISHED_BYTES 16
    (mkTimeouts (10 * NANOS_PER_SECOND) (30 * NANOS_PER_SECOND)) 0 0 true.

(** *** Field updates *)

Definition set_stream (s : IpSession) (stream : S) : IpSession :=
  mkSession stream (ss_next_sequence s) (ss_maximum_body s) (ss_protocol_version s) (ss_open s)
    (ss_published s) (ss_published_bytes s) (ss_maximum_published s)
    (ss_maximum_published_bytes s) (ss_maximum_unmatched s) (ss_timeouts s)
    (ss_published_dropped s) (ss_unmatched_skipped s) (ss_usable s).

Definition set_next_sequence (s : IpSession) (n : Z) : IpSession :=
  mkSession (ss_stream s) n (ss_maximum_body s) (ss_protocol_version s) (ss_open s)
    (ss_published s) (ss_published_bytes s) (ss_maximum_published s)
    (ss_maximum_published_bytes s) (ss_maximum_unmatched s) (ss_timeouts s)
    (ss_published_dropped s) (ss_unmatched_skipped s) (ss_usable s).

Definition set_open (s : IpSession) (b : bool) : IpSession :=
  mkSession (ss_stream s) (ss_next_sequence s) (ss_maximum_body s) (ss_protocol_version s) b
    (ss_published s) (ss_published_bytes s) (ss_maximum_published s)
    (ss_maximum_published_bytes s) (ss_maximum_unmatched s) (ss_timeouts s)
    (ss_published_dropped s) (ss_unmatched_skipped s) (ss_usable s).

Definition set_unusable (s : IpSession) : IpSession :=
  mkSession (ss_stream s) (ss_next_sequence s) (ss_maximum_body s) (ss_protocol_version s)
    (ss_open s) (ss_published s) (ss_published_bytes s) (ss_maximum_published s)
    (ss_maximum_published_bytes s) (ss_maximum_unmatched s) (ss_timeouts s)
    (ss_published_dropped s) (ss_unmatched_skipped s) false.

Definition set_published (s : IpSession) (q : list IpPacket) (n dropped : Z) : IpSession :=
  mkSession (ss_stream s) (ss_next_sequence s) (ss_maximum_body s) (ss_protocol_version s)
    (ss_open s) q n (ss_maximum_published s) (ss_maximum_published_bytes s)
    (ss_maximum_unmatched s) (ss_timeouts s) dropped (ss_unmatched_skipped s) (ss_usable s).

Definition set_unmatched_skipped (s : IpSession) (n : Z) : IpSession :=
  mkSession (ss_stream s) (ss_next_sequence s) (ss_maximum_body s) (ss_protocol_version s)
    (ss_open s) (ss_published s) (ss_published_bytes s) (ss_maximum_published s)
    (ss_maximum_published_bytes s) (ss_maximum_unmatched s) (ss_timeouts s)
    (ss_published_dropped s) n (ss_usable s).

(** *** The queue of Publish packets *)

Definition take_published (s : IpSession) : option IpPacket * IpSession :=
  match ss_published s with
  | [] => (None, s)
  | packet :: q =>
      (Some packet,
       set_published s q (saturating_sub (ss_published_bytes s) (zlen (pk_body packet)))
         (ss_published_dropped s))
  end.

(** The body size of a packet, and the count of a discarded one. *)
Definition body_size (p : IpPacket) : Z := zlen (pk_body p).

Definition note_published_dropped (dropped : Z) (_ : IpPacket) : Z :=
  saturating_add u64_max dropped 1.

Definition retain_published (s : IpSession) (packet : IpPacket) : IpSession :=
  let n := zlen (pk_body packet) in
  if (ss_maximum_published s =? 0) || (ss_maximum_published_bytes s =? 0)
     || (ss_maximum_published_bytes s <? n) then
    set_published s (ss_published s) (ss_published_bytes s)
      (saturating_add u64_max (ss_published_dropped s) 1)
  else
    let '(q, total, dropped) :=
      evict_while body_size note_published_dropped (fun len total =>
                     (ss_maximum_published s <=? len)
                     || (ss_maximum_published_bytes s <? saturating_add usize_max total n))
        (ss_published s) (ss_published_bytes s) (ss_published_dropped s) in
    set_published s (q ++ [packet]) (saturating_add usize_max total n) dropped.

(** An empty queue that is still over its limits resets the byte count. *)
Definition enforce_published_limits (s : IpSession) : IpSession :=
  let full := fun len total =>
    (ss_maximum_published s <? len) || (ss_maximum_published_bytes s <? total) in
  let '(q, total, dropped) :=
    evict_while body_size note_published_dropped full (ss_published s) (ss_published_bytes s) (ss_published_dropped s) in
  set_published s q (if full (zlen q) total then 0 else total) dropped.

(** *** Settings *)

Definition with_maximum_body (s : IpSession) (maximum_body : Z) : IpSession :=
  mkSession (ss_stream s) (ss_next_sequence s)
    (if MAXIMUM_IP_BODY_BYTES <? maximum_body then MAXIMUM_IP_BODY_BYTES else maximum_body)
    (ss_protocol_version s) (ss_open s) (ss_published s) (ss_published_bytes s)
    (ss_maximum_published s) (ss_maximum_published_bytes s) (ss_maximum_unmatched s)
    (ss_timeouts s) (ss_published_dropped s) (ss_unmatched_skipped s) (ss_usable s).

Definition with_maximum_published (s : IpSession) (maximum_published : Z) : IpSession :=
  enforce_published_limits
    (mkSession (ss_stream s) (ss_next_sequence s) (ss_maximum_body s) (ss_protocol_version s)
       (ss_open s) (ss_published s) (ss_published_bytes s)
       (Z.min maximum_published MAXIMUM_IP_PUBLISHED_PACKETS) (ss_maximum_published_bytes s)
       (ss_maximum_unmatched s) (ss_timeouts s) (ss_published_dropped s)
       (ss_unmatched_skipped s) (ss_usable s)).

Definition with_maximum_published_bytes (s : IpSession) (maximum_published_bytes : Z)
    : IpSession :=
  enforce_published_limits
    (mkSession (ss_stream s) (ss_next_sequence s) (ss_maximum_body s) (ss_protocol_version s)
       (ss_open s) (ss_published s) (ss_published_bytes s) (ss_maximum_published s)
       (Z.min maximum_published_bytes MAXIMUM_IP_PUBLISHED_BYTES) (ss_maximum_unmatched s)
       (ss_timeouts s) (ss_published_dropped s) (ss_unmatched_skipped s) (ss_usable s)).

Definition with_maximum_unmatched (s : IpSession) (maximum_unmatched : Z) : IpSession :=
  mkSession (ss_stream s) (ss_next_sequence s) (ss_maximum_body s) (ss_protocol_version s)
    (ss_open s) (ss_published s) (ss_published_bytes s) (ss_maximum_published s)
    (ss_maximum_published_bytes s)
    (if MAXIMUM_IP_UNMATCHED_PACKETS <? maximum_unmatched then MAXIMUM_IP_UNMATCHED_PACKETS
     else maximum_unmatched)
    (ss_timeouts s) (ss_published_dropped s) (ss_unmatched_skipped s) (ss_usable s).

Definition with_timeouts (s : IpSession) (timeouts : IpTimeouts) : result IpError IpSession :=
  let? _ := IpTimeouts_validate timeouts ;;
  Ok (mkSession (ss_stream s) (ss_next_sequence s) (ss_maximum_body s) (ss_protocol_version s)
        (ss_open s) (ss_published s) (ss_published_bytes s) (ss_maximum_published s)
        (ss_maximum_published_bytes s) (ss_maximum_unmatched s) timeouts
        (ss_published_dropped s) (ss_unmatched_skipped s) (ss_usable s)).

Definition IpSession_snapshot (s : IpSession) : IpSessionSnapshot :=
  mkIpSnapshot (zlen (ss_published s)) (ss_published_bytes s) (ss_published_dropped s)
    (ss_unmatched_skipped s).

(** *** Sending and receiving one packet *)

(** [total] is the deadline of the surrounding exchange, [None] outside one. *)
Definition IpSession_send (s : IpSession) (total : option Z) (message_type : MessageType)
    (message_id : Z) (body : bytes) : Ran (result IpError Z) * IpSession :=
  if negb (ss_usable s) then (Returned (Err IpStreamUnusable), s)
  else if MAXIMUM_IP_BODY_BYTES <? zlen body then (Returned (Err (IpLength (zlen body))), s)
  else
    let sequence := ss_next_sequence s in
    match IpPacket_encode (mkPacket (ss_protocol_version s) message_type message_id 0 sequence
                             body) with
    | Err e => (Returned (Err e), s)
    | Ok encoded =>
        let '(outcome, stream) :=
          st_write (ss_stream s) (st_now (ss_stream s) + to_io (ss_timeouts s)) total encoded in
        let s := set_stream s stream in
        match outcome with
        | Completed _ =>
            (Returned (Ok sequence), set_next_sequence s ((ss_next_sequence s + 1) mod 65536))
        | Failed timed_out => (Returned (Err (IpIo timed_out)), set_unusable s)
        | OperationElapsed => (Returned (Err (IpTimeout "write")), set_unusable s)
        | ExchangeElapsed => (Interrupted, s)
        end
    end.

(** The chunks of [discard_exact]: at most 1024 bytes each, so [remaining] bounds them. *)
Fixpoint discard_loop (fuel : nat) (stream : S) (deadline : Z) (total : option Z) (remaining : Z)
    : Outcome unit * S :=
  match fuel with
  | O => (Completed tt, stream)
  | Datatypes.S fuel =>
      if 0 <? remaining then
        let chunk := Z.min remaining 1024 in
        match st_read_exact stream deadline total chunk with
        | (Completed _, stream) => discard_loop fuel stream deadline total (remaining - chunk)
        | (Failed timed_out, stream) => (Failed timed_out, stream)
        | (OperationElapsed, stream) => (OperationElapsed, stream)
        | (ExchangeElapsed, stream) => (ExchangeElapsed, stream)
        end
      else (Completed tt, stream)
  end.

Definition discard_exact (stream : S) (deadline : Z) (total : option Z) (remaining : Z)
    : Outcome unit * S :=
  discard_loop (Z.to_nat remaining) stream deadline total remaining.

(** [receive_unbounded] on the stream, with the body limit of the session: an I/O
    error is [Failed], what the function returns itself is [Completed]. *)
Definition receive_unbounded (stream : S) (deadline : Z) (total : option Z) (maximum_body : Z)
    : Outcome (result IpError IpPacket) * S :=
  match st_read_exact stream deadline total HEADER_SIZE with
  | (Completed header, stream) =>
      let length := from_be_bytes [nth 6 header 0; nth 7 header 0] in
      if length <? HEADER_SIZE then (Completed (Err (IpPacketLength length HEADER_SIZE)), stream)
      else
        let body_len := length - HEADER_SIZE in
        if maximum_body <? body_len then
          match discard_exact stream deadline total body_len with
          | (Completed _, stream) => (Completed (Err (IpBodyLimit body_len)), stream)
          | (Failed timed_out, stream) => (Failed timed_out, stream)
          | (OperationElapsed, stream) => (OperationElapsed, stream)
          | (ExchangeElapsed, stream) => (ExchangeElapsed, stream)
          end
        else
          match st_read_exact stream deadline total body_len with
          | (Completed body, stream) =>
              (Completed (IpPacket_decode (header ++ body) maximum_body), stream)
          | (Failed timed_out, stream) => (Failed timed_out, stream)
          | (OperationElapsed, stream) => (OperationElapsed, stream)
          | (ExchangeElapsed, stream) => (ExchangeElapsed, stream)
          end
  | (Failed timed_out, stream) => (Failed timed_out, stream)
  | (OperationElapsed, stream) => (OperationElapsed, stream)
  | (ExchangeElapsed, stream) => (ExchangeElapsed, stream)
  end.

Definition IpSession_receive (s : IpSession) (total : option Z)
    : Ran (result IpError IpPacket) * IpSession :=
  if negb (ss_usable s) then (Returned (Err IpStreamUnusable), s)
  else
    let '(outcome, stream) :=
      receive_unbounded (ss_stream s) (st_now (ss_stream s) + to_io (ss_timeouts s)) total
        (ss_maximum_body s) in
    let s := set_stream s stream in
    match outcome with
    | Failed timed_out => (Returned (Err (IpIo timed_out)), set_unusable s)
    | Completed (Err (IpPacketLength declared actual)) =>
        (Returned (Err (IpPacketLength declared actual)), set_unusable s)
    | Completed r => (Returned r, s)
    | OperationElapsed => (Returned (Err (IpTimeout "read")), set_unusable s)
    | ExchangeElapsed => (Interrupted, s)
    end.

(** *** One exchange *)

(** What the loop does with one received packet. *)
Inductive Verdict :=
  | Answered (r : result IpError IpPacket)
  | SkippedPublish
  | SkippedUnmatched.

Definition judge (s : IpSession) (sequence message_id : Z) (packet : IpPacket) : Verdict :=
  if negb (pk_version packet =? ss_protocol_version s) then
    Answered (Err (IpProtocolVersion (ss_protocol_version s) (pk_version packet)))
  else if bool_decide (pk_message_type packet = TypePublish) then SkippedPublish
  else if negb (pk_sequence packet =? sequence) || negb (pk_message_id packet =? message_id) then
    SkippedUnmatched
  else if bool_decide (pk_message_type packet = TypeNak) then
    Answered (Err (IpRemoteStatus (pk_status packet)))
  else if negb (bool_decide (pk_message_type packet = TypeResponse)) then
    Answered (Err (IpUnexpectedMessageType (pk_message_type packet)))
  else if negb (pk_status packet =? 0) then Answered (Err (IpRemoteStatus (pk_status packet)))
  else Answered (Ok packet).

Fixpoint exchange_loop (fuel : nat) (s : IpSession) (total : option Z) (sequence message_id : Z)
    (unmatched : Z) : Ran (result IpError IpPacket) * IpSession :=
  match fuel with
  | O => (OutOfFuel, s)
  | Datatypes.S fuel =>
      match IpSession_receive s total with
      | (Returned (Ok packet), s) =>
          match judge s sequence message_id packet with
          | Answered r => (Returned r, s)
          | SkippedPublish =>
              exchange_loop fuel (retain_published s packet) total sequence message_id unmatched
          | SkippedUnmatched =>
              let unmatched := saturating_add usize_max unmatched 1 in
              let s := set_unmatched_skipped s
                         (saturating_add u64_max (ss_unmatched_skipped s) 1) in
              if ss_maximum_unmatched s <? unmatched then (Returned (Err IpSequence), s)
              else exchange_loop fuel s total sequence message_id unmatched
          end
      | (Returned (Err e), s) => (Returned (Err e), s)
      | (Interrupted, s) => (Interrupted, s)
      | (OutOfFuel, s) => (OutOfFuel, s)
      end
  end.

Definition exchange_unchecked_without_total_timeout (fuel : nat) (s : IpSession)
    (total : option Z) (message_id : Z) (body : bytes) : Ran (result IpError IpPacket) * IpSession :=
  match IpSession_send s total TypeRequest message_id body with
  | (Returned (Ok sequence), s) => exchange_loop fuel s total sequence message_id 0
  | (Returned (Err e), s) => (Returned (Err e), s)
  | (Interrupted, s) => (Interrupted, s)
  | (OutOfFuel, s) => (OutOfFuel, s)
  end.

Definition exchange_unchecked (fuel : nat) (s : IpSession) (message_id : Z) (body : bytes)
    : Ran (result IpError IpPacket) * IpSession :=
  let total := Some (st_now (ss_stream s) + to_exchange (ss_timeouts s)) in
  match exchange_unchecked_without_total_timeout fuel s total message_id body with
  | (Interrupted, s) => (Returned (Err (IpTimeout "exchange")), set_unusable s)
  | r => r
  end.

(** *** The logical session *)

Definition IpSession_open (fuel : nat) (s : IpSession) (options : SessionOptions)
    : Ran (result IpError IpPacket) * IpSession :=
  if ss_open s then (Returned (Err IpAlreadyOpen), s)
  else
    let milliseconds := so_inactivity_close options / 1000000 in
    if u32_max <? milliseconds then (Returned (Err IpInactivityTimeout), s)
    else
      match exchange_unchecked fuel s (MessageId_code SessionInitiate)
              (1 :: to_be_bytes 4 milliseconds) with
      | (Returned (Ok response), s) => (Returned (Ok response), set_open s true)
      | r => r
      end.

Definition IpSession_request (fuel : nat) (s : IpSession) (message_id : Z) (body : bytes)
    : Ran (result IpError IpPacket) * IpSession :=
  if negb (ss_open s) then (Returned (Err IpNotOpen), s)
  else exchange_unchecked fuel s message_id body.

Definition IpSession_keep_alive (fuel : nat) (s : IpSession)
    : Ran (result IpError IpPacket) * IpSession :=
  IpSession_request fuel s (MessageId_code KeepAlive) [].

Definition IpSession_token_passing (fuel : nat) (s : IpSession) (body : bytes)
    : Ran (result IpError IpPacket) * IpSession :=
  IpSession_request fuel s (MessageId_code TokenPassingPdu) body.

Definition IpSession_close (fuel : nat) (s : IpSession)
    : Ran (result IpError IpPacket) * IpSession :=
  if negb (ss_open s) then (Returned (Err IpNotOpen), s)
  else
    match exchange_unchecked fuel s (MessageId_code SessionClose) [] with
    | (Returned (Ok response), s) => (Returned (Ok response), set_open s false)
    | r => r
    end.

(** ** The byte channel over a session *)

(** [error.to_string()]: the message thiserror generates. *)
Definition ip_channel_error (display : IpError -> string) (e : IpError) : ChannelError :=
  match e with
  | IpIo timed_out => ChannelIo timed_out
  | _ => ChannelProtocol (display e)
  end.

Record IpPacketChannel := mkPacketChannel {
  pc_session : IpSession;
  pc_message_id : Z;
  pc_pending : bytes;
}.

Definition IpPacketChannel_new (session : IpSession) (message_id : Z) : IpPacketChannel :=
  mkPacketChannel session message_id [].

Definition IpPacketChannel_into_session (c : IpPacketChannel) : result ChannelError IpSession :=
  if bool_decide (pc_pending c = []) then Ok (pc_session c)
  else Err (ChannelConfiguration
              "HART-IP response bytes must be drained before recovering the session").

(** [while let Some(published) = take_published()]; the queue bounds the passes. *)
Fixpoint drain_published (fuel : nat) (s : IpSession) (pending : bytes) : bytes * IpSession :=
  match fuel with
  | O => (pending, s)
  | Datatypes.S fuel =>
      match take_published s with
      | (None, s) => (pending, s)
      | (Some published, s) => drain_published fuel s (pending ++ pk_body published)
      end
  end.

Definition IpPacketChannel_send (fuel : nat) (display : IpError -> string) (c : IpPacketChannel)
    (l : bytes) : Ran (result ChannelError unit) * IpPacketChannel :=
  if negb (bool_decide (pc_pending c = [])) then
    (Returned (Err (ChannelConfiguration "previous HART-IP response bytes were not drained")), c)
  else
    match IpSession_request fuel (pc_session c) (pc_message_id c) l with
    | (Returned (Ok packet), s) =>
        let '(pending, s) := drain_published (length (ss_published s)) s (pc_pending c) in
        (Returned (Ok tt), mkPacketChannel s (pc_message_id c) (pending ++ pk_body packet))
    | (Returned (Err e), s) =>
        (Returned (Err (ip_channel_error display e)),
         mkPacketChannel s (pc_message_id c) (pc_pending c))
    | (Interrupted, s) => (Interrupted, mkPacketChannel s (pc_message_id c) (pc_pending c))
    | (OutOfFuel, s) => (OutOfFuel, mkPacketChannel s (pc_message_id c) (pc_pending c))
    end.

(** The bytes copied into a buffer of [capacity] bytes. *)
Definition IpPacketChannel_receive (c : IpPacketChannel) (capacity : Z)
    : result ChannelError bytes * IpPacketChannel :=
  if capacity =? 0 then
    (Err (ChannelConfiguration "HART-IP receive buffer cannot be empty"), c)
  else if bool_decide (pc_pending c = []) then (Err ChannelIsClosed, c)
  else
    let count := Z.to_nat (Z.min capacity (zlen (pc_pending c))) in
    (Ok (take count (pc_pending c)),
     mkPacketChannel (pc_session c) (pc_message_id c) (drop count (pc_pending c))).
End Session.

Arguments IpSession : clear implicits.
Arguments IpPacketChannel : clear implicits.
