(* ===== verification/IpProps.v ===== *)
(** * HART-IP: properties

    The packet format is exact; a session keeps its bounds whatever is done with it and
    never touches its stream again once its framing is uncertain; an exchange returns
    exactly the packet that answers it; the packet channel hands out the bodies in order. *)
From S2P Require Import Prelude Link Ip.

(** ** Packets *)

Definition packet_ok (p : IpPacket) : Prop :=
  is_u8 (pk_version p) /\ is_u8 (pk_message_id p) /\ is_u8 (pk_status p)
  /\ is_u16 (pk_sequence p) /\ all_u8 (pk_body p) /\ zlen (pk_body p) <= MAXIMUM_IP_BODY_BYTES.

Lemma message_type_code_from v t :
  is_u8 v ->
  Z.land v 0xf0 = 0 /\ MessageType_try_from (Z.land v 0x0f) = Ok t <-> v = MessageType_code t.
Proof.
  intros Hv. split.
  - assert (Hc : forall v, is_u8 v -> Z.land v 0xf0 = 0 -> v = Z.land v 0x0f)
      by (intros w Hw; u8_decide w Hw).
    intros [H1 H2]. rewrite <-(Hc v Hv H1) in H2. unfold MessageType_try_from in H2.
    repeat (case_match; [simplify_eq; cbn; lia|]). done.
  - intros ->. by destruct t.
Qed.

Lemma encode_fits p :
  zlen (pk_body p) <= MAXIMUM_IP_BODY_BYTES ->
  IpPacket_encode p = Ok (packet_bytes p (8 + zlen (pk_body p))).
Proof.
  intros Hl. unfold IpPacket_encode, checked_add. unfold MAXIMUM_IP_BODY_BYTES, HEADER_SIZE in *.
  pose proof (zlen_nonneg (pk_body p)).
  rewrite (proj2 (Z.leb_le _ _)) by (unfold usize_max, u64_max; lia). cbn [ok_or result_bind].
  by rewrite (proj2 (Z.ltb_ge _ _)) by (unfold u16_max; lia).
Qed.

Lemma encode_refuses p :
  MAXIMUM_IP_BODY_BYTES < zlen (pk_body p) ->
  IpPacket_encode p = Err (IpLength (zlen (pk_body p))).
Proof.
  intros Hl. unfold IpPacket_encode, checked_add. unfold MAXIMUM_IP_BODY_BYTES, HEADER_SIZE in *.
  destruct (8 + zlen (pk_body p) <=? usize_max); cbn [ok_or result_bind]; [|done].
  by rewrite (proj2 (Z.ltb_lt _ _)) by (unfold u16_max; lia).
Qed.

Lemma packet_bytes_u8 p total : packet_ok p -> all_u8 (packet_bytes p total).
Proof.
  intros (?&?&?&?&?&?). unfold packet_bytes. rewrite !Forall_app.
  split_and!; try apply to_be_bytes_u8; [|done].
  rewrite !Forall_cons. split_and!; try done.
  destruct (pk_message_type p); unfold is_u8; cbn; lia.
Qed.

Lemma length_packet_bytes p total : zlen (packet_bytes p total) = 8 + zlen (pk_body p).
Proof. unfold packet_bytes, zlen. rewrite !length_app, !length_to_be_bytes. cbn [length]. lia. Qed.

Lemma be2 x : is_u16 x -> exists a b, to_be_bytes 2 x = [a; b] /\ from_be_bytes [a; b] = x.
Proof.
  intros Hx. eexists _, _. split; [reflexivity|].
  pose proof (from_to_be_bytes 2 x) as E. rewrite Z.mod_small in E; [exact E|].
  unfold is_u16 in Hx. cbn. lia.
Qed.

Lemma decode_packet_bytes p maximum :
  packet_ok p -> zlen (pk_body p) <= maximum ->
  IpPacket_decode (packet_bytes p (8 + zlen (pk_body p))) maximum = Ok p.
Proof.
  intros (Hv&Hi&Hs&Hq&Hb&Hl) Hm. unfold IpPacket_decode. rewrite length_packet_bytes.
  pose proof (zlen_nonneg (pk_body p)) as H0.
  rewrite (proj2 (Z.ltb_ge _ _)) by (unfold HEADER_SIZE; lia).
  assert (Ht : is_u16 (8 + zlen (pk_body p)))
    by (unfold is_u16, MAXIMUM_IP_BODY_BYTES, HEADER_SIZE in *; lia).
  destruct (be2 _ Hq) as (a & b & Eq & Fq), (be2 _ Ht) as (c & d & Et & Ft).
  unfold packet_bytes. rewrite Eq, Et. cbn [app nth drop]. rewrite Ft, Fq.
  rewrite Z.eqb_refl, (proj2 (Z.ltb_ge _ _)) by (unfold HEADER_SIZE; lia). cbn [negb orb].
  rewrite (proj2 (Z.ltb_ge _ _)) by (unfold HEADER_SIZE; lia).
  assert (H8 : is_u8 (MessageType_code (pk_message_type p)))
    by (destruct (pk_message_type p); unfold is_u8; cbn; lia).
  destruct (proj2 (message_type_code_from _ (pk_message_type p) H8) eq_refl) as [-> ->].
  cbn. by destruct p.
Qed.

Lemma from_be2_u16 a b : is_u8 a -> is_u8 b -> is_u16 (from_be_bytes [a; b]).
Proof.
  intros Ha Hb. assert (H : all_u8 [a; b]) by (by rewrite !Forall_cons).
  apply from_be_bytes_bound in H. unfold is_u16. change (256 ^ zlen [a; b]) with 65536 in H. lia.
Qed.

Lemma decode_packet_inv l maximum p :
  all_u8 l -> IpPacket_decode l maximum = Ok p ->
  packet_ok p /\ l = packet_bytes p (8 + zlen (pk_body p)) /\ zlen (pk_body p) <= maximum.
Proof.
  intros Hu. unfold IpPacket_decode. destruct (Z.ltb_spec (zlen l) HEADER_SIZE) as [|H8]; [done|].
  destruct l as [|v [|t [|i [|s [|q1 [|q2 [|n1 [|n2 body]]]]]]]];
    try (unfold zlen, HEADER_SIZE in H8; cbn in H8; lia).
  cbn [nth drop]. rewrite !Forall_cons in Hu.
  destruct Hu as (Hv & Ht & Hi & Hs & Hq1 & Hq2 & Hn1 & Hn2 & Hb).
  pose proof (from_be2_u16 _ _ Hn1 Hn2) as Hn. pose proof (from_be2_u16 _ _ Hq1 Hq2) as Hq.
  destruct (Z.eqb_spec (from_be_bytes [n1; n2])
              (zlen (v :: t :: i :: s :: q1 :: q2 :: n1 :: n2 :: body))) as [En|]; [|done].
  replace (zlen (v :: t :: i :: s :: q1 :: q2 :: n1 :: n2 :: body)) with (8 + zlen body) in En
    by (unfold zlen; cbn [length]; lia).
  cbn [negb orb]. destruct (Z.ltb_spec (from_be_bytes [n1; n2]) HEADER_SIZE); [done|].
  destruct (Z.ltb_spec maximum (from_be_bytes [n1; n2] - HEADER_SIZE)); [done|].
  destruct (Z.eqb_spec (Z.land t 0xf0) 0) as [Et|]; [|done]. cbn [negb].
  rewrite drop_0. intros (mt & Em & [= <-])%result_bind_Ok.
  assert (Ec : t = MessageType_code mt) by (by apply message_type_code_from).
  unfold HEADER_SIZE in *. split; [|split].
  - unfold packet_ok. cbn [pk_version pk_message_id pk_status pk_sequence pk_body].
    split_and!; try done; unfold is_u8, is_u16, MAXIMUM_IP_BODY_BYTES, HEADER_SIZE in *; lia.
  - unfold packet_bytes. cbn [pk_version pk_message_type pk_message_id pk_status pk_sequence pk_body].
    rewrite <-En, <-Ec.
    pose proof (to_from_be_bytes [n1; n2] ltac:(by rewrite !Forall_cons)) as E1.
    pose proof (to_from_be_bytes [q1; q2] ltac:(by rewrite !Forall_cons)) as E2.
    cbn [length] in E1, E2. by rewrite E1, E2.
  - cbn [pk_body]. lia.
Qed.

(** The packet format is exact: a packet is encoded exactly when its body fits the
    16-bit length field, into bytes of the announced length; and [decode] accepts exactly
    the encodings of well-formed packets within the local body limit. *)
Theorem ip_packet_codec_exact :
  (forall p, IpPacket_encode p
     = if MAXIMUM_IP_BODY_BYTES <? zlen (pk_body p) then Err (IpLength (zlen (pk_body p)))
       else Ok (packet_bytes p (8 + zlen (pk_body p))))
  /\ (forall l maximum p, all_u8 l ->
        (IpPacket_decode l maximum = Ok p
         <-> packet_ok p /\ IpPacket_encode p = Ok l /\ zlen (pk_body p) <= maximum)).
Proof.
  split.
  - intros p. destruct (Z.ltb_spec MAXIMUM_IP_BODY_BYTES (zlen (pk_body p))).
    + by apply encode_refuses.
    + by apply encode_fits.
  - intros l maximum p Hu. split.
    + intros (Hp & -> & Hm)%decode_packet_inv; [|done]. rewrite encode_fits by apply Hp. done.
    + intros (Hp & He & Hm). rewrite encode_fits in He by apply Hp. injection He as <-.
      by apply decode_packet_bytes.
Qed.

Lemma ip_packet_codec_exact_witness :
  IpPacket_decode [1; 2; 3; 0; 0; 7; 0; 10; 171; 205] 8192
    = Ok (mkPacket 1 TypePublish 3 0 7 [171; 205]).
Proof.
  apply (proj2 ip_packet_codec_exact); [solve_bytes|].
  split; [|split; [reflexivity|vm_compute; congruence]].
  unfold packet_ok. split_and!; first [solve_bytes | vm_compute; congruence].
Defined.

(** ** The bounds of a session *)

(** [session_cbn]: the fields of an updated session. *)
Ltac session_cbn :=
  cbn [set_stream set_next_sequence set_open set_unusable set_published set_unmatched_skipped
       ss_stream ss_next_sequence ss_maximum_body ss_protocol_version ss_open ss_published
       ss_published_bytes ss_maximum_published ss_maximum_published_bytes ss_maximum_unmatched
       ss_timeouts ss_published_dropped ss_unmatched_skipped ss_usable] in *.

Section Bounds.
Context {S : Type} `{IpStream S}.

Definition session_ok (s : IpSession S) : Prop :=
  is_u16 (ss_next_sequence s)
  /\ 0 <= ss_maximum_body s <= MAXIMUM_IP_BODY_BYTES
  /\ 0 <= ss_maximum_published s <= MAXIMUM_IP_PUBLISHED_PACKETS
  /\ 0 <= ss_maximum_published_bytes s <= MAXIMUM_IP_PUBLISHED_BYTES
  /\ 0 <= ss_maximum_unmatched s <= MAXIMUM_IP_UNMATCHED_PACKETS
  /\ IpTimeouts_validate (ss_timeouts s) = Ok tt
  /\ ss_published_bytes s = total_size body_size (ss_published s)
  /\ zlen (ss_published s) <= ss_maximum_published s
  /\ ss_published_bytes s <= ss_maximum_published_bytes s
  /\ is_u64 (ss_published_dropped s) /\ is_u64 (ss_unmatched_skipped s)
  /\ Forall (fun p => pk_message_type p = TypePublish /\ pk_version p = ss_protocol_version s)
       (ss_published s).

Lemma body_size_nonneg p : 0 <= body_size p.
Proof. apply zlen_nonneg. Qed.

Lemma note_dropped_u64 d evicted :
  is_u64 d -> is_u64 (foldl note_published_dropped d evicted).
Proof.
  revert d. induction evicted as [|p l IH]; intros d Hd; cbn; [done|]. apply IH.
  unfold note_published_dropped, saturating_add, is_u64, u64_max in *. lia.
Qed.

(** The queue a packet is retained in: a suffix of the old one, then the packet. *)
Lemma retain_published_spec s packet :
  session_ok s ->
  exists evicted q,
    ss_published s = evicted ++ q
    /\ ss_published (retain_published s packet)
       = (if (ss_maximum_published s =? 0) || (ss_maximum_published_bytes s <? body_size packet)
             || (ss_maximum_published_bytes s =? 0)
          then ss_published s else q ++ [packet])
    /\ (pk_message_type packet = TypePublish -> pk_version packet = ss_protocol_version s ->
        session_ok (retain_published s packet)).
Proof.
  intros (Hs & Hb & Hm & Hmb & Hu & Ht & Hp & Hl & Hlb & Hd & Hk & Hf).
  unfold retain_published. fold (body_size packet).
  destruct (_ || _ || _) eqn:Eb.
  - exists [], (ss_published s). split; [done|]. split.
    { cbn. destruct (ss_maximum_published s =? 0), (ss_maximum_published_bytes s =? 0),
        (ss_maximum_published_bytes s <? body_size packet); done. }
    intros _ _. unfold session_ok. cbn. split_and!; try done.
    all: unfold is_u64, saturating_add, u64_max in *; lia.
  - apply orb_false_iff in Eb as [Eb E3]. apply orb_false_iff in Eb as [E1 E2].
    rewrite Hp. destruct (evict_while _ _ _ _ _ _) as [[q total] dropped] eqn:Ev.
    apply evict_while_spec in Ev as (ev & Eq & Et & Ed & Hfull); [|exact body_size_nonneg].
    exists ev, q. split; [done|]. split; [cbn; by rewrite E1, E2, E3|].
    intros Hty Hve. unfold session_ok. cbn [set_published ss_next_sequence ss_maximum_body
      ss_maximum_published ss_maximum_published_bytes ss_maximum_unmatched ss_timeouts
      ss_published_bytes ss_published ss_published_dropped ss_unmatched_skipped
      ss_protocol_version].
    pose proof (body_size_nonneg packet) as H0.
    pose proof (total_size_nonneg body_size body_size_nonneg q) as H1.
    rewrite total_size_app. cbn [total_size foldr].
    assert (Hq : zlen q < ss_maximum_published s
                 /\ total_size body_size q + body_size packet <= ss_maximum_published_bytes s).
    { unfold MAXIMUM_IP_PUBLISHED_BYTES in *. apply Z.ltb_ge in E3. destruct Hfull as [->|Hfull].
      - cbn. apply Z.eqb_neq in E1. unfold zlen. cbn. lia.
      - apply orb_false_iff in Hfull as [F1 F2]. apply Z.leb_gt in F1. apply Z.ltb_ge in F2.
        unfold saturating_add, usize_max, u64_max in F2. lia. }
    unfold MAXIMUM_IP_PUBLISHED_BYTES in *.
    replace (saturating_add usize_max total (body_size packet))
      with (total_size body_size q + body_size packet)
      by (unfold saturating_add, usize_max, u64_max; lia).
    rewrite zlen_app. change (zlen [packet]) with 1.
    assert (Hd' : is_u64 dropped) by (subst dropped; by apply note_dropped_u64).
    split_and!; try done; try lia; try (apply Hd').
    rewrite Eq in Hf. apply Forall_app in Hf as [_ Hf]. apply Forall_app. split; [done|].
    by constructor.
Qed.

(** Lowering the limits: everything but the queue's own bounds is kept. *)
Lemma enforce_published_limits_ok s :
  is_u16 (ss_next_sequence s) ->
  0 <= ss_maximum_body s <= MAXIMUM_IP_BODY_BYTES ->
  0 <= ss_maximum_published s <= MAXIMUM_IP_PUBLISHED_PACKETS ->
  0 <= ss_maximum_published_bytes s <= MAXIMUM_IP_PUBLISHED_BYTES ->
  0 <= ss_maximum_unmatched s <= MAXIMUM_IP_UNMATCHED_PACKETS ->
  IpTimeouts_validate (ss_timeouts s) = Ok tt ->
  ss_published_bytes s = total_size body_size (ss_published s) ->
  is_u64 (ss_published_dropped s) -> is_u64 (ss_unmatched_skipped s) ->
  Forall (fun p => pk_message_type p = TypePublish /\ pk_version p = ss_protocol_version s)
    (ss_published s) ->
  session_ok (enforce_published_limits s).
Proof.
  intros Hs Hb Hm Hmb Hu Ht Hp Hd Hk Hf. unfold enforce_published_limits. rewrite Hp.
  destruct (evict_while _ _ _ _ _ _) as [[q total] dropped] eqn:Ev.
  apply evict_while_spec in Ev as (ev & Eq & Et & Ed & Hfull); [|exact body_size_nonneg].
  assert (Hd' : is_u64 dropped) by (subst dropped; by apply note_dropped_u64).
  rewrite Eq in Hf. apply Forall_app in Hf as [_ Hf].
  assert (Hz : (ss_maximum_published s <? zlen q) || (ss_maximum_published_bytes s <? total) = false).
  { destruct Hfull as [->|]; [|done]. subst total. cbn. apply orb_false_iff.
    split; apply Z.ltb_ge; unfold zlen; cbn; lia. }
  rewrite Hz. apply orb_false_iff in Hz as [F1%Z.ltb_ge F2%Z.ltb_ge].
  unfold session_ok. session_cbn. split_and!; try done; try lia; apply Hd' || apply Hk.
Qed.

Lemma send_frame s total ty id body r s' :
  IpSession_send s total ty id body = (r, s') ->
  (exists stream n, s' = set_next_sequence (set_stream s stream) n
      /\ (n = ss_next_sequence s \/ n = (ss_next_sequence s + 1) mod 65536))
  \/ (exists stream, s' = set_unusable (set_stream s stream)).
Proof.
  unfold IpSession_send. intros E.
  assert (Hid : s = set_next_sequence (set_stream s (ss_stream s)) (ss_next_sequence s))
    by (by destruct s).
  repeat case_match; simplify_eq; eauto 10.
Qed.

Lemma receive_frame s total r s' :
  IpSession_receive s total = (r, s') ->
  exists stream, s' = set_stream s stream \/ s' = set_unusable (set_stream s stream).
Proof.
  unfold IpSession_receive. intros E.
  assert (Hid : s = set_stream s (ss_stream s)) by (by destruct s).
  repeat case_match; simplify_eq; eauto.
Qed.

Lemma session_ok_frame s stream n b u :
  session_ok s -> is_u16 n ->
  session_ok (mkSession stream n (ss_maximum_body s) (ss_protocol_version s) b (ss_published s)
                (ss_published_bytes s) (ss_maximum_published s) (ss_maximum_published_bytes s)
                (ss_maximum_unmatched s) (ss_timeouts s) (ss_published_dropped s)
                (ss_unmatched_skipped s) u).
Proof. intros (? & ?) Hn. by split. Qed.

Lemma send_ok s total ty id body r s' :
  session_ok s -> IpSession_send s total ty id body = (r, s') -> session_ok s'.
Proof.
  intros Hs [(st & n & -> & Hn) | (st & ->)]%send_frame.
  - apply session_ok_frame; [done|]. destruct Hs as (Hq & _), Hn as [->| ->]; [done|].
    unfold is_u16. pose proof (Z.mod_pos_bound (ss_next_sequence s + 1) 65536). lia.
  - apply session_ok_frame; [done|apply Hs].
Qed.

Lemma ip_receive_ok s total r s' :
  session_ok s -> IpSession_receive s total = (r, s') ->
  session_ok s' /\ ss_protocol_version s' = ss_protocol_version s.
Proof.
  intros Hs [st [->| ->]]%receive_frame;
    (split; [apply session_ok_frame; [done|apply Hs] | done]).
Qed.

Lemma skip_unmatched_ok s :
  session_ok s ->
  session_ok (set_unmatched_skipped s (saturating_add u64_max (ss_unmatched_skipped s) 1)).
Proof.
  intros (? & ? & ? & ? & ? & ? & ? & ? & ? & ? & Hk & ?). unfold session_ok. session_cbn.
  split_and!; try done; try lia; unfold is_u64, saturating_add, u64_max in *; lia.
Qed.

Lemma judge_publish (s : IpSession S) sequence id packet :
  judge s sequence id packet = SkippedPublish <->
  pk_message_type packet = TypePublish /\ pk_version packet = ss_protocol_version s.
Proof.
  unfold judge. split.
  - intros E. repeat case_match; try done. case_bool_decide; [|done].
    split; [done|]. by apply Z.eqb_eq, negb_false_iff.
  - intros [-> ->]. by rewrite Z.eqb_refl.
Qed.

Lemma exchange_loop_ok fuel s total sequence id unmatched r s' :
  session_ok s -> exchange_loop fuel s total sequence id unmatched = (r, s') -> session_ok s'.
Proof.
  revert s unmatched. induction fuel as [|fuel IH]; intros s unmatched Hs; cbn [exchange_loop].
  { by intros [= <- <-]. }
  destruct (IpSession_receive s total) as [r1 s1] eqn:Er.
  destruct (ip_receive_ok _ _ _ _ Hs Er) as [Hs1 _].
  destruct r1 as [[packet|e]| |]; try (by intros [= <- <-]).
  destruct (judge s1 sequence id packet) eqn:Ej; [by intros [= <- <-]| |].
  - apply IH. apply judge_publish in Ej as [? ?].
    destruct (retain_published_spec s1 packet Hs1) as (? & ? & _ & _ & Hr). by apply Hr.
  - case_match; [intros [= <- <-]|apply IH]; by apply skip_unmatched_ok.
Qed.

Lemma exchange_ok fuel s id body r s' :
  session_ok s -> exchange_unchecked fuel s id body = (r, s') -> session_ok s'.
Proof.
  intros Hs. unfold exchange_unchecked, exchange_unchecked_without_total_timeout.
  destruct (IpSession_send _ _ _ _ _) as [r1 s1] eqn:Es. apply send_ok in Es; [|done].
  destruct r1 as [[sequence|e]| |]; try (by intros [= <- <-]).
  destruct (exchange_loop _ _ _ _ _ _) as [r2 s2] eqn:El. apply exchange_loop_ok in El; [|done].
  destruct r2; intros [= <- <-]; done.
Qed.

(** *** Everything that can be done with a session *)

Inductive IpAction :=
  | ActSend (ty : MessageType) (id : Z) (body : bytes)
  | ActReceive
  | ActOpen (fuel : nat) (options : SessionOptions)
  | ActRequest (fuel : nat) (id : Z) (body : bytes)
  | ActKeepAlive (fuel : nat)
  | ActTokenPassing (fuel : nat) (body : bytes)
  | ActClose (fuel : nat)
  | ActTakePublished
  | ActMaximumBody (n : Z)
  | ActMaximumPublished (n : Z)
  | ActMaximumPublishedBytes (n : Z)
  | ActMaximumUnmatched (n : Z)
  | ActTimeouts (t : IpTimeouts).

Definition ip_apply (s : IpSession S) (a : IpAction) : IpSession S :=
  match a with
  | ActSend ty id body => (IpSession_send s None ty id body).2
  | ActReceive => (IpSession_receive s None).2
  | ActOpen fuel options => (IpSession_open fuel s options).2
  | ActRequest fuel id body => (IpSession_request fuel s id body).2
  | ActKeepAlive fuel => (IpSession_keep_alive fuel s).2
  | ActTokenPassing fuel body => (IpSession_token_passing fuel s body).2
  | ActClose fuel => (IpSession_close fuel s).2
  | ActTakePublished => (take_published s).2
  | ActMaximumBody n => with_maximum_body s n
  | ActMaximumPublished n => with_maximum_published s n
  | ActMaximumPublishedBytes n => with_maximum_published_bytes s n
  | ActMaximumUnmatched n => with_maximum_unmatched s n
  | ActTimeouts t => match with_timeouts s t with Ok s => s | Err _ => s end
  end.

(** Sizes are [usize]. *)
Definition action_ok (a : IpAction) : Prop :=
  match a with
  | ActMaximumBody n | ActMaximumPublished n | ActMaximumPublishedBytes n
  | ActMaximumUnmatched n => 0 <= n
  | _ => True
  end.

Lemma ip_apply_ok s a : action_ok a -> session_ok s -> session_ok (ip_apply s a).
Proof.
  intros Ha Hs.
  assert (Hex : forall fuel id body, session_ok (exchange_unchecked fuel s id body).2).
  { intros. destruct (exchange_unchecked _ _ _ _) eqn:E. by eapply exchange_ok. }
  pose proof Hs as (? & ? & ? & ? & ? & ? & Hp & ? & ? & ? & ? & Hf).
  destruct a; cbn [ip_apply action_ok] in *.
  - destruct (IpSession_send _ _ _ _ _) eqn:E. by eapply send_ok.
  - destruct (IpSession_receive _ _) eqn:E. by eapply ip_receive_ok.
  - unfold IpSession_open. destruct (ss_open s); [done|]. case_match; [done|].
    pose proof (Hex fuel (MessageId_code SessionInitiate)
                  (1 :: to_be_bytes 4 (so_inactivity_close options / 1000000))) as He.
    destruct (exchange_unchecked _ _ _ _) as [[[]| |] ?]; done.
  - unfold IpSession_request. destruct (negb _); [done|]. apply Hex.
  - unfold IpSession_keep_alive, IpSession_request. destruct (negb _); [done|]. apply Hex.
  - unfold IpSession_token_passing, IpSession_request. destruct (negb _); [done|]. apply Hex.
  - unfold IpSession_close. destruct (negb _); [done|].
    pose proof (Hex fuel (MessageId_code SessionClose) []) as He.
    destruct (exchange_unchecked _ _ _ _) as [[[]| |] ?]; done.
  - unfold take_published. destruct (ss_published s) as [|p q] eqn:Eq; [done|].
    cbn in Hp. fold (total_size body_size q) in Hp. fold (body_size p).
    pose proof (body_size_nonneg p). pose proof (total_size_nonneg body_size body_size_nonneg q).
    rewrite Forall_cons in Hf. unfold session_ok. cbn [snd]. session_cbn.
    unfold saturating_sub.
    assert (zlen (p :: q) = 1 + zlen q) by apply zlen_cons.
    split_and!; try done; try lia. apply Hf.
  - unfold with_maximum_body, session_ok. session_cbn. split_and!; try done; try lia.
    all: case_match; unfold MAXIMUM_IP_BODY_BYTES, HEADER_SIZE in *; lia.
  - apply enforce_published_limits_ok; session_cbn; try done.
    unfold MAXIMUM_IP_PUBLISHED_PACKETS in *. lia.
  - apply enforce_published_limits_ok; session_cbn; try done.
    unfold MAXIMUM_IP_PUBLISHED_BYTES in *. lia.
  - unfold with_maximum_unmatched, session_ok. session_cbn. split_and!; try done; try lia.
    all: case_match; unfold MAXIMUM_IP_UNMATCHED_PACKETS in *; lia.
  - unfold with_timeouts. destruct (IpTimeouts_validate t) as [[]|] eqn:Et; cbn; [|done].
    unfold session_ok. session_cbn. split_and!; done || lia.
Qed.

(** *** An unusable stream is never touched again *)

Lemma unusable_exchange fuel s id body :
  ss_usable s = false ->
  exchange_unchecked fuel s id body = (Returned (Err IpStreamUnusable), s).
Proof.
  intros Hu. unfold exchange_unchecked, exchange_unchecked_without_total_timeout, IpSession_send.
  by rewrite Hu.
Qed.

Lemma unusable_apply s a :
  ss_usable s = false ->
  ss_usable (ip_apply s a) = false /\ ss_stream (ip_apply s a) = ss_stream s
  /\ ss_next_sequence (ip_apply s a) = ss_next_sequence s.
Proof.
  intros Hu. destruct a; cbn [ip_apply];
    unfold IpSession_open, IpSession_keep_alive, IpSession_token_passing, IpSession_close,
      IpSession_request, IpSession_send, IpSession_receive;
    rewrite ?unusable_exchange by done; try (rewrite Hu; done).
  - destruct (ss_open s); [done|]. case_match; done.
  - destruct (negb _); done.
  - destruct (negb _); done.
  - destruct (negb _); done.
  - destruct (negb _); done.
  - unfold take_published. case_match; done.
  - done.
  - unfold with_maximum_published, enforce_published_limits. session_cbn. by case_match; case_match.
  - unfold with_maximum_published_bytes, enforce_published_limits. session_cbn.
    by case_match; case_match.
  - done.
  - unfold with_timeouts. destruct (IpTimeouts_validate t); done.
Qed.

Lemma unusable_run s actions :
  ss_usable s = false ->
  ss_usable (foldl ip_apply s actions) = false
  /\ ss_stream (foldl ip_apply s actions) = ss_stream s
  /\ ss_next_sequence (foldl ip_apply s actions) = ss_next_sequence s.
Proof.
  revert s. induction actions as [|a l IH]; intros s Hu; [done|]. cbn [foldl].
  destruct (unusable_apply s a Hu) as (H1 & <- & <-). by apply IH.
Qed.

Lemma session_new_ok stream : session_ok (IpSession_new stream).
Proof.
  unfold session_ok, IpSession_new. session_cbn. split_and!; try done.
Qed.

(** C23. Whatever is done with a session, in any order and over any stream, its queue of
    Publish packets stays within the packet and byte limits in force, the byte count is
    exact, every retained packet is a Publish packet of the session's version, and every
    setting and counter stays in its range; and once an indeterminate result has made the
    stream unusable no later operation reads, writes or numbers anything. *)
Theorem ip_session_stays_bounded (stream : S) (actions more : list IpAction) :
  Forall action_ok (actions ++ more) ->
  let s := foldl ip_apply (IpSession_new stream) actions in
  session_ok s
  /\ (ss_usable s = false ->
      let s' := foldl ip_apply s more in
      ss_usable s' = false /\ ss_stream s' = ss_stream s
      /\ ss_next_sequence s' = ss_next_sequence s).
Proof.
  intros [Ha _]%Forall_app. split; [|by apply unusable_run].
  revert Ha. generalize (IpSession_new stream) (session_new_ok stream).
  induction actions as [|a l IH]; intros s Hs Ha; [done|]. cbn [foldl].
  apply Forall_cons in Ha as [Ha Hl]. by apply IH; [apply ip_apply_ok|].
Qed.
End Bounds.

(** ** What an exchange returns *)

Section Exchange.
Context {S : Type} `{IpStream S}.

(** Whole packets read one after the other, each under its own operation timeout. *)
Inductive packets_read (io : Z) (total : option Z) (maximum_body : Z)
    : S -> list IpPacket -> S -> Prop :=
  | read_none st : packets_read io total maximum_body st [] st
  | read_one st p st1 l st2 :
      receive_unbounded st (st_now st + io) total maximum_body = (Completed (Ok p), st1) ->
      packets_read io total maximum_body st1 l st2 ->
      packets_read io total maximum_body st (p :: l) st2.

Definition answers (version sequence id : Z) (p : IpPacket) : Prop :=
  pk_version p = version /\ pk_message_type p = TypeResponse /\ pk_sequence p = sequence
  /\ pk_message_id p = id /\ pk_status p = 0.

(** A packet the exchange waits past: published, or not the one asked for. *)
Definition passed_over (version sequence id : Z) (p : IpPacket) : Prop :=
  pk_version p = version
  /\ (pk_message_type p = TypePublish \/ pk_sequence p <> sequence \/ pk_message_id p <> id).

Definition is_publish (p : IpPacket) : bool := bool_decide (pk_message_type p = TypePublish).

Definition unmatched_count (l : list IpPacket) : Z := zlen (List.filter (fun p => negb (is_publish p)) l).

(** The effect of a packet that is waited past: retained, or counted. *)
Definition pass_over (s : IpSession S) (p : IpPacket) : IpSession S :=
  if is_publish p then retain_published s p
  else set_unmatched_skipped s (saturating_add u64_max (ss_unmatched_skipped s) 1).

Lemma pass_over_frame s p st :
  pass_over (set_stream s st) p = set_stream (pass_over s p) st
  /\ ss_stream (pass_over s p) = ss_stream s /\ ss_usable (pass_over s p) = ss_usable s
  /\ ss_protocol_version (pass_over s p) = ss_protocol_version s
  /\ ss_maximum_body (pass_over s p) = ss_maximum_body s
  /\ ss_timeouts (pass_over s p) = ss_timeouts s
  /\ ss_maximum_unmatched (pass_over s p) = ss_maximum_unmatched s.
Proof.
  unfold pass_over, retain_published. session_cbn.
  destruct (is_publish p); [|done]. case_match; [done|]. by case_match; case_match.
Qed.

Lemma pass_over_all_stream s l st :
  foldl pass_over (set_stream s st) l = set_stream (foldl pass_over s l) st.
Proof.
  revert s. induction l as [|p l IH]; intros s; [done|]. cbn [foldl].
  rewrite (proj1 (pass_over_frame s p st)). apply IH.
Qed.

Lemma set_stream_twice (s : IpSession S) a b : set_stream (set_stream s a) b = set_stream s b.
Proof. done. Qed.

Lemma receive_packet s total p st :
  ss_usable s = true ->
  receive_unbounded (ss_stream s) (st_now (ss_stream s) + to_io (ss_timeouts s)) total
    (ss_maximum_body s) = (Completed (Ok p), st) ->
  IpSession_receive s total = (Returned (Ok p), set_stream s st).
Proof. intros Hu E. unfold IpSession_receive. by rewrite Hu, E. Qed.

Lemma receive_packet_inv s total p s' :
  IpSession_receive s total = (Returned (Ok p), s') ->
  ss_usable s = true /\ exists st, s' = set_stream s st
  /\ receive_unbounded (ss_stream s) (st_now (ss_stream s) + to_io (ss_timeouts s)) total
       (ss_maximum_body s) = (Completed (Ok p), st).
Proof.
  unfold IpSession_receive. intros E. repeat case_match; simplify_eq.
  split; [by apply negb_false_iff|]. eauto.
Qed.

(** The verdict on a packet, by what the packet is. *)
Lemma judge_answers (s : IpSession S) sequence id p :
  judge s sequence id p = Answered (Ok p) <-> answers (ss_protocol_version s) sequence id p.
Proof.
  unfold judge, answers. split.
  - intros E. repeat case_match; simplify_eq.
    repeat match goal with
      | E : negb _ = false |- _ => apply negb_false_iff in E
      | E : _ || _ = false |- _ => apply orb_false_iff in E as [? ?]
      | E : bool_decide _ = true |- _ => apply bool_decide_eq_true in E
      end; lia || (split_and!; done || lia).
  - intros (-> & -> & -> & -> & ->). by rewrite !Z.eqb_refl.
Qed.

Lemma judge_answered_ok (s : IpSession S) sequence id p p' :
  judge s sequence id p = Answered (Ok p') -> p' = p.
Proof. unfold judge. intros E. by repeat case_match; simplify_eq. Qed.

Lemma judge_unmatched (s : IpSession S) sequence id p :
  judge s sequence id p = SkippedUnmatched <->
  passed_over (ss_protocol_version s) sequence id p /\ is_publish p = false.
Proof.
  unfold judge, passed_over, is_publish. split.
  - intros E. repeat case_match; simplify_eq.
    repeat match goal with
      | E : negb _ = false |- _ => apply negb_false_iff in E
      | E : _ || _ = true |- _ => apply orb_true_iff in E
      end. lia.
  - intros [[-> Hp] Hb]. rewrite Z.eqb_refl, Hb. apply bool_decide_eq_false in Hb.
    destruct (Z.eqb_spec (pk_sequence p) sequence), (Z.eqb_spec (pk_message_id p) id); done || tauto.
Qed.

Lemma unmatched_count_cons p l :
  unmatched_count (p :: l) = (if is_publish p then 0 else 1) + unmatched_count l.
Proof.
  unfold unmatched_count. cbn [List.filter]. destruct (is_publish p); cbn [negb]; [lia|].
  unfold zlen. cbn [length]. lia.
Qed.

Lemma unmatched_count_nonneg l : 0 <= unmatched_count l.
Proof. apply zlen_nonneg. Qed.

(** The loop over a stream that brings some packets to pass over, then the answer. *)
Lemma exchange_loop_complete l fuel s total sequence id n p st :
  ss_usable s = true ->
  packets_read (to_io (ss_timeouts s)) total (ss_maximum_body s) (ss_stream s) (l ++ [p]) st ->
  Forall (passed_over (ss_protocol_version s) sequence id) l ->
  answers (ss_protocol_version s) sequence id p ->
  0 <= n -> n + unmatched_count l <= ss_maximum_unmatched s <= MAXIMUM_IP_UNMATCHED_PACKETS ->
  (length l < fuel)%nat ->
  exchange_loop fuel s total sequence id n
    = (Returned (Ok p), set_stream (foldl pass_over s l) st).
Proof.
  revert fuel s n. induction l as [|x l IH]; intros [|fuel] s n Hu Hr Hl Ha Hn Hm Hf;
    try (cbn in Hf; lia); inversion Hr as [|? ? st1 ? ? Ex Hr']; subst; cbn [exchange_loop];
    rewrite (receive_packet _ _ _ _ Hu Ex).
  - inversion Hr'; subst. by rewrite (proj2 (judge_answers (set_stream s st) sequence id p)).
  - apply Forall_cons in Hl as [Hx Hl]. rewrite unmatched_count_cons in Hm.
    pose proof (unmatched_count_nonneg l).
    pose proof (pass_over_frame s x st1) as (Es & _ & Eu & Ev & Eb & Et & Em).
    assert (E : exchange_loop fuel (pass_over (set_stream s st1) x) total sequence id
                  (n + if is_publish x then 0 else 1)
                = (Returned (Ok p), set_stream (foldl pass_over s (x :: l)) st)).
    { rewrite Es, (IH fuel); session_cbn; rewrite ?Eu, ?Ev, ?Eb, ?Et, ?Em; try done.
      - by rewrite pass_over_all_stream, set_stream_twice.
      - destruct (is_publish x); lia.
      - lia.
      - cbn in Hf. lia. }
    unfold pass_over in E. destruct (is_publish x) eqn:Ep.
    + rewrite Z.add_0_r in E. unfold is_publish in Ep. apply bool_decide_eq_true in Ep.
      rewrite (proj2 (judge_publish (set_stream s st1) sequence id x)); [done|].
      split; [done|apply Hx].
    + rewrite (proj2 (judge_unmatched (set_stream s st1) sequence id x)) by done.
      unfold MAXIMUM_IP_UNMATCHED_PACKETS in *.
      replace (saturating_add usize_max n 1) with (n + 1)
        by (unfold saturating_add, usize_max, u64_max; lia).
      session_cbn. rewrite (proj2 (Z.ltb_ge _ _)) by lia. exact E.
Qed.

Lemma exchange_loop_sound fuel s total sequence id n p s' :
  exchange_loop fuel s total sequence id n = (Returned (Ok p), s') ->
  0 <= n <= ss_maximum_unmatched s -> ss_maximum_unmatched s <= MAXIMUM_IP_UNMATCHED_PACKETS ->
  exists l st,
    packets_read (to_io (ss_timeouts s)) total (ss_maximum_body s) (ss_stream s) (l ++ [p]) st
    /\ Forall (passed_over (ss_protocol_version s) sequence id) l
    /\ answers (ss_protocol_version s) sequence id p
    /\ n + unmatched_count l <= ss_maximum_unmatched s
    /\ s' = set_stream (foldl pass_over s l) st.
Proof.
  revert s n. induction fuel as [|fuel IH]; intros s n; cbn [exchange_loop]; [done|].
  destruct (IpSession_receive s total) as [[[x|e]| |] s1] eqn:Er; try done.
  apply receive_packet_inv in Er as (Hu & st1 & -> & Ex).
  pose proof (pass_over_frame s x st1) as (Es & Est & Eu & Ev & Eb & Et & Em).
  intros E Hn Hm.
  assert (Hrec : forall k, exchange_loop fuel (pass_over (set_stream s st1) x) total sequence id k
                   = (Returned (Ok p), s') ->
            k = n + (if is_publish x then 0 else 1) -> k <= ss_maximum_unmatched s ->
            passed_over (ss_protocol_version s) sequence id x ->
            exists l st, packets_read (to_io (ss_timeouts s)) total (ss_maximum_body s)
                           (ss_stream s) (l ++ [p]) st
              /\ Forall (passed_over (ss_protocol_version s) sequence id) l
              /\ answers (ss_protocol_version s) sequence id p
              /\ n + unmatched_count l <= ss_maximum_unmatched s
              /\ s' = set_stream (foldl pass_over s l) st).
  { intros k Ek -> Hk Hx. rewrite Es in Ek. apply IH in Ek as (l & st & Hr & Hl & Ha & Hc & ->);
      session_cbn; rewrite ?Eu, ?Ev, ?Eb, ?Et, ?Em in *; [|destruct (is_publish x); lia|done].
    exists (x :: l), st. rewrite unmatched_count_cons. split_and!; try done; try lia.
    - cbn [app]. econstructor; eauto.
    - by constructor.
    - cbn [foldl]. by rewrite pass_over_all_stream. }
  destruct (judge _ sequence id x) as [r| |] eqn:Ej.
  - injection E as -> <-. pose proof (judge_answered_ok _ _ _ _ _ Ej) as ->.
    apply judge_answers in Ej. exists [], st1. cbn. split_and!; try done.
    + econstructor; [done|constructor].
    + unfold unmatched_count, zlen. cbn. lia.
  - apply judge_publish in Ej as [Ht Hv]. eapply (Hrec n).
    + unfold pass_over, is_publish. rewrite bool_decide_true by done. exact E.
    + unfold is_publish. rewrite bool_decide_true by done. lia.
    + lia.
    + split; [done|by left].
  - apply judge_unmatched in Ej as [Hx Hp]. unfold MAXIMUM_IP_UNMATCHED_PACKETS in *.
    replace (saturating_add usize_max n 1) with (n + 1) in E
      by (unfold saturating_add, usize_max, u64_max; lia).
    session_cbn. destruct (Z.ltb_spec (ss_maximum_unmatched s) (n + 1)); [done|].
    eapply (Hrec (n + 1)); [|by rewrite Hp|done|done].
    unfold pass_over. rewrite Hp. exact E.
Qed.

(** C22. An exchange returns a packet exactly when the request, numbered with the next
    sequence number, was written and the stream then brought packets of the session's
    version that are Publish packets or belong to another request, at most the configured
    number of the latter, followed by the response with this number, this message
    identifier and status zero, which is the packet returned; the Publish packets are
    retained in order and the others counted, and nothing else of the session changes. *)
Theorem ip_exchange_exact (s : IpSession S) (id : Z) (body : bytes) (p : IpPacket)
    (s' : IpSession S) :
  ss_usable s = true -> zlen body <= MAXIMUM_IP_BODY_BYTES ->
  0 <= ss_maximum_unmatched s <= MAXIMUM_IP_UNMATCHED_PACKETS ->
  let total := Some (st_now (ss_stream s) + to_exchange (ss_timeouts s)) in
  let request := packet_bytes (mkPacket (ss_protocol_version s) TypeRequest id 0
                                 (ss_next_sequence s) body) (8 + zlen body) in
  (exists fuel, exchange_unchecked fuel s id body = (Returned (Ok p), s'))
  <-> exists st1 l st2,
    st_write (ss_stream s) (st_now (ss_stream s) + to_io (ss_timeouts s)) total request
      = (Completed tt, st1)
    /\ packets_read (to_io (ss_timeouts s)) total (ss_maximum_body s) st1 (l ++ [p]) st2
    /\ Forall (passed_over (ss_protocol_version s) (ss_next_sequence s) id) l
    /\ unmatched_count l <= ss_maximum_unmatched s
    /\ answers (ss_protocol_version s) (ss_next_sequence s) id p
    /\ s' = set_stream (foldl pass_over
              (set_next_sequence s ((ss_next_sequence s + 1) mod 65536)) l) st2.
Proof.
  intros Hu Hb Hm total request.
  unfold exchange_unchecked, exchange_unchecked_without_total_timeout, IpSession_send.
  rewrite Hu, (proj2 (Z.ltb_ge _ _)) by done. cbn [negb].
  rewrite encode_fits by done. cbn [pk_body]. fold request. fold total.
  destruct (st_write _ _ _ _) as [o st1] eqn:Ew.
  set (s1 := set_next_sequence (set_stream s st1) ((ss_next_sequence s + 1) mod 65536)).
  split.
  - intros [fuel E]. destruct o as [[]| | |]; try done. session_cbn. fold s1 in E.
    destruct (exchange_loop _ _ _ _ _ _) as [[[q|e]| |] s2] eqn:El; simplify_eq.
    apply exchange_loop_sound in El as (l & st2 & Hr & Hl & Ha & Hc & ->);
      [|unfold s1; session_cbn; lia|unfold s1; session_cbn; lia].
    exists st1, l, st2. unfold s1 in *. session_cbn. split_and!; try done; try lia.
    change (set_next_sequence (set_stream s st1) ((ss_next_sequence s + 1) mod 65536))
      with (set_stream (set_next_sequence s ((ss_next_sequence s + 1) mod 65536)) st1).
    by rewrite pass_over_all_stream, set_stream_twice.
  - intros (? & l & st2 & [= -> <-] & Hr & Hl & Hc & Ha & ->). exists (Datatypes.S (length l)).
    session_cbn. fold s1.
    rewrite (exchange_loop_complete l _ s1 total (ss_next_sequence s) id 0 p st2);
      unfold s1; session_cbn; try done; try lia.
    change (set_next_sequence (set_stream s st1) ((ss_next_sequence s + 1) mod 65536))
      with (set_stream (set_next_sequence s ((ss_next_sequence s + 1) mod 65536)) st1).
    by rewrite pass_over_all_stream, set_stream_twice.
Qed.
End Exchange.

(** ** The packet channel *)

Section Channel.
Context {S : Type} `{IpStream S}.

Lemma drain_published_spec fuel (s : IpSession S) pending :
  session_ok s -> (length (ss_published s) <= fuel)%nat ->
  exists s', drain_published fuel s pending
      = (pending ++ concat (map pk_body (ss_published s)), s')
    /\ ss_published s' = [] /\ ss_published_bytes s' = 0 /\ session_ok s'.
Proof.
  revert s pending. induction fuel as [|fuel IH]; intros s pending Hs Hf; cbn [drain_published];
    destruct (ss_published s) as [|p q] eqn:Eq; cbn in Hf; try lia.
  - exists s. rewrite app_nil_r. split_and!; try done.
    destruct Hs as (_ & _ & _ & _ & _ & _ & -> & _). by rewrite Eq.
  - unfold take_published. rewrite Eq. exists s. rewrite app_nil_r. split_and!; try done.
    destruct Hs as (_ & _ & _ & _ & _ & _ & -> & _). by rewrite Eq.
  - pose proof (ip_apply_ok s ActTakePublished I Hs) as Ht. cbn [ip_apply] in Ht.
    destruct (take_published s) as [o s1] eqn:Et. unfold take_published in Et. rewrite Eq in Et.
    injection Et as <- E1. cbn [snd] in Ht.
    destruct (IH s1 (pending ++ pk_body p) Ht) as (s' & E & Hp); [subst s1; cbn; lia|].
    exists s'. split; [|done]. rewrite E. subst s1. cbn. by rewrite app_assoc.
Qed.

(** Successive reads with buffers of the given sizes. *)
Fixpoint channel_reads (c : IpPacketChannel S) (capacities : list Z)
    : list (result ChannelError bytes) * IpPacketChannel S :=
  match capacities with
  | [] => ([], c)
  | n :: l =>
      let '(r, c) := IpPacketChannel_receive c n in
      let '(rs, c) := channel_reads c l in (r :: rs, c)
  end.

Definition chunk_of (r : result ChannelError bytes) : bytes :=
  match r with Ok l => l | Err _ => [] end.

Lemma channel_receive_spec (c : IpPacketChannel S) n :
  0 < n ->
  exists r c', IpPacketChannel_receive c n = (r, c')
    /\ chunk_of r ++ pc_pending c' = pc_pending c
    /\ pc_session c' = pc_session c
    /\ (r = Err ChannelIsClosed <-> pc_pending c = [])
    /\ zlen (pc_pending c') = Z.max 0 (zlen (pc_pending c) - n).
Proof.
  intros Hn. unfold IpPacketChannel_receive. rewrite (proj2 (Z.eqb_neq n 0)) by lia.
  case_bool_decide as Hp.
  - eexists _, _. split; [done|]. rewrite Hp. cbn. split_and!; try done. unfold zlen. cbn. lia.
  - eexists _, _. split; [done|]. cbn. split_and!; try done.
    + apply take_drop.
    + unfold zlen. rewrite length_drop. lia.
Qed.

Lemma channel_reads_spec (c : IpPacketChannel S) capacities :
  Forall (fun n => 0 < n) capacities ->
  exists rs c', channel_reads c capacities = (rs, c')
    /\ concat (map chunk_of rs) ++ pc_pending c' = pc_pending c
    /\ pc_session c' = pc_session c
    /\ (zlen (pc_pending c) <= foldr Z.add 0 capacities -> pc_pending c' = []).
Proof.
  revert c. induction capacities as [|n l IH]; intros c Hc; cbn [channel_reads foldr].
  - exists [], c. split_and!; try done. intros Hz. apply length_zero_iff_nil.
    unfold zlen in Hz. lia.
  - apply Forall_cons in Hc as [Hn Hl].
    destruct (channel_receive_spec c n Hn) as (r & c1 & E1 & Ha & Hs & _ & Hz). rewrite E1.
    destruct (IH c1 Hl) as (rs & c2 & E2 & Ha2 & Hs2 & Hz2). rewrite E2.
    eexists _, _. split; [done|]. cbn [map concat]. split_and!.
    + rewrite <-app_assoc, Ha2. exact Ha.
    + congruence.
    + intros Hle. apply Hz2.
      assert (0 <= foldr Z.add 0 l) by (clear -Hl; induction Hl; cbn; lia). lia.
Qed.

(** A session as a byte channel: a send is refused without touching the session while
    bytes of an earlier answer are left; an accepted one is one request, after which the
    readable bytes are the bodies of the retained Publish packets in order of arrival
    followed by the body of the response, and the queue is empty; reads with buffers of any
    sizes hand out exactly these bytes in order, report the channel closed exactly when none
    are left, and leave the session alone. *)
Theorem ip_channel_delivers (display : IpError -> string) (fuel : nat)
    (c c' : IpPacketChannel S) (l : bytes) (r : result ChannelError unit) :
  session_ok (pc_session c) ->
  IpPacketChannel_send fuel display c l = (Returned r, c') ->
  (pc_pending c <> [] -> c' = c /\ is_ok r = false)
  /\ (r = Ok tt ->
      exists p s1,
        IpSession_request fuel (pc_session c) (pc_message_id c) l = (Returned (Ok p), s1)
        /\ pc_pending c' = concat (map pk_body (ss_published s1)) ++ pk_body p
        /\ ss_published (pc_session c') = [] /\ session_ok (pc_session c'))
  /\ (forall capacities, Forall (fun n => 0 < n) capacities ->
      exists rs c'', channel_reads c' capacities = (rs, c'')
        /\ concat (map chunk_of rs) ++ pc_pending c'' = pc_pending c'
        /\ pc_session c'' = pc_session c'
        /\ (zlen (pc_pending c') <= foldr Z.add 0 capacities -> pc_pending c'' = []))
  /\ (forall n, 0 < n ->
      ((IpPacketChannel_receive c' n).1 = Err ChannelIsClosed <-> pc_pending c' = [])).
Proof.
  intros Hs E. split_and!.
  - intros Hp. unfold IpPacketChannel_send in E. rewrite bool_decide_false in E by done.
    cbn in E. by injection E as <- <-.
  - intros ->. unfold IpPacketChannel_send in E. case_bool_decide as Hp; [|done]. cbn [negb] in E.
    pose proof (ip_apply_ok (pc_session c) (ActRequest fuel (pc_message_id c) l) I Hs) as H1.
    cbn [ip_apply] in H1.
    destruct (IpSession_request _ _ _ _) as [[[p|e]| |] s1] eqn:Er; try done.
    destruct (drain_published_spec (length (ss_published s1)) s1 (pc_pending c) H1)
      as (s2 & Ed & Hq & _ & H2); [done|].
    rewrite Ed in E. injection E as <-. exists p, s1. cbn [pc_pending pc_session].
    rewrite Hp. done.
  - intros capacities. apply channel_reads_spec.
  - intros n Hn. destruct (channel_receive_spec c' n Hn) as (? & ? & -> & _ & _ & Hr & _). exact Hr.
Qed.
End Channel.

(** ** A scripted stream *)

(** The clock, what was written, and the bytes still to come. *)
Definition ScriptStream : Type := Z * list bytes * bytes.

#[global] Instance script_stream : IpStream ScriptStream := {
  st_now s := s.1.1;
  st_write s _ _ l := (Completed tt, (s.1.1 + 1, s.1.2 ++ [l], s.2));
  st_read_exact s _ _ n :=
    if n <=? zlen s.2
    then (Completed (take (Z.to_nat n) s.2), (s.1.1 + 1, s.1.2, drop (Z.to_nat n) s.2))
    else (Failed false, (s.1.1 + 1, s.1.2, []));
}.

Definition demo_publish : IpPacket := mkPacket 1 TypePublish 3 0 9 [17; 34].
Definition demo_stale : IpPacket := mkPacket 1 TypeResponse 3 0 77 [99].
Definition demo_answer : IpPacket := mkPacket 1 TypeResponse 3 0 1 [5; 6; 7].

Definition demo_input : bytes :=
  packet_bytes demo_publish 10 ++ packet_bytes demo_stale 9 ++ packet_bytes demo_answer 11.

Definition demo_session : IpSession ScriptStream :=
  set_open (IpSession_new (0, [], demo_input)) true.

Definition demo_after : IpSession ScriptStream := (exchange_unchecked 5 demo_session 3 [1; 2]).2.

Lemma ip_exchange_exact_witness :
  exists fuel, exchange_unchecked fuel demo_session 3 [1; 2] = (Returned (Ok demo_answer), demo_after).
Proof.
  apply (ip_exchange_exact demo_session 3 [1; 2] demo_answer demo_after eq_refl);
    [vm_compute; congruence | vm_compute; split; congruence |].
  eexists _, [demo_publish; demo_stale], _. split; [reflexivity|]. split.
  { repeat (econstructor; [reflexivity|]). constructor. }
  split.
  { apply Forall_cons. split; [split; [done|by left]|]. apply Forall_cons.
    split; [split; [done|right; left; vm_compute; congruence]|]. by apply Forall_nil. }
  split; [vm_compute; congruence|]. split; [done|]. vm_compute. reflexivity.
Defined.

Lemma ip_session_stays_bounded_witness :
  session_ok (foldl ip_apply (IpSession_new ((0, [], demo_input) : ScriptStream))
                [ActMaximumPublished 1; ActOpen 3 SessionOptions_default; ActReceive]).
Proof.
  apply (ip_session_stays_bounded ((0, [], demo_input) : ScriptStream)
           [ActMaximumPublished 1; ActOpen 3 SessionOptions_default; ActReceive] []).
  cbn [app]. rewrite !Forall_cons. split_and!; try done.
Defined.

Definition demo_channel : IpPacketChannel ScriptStream := IpPacketChannel_new demo_session 3.

Lemma demo_session_ok : session_ok demo_session.
Proof. apply session_ok_frame; [apply session_new_ok|]. unfold is_u16. cbn. lia. Qed.

Lemma ip_channel_delivers_witness :
  exists p s1,
    IpSession_request 5 demo_session 3 [1; 2] = (Returned (Ok p), s1)
    /\ pc_pending (IpPacketChannel_send 5 (fun _ => "error"%string) demo_channel [1; 2]).2
       = concat (map pk_body (ss_published s1)) ++ pk_body p
    /\ ss_published (pc_session
         (IpPacketChannel_send 5 (fun _ => "error"%string) demo_channel [1; 2]).2) = []
    /\ session_ok (pc_session
         (IpPacketChannel_send 5 (fun _ => "error"%string) demo_channel [1; 2]).2).
Proof.
  apply (ip_channel_delivers (fun _ => "error"%string) 5 demo_channel
           (IpPacketChannel_send 5 (fun _ => "error"%string) demo_channel [1; 2]).2 [1; 2] (Ok tt)
           demo_session_ok); reflexivity.
Defined.

(** The bytes the channel hands out in this script. *)
Example demo_channel_bytes :
  pc_pending (IpPacketChannel_send 5 (fun _ => "error"%string) demo_channel [1; 2]).2
    = [17; 34; 5; 6; 7].
Proof. vm_compute. reflexivity. Qed.
