(* ===== verification/Security.v ===== *)
(** * Key custody and replay protection (src/src/mesh/security.rs)

    Counters are [u32], the window of seen counters is a [u64] whose bit [i] stands for
    the counter [i] below the highest one. *)
From stdpp Require Import gmap.
From S2P Require Import Prelude.

(** ** Keys *)

Record KeyMaterial := KeyMaterial_new { km_bytes : bytes }.

#[global] Instance KeyMaterial_eq_dec : EqDecision KeyMaterial.
Proof. solve_decision. Defined.

(** The key and what the caller's buffer holds afterwards. *)
Definition KeyMaterial_new_and_zeroize (buffer : bytes) : KeyMaterial * bytes :=
  (KeyMaterial_new buffer, replicate (length buffer) 0).

Definition KeyMaterial_expose (k : KeyMaterial) : bytes := km_bytes k.

(** ** The replay window *)

Record ReplayWindow := mkWindow { rw_highest : Z; rw_seen : Z; rw_initialized : bool }.

#[global] Instance ReplayWindow_eq_dec : EqDecision ReplayWindow.
Proof. solve_decision. Defined.

Definition ReplayWindow_default : ReplayWindow := mkWindow 0 0 false.

Inductive SecurityError := Replay (counter : Z) | TooOld (counter : Z).

#[global] Instance SecurityError_eq_dec : EqDecision SecurityError.
Proof. solve_decision. Defined.

(** [seen << shift] on 64 bits. *)
Definition shl64 (x shift : Z) : Z := Z.shiftl x shift mod (u64_max + 1).

Definition ReplayWindow_accept (w : ReplayWindow) (counter : Z)
    : result SecurityError unit * ReplayWindow :=
  if negb (rw_initialized w) then (Ok tt, mkWindow counter 1 true)
  else if rw_highest w <? counter then
    let shift := counter - rw_highest w in
    (Ok tt,
     mkWindow counter (if 64 <=? shift then 1 else Z.lor (shl64 (rw_seen w) shift) 1)
       (rw_initialized w))
  else
    let age := rw_highest w - counter in
    if 64 <=? age then (Err (TooOld counter), w)
    else
      let mask := Z.shiftl 1 age in
      if negb (Z.land (rw_seen w) mask =? 0) then (Err (Replay counter), w)
      else (Ok tt, mkWindow (rw_highest w) (Z.lor (rw_seen w) mask) (rw_initialized w)).

Definition ReplayWindow_highest (w : ReplayWindow) : option Z :=
  if rw_initialized w then Some (rw_highest w) else None.

(** ** Replay protection: the window refines the set of accepted counters *)

(** ** The specification: every accepted counter is remembered *)

Definition highest (accepted : list Z) : Z := foldr Z.max 0 accepted.

(** What a window with unlimited memory answers to a counter. *)
Definition spec_accept (accepted : list Z) (counter : Z) : result SecurityError unit :=
  if bool_decide (accepted = []) then Ok tt
  else if counter <=? highest accepted - 64 then Err (TooOld counter)
  else if bool_decide (counter ∈ accepted) then Err (Replay counter)
  else Ok tt.

Definition spec_step (accepted : list Z) (counter : Z) : list Z :=
  match spec_accept accepted counter with Ok _ => accepted ++ [counter] | Err _ => accepted end.

(** ** The simulation *)

Definition window_ok (w : ReplayWindow) (accepted : list Z) : Prop :=
  Forall is_u32 accepted
  /\ rw_initialized w = negb (bool_decide (accepted = []))
  /\ rw_highest w = highest accepted
  /\ is_u64 (rw_seen w)
  /\ forall i, 0 <= i < 64 -> Z.testbit (rw_seen w) i = bool_decide (rw_highest w - i ∈ accepted).

Lemma highest_ub l x : x ∈ l -> x <= highest l.
Proof. unfold highest. induction 1; cbn; lia. Qed.

Lemma highest_in l : Forall is_u32 l -> l <> [] -> highest l ∈ l.
Proof.
  unfold highest. induction 1 as [|x l Hx Hl IH]; [done|]. intros _. cbn [foldr].
  destruct l as [|y l]; [cbn; unfold is_u32 in Hx; rewrite Z.max_l by lia; left|].
  destruct (Z.max_spec x (foldr Z.max 0 (y :: l))) as [[_ ->]|[_ ->]]; [right; by apply IH|left].
Qed.

Lemma highest_app l x : Forall is_u32 l -> is_u32 x -> highest (l ++ [x]) = Z.max (highest l) x.
Proof.
  unfold highest. intros Hl Hx. induction Hl as [|y l Hy Hl IH]; cbn [app foldr].
  - unfold is_u32 in Hx. lia.
  - rewrite IH. lia.
Qed.

Lemma land_bit x i : 0 <= i -> Z.land x (Z.shiftl 1 i) = 0 <-> Z.testbit x i = false.
Proof.
  intros Hi. rewrite Z.shiftl_1_l. split.
  - intros E. assert (H : Z.testbit (Z.land x (2 ^ i)) i = false) by (by rewrite E, Z.bits_0).
    rewrite Z.land_spec, Z.pow2_bits_true, andb_true_r in H by lia. done.
  - intros E. apply Z.bits_inj'. intros j Hj. rewrite Z.land_spec, Z.bits_0.
    destruct (Z.eq_dec i j) as [->|]; [by rewrite E|].
    by rewrite Z.pow2_bits_false, andb_false_r.
Qed.

Lemma shl64_bit x s i :
  0 <= s -> 0 <= i < 64 -> Z.testbit (shl64 x s) i = (s <=? i) && Z.testbit x (i - s).
Proof.
  intros Hs Hi. unfold shl64. change (u64_max + 1) with (2 ^ 64).
  rewrite Z.mod_pow2_bits_low by lia. destruct (Z.leb_spec s i); cbn [andb].
  - by rewrite Z.shiftl_spec by lia.
  - apply Z.shiftl_spec_low. lia.
Qed.

Lemma lor_u64 a b : is_u64 a -> is_u64 b -> is_u64 (Z.lor a b).
Proof.
  intros Ha Hb. split; [by apply Z.lor_nonneg; unfold is_u64 in *; lia|].
  unfold is_u64 in *. destruct (Z.eq_dec (Z.lor a b) 0); [lia|].
  apply (Z.log2_lt_cancel _ (2 ^ 64)). rewrite Z.log2_pow2 by lia.
  rewrite Z.log2_lor by lia. apply Z.max_lub_lt.
  - destruct (Z.eq_dec a 0) as [->|]; [done|]. apply Z.log2_lt_pow2; lia.
  - destruct (Z.eq_dec b 0) as [->|]; [done|]. apply Z.log2_lt_pow2; lia.
Qed.

Lemma mask_u64 i : 0 <= i < 64 -> is_u64 (Z.shiftl 1 i).
Proof.
  intros Hi. rewrite Z.shiftl_1_l. unfold is_u64. split; [lia|].
  change 18446744073709551616 with (2 ^ 64). apply Z.pow_lt_mono_r; lia.
Qed.

Lemma window_default_ok : window_ok ReplayWindow_default [].
Proof.
  split_and!; try done. intros i Hi. cbn [rw_seen rw_highest ReplayWindow_default].
  rewrite Z.bits_0, bool_decide_false; [done|]. by intros ?%elem_of_nil.
Qed.

(** A counter above the highest moves the window. *)
Lemma accept_above w accepted c :
  window_ok w accepted -> accepted <> [] -> is_u32 c -> highest accepted < c ->
  window_ok (mkWindow c (if 64 <=? c - rw_highest w then 1
                         else Z.lor (shl64 (rw_seen w) (c - rw_highest w)) 1) true)
    (accepted ++ [c]).
Proof.
  intros (Hu & Hi & Hh & Hs & Hb) Hne Hc Hlt. rewrite Hh.
  split_and!; cbn [rw_seen rw_highest rw_initialized].
  - apply Forall_app. by split; [|constructor].
  - rewrite bool_decide_false; [done|]. by intros [_ [=]]%app_nil.
  - rewrite highest_app by done. lia.
  - case_match; [unfold is_u64; lia|]. apply lor_u64; [|unfold is_u64; lia].
    apply (Z.mod_pos_bound (Z.shiftl (rw_seen w) (c - highest accepted)) (u64_max + 1)). done.
  - intros i Hi64. destruct (Z.eq_dec i 0) as [->|Hi0].
    { rewrite Z.sub_0_r, bool_decide_true by (apply elem_of_app; right; by left).
      case_match; [done|]. by rewrite Z.lor_spec, orb_true_r. }
    assert (E : bool_decide (c - i ∈ accepted ++ [c]) = bool_decide (c - i ∈ accepted)).
    { apply bool_decide_ext. rewrite elem_of_app, list_elem_of_singleton.
      split; [intros [?|?]; [done|lia]|by left]. }
    rewrite E. destruct (Z.leb_spec 64 (c - highest accepted)) as [H64|H64].
    + rewrite bool_decide_false; [|intros ?%highest_ub; lia].
      change 1 with (2 ^ 0). by rewrite Z.pow2_bits_false by lia.
    + change 1 with (2 ^ 0). rewrite Z.lor_spec, Z.pow2_bits_false, orb_false_r, shl64_bit by lia.
      destruct (Z.leb_spec (c - highest accepted) i); cbn [andb].
      * rewrite Hb by lia. apply bool_decide_ext. by replace (rw_highest w - (i - (c - highest accepted))) with (c - i) by lia.
      * symmetry. apply bool_decide_eq_false. intros ?%highest_ub. lia.
Qed.

(** A new counter inside the window sets its bit. *)
Lemma accept_inside w accepted c :
  window_ok w accepted -> accepted <> [] -> is_u32 c -> c <= highest accepted < c + 64 ->
  window_ok (mkWindow (rw_highest w) (Z.lor (rw_seen w) (Z.shiftl 1 (rw_highest w - c))) true)
    (accepted ++ [c]).
Proof.
  intros (Hu & Hi & Hh & Hs & Hb) Hne Hc Hr. rewrite Hh in *.
  split_and!; cbn [rw_seen rw_highest rw_initialized].
  - apply Forall_app. by split; [|constructor].
  - rewrite bool_decide_false; [done|]. by intros [_ [=]]%app_nil.
  - rewrite highest_app by done. lia.
  - apply lor_u64; [done|]. apply mask_u64. lia.
  - intros i Hi64. rewrite Z.lor_spec, Z.shiftl_1_l, Z.pow2_bits_eqb, Hb by lia.
    destruct (Z.eqb_spec (highest accepted - c) i) as [<-|Hne2].
    + rewrite orb_true_r. symmetry. apply bool_decide_eq_true. apply elem_of_app. right.
      replace (highest accepted - (highest accepted - c)) with c by lia. by left.
    + rewrite orb_false_r. apply bool_decide_ext. rewrite elem_of_app, list_elem_of_singleton.
      split; [by left|intros [?|?]; [done|lia]].
Qed.

Lemma accept_simulates w accepted c :
  window_ok w accepted -> is_u32 c ->
  (ReplayWindow_accept w c).1 = spec_accept accepted c
  /\ window_ok (ReplayWindow_accept w c).2 (spec_step accepted c).
Proof.
  intros Hw Hc. pose proof Hw as (Hu & Hi & Hh & Hs & Hb).
  unfold ReplayWindow_accept, spec_step, spec_accept. rewrite Hi.
  destruct (bool_decide_reflect (accepted = [])) as [->|Hne]; cbn [negb].
  { split; [done|]. split_and!; cbn; try done.
    - by constructor.
    - unfold highest. cbn. unfold is_u32 in Hc. lia.
    - intros i Hi64. rewrite (bool_decide_ext _ (i = 0)).
      + destruct (Z.eq_dec i 0) as [->|]; [done|]. rewrite bool_decide_false by done.
        change 1 with (2 ^ 0). by rewrite Z.pow2_bits_false by lia.
      + rewrite list_elem_of_singleton. lia. }
  rewrite Hh. destruct (Z.ltb_spec (highest accepted) c) as [Hlt|Hle].
  - rewrite (proj2 (Z.leb_gt c (highest accepted - 64))) by lia.
    rewrite bool_decide_false by (intros ?%highest_ub; lia).
    split; [done|]. cbn [snd]. pose proof (accept_above w accepted c Hw Hne Hc Hlt) as H.
    rewrite Hh in H. exact H.
  - destruct (Z.leb_spec 64 (highest accepted - c)) as [H64|H64].
    { rewrite (proj2 (Z.leb_le c (highest accepted - 64))) by lia. by split. }
    rewrite (proj2 (Z.leb_gt c (highest accepted - 64))) by lia.
    assert (Ebit : Z.testbit (rw_seen w) (highest accepted - c) = bool_decide (c ∈ accepted)).
    { rewrite Hb by lia. apply bool_decide_ext. rewrite Hh.
      by replace (highest accepted - (highest accepted - c)) with c by lia. }
    destruct (Z.eqb_spec (Z.land (rw_seen w) (Z.shiftl 1 (highest accepted - c))) 0) as [E|E];
      cbn [negb].
    + apply land_bit in E; [|lia]. rewrite Ebit in E. rewrite E. split; [done|]. cbn [snd].
      pose proof (accept_inside w accepted c Hw Hne Hc ltac:(lia)) as H. rewrite Hh in H. exact H.
    + assert (E' : bool_decide (c ∈ accepted) = true).
      { rewrite <-Ebit. apply not_false_iff_true. intros E0. apply E. by apply land_bit; [lia|]. }
      rewrite E'. by split.
Qed.

Lemma spec_step_NoDup accepted c : NoDup accepted -> NoDup (spec_step accepted c).
Proof.
  intros Hn. unfold spec_step, spec_accept.
  destruct (bool_decide_reflect (accepted = [])) as [->|]; [apply NoDup_singleton|].
  destruct (c <=? highest accepted - 64); [done|]. case_bool_decide as Hi; [done|].
  apply NoDup_app. split_and!; [done| |apply NoDup_singleton].
  by intros x Hx ->%list_elem_of_singleton.
Qed.

Definition window_run (w : ReplayWindow) (counters : list Z) : ReplayWindow :=
  foldl (fun w c => (ReplayWindow_accept w c).2) w counters.

Lemma window_run_ok counters w accepted :
  window_ok w accepted -> Forall is_u32 counters -> NoDup accepted ->
  window_ok (window_run w counters) (foldl spec_step accepted counters)
  /\ NoDup (foldl spec_step accepted counters).
Proof.
  revert w accepted. induction counters as [|c l IH]; intros w accepted Hw Hc Hn; [done|].
  apply Forall_cons in Hc as [Hc Hl]. cbn. apply IH; [|done|by apply spec_step_NoDup].
  by apply accept_simulates.
Qed.

(** C16. The 64-bit sliding window implements the set of all accepted counters: after any
    sequence of counters it answers the next one as the unbounded set would (too old
    exactly when 64 or more below the highest, a replay exactly when accepted before), so
    no counter is ever accepted twice, and the highest counter it reports is the set's. *)
Theorem replay_window_refines_set (counters : list Z) (c : Z) :
  Forall is_u32 (counters ++ [c]) ->
  let w := window_run ReplayWindow_default counters in
  let accepted := foldl spec_step [] counters in
  (ReplayWindow_accept w c).1 = spec_accept accepted c
  /\ NoDup accepted
  /\ (c ∈ accepted -> (ReplayWindow_accept w c).1 <> Ok tt)
  /\ ReplayWindow_highest w = (if bool_decide (accepted = []) then None else Some (highest accepted)).
Proof.
  intros [Hl Hc]%Forall_app w accepted. apply Forall_cons in Hc as [Hc _].
  destruct (window_run_ok counters _ _ window_default_ok Hl (NoDup_nil_2)) as [Hw Hn].
  fold w accepted in Hw, Hn. destruct (accept_simulates w accepted c Hw Hc) as [E _].
  split_and!; try done.
  - intros Hi. rewrite E. unfold spec_accept. rewrite bool_decide_false by (by intros ->; inversion Hi).
    case_match; [done|]. by rewrite bool_decide_true.
  - destruct Hw as (_ & Hi & Hh & _). unfold ReplayWindow_highest. rewrite Hi, Hh.
    by case_bool_decide.
Qed.

Lemma replay_window_refines_set_witness :
  (ReplayWindow_accept (window_run ReplayWindow_default [100; 90; 164; 101]) 90).1
    = spec_accept (foldl spec_step [] [100; 90; 164; 101]) 90.
Proof.
  apply (replay_window_refines_set [100; 90; 164; 101] 90).
  cbn [app]. rewrite !Forall_cons. unfold is_u32. split_and!; try lia. done.
Defined.

(** The answers in that run. *)
Example replay_answers :
  (ReplayWindow_accept (window_run ReplayWindow_default [100; 90; 164; 101]) 90).1
    = Err (TooOld 90)
  /\ (ReplayWindow_accept (window_run ReplayWindow_default [100; 90; 164; 101]) 101).1
    = Err (Replay 101)
  /\ (ReplayWindow_accept (window_run ReplayWindow_default [100; 90; 164; 101]) 102).1 = Ok tt.
Proof. vm_compute. done. Qed.
