(* ===== verification/Topology.v ===== *)
(** * Mesh topology, routes and schedules (src/src/mesh/topology.rs)

    Maps and sets are finite maps and sets; where the code iterates over a [BTreeSet] the
    model goes through its elements in ascending order. The search for a route is a loop
    over a queue into which every node is put at most once, so the number of nodes bounds
    its passes. Reliabilities are 32-bit floating-point patterns. *)
From stdpp Require Import gmap sorting.
From S2P Require Import Prelude Control.

(** ** Device identifiers: eight bytes, ordered lexicographically *)

Record DeviceId := mkDeviceId { did_bytes : bytes }.

#[global] Instance DeviceId_eq_dec : EqDecision DeviceId.
Proof. solve_decision. Defined.

#[global] Instance DeviceId_countable : Countable DeviceId.
Proof. by apply (inj_countable' did_bytes mkDeviceId); intros []. Defined.

Fixpoint bytes_leb (a b : bytes) : bool :=
  match a, b with
  | [], _ => true
  | _ :: _, [] => false
  | x :: a, y :: b => (x <? y) || ((x =? y) && bytes_leb a b)
  end.

Definition device_le (a b : DeviceId) : Prop := bytes_leb (did_bytes a) (did_bytes b) = true.

#[global] Instance device_le_dec : RelDecision device_le.
Proof. unfold device_le. intros a b. apply _. Defined.

(** The order in which a [BTreeSet] is iterated. *)
Definition ascending (l : gset DeviceId) : list DeviceId := merge_sort device_le (elements l).

(** ** Comparison of [f32] values

    A pattern that is not a number compares with nothing; the two zeros are equal. *)

Definition f32_is_nan (v : Z) : bool := 0x7f800000 <? Z.land v 0x7fffffff.

Definition f32_key (v : Z) : Z := if 0x80000000 <=? v then - (v - 0x80000000) else v.

Definition f32_le (a b : Z) : bool :=
  negb (f32_is_nan a) && negb (f32_is_nan b) && (f32_key a <=? f32_key b).

Definition f32_one : Z := 0x3f800000.

(** [is_finite() && (0.0..=1.0).contains(&v)]. *)
Definition f32_is_ratio (v : Z) : bool := f32_is_finite v && (f32_le 0 v && f32_le v f32_one).

(** ** The neighbour graph *)

Record LinkHealth := mkHealth { lh_rssi_dbm : Z; lh_reliability : Z; lh_age_seconds : Z }.

Record NodeState := mkNode { ns_id : DeviceId; ns_nickname : Z; ns_active : bool }.

Record MeshGraph := mkGraph {
  mg_nodes : gmap DeviceId NodeState;
  mg_links : gmap (DeviceId * DeviceId) LinkHealth;
  mg_adjacency : gmap DeviceId (gset DeviceId);
}.

Definition MeshGraph_default : MeshGraph := mkGraph ∅ ∅ ∅.

(** [adjacency.entry(id).or_default()], then an update of the entry. *)
Definition adjust_entry (m : gmap DeviceId (gset DeviceId)) (id : DeviceId)
    (f : gset DeviceId -> gset DeviceId) : gmap DeviceId (gset DeviceId) :=
  <[id := f (default ∅ (m !! id))]> m.

Definition ordered_pair (left right : DeviceId) : DeviceId * DeviceId :=
  if decide (device_le left right) then (left, right) else (right, left).

Definition upsert_node (g : MeshGraph) (node : NodeState) : option NodeState * MeshGraph :=
  (mg_nodes g !! ns_id node,
   mkGraph (<[ns_id node := node]> (mg_nodes g)) (mg_links g)
     (adjust_entry (mg_adjacency g) (ns_id node) (fun s => s))).

(** [get_mut(&neighbor)] and [entries.remove(&id)] for every neighbour. *)
Definition forget_in (id : DeviceId) (m : gmap DeviceId (gset DeviceId)) (neighbor : DeviceId)
    : gmap DeviceId (gset DeviceId) :=
  match m !! neighbor with
  | Some entries => <[neighbor := entries ∖ {[id]}]> m
  | None => m
  end.

Definition remove_node (g : MeshGraph) (id : DeviceId) : option NodeState * MeshGraph :=
  let adjacency :=
    match mg_adjacency g !! id with
    | Some neighbors => foldl (forget_in id) (delete id (mg_adjacency g)) (ascending neighbors)
    | None => mg_adjacency g
    end in
  (mg_nodes g !! id,
   mkGraph (delete id (mg_nodes g))
     (filter (fun l => l.1.1 <> id /\ l.1.2 <> id) (mg_links g))
     adjacency).

Definition update_link (g : MeshGraph) (left right : DeviceId) (health : LinkHealth)
    : bool * MeshGraph :=
  if bool_decide (left = right) || negb (f32_is_ratio (lh_reliability health))
     || bool_decide (mg_nodes g !! left = None) || bool_decide (mg_nodes g !! right = None)
  then (false, g)
  else
    let adjacency := adjust_entry (mg_adjacency g) left (fun s => {[right]} ∪ s) in
    let adjacency := adjust_entry adjacency right (fun s => {[left]} ∪ s) in
    (true, mkGraph (mg_nodes g) (<[ordered_pair left right := health]> (mg_links g)) adjacency).

Definition node_count (g : MeshGraph) : Z := Z.of_nat (size (mg_nodes g)).
Definition link_count (g : MeshGraph) : Z := Z.of_nat (size (mg_links g)).
Definition node (g : MeshGraph) (id : DeviceId) : option NodeState := mg_nodes g !! id.

(** ** Routes *)

Definition is_active (g : MeshGraph) (id : DeviceId) : bool :=
  match mg_nodes g !! id with Some n => ns_active n | None => false end.

(** The filter of [neighbors]. *)
Definition usable_link (g : MeshGraph) (minimum_reliability : Z) (id candidate : DeviceId) : bool :=
  match mg_links g !! ordered_pair id candidate with
  | Some health => f32_le minimum_reliability (lh_reliability health)
  | None => false
  end && is_active g candidate.

Definition neighbors (g : MeshGraph) (id : DeviceId) (minimum_reliability : Z) : list DeviceId :=
  List.filter (usable_link g minimum_reliability id)
    (ascending (default ∅ (mg_adjacency g !! id))).

(** The [while] loop of [reconstruct_route]; every pass uses another entry. *)
Fixpoint reconstruct_loop (fuel : nat) (source current : DeviceId)
    (previous : gmap DeviceId DeviceId) (hops : list DeviceId) : option (list DeviceId) :=
  match fuel with
  | O => None
  | S fuel =>
      if bool_decide (current = source) then Some hops
      else
        match previous !! current with
        | None => None
        | Some next => reconstruct_loop fuel source next previous (hops ++ [next])
        end
  end.

Definition reconstruct_route (source destination : DeviceId) (previous : gmap DeviceId DeviceId)
    : option (list DeviceId) :=
  (fun hops => rev hops) <$>
    reconstruct_loop (S (size previous)) source destination previous [destination].

Record Search := mkSearch {
  se_queue : list DeviceId;
  se_previous : gmap DeviceId DeviceId;
  se_visited : gset DeviceId;
}.

(** The [for] loop over the neighbours of [current]: [inl] when the destination is met. *)
Fixpoint scan_neighbors (l : list DeviceId) (current destination : DeviceId) (s : Search)
    : gmap DeviceId DeviceId + Search :=
  match l with
  | [] => inr s
  | neighbor :: l =>
      if bool_decide (neighbor ∈ se_visited s) then scan_neighbors l current destination s
      else
        let visited := {[neighbor]} ∪ se_visited s in
        let previous := <[neighbor := current]> (se_previous s) in
        if bool_decide (neighbor = destination) then inl previous
        else
          scan_neighbors l current destination
            (mkSearch (se_queue s ++ [neighbor]) previous visited)
  end.

Fixpoint search_loop (fuel : nat) (g : MeshGraph) (minimum_reliability : Z)
    (source destination : DeviceId) (s : Search) : option (list DeviceId) :=
  match fuel with
  | O => None
  | S fuel =>
      match se_queue s with
      | [] => None
      | current :: queue =>
          match scan_neighbors (neighbors g current minimum_reliability) current destination
                  (mkSearch queue (se_previous s) (se_visited s)) with
          | inl previous => reconstruct_route source destination previous
          | inr s => search_loop fuel g minimum_reliability source destination s
          end
      end
  end.

Definition route (g : MeshGraph) (source destination : DeviceId) (minimum_reliability : Z)
    : option (list DeviceId) :=
  if negb (f32_is_ratio minimum_reliability) then None
  else if negb (is_active g source) || negb (is_active g destination) then None
  else if bool_decide (source = destination) then Some [source]
  else
    search_loop (S (size (mg_nodes g))) g minimum_reliability source destination
      (mkSearch [source] ∅ {[source]}).

(** ** Schedules *)

Inductive CellDirection := Transmit | Receive | Shared.

Record Cell := mkCell {
  ce_timeslot : Z;
  ce_channel_offset : Z;
  ce_source : DeviceId;
  ce_destination : DeviceId;
  ce_direction : CellDirection;
}.

#[global] Instance CellDirection_eq_dec : EqDecision CellDirection.
Proof. solve_decision. Defined.

#[global] Instance Cell_eq_dec : EqDecision Cell.
Proof. solve_decision. Defined.

Record Schedule := mkSchedule { sc_superframe_size : Z; sc_cells : list Cell }.

Inductive ScheduleError :=
  | EmptySuperframe
  | TimeslotOutside (n : Z)
  | ChannelOutside (n : Z)
  | Loopback
  | Conflict (timeslot : Z)
  | RadioConflict (timeslot channel : Z).

Definition Schedule_new (superframe_size : Z) : result ScheduleError Schedule :=
  return_if superframe_size =? 0 err EmptySuperframe ;;
  Ok (mkSchedule superframe_size []).

Definition shares_device (existing cell : Cell) : bool :=
  bool_decide (ce_source existing = ce_source cell)
  || bool_decide (ce_source existing = ce_destination cell)
  || bool_decide (ce_destination existing = ce_source cell)
  || bool_decide (ce_destination existing = ce_destination cell).

(** The order of the keys [(timeslot, channel_offset)]. *)
Definition key_ltb (a b : Cell) : bool :=
  (ce_timeslot a <? ce_timeslot b)
  || ((ce_timeslot a =? ce_timeslot b) && (ce_channel_offset a <? ce_channel_offset b)).

(** [binary_search_by_key(..).unwrap_or_else(|index| index)] for a key the sorted cells do
    not hold: the number of cells with smaller keys; then [insert] at that index. *)
Fixpoint insert_sorted (cell : Cell) (cells : list Cell) : list Cell :=
  match cells with
  | [] => [cell]
  | x :: l => if key_ltb x cell then x :: insert_sorted cell l else cell :: x :: l
  end.

Definition Schedule_insert (s : Schedule) (cell : Cell) : result ScheduleError Schedule :=
  return_if sc_superframe_size s <=? ce_timeslot cell err TimeslotOutside (ce_timeslot cell) ;;
  return_if 15 <? ce_channel_offset cell err ChannelOutside (ce_channel_offset cell) ;;
  return_if bool_decide (ce_source cell = ce_destination cell) err Loopback ;;
  return_if existsb (fun existing => (ce_timeslot existing =? ce_timeslot cell)
                                     && shares_device existing cell) (sc_cells s)
    err Conflict (ce_timeslot cell) ;;
  return_if existsb (fun existing => (ce_timeslot existing =? ce_timeslot cell)
                                     && (ce_channel_offset existing =? ce_channel_offset cell))
              (sc_cells s)
    err RadioConflict (ce_timeslot cell) (ce_channel_offset cell) ;;
  Ok (mkSchedule (sc_superframe_size s) (insert_sorted cell (sc_cells s))).

Definition remove_device (s : Schedule) (device : DeviceId) : Z * Schedule :=
  let cells := List.filter (fun cell => negb (bool_decide (ce_source cell = device))
                                        && negb (bool_decide (ce_destination cell = device)))
                 (sc_cells s) in
  (saturating_sub (zlen (sc_cells s)) (zlen cells), mkSchedule (sc_superframe_size s) cells).
