(* ===== verification/MeshProps.v ===== *)
(** * Mesh graph and schedule: invariants

    The three tables of the graph agree whatever is added, measured and removed, and a
    schedule never holds two cells that exclude each other. *)
From stdpp Require Import gmap sorting.
From S2P Require Import Prelude Control Topology.

(** ** The order of identifiers *)

Lemma bytes_leb_total a b : bytes_leb a b = true \/ bytes_leb b a = true.
Proof.
  revert b. induction a as [|x a IH]; intros [|y b]; cbn; auto.
  destruct (Z.ltb_spec x y), (Z.ltb_spec y x), (Z.eqb_spec x y), (Z.eqb_spec y x); try lia; cbn; auto.
Qed.

Lemma bytes_leb_antisym a b : bytes_leb a b = true -> bytes_leb b a = true -> a = b.
Proof.
  revert b. induction a as [|x a IH]; intros [|y b]; cbn; try done.
  destruct (Z.ltb_spec x y), (Z.ltb_spec y x), (Z.eqb_spec x y), (Z.eqb_spec y x); try lia;
    cbn; try done. intros. f_equal; auto.
Qed.

Lemma ordered_pair_comm a b : ordered_pair a b = ordered_pair b a.
Proof.
  unfold ordered_pair, device_le. destruct a as [a], b as [b]. cbn.
  destruct (bytes_leb_total a b) as [H|H]; repeat case_decide; try done; f_equal; f_equal;
    by apply bytes_leb_antisym.
Qed.

Lemma ordered_pair_cases a b : ordered_pair a b = (a, b) \/ ordered_pair a b = (b, a).
Proof. unfold ordered_pair. case_decide; auto. Qed.

Lemma ordered_pair_inj a b c d :
  ordered_pair a b = ordered_pair c d -> (a = c /\ b = d) \/ (a = d /\ b = c).
Proof.
  intros E. destruct (ordered_pair_cases a b), (ordered_pair_cases c d); naive_solver congruence.
Qed.

Lemma elem_of_ascending x l : x ∈ ascending l <-> x ∈ l.
Proof.
  unfold ascending. rewrite (merge_sort_Permutation device_le (elements l)). apply elem_of_elements.
Qed.

(** ** The tables of the graph agree *)

Definition graph_ok (g : MeshGraph) : Prop :=
  (forall a n, mg_nodes g !! a = Some n -> ns_id n = a)
  /\ (forall a, is_Some (mg_adjacency g !! a) <-> is_Some (mg_nodes g !! a))
  /\ (forall a s b, mg_adjacency g !! a = Some s ->
        (b ∈ s <-> a <> b /\ is_Some (mg_links g !! ordered_pair a b)))
  /\ (forall a b h, mg_links g !! (a, b) = Some h ->
        ordered_pair a b = (a, b) /\ a <> b /\ is_Some (mg_nodes g !! a)
        /\ is_Some (mg_nodes g !! b) /\ f32_is_ratio (lh_reliability h) = true).

Lemma graph_default_ok : graph_ok MeshGraph_default.
Proof.
  unfold graph_ok, MeshGraph_default. cbn. setoid_rewrite lookup_empty.
  split_and!; done.
Qed.

(** A measured link in either order of its ends. *)
Lemma link_ends g a b :
  graph_ok g -> is_Some (mg_links g !! ordered_pair a b) ->
  a <> b /\ is_Some (mg_nodes g !! a) /\ is_Some (mg_nodes g !! b).
Proof.
  intros (_ & _ & _ & Hl) [h E].
  destruct (ordered_pair_cases a b) as [Ho|Ho]; rewrite Ho in E; apply Hl in E; naive_solver.
Qed.

Lemma upsert_node_ok g n : graph_ok g -> graph_ok (upsert_node g n).2.
Proof.
  intros Hg. pose proof Hg as (Hi & Ha & Hs & Hl). unfold upsert_node, adjust_entry. cbn.
  split_and!; cbn [mg_nodes mg_links mg_adjacency].
  - intros a m [[<- <-]|[_ E]]%lookup_insert_Some; [done|by apply Hi].
  - intros a. destruct (decide (ns_id n = a)) as [->|Hne].
    + rewrite !lookup_insert_eq. split; eauto.
    + rewrite !lookup_insert_ne by done. apply Ha.
  - intros a s b [[<- <-]|[_ E]]%lookup_insert_Some; [|by apply Hs].
    destruct (mg_adjacency g !! ns_id n) as [s|] eqn:Es; cbn; [by apply Hs|].
    split; [set_solver|]. intros [_ Hk]. destruct (link_ends _ _ _ Hg Hk) as (_ & Hn & _).
    apply Ha in Hn. rewrite Es in Hn. by destruct Hn.
  - intros a b h E. destruct (Hl a b h E) as (? & ? & ? & ? & ?).
    split_and!; try done; by apply lookup_insert_is_Some'; right.
Qed.

Lemma update_link_ok g a b h : graph_ok g -> graph_ok (update_link g a b h).2.
Proof.
  intros Hg. pose proof Hg as (Hi & Ha & Hs & Hl). unfold update_link. case_match eqn:E; [done|].
  rewrite !orb_false_iff in E. destruct E as [[[Hab Hr] Hna] Hnb]. cbn [snd].
  apply bool_decide_eq_false in Hab, Hna, Hnb. apply negb_false_iff in Hr.
  assert (Ma : is_Some (mg_nodes g !! a)) by (by apply not_eq_None_Some).
  assert (Mb : is_Some (mg_nodes g !! b)) by (by apply not_eq_None_Some).
  destruct (proj2 (Ha a) Ma) as [sa Ea], (proj2 (Ha b) Mb) as [sb Eb].
  unfold adjust_entry. rewrite Ea, (lookup_insert_ne _ a b), Eb by done. cbn [default].
  split_and!; cbn [mg_nodes mg_links mg_adjacency]; [done| | |].
  - intros c. rewrite !lookup_insert_is_Some'. rewrite (Ha c). naive_solver.
  - intros c s d Ec. assert (Hd : forall x y, is_Some (<[ordered_pair a b:=h]> (mg_links g)
                !! ordered_pair x y) <->
              (x = a /\ y = b) \/ (x = b /\ y = a) \/ is_Some (mg_links g !! ordered_pair x y)).
    { intros x y. rewrite lookup_insert_is_Some'. split.
      - intros [E|E]; [|auto]. symmetry in E. apply ordered_pair_inj in E. naive_solver.
      - intros [[-> ->]|[[-> ->]|E]]; auto. left. apply ordered_pair_comm. }
    rewrite Hd. apply lookup_insert_Some in Ec as [[<- <-]|[Hcb Ec]].
    + rewrite elem_of_union, elem_of_singleton, (Hs b sb d Eb). naive_solver.
    + apply lookup_insert_Some in Ec as [[<- <-]|[Hca Ec]].
      * rewrite elem_of_union, elem_of_singleton, (Hs a sa d Ea). naive_solver.
      * rewrite (Hs c s d Ec). naive_solver.
  - intros c d k [[E <-]|[_ E]]%lookup_insert_Some; [|by apply Hl].
    split; [|destruct (ordered_pair_cases a b) as [Ho|Ho]; rewrite Ho in E; naive_solver].
    destruct (ordered_pair_cases a b) as [Ho|Ho]; rewrite Ho in E; injection E as <- <-; [done|].
    by rewrite ordered_pair_comm.
Qed.

(** The adjacency after [id] was forgotten in the listed entries. *)
Lemma forget_lookup id l m b :
  foldl (forget_in id) m l !! b
    = (if decide (b ∈ l) then (fun s => s ∖ {[id]}) <$> m !! b else m !! b).
Proof.
  revert m. induction l as [|x l IH]; intros m; cbn [foldl].
  { by rewrite decide_False by set_solver. }
  rewrite IH. unfold forget_in.
  destruct (decide (b = x)) as [->|Hne].
  - rewrite (decide_True (P := x ∈ x :: l)) by set_solver.
    destruct (m !! x) as [s|] eqn:Ex; rewrite ?lookup_insert_eq, ?Ex; case_decide; try done; cbn.
    f_equal. set_solver.
  - replace ((match m !! x with Some entries => <[x:=entries ∖ {[id]}]> m | None => m end) !! b)
      with (m !! b) by (destruct (m !! x); [by rewrite lookup_insert_ne|done]).
    destruct (decide (b ∈ l)), (decide (b ∈ x :: l)); set_solver.
Qed.

Lemma remove_node_ok g id :
  graph_ok g ->
  graph_ok (remove_node g id).2
  /\ mg_nodes (remove_node g id).2 = delete id (mg_nodes g)
  /\ (forall a b h, mg_links (remove_node g id).2 !! (a, b) = Some h -> a <> id /\ b <> id).
Proof.
  intros Hg. pose proof Hg as (Hi & Ha & Hs & Hl). split_and!; [|done|].
  2: { intros a b h E. unfold remove_node in E. cbn in E.
       apply map_lookup_filter_Some in E as [_ E]. exact E. }
  assert (Hadj : forall a, mg_adjacency (remove_node g id).2 !! a
            = if decide (a = id) then None else (fun s => s ∖ {[id]}) <$> mg_adjacency g !! a).
  { intros a. unfold remove_node. cbn. destruct (mg_adjacency g !! id) as [ns|] eqn:En.
    - rewrite forget_lookup. destruct (decide (a = id)) as [->|Hne].
      + rewrite lookup_delete_eq. by case_decide.
      + rewrite lookup_delete_ne by done. case_decide as Hin; [done|].
        destruct (mg_adjacency g !! a) as [s|] eqn:Es; [|done]. cbn. f_equal.
        rewrite elem_of_ascending in Hin.
        assert (id ∉ s); [|set_solver]. rewrite (Hs a s id Es). intros [_ Hk]. apply Hin.
        apply (Hs id ns a En). by rewrite ordered_pair_comm.
    - destruct (decide (a = id)) as [->|Hne]; [done|].
      destruct (mg_adjacency g !! a) as [s|] eqn:Es; [|done]. cbn. f_equal.
      assert (id ∉ s); [|set_solver]. rewrite (Hs a s id Es). intros [_ Hk].
      destruct (link_ends g a id Hg Hk) as (_ & _ & Hn). apply Ha in Hn. rewrite En in Hn.
      by destruct Hn. }
  split_and!.
  - intros a n E. cbn [remove_node snd mg_nodes] in E.
    apply lookup_delete_Some in E as [_ E]. by apply Hi.
  - intros a. rewrite Hadj. cbn [remove_node snd mg_nodes]. case_decide as Hd.
    + subst. rewrite lookup_delete_eq. split; by intros [? ?].
    + rewrite lookup_delete_ne by done. rewrite fmap_is_Some. apply Ha.
  - intros a s b E. rewrite Hadj in E. case_decide as Hd; [done|].
    apply fmap_Some in E as (s0 & Es & ->).
    rewrite elem_of_difference, elem_of_singleton, (Hs a s0 b Es). cbn [remove_node snd mg_links].
    destruct (ordered_pair a b) as [x y] eqn:Eo.
    assert (Hxy : (x = a /\ y = b) \/ (x = b /\ y = a))
      by (destruct (ordered_pair_cases a b) as [Ho|Ho]; rewrite Ho in Eo; naive_solver).
    split.
    + intros [[Hne [h Eh]] Hb]. split; [done|]. exists h. apply map_lookup_filter_Some. cbn.
      naive_solver.
    + intros [Hne [h Eh]]. apply map_lookup_filter_Some in Eh as [Eh Hf]. cbn in Hf. naive_solver.
  - intros a b h E. pose proof E as E'. cbn [remove_node snd mg_links] in E.
    apply map_lookup_filter_Some in E as [E [Hna Hnb]]. cbn in Hna, Hnb.
    apply Hl in E. cbn [remove_node snd mg_nodes]. rewrite !lookup_delete_ne by done. naive_solver.
Qed.

(** ** Schedules without conflicts *)

Definition key_lt (a b : Cell) : Prop := key_ltb a b = true.

(** Two cells that cannot both be scheduled: same timeslot, and a device or the radio
    channel in common. *)
Definition excludes (a b : Cell) : Prop :=
  ce_timeslot a = ce_timeslot b
  /\ (ce_source a = ce_source b \/ ce_source a = ce_destination b
      \/ ce_destination a = ce_source b \/ ce_destination a = ce_destination b
      \/ ce_channel_offset a = ce_channel_offset b).

Definition cell_ok (size : Z) (c : Cell) : Prop :=
  ce_timeslot c < size /\ ce_channel_offset c <= 15 /\ ce_source c <> ce_destination c.

Definition schedule_ok (s : Schedule) : Prop :=
  0 < sc_superframe_size s
  /\ Forall (cell_ok (sc_superframe_size s)) (sc_cells s)
  /\ StronglySorted key_lt (sc_cells s)
  /\ forall a b, a ∈ sc_cells s -> b ∈ sc_cells s -> excludes a b -> a = b.

Lemma key_lt_trans a b c : key_lt a b -> key_lt b c -> key_lt a c.
Proof. unfold key_lt, key_ltb. rewrite !orb_true_iff, !andb_true_iff, !Z.ltb_lt, !Z.eqb_eq. lia. Qed.

Lemma insert_sorted_Permutation c l : insert_sorted c l ≡ₚ c :: l.
Proof. induction l as [|x l IH]; cbn; [done|]. case_match; [rewrite IH; constructor|done]. Qed.

Lemma insert_sorted_sorted c l :
  StronglySorted key_lt l ->
  Forall (fun x => ~ (ce_timeslot x = ce_timeslot c /\ ce_channel_offset x = ce_channel_offset c)) l ->
  StronglySorted key_lt (insert_sorted c l).
Proof.
  induction 1 as [|x l Hs IH Hx]; intros Hf; cbn; [repeat constructor|].
  apply Forall_cons in Hf as [Hc Hf]. destruct (key_ltb x c) eqn:E.
  - constructor; [by apply IH|]. rewrite insert_sorted_Permutation. by constructor.
  - assert (Hlt : key_lt c x).
    { unfold key_lt, key_ltb in *. rewrite orb_true_iff, andb_true_iff, !Z.ltb_lt, Z.eqb_eq.
      rewrite orb_false_iff, andb_false_iff, !Z.ltb_ge, Z.eqb_neq in E. lia. }
    constructor; [by constructor|]. constructor; [done|].
    eapply Forall_impl; [exact Hx|]. intros y Hy. by eapply key_lt_trans.
Qed.

Lemma shares_device_spec a b :
  shares_device a b = true <->
  (ce_source a = ce_source b \/ ce_source a = ce_destination b
   \/ ce_destination a = ce_source b \/ ce_destination a = ce_destination b).
Proof. unfold shares_device. rewrite !orb_true_iff, !bool_decide_eq_true. tauto. Qed.

Lemma no_conflict_spec l c :
  existsb (fun x => (ce_timeslot x =? ce_timeslot c) && shares_device x c) l = false ->
  existsb (fun x => (ce_timeslot x =? ce_timeslot c)
                    && (ce_channel_offset x =? ce_channel_offset c)) l = false ->
  Forall (fun x => ~ excludes x c) l.
Proof.
  intros H1 H2. apply Forall_forall. intros x Hx [Ht Hs]. apply list_elem_of_In in Hx.
  assert (E : existsb (fun x => (ce_timeslot x =? ce_timeslot c) && shares_device x c) l = true
     \/ existsb (fun x => (ce_timeslot x =? ce_timeslot c)
                    && (ce_channel_offset x =? ce_channel_offset c)) l = true).
  { rewrite !existsb_exists.
    destruct (decide (ce_channel_offset x = ce_channel_offset c)) as [Ec|Ec].
    - right. exists x. by rewrite Ht, Ec, !Z.eqb_refl.
    - left. exists x. rewrite Ht, Z.eqb_refl. cbn. by rewrite shares_device_spec; tauto. }
  destruct E; congruence.
Qed.

Lemma conflict_spec l c :
  existsb (fun x => (ce_timeslot x =? ce_timeslot c) && shares_device x c) l = true
  \/ existsb (fun x => (ce_timeslot x =? ce_timeslot c)
                    && (ce_channel_offset x =? ce_channel_offset c)) l = true ->
  ~ Forall (fun x => ~ excludes x c) l.
Proof.
  rewrite !existsb_exists, Forall_forall. intros [(x & Hx & E)|(x & Hx & E)] H;
    apply andb_true_iff in E as [Et E]; apply (H x); try (by apply list_elem_of_In);
    (split; [lia|]); [rewrite shares_device_spec in E; tauto|right; right; right; right; lia].
Qed.

Lemma excludes_sym a b : excludes a b -> excludes b a.
Proof. intros [? ?]. split; [done|]. naive_solver. Qed.

Lemma schedule_new_ok n s : 0 <= n -> Schedule_new n = Ok s -> schedule_ok s.
Proof.
  unfold Schedule_new. intros Hn E. destruct (Z.eqb_spec n 0); [done|]. injection E as <-.
  split_and!; cbn; [lia|constructor|constructor|set_solver].
Qed.

Lemma schedule_insert_spec (s : Schedule) (c : Cell) :
  schedule_ok s ->
  (is_ok (Schedule_insert s c) = true
   <-> cell_ok (sc_superframe_size s) c /\ Forall (fun x => ~ excludes x c) (sc_cells s))
  /\ forall s', Schedule_insert s c = Ok s' ->
     schedule_ok s' /\ sc_superframe_size s' = sc_superframe_size s
     /\ sc_cells s' ≡ₚ c :: sc_cells s.
Proof.
  intros (Hn & Hf & Hso & Hex). unfold Schedule_insert, cell_ok.
  destruct (Z.leb_spec (sc_superframe_size s) (ce_timeslot c)) as [|Ht]; [split; [|done]; cbn; split; [done|lia]|].
  destruct (Z.ltb_spec 15 (ce_channel_offset c)) as [|Hc]; [split; [|done]; cbn; split; [done|lia]|].
  destruct (bool_decide_reflect (ce_source c = ce_destination c)) as [|Hd];
    [split; [|done]; cbn; split; [done|tauto]|].
  destruct (existsb _ _) eqn:E1.
  { split; [|done]. cbn. split; [done|]. intros [_ H]. apply conflict_spec in H; [done|by left]. }
  destruct (existsb (fun x => (ce_timeslot x =? ce_timeslot c)
                    && (ce_channel_offset x =? ce_channel_offset c)) _) eqn:E2.
  { split; [|done]. cbn. split; [done|]. intros [_ H]. apply conflict_spec in H; [done|by right]. }
  pose proof (no_conflict_spec _ _ E1 E2) as Hno. split; [cbn; split; [intros _; split_and!; done || lia|done]|].
  intros s' [= <-]. cbn [sc_cells sc_superframe_size]. split_and!; [|done|apply insert_sorted_Permutation].
  split_and!; cbn [sc_cells sc_superframe_size]; [done| | |].
  - rewrite insert_sorted_Permutation. constructor; [|done]. by split_and!.
  - apply insert_sorted_sorted; [done|]. eapply Forall_impl; [exact Hno|].
    intros x Hx [? ?]. apply Hx. split; [done|]. tauto.
  - intros a b. rewrite insert_sorted_Permutation, !elem_of_cons. rewrite Forall_forall in Hno.
    intros [->|Ha] [->|Hb] Hab; try done.
    + by apply excludes_sym, Hno in Hab.
    + by apply Hno in Hab.
    + by apply Hex.
Qed.

Lemma schedule_insert_ok s c s' : schedule_ok s -> Schedule_insert s c = Ok s' -> schedule_ok s'.
Proof. intros Hs E. by apply (proj2 (schedule_insert_spec s c Hs)). Qed.

(** Insertion into a conflict-free schedule: a cell is accepted exactly when it lies in
    the superframe and the channel table, joins two different devices, and no cell of its
    timeslot shares a device or the radio channel with it; the schedule then holds exactly
    the old cells and the new one, sorted by timeslot and channel and still conflict-free. *)
Theorem schedule_insert_exact (s : Schedule) (c : Cell) :
  schedule_ok s ->
  (is_ok (Schedule_insert s c) = true
   <-> cell_ok (sc_superframe_size s) c /\ Forall (fun x => ~ excludes x c) (sc_cells s))
  /\ forall s', Schedule_insert s c = Ok s' ->
     schedule_ok s' /\ sc_superframe_size s' = sc_superframe_size s
     /\ sc_cells s' ≡ₚ c :: sc_cells s.
Proof. apply schedule_insert_spec. Qed.

Lemma schedule_insert_exact_witness :
  let a := mkDeviceId [0; 0; 0; 0; 0; 0; 0; 1] in
  let b := mkDeviceId [0; 0; 0; 0; 0; 0; 0; 2] in
  cell_ok 100 (mkCell 7 3 a b Transmit)
  /\ Forall (fun x => ~ excludes x (mkCell 7 3 a b Transmit)) (sc_cells (mkSchedule 100 [])).
Proof.
  intros a b. apply (schedule_insert_exact (mkSchedule 100 []) (mkCell 7 3 a b Transmit)).
  - by apply (schedule_new_ok 100).
  - reflexivity.
Defined.

Lemma schedule_remove_ok s d :
  schedule_ok s ->
  schedule_ok (remove_device s d).2
  /\ sc_cells (remove_device s d).2
     = List.filter (fun c => negb (bool_decide (ce_source c = d))
                             && negb (bool_decide (ce_destination c = d))) (sc_cells s)
  /\ Forall (fun c => ce_source c <> d /\ ce_destination c <> d) (sc_cells (remove_device s d).2).
Proof.
  intros (Hn & Hf & Hso & Hex). unfold remove_device. cbn [snd sc_cells sc_superframe_size].
  set (p := fun c => _). assert (Hin : forall c, c ∈ List.filter p (sc_cells s) -> c ∈ sc_cells s /\ p c = true).
  { intros c Hc%list_elem_of_In%filter_In. by rewrite list_elem_of_In. }
  split_and!; [|done|].
  - split_and!; cbn [sc_cells sc_superframe_size]; [done| | |].
    + apply Forall_forall. intros c [Hc _]%Hin. by eapply Forall_forall in Hf.
    + clear -Hso. induction Hso as [|c l Hs IH Hc]; cbn; [constructor|]. destruct (p c); [|done].
      constructor; [done|]. apply Forall_forall. intros x Hx%list_elem_of_In%filter_In.
      rewrite Forall_forall in Hc. apply Hc, list_elem_of_In, Hx.
    + intros a b [Ha _]%Hin [Hb _]%Hin. by apply Hex.
  - apply Forall_forall. intros c [_ Hp]%Hin. unfold p in Hp.
    apply andb_true_iff in Hp as [H1 H2]. apply negb_true_iff in H1, H2.
    by apply bool_decide_eq_false in H1, H2.
Qed.
