(* ===== verification/RouteProps.v ===== *)
(** * Mesh routes: the search finds a route of the fewest hops

    The ghost function [depth] gives every visited node its number of hops from the
    source; the queue is sorted by it, and the visited nodes are at most one hop deeper
    than its front. *)
From stdpp Require Import gmap sorting.
From S2P Require Import Prelude Control Topology MeshProps.

(** ** Paths *)

(** One usable hop: both ends active and the measured link reliable enough. *)
Definition hop (g : MeshGraph) (m : Z) (a b : DeviceId) : Prop :=
  is_active g a = true /\ is_active g b = true
  /\ exists h, mg_links g !! ordered_pair a b = Some h /\ f32_le m (lh_reliability h) = true.

Inductive path (g : MeshGraph) (m : Z) (a : DeviceId) : DeviceId -> list DeviceId -> Prop :=
  | path_here : path g m a a [a]
  | path_snoc b c l : path g m a b l -> hop g m b c -> path g m a c (l ++ [c]).

Lemma hop_neighbor g m a b :
  graph_ok g -> is_active g a = true -> (b ∈ neighbors g a m <-> hop g m a b).
Proof.
  intros Hg Ha. pose proof Hg as (_ & Hadj & Hs & _). unfold neighbors, hop.
  rewrite list_elem_of_In, filter_In, <-list_elem_of_In, elem_of_ascending.
  unfold usable_link. rewrite andb_true_iff.
  assert (Hn : is_Some (mg_nodes g !! a))
    by (unfold is_active in Ha; destruct (mg_nodes g !! a); [eauto|done]).
  apply Hadj in Hn as [s Es]. rewrite Es. cbn [default]. rewrite (Hs a s b Es). split.
  - intros [[Hne [h Eh]] [Hr Hb]]. rewrite Eh in Hr. eauto.
  - intros (_ & Hb & h & Eh & Hr). rewrite Eh.
    destruct (link_ends g a b Hg) as (Hne & _); [eauto|]. split_and!; eauto.
Qed.

Section Search.
Context (g : MeshGraph) (m : Z) (source destination : DeviceId).
Context (Hg : graph_ok g).

Record search_ok (depth : DeviceId -> nat) (queue : list DeviceId)
    (previous : gmap DeviceId DeviceId) (visited : gset DeviceId) : Prop := {
  so_source : source ∈ visited /\ depth source = O;
  so_previous : forall x y, previous !! x = Some y ->
    x ∈ visited /\ y ∈ visited /\ depth x = S (depth y) /\ hop g m y x;
  so_visited : forall x, x ∈ visited -> x <> source -> is_Some (previous !! x);
  so_depth : forall x, x ∈ visited -> (depth x <= size previous)%nat;
  so_active : forall x, x ∈ visited -> is_active g x = true;
  so_queue : forall x, x ∈ queue -> x ∈ visited;
  so_done : forall x, x ∈ visited -> x ∉ queue -> forall y, hop g m x y ->
    y ∈ visited /\ (depth y <= S (depth x))%nat;
  so_sorted : StronglySorted (fun x y => depth x <= depth y)%nat queue;
  so_front : forall x q l, queue = q :: l -> x ∈ visited -> (depth x <= S (depth q))%nat;
}.

(** Every path is visited to its end, or leaves the visited nodes through the queue. *)
Lemma path_escapes depth queue previous visited x l :
  search_ok depth queue previous visited -> path g m source x l ->
  (x ∈ visited /\ (S (depth x) <= length l)%nat)
  \/ exists y, y ∈ queue /\ (S (depth y) < length l)%nat.
Proof.
  intros Ho. induction 1 as [|b c l Hp IH Hh].
  - left. destruct (so_source _ _ _ _ Ho) as [? ->]. done.
  - rewrite length_app. cbn [length]. destruct IH as [[Hb Hd]|(y & Hy & Hd)].
    + destruct (decide (b ∈ queue)) as [Hq|Hq]; [right; exists b; split; [done|lia]|].
      destruct (so_done _ _ _ _ Ho b Hb Hq c Hh). left. split; [done|lia].
    + right. exists y. split; [done|lia].
Qed.

(** The loop of [reconstruct_route] follows the predecessors back to the source. *)
Lemma reconstruct_loop_path depth queue previous visited fuel x hops :
  search_ok depth queue previous visited -> x ∈ visited -> (depth x < fuel)%nat ->
  exists l, reconstruct_loop fuel source x previous hops = Some (hops ++ l)
    /\ path g m source x (rev (x :: l)) /\ length l = depth x.
Proof.
  intros Ho. revert x hops. induction fuel as [|fuel IH]; intros x hops Hx Hf; [lia|].
  cbn [reconstruct_loop]. case_bool_decide as Hs.
  - subst. exists []. rewrite app_nil_r. destruct (so_source _ _ _ _ Ho) as [_ ->].
    split_and!; [done|constructor|done].
  - destruct (so_visited _ _ _ _ Ho x Hx Hs) as [y Ey]. rewrite Ey.
    destruct (so_previous _ _ _ _ Ho x y Ey) as (_ & Hy & Hd & Hh).
    destruct (IH y (hops ++ [y]) Hy ltac:(lia)) as (l & -> & Hp & Hl).
    exists (y :: l). rewrite <-app_assoc. cbn [app]. split_and!; [done| |cbn; lia].
    change (rev (x :: y :: l)) with (rev (y :: l) ++ [x]). by econstructor.
Qed.

Lemma reconstruct_route_path depth queue previous visited :
  search_ok depth queue previous visited -> destination ∈ visited ->
  exists l, reconstruct_route source destination previous = Some l
    /\ path g m source destination l /\ length l = S (depth destination).
Proof.
  intros Ho Hd. unfold reconstruct_route.
  pose proof (so_depth _ _ _ _ Ho destination Hd).
  destruct (reconstruct_loop_path depth queue previous visited (S (size previous)) destination
              [destination] Ho Hd ltac:(lia)) as (l & -> & Hp & Hl).
  exists (rev (destination :: l)). split_and!; [done|done|]. rewrite length_rev. cbn. by rewrite Hl.
Qed.

(** A new neighbour of the front of the queue. *)
Lemma search_ok_visit depth current queue previous visited x :
  search_ok depth (current :: queue) previous visited ->
  x ∉ visited -> hop g m current x ->
  search_ok (fun y => if decide (y = x) then S (depth current) else depth y)
    (current :: queue ++ [x]) (<[x := current]> previous) ({[x]} ∪ visited).
Proof.
  intros [Hs Hp Hv Hd Ha Hq Hdone Hsort Hfront] Hx Hh.
  assert (Hc : current ∈ visited) by (apply Hq; left).
  assert (Hneq : forall y, y ∈ visited -> y <> x) by (by intros y Hy ->).
  assert (Hdep : forall y, y ∈ visited ->
            (if decide (y = x) then S (depth current) else depth y) = depth y).
  { intros y Hy. rewrite decide_False; [done|by apply Hneq]. }
  assert (Hpx : previous !! x = None).
  { apply eq_None_not_Some. intros [y Ey]. by destruct (Hp x y Ey). }
  split.
  - destruct Hs as [Hs1 Hs2]. rewrite Hdep by done. set_solver.
  - intros a b E0. apply lookup_insert_Some in E0 as [[<- <-]|[Hne E]].
    + rewrite decide_True by done. rewrite (Hdep current Hc). set_solver.
    + destruct (Hp a b E) as (H1 & H2 & H3 & H4). rewrite !Hdep by done. set_solver.
  - intros y Hy Hns. destruct (decide (y = x)) as [->|Hne].
    + rewrite lookup_insert_eq. eauto.
    + rewrite lookup_insert_ne by done. apply Hv; set_solver.
  - intros y Hy. rewrite map_size_insert_None by done. case_decide as Hyx.
    + specialize (Hd current Hc). lia.
    + assert (y ∈ visited) as Hy' by set_solver. specialize (Hd y Hy'). lia.
  - intros y Hy. destruct (decide (y = x)) as [->|Hne]; [apply Hh|apply Ha; set_solver].
  - intros y Hy. destruct (decide (y = x)) as [->|Hne]; [set_solver|].
    assert (y ∈ visited) by (apply Hq; set_solver). set_solver.
  - intros y Hy Hnq z Hz. assert (Hy' : y ∈ visited) by set_solver.
    destruct (Hdone y Hy' ltac:(set_solver) z Hz) as [Hz1 Hz2].
    rewrite !Hdep by done. set_solver.
  - change (current :: queue ++ [x]) with ((current :: queue) ++ [x]).
    apply StronglySorted_app. split_and!.
    + intros a b Ha1 Hb1%list_elem_of_singleton. subst b. rewrite (Hdep a (Hq a Ha1)).
      rewrite decide_True by done. eapply Hfront; [done|by apply Hq].
    + clear -Hsort Hq Hdep. induction Hsort as [|a l Hl IH Hf]; [constructor|].
      constructor; [apply IH; set_solver|]. rewrite Forall_forall in *. intros b Hb.
      rewrite !Hdep by (apply Hq; set_solver). by apply Hf.
    + repeat constructor.
  - intros y q l [= <- <-] Hy. rewrite (Hdep current Hc). case_decide as Hyx; [done|].
    eapply Hfront; [done|set_solver].
Qed.

(** The loop over the neighbours of the front node. *)
Lemma scan_neighbors_ok l depth current queue previous visited :
  search_ok depth (current :: queue) previous visited -> destination ∉ visited ->
  (forall x, x ∈ l -> hop g m current x) ->
  match scan_neighbors l current destination (mkSearch queue previous visited) with
  | inl p =>
      exists depth' queue' visited', search_ok depth' queue' p visited'
        /\ destination ∈ visited' /\ depth' destination = S (depth current)
  | inr s =>
      exists depth', search_ok depth' (current :: se_queue s) (se_previous s) (se_visited s)
        /\ (destination ∉ se_visited s) /\ visited ⊆ se_visited s
        /\ (forall x, x ∈ l -> x ∈ se_visited s)
        /\ (size (se_visited s) + length queue = size visited + length (se_queue s))%nat
  end.
Proof.
  revert depth queue previous visited.
  induction l as [|x l IH]; intros depth queue previous visited Ho Hd Hl; cbn [scan_neighbors].
  { exists depth. cbn. split_and!; try done; set_solver. }
  cbn [se_visited se_queue se_previous]. case_bool_decide as Hx.
  - specialize (IH depth queue previous visited Ho Hd ltac:(set_solver)).
    destruct (scan_neighbors _ _ _ _) as [p|s]; [done|].
    destruct IH as (depth' & H1 & H2 & H3 & H4 & H5). exists depth'. split_and!; try done. set_solver.
  - assert (Hh : hop g m current x) by (apply Hl; set_solver).
    pose proof (search_ok_visit depth current queue previous visited x Ho Hx Hh) as Ho'.
    case_bool_decide as Hxd.
    + subst x. eexists _, _, _. split; [exact Ho'|]. split; [set_solver|]. by rewrite decide_True.
    + specialize (IH _ _ _ _ Ho' ltac:(set_solver) ltac:(set_solver)).
      assert (Hc : current <> x).
      { intros <-. apply Hx. apply (so_queue _ _ _ _ Ho). left. }
      destruct (scan_neighbors _ _ _ _) as [p|s].
      * destruct IH as (d' & q' & v' & H1 & H2 & H3). rewrite decide_False in H3 by done. eauto 10.
      * destruct IH as (d' & H1 & H2 & H3 & H4 & H5). exists d'. split_and!; try done.
        -- set_solver.
        -- set_solver.
        -- rewrite length_app in H5. rewrite size_union, size_singleton in H5 by set_solver.
           cbn [length] in H5. lia.
Qed.

(** The front node is done once its neighbours are visited. *)
Lemma search_ok_pop depth current queue previous visited :
  search_ok depth (current :: queue) previous visited ->
  (forall x, x ∈ neighbors g current m -> x ∈ visited) ->
  search_ok depth queue previous visited.
Proof using Hg.
  intros [Hs Hp Hv Hd Ha Hq Hdone Hsort Hfront] Hn.
  assert (Hc : current ∈ visited) by (apply Hq; left).
  inversion Hsort as [|? ? Hso Hle]; subst. split; try done.
  - intros x Hx. apply Hq. by right.
  - intros x Hx Hnq y Hy. destruct (decide (x = current)) as [->|Hne].
    + assert (y ∈ visited) by (apply Hn, hop_neighbor; auto).
      split; [done|]. by eapply Hfront.
    + apply Hdone; [done|set_solver|done].
  - intros x q l -> Hx. apply Forall_cons in Hle as [Hle _].
    specialize (Hfront x current (q :: l) eq_refl Hx). lia.
Qed.

Lemma visited_size depth queue previous visited :
  search_ok depth queue previous visited -> (size visited <= size (mg_nodes g))%nat.
Proof using.
  intros Ho. rewrite <-(size_dom (D := gset DeviceId) (mg_nodes g)). apply subseteq_size.
  intros x Hx. apply elem_of_dom. pose proof (so_active _ _ _ _ Ho x Hx) as Ha.
  unfold is_active in Ha. destruct (mg_nodes g !! x); [eauto|done].
Qed.

(** The whole search: a path no other path is shorter than, or no path at all. *)
Definition shortest (r : option (list DeviceId)) : Prop :=
  match r with
  | Some l =>
      path g m source destination l
      /\ forall l', path g m source destination l' -> (length l <= length l')%nat
  | None => forall l, ~ path g m source destination l
  end.

Lemma search_loop_shortest fuel depth s :
  search_ok depth (se_queue s) (se_previous s) (se_visited s) ->
  destination ∉ se_visited s ->
  (size (mg_nodes g) - size (se_visited s) + length (se_queue s) < fuel)%nat ->
  shortest (search_loop fuel g m source destination s).
Proof using Hg.
  revert depth s. induction fuel as [|fuel IH]; intros depth [queue previous visited] Ho Hd Hf;
    [lia|]. cbn [search_loop se_queue se_previous se_visited] in *.
  destruct queue as [|current queue].
  { intros l Hp. destruct (path_escapes _ _ _ _ _ _ Ho Hp) as [[? _]|(y & Hy & _)]; [done|].
    by apply elem_of_nil in Hy. }
  assert (Hc : is_active g current = true).
  { apply (so_active _ _ _ _ Ho). apply (so_queue _ _ _ _ Ho). left. }
  pose proof (scan_neighbors_ok (neighbors g current m) depth current queue previous visited Ho Hd)
    as Hscan.
  destruct (scan_neighbors _ _ _ _) as [p|s].
  - destruct Hscan as (d' & q' & v' & Ho' & Hd' & Hdep); [intros x Hx; by apply hop_neighbor|].
    destruct (reconstruct_route_path _ _ _ _ Ho' Hd') as (l & -> & Hp & Hl). split; [done|].
    intros l' Hp'. rewrite Hl, Hdep.
    destruct (path_escapes _ _ _ _ _ _ Ho Hp') as [[? _]|(y & Hy & Hlt)]; [done|].
    pose proof (so_sorted _ _ _ _ Ho) as Hsort. inversion Hsort as [|? ? _ Hle]; subst.
    apply elem_of_cons in Hy as [->|Hy]; [lia|]. rewrite Forall_forall in Hle.
    specialize (Hle y Hy). lia.
  - destruct Hscan as (d' & Ho' & Hd' & Hsub & Hn & Hsz); [intros x Hx; by apply hop_neighbor|].
    apply (IH d'); [by eapply search_ok_pop|done|].
    pose proof (visited_size _ _ _ _ Ho'). pose proof (visited_size _ _ _ _ Ho).
    cbn [length] in Hf. lia.
Qed.

Lemma search_start_ok :
  is_active g source = true -> search_ok (fun _ => O) [source] ∅ {[source]}.
Proof using.
  clear Hg. intros Ha. split.
  - set_solver.
  - intros x y. by rewrite lookup_empty.
  - set_solver.
  - done.
  - intros x ->%elem_of_singleton. done.
  - set_solver.
  - set_solver.
  - repeat constructor.
  - lia.
Qed.
End Search.

(** C17. In a graph whose tables agree, the search returns a route of the fewest hops:
    consecutive nodes of it are active and joined by a link of at least the required
    reliability, it leads from source to destination, and no such route is shorter; and it
    returns none only for an invalid threshold, an inactive end, or two ends that no
    sequence of usable links connects. *)
Theorem mesh_route_is_minimum_hop (g : MeshGraph) (source destination : DeviceId) (m : Z) :
  graph_ok g ->
  match route g source destination m with
  | Some l =>
      f32_is_ratio m = true /\ is_active g source = true /\ is_active g destination = true
      /\ path g m source destination l
      /\ forall l', path g m source destination l' -> (length l <= length l')%nat
  | None =>
      f32_is_ratio m = false \/ is_active g source = false \/ is_active g destination = false
      \/ forall l, ~ path g m source destination l
  end.
Proof.
  intros Hg. unfold route. destruct (f32_is_ratio m); cbn [negb]; [|by left].
  destruct (is_active g source) eqn:Es; cbn [negb orb]; [|by right; left].
  destruct (is_active g destination) eqn:Ed; cbn [negb]; [|by right; right; left].
  case_bool_decide as Hsd.
  - subst. split_and!; try done; [constructor|]. intros l' Hp. inversion Hp; subst; [done|].
    rewrite length_app. cbn. lia.
  - pose proof (search_loop_shortest g m source destination Hg (S (size (mg_nodes g)))
                  (fun _ => O) (mkSearch [source] ∅ {[source]})) as Hr.
    cbn [se_queue se_previous se_visited] in Hr.
    specialize (Hr (search_start_ok _ _ _ Es) ltac:(set_solver)).
    pose proof (visited_size _ _ _ _ _ _ _ (search_start_ok g m source Es)) as Hv.
    rewrite size_singleton in *. cbn [length] in Hr. specialize (Hr ltac:(lia)).
    destruct (search_loop _ _ _ _ _ _); unfold shortest in Hr; [done|]. by right; right; right.
Qed.

(** ** A small network *)

Definition dev (n : Z) : DeviceId := mkDeviceId [0; 0; 0; 0; 0; 0; 0; n].

Definition demo_nodes : MeshGraph :=
  foldl (fun g n => (upsert_node g (mkNode (dev n) n true)).2) MeshGraph_default [1; 2; 3; 4; 5].

Definition demo_health (r : Z) : LinkHealth := mkHealth (-60) r 0.

(** Links 1-2-3-4 and 1-5-4, and an unreliable 1-4. *)
Definition demo_graph : MeshGraph :=
  foldl (fun g '(a, b, r) => (update_link g (dev a) (dev b) (demo_health r)).2) demo_nodes
    [(1, 2, f32_one); (2, 3, f32_one); (3, 4, f32_one); (1, 5, f32_one); (5, 4, f32_one);
     (1, 4, 0x3e800000)].

Lemma demo_graph_ok : graph_ok demo_graph.
Proof.
  unfold demo_graph, demo_nodes. cbn [foldl].
  repeat first [apply update_link_ok | apply upsert_node_ok]. apply graph_default_ok.
Qed.

Lemma demo_route : route demo_graph (dev 1) (dev 4) 0x3f000000 = Some [dev 1; dev 5; dev 4].
Proof. vm_compute. reflexivity. Qed.

Lemma mesh_route_is_minimum_hop_witness :
  path demo_graph 0x3f000000 (dev 1) (dev 4) [dev 1; dev 5; dev 4]
  /\ (forall l', path demo_graph 0x3f000000 (dev 1) (dev 4) l' -> (3 <= length l')%nat).
Proof.
  pose proof (mesh_route_is_minimum_hop demo_graph (dev 1) (dev 4) 0x3f000000 demo_graph_ok) as H.
  rewrite demo_route in H. split; apply H.
Defined.
