(* ===== verification/MeshManager.v ===== *)
(** * The mesh network manager (src/src/mesh/manager.rs, src/src/mesh/mod.rs)

    Admission, keys, replay windows, the graph and the schedule of one network. The
    verifier of a join is the caller's and an argument. *)
From stdpp Require Import gmap.
From S2P Require Import Prelude Security Topology.

Record NetworkId := mkNetworkId { nid : Z }.

#[global] Instance NetworkId_eq_dec : EqDecision NetworkId.
Proof. solve_decision. Defined.

Record JoinRequest := mkJoin {
  jr_device : DeviceId;
  jr_network : NetworkId;
  jr_security_counter : Z;
}.

Inductive JoinDecision :=
  | Accepted (nickname : Z)
  | NotAllowed
  | WrongNetwork
  | AuthenticationFailed.

Record MeshSnapshot := mkMeshSnapshot { sn_nodes : Z; sn_links : Z; sn_cells : Z }.

Record MeshManager := mkManager {
  mm_network : NetworkId;
  mm_graph : MeshGraph;
  mm_schedule : Schedule;
  mm_allowlist : gset DeviceId;
  mm_join_keys : gmap DeviceId KeyMaterial;
  mm_replay : gmap DeviceId ReplayWindow;
  mm_next_nickname : Z;
}.

Inductive MeshManagerError :=
  | ManagerSchedule (e : ScheduleError)
  | ManagerSecurity (e : SecurityError)
  | AddressSpace.

Definition MeshManager_new (network : NetworkId) (superframe_size : Z)
    : result MeshManagerError MeshManager :=
  let? schedule := result_map_err ManagerSchedule (Schedule_new superframe_size) ;;
  Ok (mkManager network MeshGraph_default schedule ∅ ∅ ∅ 1).

(** [replay.remove], [graph.remove_node] and [schedule.remove_device]. *)
Definition forget_device (m : MeshManager) (device : DeviceId) : MeshManager :=
  mkManager (mm_network m) (remove_node (mm_graph m) device).2
    (remove_device (mm_schedule m) device).2 (mm_allowlist m) (mm_join_keys m)
    (delete device (mm_replay m)) (mm_next_nickname m).

Definition allow (m : MeshManager) (device : DeviceId) (join_key : KeyMaterial) : MeshManager :=
  let replaced := bool_decide (is_Some (mm_join_keys m !! device)) in
  let m := mkManager (mm_network m) (mm_graph m) (mm_schedule m)
             ({[device]} ∪ mm_allowlist m) (<[device := join_key]> (mm_join_keys m))
             (mm_replay m) (mm_next_nickname m) in
  if replaced then forget_device m device else m.

Definition revoke (m : MeshManager) (device : DeviceId) : MeshManager :=
  forget_device
    (mkManager (mm_network m) (mm_graph m) (mm_schedule m) (mm_allowlist m ∖ {[device]})
       (delete device (mm_join_keys m)) (mm_replay m) (mm_next_nickname m)) device.

(** [replay.entry(device).or_default().accept(counter)]: the entry stays even when the
    counter is refused. *)
Definition accept_counter (m : MeshManager) (device : DeviceId) (counter : Z)
    : result SecurityError unit * MeshManager :=
  let '(r, w) :=
    ReplayWindow_accept (default ReplayWindow_default (mm_replay m !! device)) counter in
  (r, mkManager (mm_network m) (mm_graph m) (mm_schedule m) (mm_allowlist m) (mm_join_keys m)
        (<[device := w]> (mm_replay m)) (mm_next_nickname m)).

Definition active_nickname (m : MeshManager) (device : DeviceId) : option Z :=
  match node (mm_graph m) device with
  | Some n => if ns_active n then Some (ns_nickname n) else None
  | None => None
  end.

Definition apply_join (m : MeshManager) (request : JoinRequest)
    : result MeshManagerError JoinDecision * MeshManager :=
  let device := jr_device request in
  if negb (bool_decide (jr_network request = mm_network m)) then (Ok WrongNetwork, m)
  else if negb (bool_decide (device ∈ mm_allowlist m))
          || negb (bool_decide (is_Some (mm_join_keys m !! device))) then (Ok NotAllowed, m)
  else
    match active_nickname m device with
    | Some nickname =>
        match accept_counter m device (jr_security_counter request) with
        | (Err e, m) => (Err (ManagerSecurity e), m)
        | (Ok _, m) => (Ok (Accepted nickname), m)
        end
    | None =>
        if mm_next_nickname m =? 0 then (Err AddressSpace, m)
        else
          match accept_counter m device (jr_security_counter request) with
          | (Err e, m) => (Err (ManagerSecurity e), m)
          | (Ok _, m) =>
              let nickname := mm_next_nickname m in
              (Ok (Accepted nickname),
               mkManager (mm_network m) (upsert_node (mm_graph m) (mkNode device nickname true)).2
                 (mm_schedule m) (mm_allowlist m) (mm_join_keys m) (mm_replay m)
                 (default 0 (checked_add u16_max nickname 1)))
          end
    end.

Definition join_authenticated (m : MeshManager) (request : JoinRequest)
    (authenticate : JoinRequest -> bytes -> bool)
    : result MeshManagerError JoinDecision * MeshManager :=
  if negb (bool_decide (jr_network request = mm_network m)) then (Ok WrongNetwork, m)
  else
    match mm_join_keys m !! jr_device request with
    | None => (Ok NotAllowed, m)
    | Some join_key =>
        if negb (bool_decide (jr_device request ∈ mm_allowlist m)) then (Ok NotAllowed, m)
        else if negb (authenticate request (KeyMaterial_expose join_key)) then
          (Ok AuthenticationFailed, m)
        else apply_join m request
    end.

(** What is reached through [graph_mut] and [schedule_mut]. *)
Definition on_graph (m : MeshManager) (g : MeshGraph) : MeshManager :=
  mkManager (mm_network m) g (mm_schedule m) (mm_allowlist m) (mm_join_keys m) (mm_replay m)
    (mm_next_nickname m).

Definition on_schedule (m : MeshManager) (s : Schedule) : MeshManager :=
  mkManager (mm_network m) (mm_graph m) s (mm_allowlist m) (mm_join_keys m) (mm_replay m)
    (mm_next_nickname m).

Definition MeshManager_snapshot (m : MeshManager) : MeshSnapshot :=
  mkMeshSnapshot (node_count (mm_graph m)) (link_count (mm_graph m))
    (zlen (sc_cells (mm_schedule m))).
