(* ===== verification/ManagerProps.v ===== *)
(** * The mesh manager: admission *)
From stdpp Require Import gmap sorting.
From S2P Require Import Prelude Control Security Topology MeshProps MeshManager.

(** ** The invariant of a manager *)

(** Nicknames handed out so far are below this bound. *)
Definition nickname_bound (m : MeshManager) : Z :=
  if mm_next_nickname m =? 0 then 65536 else mm_next_nickname m.

Record manager_ok (m : MeshManager) : Prop := {
  mo_graph : graph_ok (mm_graph m);
  mo_schedule : schedule_ok (mm_schedule m);
  mo_next : is_u16 (mm_next_nickname m);
  mo_keys : forall d, d ∈ mm_allowlist m <-> is_Some (mm_join_keys m !! d);
  mo_nodes : forall d n, mg_nodes (mm_graph m) !! d = Some n ->
    ns_active n = true /\ d ∈ mm_allowlist m /\ 0 < ns_nickname n < nickname_bound m
    /\ is_Some (mm_replay m !! d);
  mo_nicknames : forall d e n k, mg_nodes (mm_graph m) !! d = Some n ->
    mg_nodes (mm_graph m) !! e = Some k -> ns_nickname n = ns_nickname k -> d = e;
  mo_replay : forall d w, mm_replay m !! d = Some w ->
    d ∈ mm_allowlist m /\ exists accepted, window_ok w accepted /\ NoDup accepted;
}.

Lemma manager_new_ok network n m :
  is_u16 n -> MeshManager_new network n = Ok m -> manager_ok m.
Proof.
  unfold MeshManager_new. intros Hn. destruct (Schedule_new n) as [s|] eqn:Es; [|done].
  intros [= <-]. split; cbn.
  - apply graph_default_ok.
  - eapply schedule_new_ok; [|done]. unfold is_u16 in Hn. lia.
  - unfold is_u16. lia.
  - intros d. rewrite lookup_empty. split; [set_solver|by intros [? ?]].
  - intros d k. by rewrite lookup_empty.
  - intros d e k l. by rewrite lookup_empty.
  - intros d w. by rewrite lookup_empty.
Qed.

(** Forgetting a device keeps the invariant for any admission that keeps the others. *)
Lemma forget_device_ok m d :
  graph_ok (mm_graph m) -> schedule_ok (mm_schedule m) -> is_u16 (mm_next_nickname m) ->
  (forall e, e ∈ mm_allowlist m <-> is_Some (mm_join_keys m !! e)) ->
  (forall e n, e <> d -> mg_nodes (mm_graph m) !! e = Some n ->
     ns_active n = true /\ e ∈ mm_allowlist m /\ 0 < ns_nickname n < nickname_bound m
     /\ is_Some (mm_replay m !! e)) ->
  (forall a b n k, mg_nodes (mm_graph m) !! a = Some n -> mg_nodes (mm_graph m) !! b = Some k ->
     ns_nickname n = ns_nickname k -> a = b) ->
  (forall e w, e <> d -> mm_replay m !! e = Some w ->
     e ∈ mm_allowlist m /\ exists accepted, window_ok w accepted /\ NoDup accepted) ->
  manager_ok (forget_device m d)
  /\ mg_nodes (mm_graph (forget_device m d)) = delete d (mg_nodes (mm_graph m)).
Proof.
  intros Hg Hs Hn Hk Hno Hni Hr. destruct (remove_node_ok (mm_graph m) d Hg) as (Hg' & En & _).
  destruct (schedule_remove_ok (mm_schedule m) d Hs) as (Hs' & _). split; [|done].
  split; unfold forget_device; cbn [mm_graph mm_schedule mm_next_nickname mm_allowlist mm_join_keys
    mm_replay]; try done; rewrite ?En.
  - intros e n [Hne E]%lookup_delete_Some. destruct (Hno e n ltac:(done) E) as (? & ? & ? & ?).
    split_and!; try done; try apply H1. by rewrite lookup_delete_ne.
  - intros a b n k [_ E1]%lookup_delete_Some [_ E2]%lookup_delete_Some. by apply Hni.
  - intros e w [Hne E]%lookup_delete_Some. by apply Hr.
Qed.

Lemma allow_ok m d k : manager_ok m -> manager_ok (allow m d k).
Proof.
  intros [Hg Hs Hn Hk Hno Hni Hr]. unfold allow.
  assert (Hk' : forall e, e ∈ {[d]} ∪ mm_allowlist m <-> is_Some (<[d := k]> (mm_join_keys m) !! e)).
  { intros e. rewrite lookup_insert_is_Some', elem_of_union, elem_of_singleton, Hk. naive_solver. }
  case_bool_decide as Hd.
  - apply forget_device_ok; cbn; try done.
    + intros e n _ E. destruct (Hno e n E) as (? & ? & ? & ?). split_and!; try done; [set_solver|apply H1|apply H1].
    + intros e w _ E. destruct (Hr e w E) as (? & ?). split; [set_solver|done].
  - split; cbn; try done.
    + intros e n E. destruct (Hno e n E) as (? & ? & ? & ?). split_and!; try done; [set_solver|apply H1|apply H1].
    + intros e w E. destruct (Hr e w E) as (? & ?). split; [set_solver|done].
Qed.

Lemma revoke_ok m d :
  manager_ok m ->
  manager_ok (revoke m d)
  /\ (d ∉ mm_allowlist (revoke m d)) /\ mm_join_keys (revoke m d) !! d = None
  /\ mm_replay (revoke m d) !! d = None /\ mg_nodes (mm_graph (revoke m d)) !! d = None
  /\ (forall e, mg_links (mm_graph (revoke m d)) !! ordered_pair d e = None)
  /\ Forall (fun c => ce_source c <> d /\ ce_destination c <> d) (sc_cells (mm_schedule (revoke m d))).
Proof.
  intros [Hg Hs Hn Hk Hno Hni Hr]. destruct (remove_node_ok (mm_graph m) d Hg) as (Hg' & En & Hl).
  destruct (schedule_remove_ok (mm_schedule m) d Hs) as (_ & _ & Hc). split_and!.
  - unfold revoke. apply forget_device_ok; cbn; try done.
    + intros e. rewrite lookup_delete_is_Some, elem_of_difference, elem_of_singleton, Hk.
      split; intros [? ?]; split; done.
    + intros e n Hne E. destruct (Hno e n E) as (? & ? & ? & ?).
      split_and!; try done; [set_solver|apply H1|apply H1].
    + intros e w Hne E. destruct (Hr e w E) as (? & ?). split; [set_solver|done].
  - unfold revoke, forget_device. cbn. set_solver.
  - apply lookup_delete_eq.
  - apply lookup_delete_eq.
  - unfold revoke, forget_device. cbn [mm_graph]. rewrite En. apply lookup_delete_eq.
  - intros e. unfold revoke, forget_device. cbn [mm_graph].
    apply eq_None_not_Some. intros [h E]. destruct (ordered_pair d e) as [x y] eqn:Eo.
    apply Hl in E. destruct (ordered_pair_cases d e) as [Ho|Ho]; rewrite Ho in Eo; naive_solver.
  - exact Hc.
Qed.

(** ** Joining *)

Definition counter_fresh (m : MeshManager) (d : DeviceId) (counter : Z) : Prop :=
  (ReplayWindow_accept (default ReplayWindow_default (mm_replay m !! d)) counter).1 = Ok tt.

Lemma window_refused w counter e w' :
  ReplayWindow_accept w counter = (Err e, w') -> w' = w /\ rw_initialized w = true.
Proof.
  unfold ReplayWindow_accept. destruct (rw_initialized w) eqn:Ei; cbn [negb]; [|done].
  repeat (case_match; try done); by intros [= _ <-].
Qed.

(** A refused counter leaves the manager as it was. *)
Lemma accept_counter_refused m d counter e m' :
  accept_counter m d counter = (Err e, m') -> m' = m.
Proof.
  unfold accept_counter. destruct (ReplayWindow_accept _ counter) as [r w'] eqn:Ea.
  intros [= -> <-]. apply window_refused in Ea as [-> Hi].
  destruct (mm_replay m !! d) as [w|] eqn:Ew; [|done]. cbn [default from_option id].
  rewrite insert_id by done. by destruct m.
Qed.

Definition with_window (m : MeshManager) (d : DeviceId) (w : ReplayWindow) : MeshManager :=
  mkManager (mm_network m) (mm_graph m) (mm_schedule m) (mm_allowlist m) (mm_join_keys m)
    (<[d := w]> (mm_replay m)) (mm_next_nickname m).

Lemma accept_counter_ok m d counter m' :
  manager_ok m -> d ∈ mm_allowlist m -> is_u32 counter ->
  accept_counter m d counter = (Ok tt, m') ->
  counter_fresh m d counter /\ manager_ok m' /\ exists w, m' = with_window m d w.
Proof.
  intros Hm Hd Hc. unfold accept_counter, counter_fresh.
  set (w0 := default _ _). destruct (ReplayWindow_accept w0 counter) as [r w] eqn:Ea.
  intros [= -> <-]. split; [done|]. split; [|by exists w].
  assert (Hw : exists accepted, window_ok w accepted /\ NoDup accepted).
  { assert (H0 : exists accepted, window_ok w0 accepted /\ NoDup accepted).
    { unfold w0. destruct (mm_replay m !! d) as [w'|] eqn:E; cbn.
      - by apply (mo_replay m Hm d w').
      - exists []. split; [apply window_default_ok|constructor]. }
    destruct H0 as (acc & Hok & Hn). exists (spec_step acc counter).
    split; [|by apply spec_step_NoDup].
    pose proof (proj2 (accept_simulates w0 acc counter Hok Hc)) as H. by rewrite Ea in H. }
  destruct Hm as [Hg Hs Hn Hk Hno Hni Hr]. split; cbn; try done.
  - intros e n E. destruct (Hno e n E) as (? & ? & ? & ?). split_and!; try done; try apply H1.
    by apply lookup_insert_is_Some'; right.
  - intros e w' [[<- <-]|[_ E]]%lookup_insert_Some; [done|by apply (Hr e)].
Qed.

(** The node a first join adds. *)
Lemma admit_ok m d w :
  manager_ok (with_window m d w) -> d ∈ mm_allowlist m -> mg_nodes (mm_graph m) !! d = None ->
  mm_next_nickname m <> 0 ->
  manager_ok (mkManager (mm_network m)
    (upsert_node (mm_graph m) (mkNode d (mm_next_nickname m) true)).2 (mm_schedule m)
    (mm_allowlist m) (mm_join_keys m) (<[d := w]> (mm_replay m))
    (default 0 (checked_add u16_max (mm_next_nickname m) 1))).
Proof.
  intros [Hg Hs Hn Hk Hno Hni Hr] Hd Hnone Hz. cbn in *. unfold is_u16 in Hn.
  set (next := default 0 _).
  assert (Hb : (if next =? 0 then 65536 else next) = mm_next_nickname m + 1 /\ is_u16 next).
  { unfold next, checked_add, u16_max, is_u16. destruct (Z.leb_spec (mm_next_nickname m + 1) 65535); cbn.
    - rewrite (proj2 (Z.eqb_neq _ _)) by lia. lia.
    - lia. }
  assert (Hold : forall e n, mg_nodes (mm_graph m) !! e = Some n -> ns_nickname n < mm_next_nickname m).
  { intros e n E. destruct (Hno e n E) as (_ & _ & Hlt & _). unfold nickname_bound in Hlt. cbn in Hlt.
    rewrite (proj2 (Z.eqb_neq _ _)) in Hlt by done. lia. }
  split; cbn [mm_graph mm_schedule mm_next_nickname mm_allowlist mm_join_keys mm_replay]; try done.
  - by apply upsert_node_ok.
  - apply Hb.
  - intros e n. cbn [upsert_node snd mg_nodes ns_id]. unfold nickname_bound. cbn [mm_next_nickname].
    intros [[<- <-]|[Hne E]]%lookup_insert_Some; cbn.
    + split_and!; [done|done|lia|lia|]. rewrite lookup_insert_eq. eauto.
    + destruct (Hno e n E) as (? & ? & ? & ?). pose proof (Hold e n E). split_and!; try done; lia.
  - intros a b n k. cbn [upsert_node snd mg_nodes ns_id].
    intros [[<- <-]|[_ E1]]%lookup_insert_Some [[<- <-]|[_ E2]]%lookup_insert_Some; cbn; try done.
    + intros E. pose proof (Hold b k E2). lia.
    + intros E. pose proof (Hold a n E1). lia.
    + by apply Hni.
Qed.

Lemma active_nickname_spec m d :
  manager_ok m ->
  active_nickname m d = ns_nickname <$> (mg_nodes (mm_graph m) !! d).
Proof.
  intros Hm. unfold active_nickname, node. destruct (mg_nodes (mm_graph m) !! d) as [n|] eqn:E; [|done].
  by rewrite (proj1 (mo_nodes m Hm d n E)).
Qed.

(** What a join comes to, by cases. *)
Inductive joined (m : MeshManager) (q : JoinRequest) (auth : JoinRequest -> bytes -> bool)
    : result MeshManagerError JoinDecision -> MeshManager -> Prop :=
  | join_refused r : (forall n, r <> Ok (Accepted n)) -> joined m q auth r m
  | join_again n w :
      mg_nodes (mm_graph m) !! jr_device q = Some n -> manager_ok (with_window m (jr_device q) w) ->
      joined m q auth (Ok (Accepted (ns_nickname n))) (with_window m (jr_device q) w)
  | join_new w m' :
      mg_nodes (mm_graph m) !! jr_device q = None -> mm_next_nickname m <> 0 ->
      m' = mkManager (mm_network m)
             (upsert_node (mm_graph m) (mkNode (jr_device q) (mm_next_nickname m) true)).2
             (mm_schedule m) (mm_allowlist m) (mm_join_keys m) (<[jr_device q := w]> (mm_replay m))
             (default 0 (checked_add u16_max (mm_next_nickname m) 1)) ->
      manager_ok m' -> joined m q auth (Ok (Accepted (mm_next_nickname m))) m'.

(** The conditions of admission. *)
Definition admissible (m : MeshManager) (q : JoinRequest) (auth : JoinRequest -> bytes -> bool)
    : Prop :=
  jr_network q = mm_network m
  /\ (exists key, mm_join_keys m !! jr_device q = Some key /\ auth q (km_bytes key) = true)
  /\ counter_fresh m (jr_device q) (jr_security_counter q)
  /\ (is_Some (mg_nodes (mm_graph m) !! jr_device q) \/ mm_next_nickname m <> 0).

Lemma join_cases m q auth r m' :
  manager_ok m -> is_u32 (jr_security_counter q) ->
  join_authenticated m q auth = (r, m') ->
  joined m q auth r m' /\ ((exists n, r = Ok (Accepted n)) <-> admissible m q auth).
Proof.
  intros Hm Hc. unfold join_authenticated, admissible, apply_join.
  assert (Hno : forall P : Prop, ~ P -> forall r, (forall n, r <> Ok (Accepted n)) ->
            joined m q auth r m /\ ((exists n, r = Ok (Accepted n)) <-> P)).
  { intros P HP r0 Hr. split; [by constructor|]. split; [intros [n E]; by destruct (Hr n)|done]. }
  case_bool_decide as Hnet; cbn [negb].
  2: { intros [= <- <-]. by apply Hno; [tauto|]. }
  destruct (mm_join_keys m !! jr_device q) as [key|] eqn:Ek.
  2: { intros [= <- <-]. apply Hno; [|done]. by intros (_ & (k & [=] & _) & _). }
  assert (Hd : jr_device q ∈ mm_allowlist m) by (apply (mo_keys m Hm); eauto).
  rewrite (bool_decide_true (jr_device q ∈ mm_allowlist m)) by done. cbn [negb].
  rewrite (bool_decide_true (is_Some (Some key))) by eauto. cbn [negb orb].
  unfold KeyMaterial_expose. destruct (auth q (km_bytes key)) eqn:Eauth; cbn [negb].
  2: { intros [= <- <-]. apply Hno; [|done]. intros (_ & (k & [= <-] & Hk) & _). congruence. }
  rewrite active_nickname_spec by done.
  destruct (mg_nodes (mm_graph m) !! jr_device q) as [n|] eqn:En; cbn [fmap option_fmap option_map].
  - destruct (accept_counter m (jr_device q) (jr_security_counter q)) as [[[]|e] m1] eqn:Ea.
    + intros [= <- <-]. apply accept_counter_ok in Ea as (Hf & Hok & w & ->); [|done..].
      split; [by constructor|]. split; [|eauto]. intros _. split_and!; eauto.
    + intros [= <- <-]. pose proof (accept_counter_refused _ _ _ _ _ Ea) as ->.
      apply Hno; [|done]. intros (_ & _ & Hf & _). unfold accept_counter, counter_fresh in *.
      destruct (ReplayWindow_accept _ _). cbn in *. simplify_eq.
  - destruct (Z.eqb_spec (mm_next_nickname m) 0) as [Hz|Hz].
    { intros [= <- <-]. apply Hno; [|done]. intros (_ & _ & _ & [[? ?]|?]); done. }
    destruct (accept_counter m (jr_device q) (jr_security_counter q)) as [[[]|e] m1] eqn:Ea.
    + intros [= <- <-]. apply accept_counter_ok in Ea as (Hf & Hok & w & ->); [|done..].
      split; [|split; [|eauto]; intros _; split_and!; eauto].
      apply (join_new m q auth w); [done|done|reflexivity|by apply (admit_ok m)].
    + intros [= <- <-]. pose proof (accept_counter_refused _ _ _ _ _ Ea) as ->.
      apply Hno; [|done]. intros (_ & _ & Hf & _). unfold accept_counter, counter_fresh in *.
      destruct (ReplayWindow_accept _ _). cbn in *. simplify_eq.
Qed.

Lemma joined_ok m q auth r m' : manager_ok m -> joined m q auth r m' -> manager_ok m'.
Proof. intros Hm Hj. by destruct Hj; subst. Qed.

(** ** What is done with a manager *)

(** Admission; link reports and removals through [graph_mut]; cells and removals through
    [schedule_mut]. Besides these [graph_mut] also gives access to [upsert_node]: with it a
    caller can put any node into the graph, and the network then has nodes that were never
    admitted ([upserted_node_bypasses_admission]). The manager itself uses it for a join. *)
Inductive MeshAction :=
  | MeshAllow (d : DeviceId) (k : KeyMaterial)
  | MeshRevoke (d : DeviceId)
  | MeshJoin (q : JoinRequest) (auth : JoinRequest -> bytes -> bool)
  | MeshUpdateLink (a b : DeviceId) (h : LinkHealth)
  | MeshRemoveNode (d : DeviceId)
  | MeshInsertCell (c : Cell)
  | MeshRemoveCells (d : DeviceId).

Definition mesh_apply (m : MeshManager) (a : MeshAction) : MeshManager :=
  match a with
  | MeshAllow d k => allow m d k
  | MeshRevoke d => revoke m d
  | MeshJoin q auth => (join_authenticated m q auth).2
  | MeshUpdateLink x y h => on_graph m (update_link (mm_graph m) x y h).2
  | MeshRemoveNode d => on_graph m (remove_node (mm_graph m) d).2
  | MeshInsertCell c =>
      match Schedule_insert (mm_schedule m) c with Ok s => on_schedule m s | Err _ => m end
  | MeshRemoveCells d => on_schedule m (remove_device (mm_schedule m) d).2
  end.

Definition mesh_action_ok (a : MeshAction) : Prop :=
  match a with MeshJoin q _ => is_u32 (jr_security_counter q) | _ => True end.

Lemma on_graph_ok m g :
  manager_ok m -> graph_ok g ->
  (forall d n, mg_nodes g !! d = Some n -> mg_nodes (mm_graph m) !! d = Some n) ->
  manager_ok (on_graph m g).
Proof.
  intros [Hg Hs Hn Hk Hno Hni Hr] Hg' Hsub. split; cbn; try done.
  - intros d n E. by apply Hno, Hsub.
  - intros a b n k E1 E2. apply Hni; by apply Hsub.
Qed.

Lemma on_schedule_ok m s : manager_ok m -> schedule_ok s -> manager_ok (on_schedule m s).
Proof. by intros [Hg Hs Hn Hk Hno Hni Hr] Hs'. Qed.

Lemma mesh_apply_ok m a : manager_ok m -> mesh_action_ok a -> manager_ok (mesh_apply m a).
Proof.
  intros Hm Ha. destruct a; cbn [mesh_apply mesh_action_ok] in *.
  - by apply allow_ok.
  - by apply revoke_ok.
  - destruct (join_authenticated m q auth) as [r m'] eqn:E.
    eapply joined_ok; [done|]. by eapply join_cases.
  - apply on_graph_ok; [done|apply update_link_ok, Hm|].
    unfold update_link. case_match; done.
  - apply on_graph_ok; [done|apply remove_node_ok, Hm|].
    intros e n. cbn [remove_node snd mg_nodes]. by intros [_ E]%lookup_delete_Some.
  - destruct (Schedule_insert _ _) as [s|] eqn:E; [|done]. apply on_schedule_ok; [done|].
    clear Ha. unfold Schedule_insert in E. pose proof (mo_schedule m Hm) as Hs.
    by eapply schedule_insert_ok.
  - apply on_schedule_ok; [done|]. apply schedule_remove_ok, Hm.
Qed.

Lemma mesh_run_ok actions m :
  manager_ok m -> Forall mesh_action_ok actions -> manager_ok (foldl mesh_apply m actions).
Proof.
  revert m. induction actions as [|a l IH]; intros m Hm Ha; [done|].
  apply Forall_cons in Ha as [Ha Hl]. by apply IH; [apply mesh_apply_ok|].
Qed.

Example upserted_node_bypasses_admission network n m d :
  MeshManager_new network n = Ok m ->
  let m' := on_graph m (upsert_node (mm_graph m) (mkNode d 7 true)).2 in
  mg_nodes (mm_graph m') !! d = Some (mkNode d 7 true) /\ (d ∉ mm_allowlist m') /\ ~ manager_ok m'.
Proof.
  unfold MeshManager_new. destruct (Schedule_new n) as [s|]; [|done]. intros [= <-]. cbn.
  assert (Hd : (<[d:=mkNode d 7 true]> ∅ : gmap DeviceId NodeState) !! d = Some (mkNode d 7 true))
    by apply lookup_insert_eq.
  split_and!; [done|set_solver|]. intros Hm. destruct (mo_nodes _ Hm d _ Hd) as (_ & Hin & _).
  cbn in Hin. set_solver.
Qed.

(** C32. Whatever is allowed, revoked, joined, measured and scheduled, in any order: the
    tables of the graph agree, the schedule is conflict-free, every node of the network is
    active, admitted and has its own nickname that was handed out before, no replay window
    has accepted a counter twice; and a device that is then revoked leaves no trace: no
    admission, key, replay window, node, link or cell. *)
Theorem mesh_manager_invariant (network : NetworkId) (superframe_size : Z) (m0 : MeshManager)
    (actions : list MeshAction) (d : DeviceId) :
  is_u16 superframe_size -> MeshManager_new network superframe_size = Ok m0 ->
  Forall mesh_action_ok actions ->
  let m := foldl mesh_apply m0 actions in
  manager_ok m
  /\ let m' := revoke m d in
     manager_ok m' /\ (d ∉ mm_allowlist m') /\ mm_join_keys m' !! d = None
     /\ mm_replay m' !! d = None /\ mg_nodes (mm_graph m') !! d = None
     /\ (forall e, mg_links (mm_graph m') !! ordered_pair d e = None)
     /\ Forall (fun c => ce_source c <> d /\ ce_destination c <> d) (sc_cells (mm_schedule m')).
Proof.
  intros Hn Hnew Ha m. assert (Hm : manager_ok m) by (eapply mesh_run_ok, Ha; by eapply manager_new_ok).
  split; [done|]. by apply revoke_ok.
Qed.

(** C33. A join is accepted exactly when it names this network, comes from a provisioned
    device whose key verifies it, carries a fresh counter and finds a nickname; a device
    that is in the network keeps its nickname, a new one gets a nickname above all others,
    other nodes and replay windows stay, and a join that is not accepted changes nothing. *)
Theorem mesh_join_exact (m m' : MeshManager) (q : JoinRequest)
    (auth : JoinRequest -> bytes -> bool) (r : result MeshManagerError JoinDecision) :
  manager_ok m -> is_u32 (jr_security_counter q) -> join_authenticated m q auth = (r, m') ->
  ((exists n, r = Ok (Accepted n)) <-> admissible m q auth)
  /\ (~ admissible m q auth -> m' = m)
  /\ forall n, r = Ok (Accepted n) ->
     mg_nodes (mm_graph m') !! jr_device q = Some (mkNode (jr_device q) n true)
     /\ (forall e, e <> jr_device q ->
           mg_nodes (mm_graph m') !! e = mg_nodes (mm_graph m) !! e
           /\ mm_replay m' !! e = mm_replay m !! e)
     /\ (forall k, mg_nodes (mm_graph m) !! jr_device q = Some k -> ns_nickname k = n)
     /\ (mg_nodes (mm_graph m) !! jr_device q = None ->
         forall e k, mg_nodes (mm_graph m) !! e = Some k -> ns_nickname k < n).
Proof.
  intros Hm Hc E. destruct (join_cases m q auth r m' Hm Hc E) as [Hj Hiff].
  split; [done|]. split.
  { intros Hno. destruct Hj as [r Hr|n w ? ?|w m' ? ? ? ?]; [done| |]; destruct Hno; apply Hiff; eauto. }
  intros n ->. inversion Hj as [? Hr|k w Ek Hok|w m1 Ek Hz Em Hok]; subst.
  - by destruct (Hr n).
  - cbn. split_and!.
    + rewrite Ek. destruct (mo_nodes m Hm _ _ Ek) as [Ha _].
      pose proof (proj1 (mo_graph m Hm) _ _ Ek) as Hid. destruct k; cbn in *. congruence.
    + intros e He. by rewrite lookup_insert_ne.
    + intros k' [= <-]%(eq_trans (eq_sym Ek)). done.
    + congruence.
  - cbn. split_and!.
    + by rewrite lookup_insert_eq.
    + intros e He. by rewrite !lookup_insert_ne.
    + intros k. by rewrite Ek.
    + intros _ e k Ee. destruct (mo_nodes m Hm e k Ee) as (_ & _ & Hlt & _).
      unfold nickname_bound in Hlt. rewrite (proj2 (Z.eqb_neq _ _)) in Hlt by done. lia.
Qed.

(** ** A run *)

Definition demo_key : KeyMaterial := KeyMaterial_new (replicate 16 7).
Definition demo_device (n : Z) : DeviceId := mkDeviceId [0; 0; 0; 0; 0; 0; 0; n].
Definition demo_join (n counter : Z) : JoinRequest :=
  mkJoin (demo_device n) (mkNetworkId 42) counter.
Definition demo_auth (q : JoinRequest) (key : bytes) : bool := bool_decide (key = replicate 16 7).

Definition demo_manager0 : MeshManager :=
  mkManager (mkNetworkId 42) MeshGraph_default (mkSchedule 100 []) ∅ ∅ ∅ 1.

Definition demo_actions : list MeshAction :=
  [MeshAllow (demo_device 1) demo_key; MeshAllow (demo_device 2) demo_key;
   MeshJoin (demo_join 1 5) demo_auth; MeshJoin (demo_join 2 9) demo_auth;
   MeshUpdateLink (demo_device 1) (demo_device 2) (mkHealth (-70) f32_one 3);
   MeshInsertCell (mkCell 3 4 (demo_device 1) (demo_device 2) Transmit)].

Definition demo_manager : MeshManager := foldl mesh_apply demo_manager0 demo_actions.

Lemma demo_actions_ok : Forall mesh_action_ok demo_actions.
Proof. unfold demo_actions. rewrite !Forall_cons. cbn. unfold is_u32. split_and!; try lia; done. Qed.

Lemma mesh_manager_invariant_witness : manager_ok demo_manager.
Proof.
  apply (mesh_manager_invariant (mkNetworkId 42) 100 demo_manager0 demo_actions (demo_device 1));
    [unfold is_u16; lia|reflexivity|exact demo_actions_ok].
Defined.

Lemma demo_manager_ok : manager_ok demo_manager.
Proof.
  apply mesh_run_ok; [|exact demo_actions_ok]. apply (manager_new_ok (mkNetworkId 42) 100); [|done].
  unfold is_u16. lia.
Qed.

(** Device 2 comes back with a fresh counter and keeps its nickname; a replay is refused. *)
Example demo_joins :
  (join_authenticated demo_manager (demo_join 2 10) demo_auth).1 = Ok (Accepted 2)
  /\ (join_authenticated demo_manager (demo_join 2 9) demo_auth).1
     = Err (ManagerSecurity (Replay 9)).
Proof. vm_compute. done. Qed.

Lemma mesh_join_exact_witness : admissible demo_manager (demo_join 2 10) demo_auth.
Proof.
  destruct (join_authenticated demo_manager (demo_join 2 10) demo_auth) as [r m'] eqn:E.
  apply (mesh_join_exact demo_manager m' (demo_join 2 10) demo_auth r demo_manager_ok);
    [unfold is_u32; cbn; lia|exact E|].
  exists 2. destruct demo_joins as [H _]. rewrite E in H. exact H.
Defined.
