(* ===== verification/Service.v ===== *)
(** * The link as its users see it (src/src/service/link.rs, client conveniences)

    The services above a link use it through a handful of calls: a request that waits for
    its answer, the link's defaults, the clock and sleeping. The class [Service] is that
    interface; a call that waits is a function of the world [W] it changes. The
    conveniences of [LinkClient] and [QueueClient] are defined over it. *)
From S2P Require Import Prelude Wire Catalog Codec Operation QueueSet Link.

(** [Duration::MAX] in nanoseconds. *)
Definition DURATION_MAX : Z := u64_max * NANOS_PER_SECOND + 999999999.

Definition duration_saturating_add (a b : Z) : Z := Z.min DURATION_MAX (a + b).
Definition duration_saturating_mul (a n : Z) : Z := Z.min DURATION_MAX (a * n).

Class Service (W : Type) := {
  (** [start_with_prefix] and, when it succeeds, [wait]. *)
  sv_request_with_prefix :
    W -> Request -> bytes -> QueueId -> RetryPolicy -> result ExchangeError DeviceReply * W;
  sv_default_queue : QueueId;
  sv_default_retry : RetryPolicy;
  sv_now : W -> Z * W;
  sv_sleep : W -> Z -> W;
}.

(** ** Calls that change the world and can fail *)

Definition call_bind {W E A B} (m : result E A * W) (k : A -> W -> result E B * W)
    : result E B * W :=
  match m with (Ok a, w) => k a w | (Err e, w) => (Err e, w) end.

Definition call_map_err {W E F A} (f : E -> F) (m : result E A * W) : result F A * W :=
  (result_map_err f m.1, m.2).

Notation "'call!' ( a , w ) := m ;; k" := (call_bind m (fun a w => k))
  (at level 10, a name, w name, m at level 99, k at level 200) : hart_scope.

(** ** Conveniences of the client *)

Section Client.
Context {W : Type} `{Service W}.

Definition LinkClient_request (w : W) (request : Request) (queue : QueueId)
    (policy : RetryPolicy) : result ExchangeError DeviceReply * W :=
  sv_request_with_prefix w request [] queue policy.

Definition LinkClient_request_default (w : W) (request : Request)
    : result ExchangeError DeviceReply * W :=
  LinkClient_request w request sv_default_queue sv_default_retry.

Definition LinkClient_request_default_with_prefix (w : W) (request : Request) (prefix : bytes)
    : result ExchangeError DeviceReply * W :=
  sv_request_with_prefix w request prefix sv_default_queue sv_default_retry.

Definition LinkClient_execute {Op Output} `{Operation Op Output} (w : W) (address : Address)
    (operation : Op) (queue : QueueId) (policy : RetryPolicy) : result ExchangeError Output * W :=
  match op_request operation address with
  | Err e => (Err (ExOperation e), w)
  | Ok request =>
      call! (reply, w) := LinkClient_request w request queue policy ;;
      (result_map_err ExOperation (op_decode_reply operation reply), w)
  end.

Definition LinkClient_execute_default {Op Output} `{Operation Op Output} (w : W)
    (address : Address) (operation : Op) : result ExchangeError Output * W :=
  LinkClient_execute w address operation sv_default_queue sv_default_retry.

Definition LinkClient_execute_accepting {Op Output} `{Operation Op Output} (w : W)
    (address : Address) (operation : Op) (accepted_warnings : bytes) (queue : QueueId)
    (policy : RetryPolicy) : result ExchangeError (CommandOutcome Output) * W :=
  match op_request operation address with
  | Err e => (Err (ExOperation e), w)
  | Ok request =>
      call! (reply, w) := LinkClient_request w request queue policy ;;
      (result_map_err ExOperation
         (Operation_decode_reply_accepting operation reply accepted_warnings), w)
  end.

Definition LinkClient_execute_accepting_default {Op Output} `{Operation Op Output} (w : W)
    (address : Address) (operation : Op) (accepted_warnings : bytes)
    : result ExchangeError (CommandOutcome Output) * W :=
  LinkClient_execute_accepting w address operation accepted_warnings sv_default_queue
    sv_default_retry.

(** ** A handle bound to one queue *)

Definition QueueClient_request (w : W) (queue : QueueId) (request : Request)
    (policy : RetryPolicy) : result ExchangeError DeviceReply * W :=
  LinkClient_request w request queue policy.

Definition QueueClient_request_default (w : W) (queue : QueueId) (request : Request)
    : result ExchangeError DeviceReply * W :=
  QueueClient_request w queue request sv_default_retry.

Definition QueueClient_execute {Op Output} `{Operation Op Output} (w : W) (queue : QueueId)
    (address : Address) (operation : Op) (policy : RetryPolicy) : result ExchangeError Output * W :=
  LinkClient_execute w address operation queue policy.

Definition QueueClient_execute_default {Op Output} `{Operation Op Output} (w : W)
    (queue : QueueId) (address : Address) (operation : Op) : result ExchangeError Output * W :=
  QueueClient_execute w queue address operation sv_default_retry.
End Client.

(** ** A scripted link

    The clock, the answers to come and the calls made, the latest first: an answer takes
    one millisecond; when the script ends every request times out after the response
    timeout of its policy. *)

Record ScriptLink := mkScriptLink {
  sl_now : Z;
  sl_answers : list (result ExchangeError DeviceReply);
  sl_calls : list (Request * bytes * QueueId * RetryPolicy);
  sl_slept : list Z;
}.

Definition script_request (w : ScriptLink) (request : Request) (prefix : bytes)
    (queue : QueueId) (policy : RetryPolicy) : result ExchangeError DeviceReply * ScriptLink :=
  let calls := (request, prefix, queue, policy) :: sl_calls w in
  match sl_answers w with
  | [] => (Err ExResponseTimeout,
           mkScriptLink (sl_now w + rp_response_timeout policy) [] calls (sl_slept w))
  | Err ExResponseTimeout :: l =>
      (Err ExResponseTimeout,
       mkScriptLink (sl_now w + rp_response_timeout policy) l calls (sl_slept w))
  | r :: l => (r, mkScriptLink (sl_now w + 1000000) l calls (sl_slept w))
  end.

#[global] Instance script_service : Service ScriptLink := {
  sv_request_with_prefix := script_request;
  sv_default_queue := QueueId_DEFAULT;
  sv_default_retry := RetryPolicy_default;
  sv_now w := (sl_now w, w);
  sv_sleep w d := mkScriptLink (sl_now w + d) (sl_answers w) (sl_calls w) (d :: sl_slept w);
}.

(** ** A link that is watched

    Any link with a record of the requests made through it and their answers, the latest
    first, and of the times slept: what a service asks of the link does not depend on which
    link it is. *)

Definition Call : Type := Request * bytes * QueueId * RetryPolicy.

Definition call_request (c : Call) : Request := c.1.1.1.
Definition call_prefix (c : Call) : bytes := c.1.1.2.
Definition call_queue (c : Call) : QueueId := c.1.2.
Definition call_policy (c : Call) : RetryPolicy := c.2.
Definition call_address (c : Call) : Address := req_address (call_request c).

Definition Answered : Type := Call * result ExchangeError DeviceReply.

Record Watched (W : Type) := mkWatched { wd_world : W; wd_log : list Answered; wd_slept : list Z }.
Arguments mkWatched {W} _ _ _.
Arguments wd_world {W} _.
Arguments wd_log {W} _.
Arguments wd_slept {W} _.

Definition wd_calls {W} (w : Watched W) : list Call := (wd_log w).*1.

#[global] Instance watched_service {W} `{Service W} : Service (Watched W) := {
  sv_request_with_prefix w request prefix queue policy :=
    let '(r, w') := sv_request_with_prefix (wd_world w) request prefix queue policy in
    (r, mkWatched w' (((request, prefix, queue, policy), r) :: wd_log w) (wd_slept w));
  sv_default_queue := sv_default_queue;
  sv_default_retry := sv_default_retry;
  sv_now w := let '(t, w') := sv_now (wd_world w) in (t, mkWatched w' (wd_log w) (wd_slept w));
  sv_sleep w d := mkWatched (sv_sleep (wd_world w) d) (wd_log w) (d :: wd_slept w);
}.

Lemma watched_request_log {W} `{Service W} (w : Watched W) request prefix queue policy r w' :
  sv_request_with_prefix w request prefix queue policy = (r, w') ->
  wd_log w' = ((request, prefix, queue, policy), r) :: wd_log w /\ wd_slept w' = wd_slept w.
Proof. cbn. destruct (sv_request_with_prefix (wd_world w) _ _ _ _). by intros [= <- <-]. Qed.

Lemma watched_now_log {W} `{Service W} (w : Watched W) t w' :
  sv_now w = (t, w') -> wd_log w' = wd_log w /\ wd_slept w' = wd_slept w.
Proof. cbn. destruct (sv_now (wd_world w)). by intros [= <- <-]. Qed.

Lemma watched_now_calls {W} `{Service W} (w : Watched W) t w' :
  sv_now w = (t, w') -> wd_calls w' = wd_calls w /\ wd_slept w' = wd_slept w.
Proof. intros [E ?]%watched_now_log. unfold wd_calls. by rewrite E. Qed.

Lemma watched_request_calls {W} `{Service W} (w : Watched W) request prefix queue policy r w' :
  sv_request_with_prefix w request prefix queue policy = (r, w') ->
  wd_calls w' = (request, prefix, queue, policy) :: wd_calls w /\ wd_slept w' = wd_slept w.
Proof. intros [E ?]%watched_request_log. unfold wd_calls. by rewrite E. Qed.

(** [log_chain]: the record followed back through the steps. *)
Ltac log_chain :=
  repeat match goal with
    | E : wd_log ?w = _ |- context [wd_log ?w] => rewrite E; clear E
    end; reflexivity.

(** ** What a link promises to the services above it

    The services are proved against this interface; a link that discharges it serves them. The
    contract counts the steps of the service, requests and sleeps, because time is bounded. *)

(** [inv n w]: the link after [n] steps. Every admitted call is answered by what [says] allows,
    and the link is good for the next step. *)
Class LinkContract (W : Type) `{Service W} (steps longest : Z) (inv : Z -> W -> Prop)
    (admits : Call -> Prop) (says : Call -> result ExchangeError DeviceReply -> Prop) := {
  ct_request : forall n w (c : Call), n < steps -> inv n w -> admits c ->
    exists r w',
      sv_request_with_prefix w (call_request c) (call_prefix c) (call_queue c) (call_policy c) = (r, w')
      /\ says c r /\ inv (n + 1) w';
  ct_sleep : forall n w duration, n < steps -> inv n w -> 0 <= duration <= longest ->
    inv (n + 1) (sv_sleep w duration);
  ct_later : forall n m w, n <= m -> inv n w -> inv m w;
}.

(** A link that is watched keeps its contract, and the record shows that it does. *)
Definition watched_inv {W} (inv : Z -> W -> Prop)
    (says : Call -> result ExchangeError DeviceReply -> Prop) (n : Z) (w : Watched W) : Prop :=
  inv n (wd_world w) /\ Forall (fun e : Answered => says e.1 e.2) (wd_log w).

#[global] Instance watched_contract {W} steps longest inv admits says
    `{LinkContract W steps longest inv admits says} :
  LinkContract (Watched W) steps longest (watched_inv inv says) admits says.
Proof.
  split.
  - intros n w c Hn [Hi Hl] Hc. destruct (ct_request n (wd_world w) c Hn Hi Hc) as (r & w' & E & Hs & Hi').
    cbn. rewrite E. do 2 eexists. split; [done|]. split; [done|]. split; [done|].
    constructor; [by destruct c as [[[]]]|done].
  - intros n w d Hn [Hi Hl] Hd. split; [by eapply ct_sleep|done].
  - intros n m w Hnm [Hi Hl]. split; [by eapply ct_later|done].
Qed.
