(* ===== verification/Session.v ===== *)
(** * Device sessions (src/src/service/session.rs)

    An identified device on a shared link. *)
From S2P Require Import Prelude Wire Catalog Codec Operation Identity QueueSet Link Service.

Record SessionProfile := mkSessionProfile {
  sp_identity : DeviceIdentity;
  sp_address : Address;
  sp_request_preambles : Z;
}.

Inductive SessionError :=
  | SessionExchange (e : ExchangeError)
  | SessionOperation (e : OperationError)
  | SessionAddress (e : WireError)
  | SessionPreambles (n : Z).

(** The link is the world the calls pass; what a session holds itself is its profile. *)
Record DeviceSession := mkDeviceSession { ds_profile : SessionProfile }.

(** Creates a session from an identity already known. *)
Definition DeviceSession_from_identity (address : Address) (identity : DeviceIdentity)
    : result SessionError DeviceSession :=
  let request_preambles := Z.max (id_request_preambles identity) 2 in
  let? address :=
    match address with
    | Polling _ master =>
        result_map_err SessionAddress (DeviceIdentity_unique_address identity master)
    | Unique _ _ _ => Ok address
    end ;;
  Ok (mkDeviceSession (mkSessionProfile identity address request_preambles)).

(** Creates a request with the learned address and preamble count. *)
Definition DeviceSession_request {Op Output} `{Operation Op Output} (s : DeviceSession)
    (operation : Op) : result OperationError Request :=
  let? request := op_request operation (sp_address (ds_profile s)) ;;
  Ok (Request_with_preambles request (sp_request_preambles (ds_profile s))).

Section Session.
Context {W : Type} `{Service W}.

Definition DeviceSession_identify_default (w : W) (address : Address)
    : result SessionError DeviceSession * W :=
  call! (identity, w) :=
    call_map_err SessionExchange (LinkClient_execute_default w address mkReadDeviceIdentity) ;;
  (DeviceSession_from_identity address identity, w).

Definition DeviceSession_identify (w : W) (address : Address) (policy : RetryPolicy)
    : result SessionError DeviceSession * W :=
  call! (identity, w) :=
    call_map_err SessionExchange
      (LinkClient_execute w address mkReadDeviceIdentity sv_default_queue policy) ;;
  (DeviceSession_from_identity address identity, w).

Definition DeviceSession_identify_with_preambles (w : W) (address : Address) (preambles : Z)
    (policy : RetryPolicy) : result SessionError DeviceSession * W :=
  if negb (in_range 2 40 preambles) then (Err (SessionPreambles preambles), w)
  else
    match op_request mkReadDeviceIdentity address with
    | Err e => (Err (SessionOperation e), w)
    | Ok request =>
        let request := Request_with_preambles request preambles in
        call! (reply, w) :=
          call_map_err SessionExchange (LinkClient_request w request sv_default_queue policy) ;;
        match op_decode_reply mkReadDeviceIdentity reply with
        | Err e => (Err (SessionOperation e), w)
        | Ok found => (DeviceSession_from_identity address found, w)
        end
    end.

Definition DeviceSession_execute {Op Output} `{Operation Op Output} (w : W) (s : DeviceSession)
    (operation : Op) (queue : QueueId) (policy : RetryPolicy) : result SessionError Output * W :=
  match DeviceSession_request s operation with
  | Err e => (Err (SessionOperation e), w)
  | Ok request =>
      call! (reply, w) :=
        call_map_err SessionExchange (LinkClient_request w request queue policy) ;;
      (result_map_err SessionOperation (op_decode_reply operation reply), w)
  end.

Definition DeviceSession_execute_default {Op Output} `{Operation Op Output} (w : W)
    (s : DeviceSession) (operation : Op) : result SessionError Output * W :=
  match DeviceSession_request s operation with
  | Err e => (Err (SessionOperation e), w)
  | Ok request =>
      call! (reply, w) := call_map_err SessionExchange (LinkClient_request_default w request) ;;
      (result_map_err SessionOperation (op_decode_reply operation reply), w)
  end.

Definition DeviceSession_execute_accepting {Op Output} `{Operation Op Output} (w : W)
    (s : DeviceSession) (operation : Op) (accepted_warnings : bytes) (queue : QueueId)
    (policy : RetryPolicy) : result SessionError (CommandOutcome Output) * W :=
  match DeviceSession_request s operation with
  | Err e => (Err (SessionOperation e), w)
  | Ok request =>
      call! (reply, w) :=
        call_map_err SessionExchange (LinkClient_request w request queue policy) ;;
      (result_map_err SessionOperation
         (Operation_decode_reply_accepting operation reply accepted_warnings), w)
  end.

Definition DeviceSession_execute_accepting_default {Op Output} `{Operation Op Output} (w : W)
    (s : DeviceSession) (operation : Op) (accepted_warnings : bytes)
    : result SessionError (CommandOutcome Output) * W :=
  match DeviceSession_request s operation with
  | Err e => (Err (SessionOperation e), w)
  | Ok request =>
      call! (reply, w) := call_map_err SessionExchange (LinkClient_request_default w request) ;;
      (result_map_err SessionOperation
         (Operation_decode_reply_accepting operation reply accepted_warnings), w)
  end.
End Session.
