(* ===== verification/Health.v ===== *)
(** * Device health: cooldown and adaptive timeouts (src/src/service/health.rs)

    The state behind the mutex of one managed session, the sections of the code that run
    under the lock as functions of it, and the managed execution that composes them with
    the session. Instants and durations are nanoseconds. *)
From S2P Require Import Prelude Wire Catalog Codec Operation QueueSet Link Service Session.

(** ** Options *)

Record AdaptiveTiming := mkAdaptive { ad_minimum : Z; ad_maximum : Z; ad_margin : Z }.

Definition AdaptiveTiming_default : AdaptiveTiming :=
  mkAdaptive (100 * 1000000) (5 * NANOS_PER_SECOND) (50 * 1000000).

Inductive DeviceHealthConfigError :=
  | ZeroAdaptiveTimeout
  | AdaptiveOrder
  | AdaptiveLimit
  | CooldownLimit.

Definition AdaptiveTiming_validate (a : AdaptiveTiming) : result DeviceHealthConfigError unit :=
  return_if (ad_minimum a =? 0) || (ad_maximum a =? 0) err ZeroAdaptiveTimeout ;;
  return_if ad_maximum a <? ad_minimum a err AdaptiveOrder ;;
  return_if (MAXIMUM_RETRY_DURATION <? ad_maximum a) || (MAXIMUM_RETRY_DURATION <? ad_margin a)
    err AdaptiveLimit ;;
  Ok tt.

Definition AdaptiveTiming_with_minimum (a : AdaptiveTiming) (n : Z) : AdaptiveTiming :=
  mkAdaptive n (ad_maximum a) (ad_margin a).
Definition AdaptiveTiming_with_maximum (a : AdaptiveTiming) (n : Z) : AdaptiveTiming :=
  mkAdaptive (ad_minimum a) n (ad_margin a).
Definition AdaptiveTiming_with_margin (a : AdaptiveTiming) (n : Z) : AdaptiveTiming :=
  mkAdaptive (ad_minimum a) (ad_maximum a) n.

Record DeviceHealthOptions := mkHealthOptions {
  ho_failure_threshold : Z;
  ho_cooldown : Z;
  ho_adaptive : option AdaptiveTiming;
}.

Definition DeviceHealthOptions_default : DeviceHealthOptions :=
  mkHealthOptions 3 (10 * NANOS_PER_SECOND) (Some AdaptiveTiming_default).

Definition DeviceHealthOptions_validate (o : DeviceHealthOptions)
    : result DeviceHealthConfigError unit :=
  return_if MAXIMUM_RETRY_DURATION <? ho_cooldown o err CooldownLimit ;;
  match ho_adaptive o with Some a => AdaptiveTiming_validate a | None => Ok tt end.

Definition DeviceHealthOptions_with_failure_threshold (o : DeviceHealthOptions) (n : Z)
    : DeviceHealthOptions := mkHealthOptions n (ho_cooldown o) (ho_adaptive o).
Definition DeviceHealthOptions_with_cooldown (o : DeviceHealthOptions) (n : Z)
    : DeviceHealthOptions := mkHealthOptions (ho_failure_threshold o) n (ho_adaptive o).
Definition DeviceHealthOptions_with_adaptive (o : DeviceHealthOptions) (a : option AdaptiveTiming)
    : DeviceHealthOptions := mkHealthOptions (ho_failure_threshold o) (ho_cooldown o) a.

(** ** The state *)

Record HealthState := mkHealthState {
  hs_successes : Z;
  hs_failures : Z;
  hs_consecutive_transport_failures : Z;
  hs_cooldown_activations : Z;
  hs_cooldown_rejections : Z;
  hs_cooldown_until : option Z;
  hs_learned_response : option Z;
  hs_adaptive_attempts : Z;
  hs_adaptive_fallbacks : Z;
}.

Definition HealthState_default : HealthState := mkHealthState 0 0 0 0 0 None None 0 0.

Record DeviceHealthSnapshot := mkHealthSnapshot {
  hn_successes : Z;
  hn_failures : Z;
  hn_consecutive_transport_failures : Z;
  hn_cooldown_activations : Z;
  hn_cooldown_rejections : Z;
  hn_cooldown_remaining : Z;
  hn_learned_response : option Z;
  hn_adaptive_attempts : Z;
  hn_adaptive_fallbacks : Z;
}.

Inductive ManagedSessionError :=
  | CoolingDown (remaining : Z)
  | UnsafeProbe (command : Z)
  | ManagedSession (e : SessionError).

Definition registered_read_only (command : CommandCode) : bool :=
  match command_descriptor command with
  | Some entry => bool_decide (desc_safety entry = ReadOnly)
  | None => false
  end.

Definition is_response_timeout (e : SessionError) : bool :=
  match e with SessionExchange ExResponseTimeout => true | _ => false end.

Definition is_transport_outage (e : SessionError) : bool :=
  match e with
  | SessionExchange (ExResponseTimeout | ExSendTimeout | ExChannel _ | ExRunnerStopped) => true
  | _ => false
  end.

(** [previous * 3 + sample] divided by four, in [u128], back into a [u64]. *)
Definition smoothed_duration (previous : option Z) (sample : Z) : Z :=
  match previous with
  | None => sample
  | Some previous =>
      let nanoseconds := Z.min (2 ^ 128 - 1) (Z.min (2 ^ 128 - 1) (previous * 3) + sample) / 4 in
      if nanoseconds <=? u64_max then nanoseconds else u64_max
  end.

(** ** The sections under the lock *)

Definition set_cooldown_until (s : HealthState) (until : option Z) : HealthState :=
  mkHealthState (hs_successes s) (hs_failures s) (hs_consecutive_transport_failures s)
    (hs_cooldown_activations s) (hs_cooldown_rejections s) until (hs_learned_response s)
    (hs_adaptive_attempts s) (hs_adaptive_fallbacks s).

Definition count_rejection (s : HealthState) : HealthState :=
  mkHealthState (hs_successes s) (hs_failures s) (hs_consecutive_transport_failures s)
    (hs_cooldown_activations s) (saturating_add u64_max (hs_cooldown_rejections s) 1)
    (hs_cooldown_until s) (hs_learned_response s) (hs_adaptive_attempts s)
    (hs_adaptive_fallbacks s).

Definition note_adaptive_attempt (s : HealthState) : HealthState :=
  mkHealthState (hs_successes s) (hs_failures s) (hs_consecutive_transport_failures s)
    (hs_cooldown_activations s) (hs_cooldown_rejections s) (hs_cooldown_until s)
    (hs_learned_response s) (saturating_add u64_max (hs_adaptive_attempts s) 1)
    (hs_adaptive_fallbacks s).

Definition note_adaptive_fallback (s : HealthState) : HealthState :=
  mkHealthState (hs_successes s) (hs_failures s) (hs_consecutive_transport_failures s)
    (hs_cooldown_activations s) (hs_cooldown_rejections s) (hs_cooldown_until s)
    (hs_learned_response s) (hs_adaptive_attempts s)
    (saturating_add u64_max (hs_adaptive_fallbacks s) 1).

(** [snapshot]; [until.checked_duration_since(now)] is [None] for a past instant. *)
Definition health_snapshot (s : HealthState) (now : Z) : DeviceHealthSnapshot * HealthState :=
  let remaining :=
    match hs_cooldown_until s with
    | Some until => if now <=? until then until - now else 0
    | None => 0
    end in
  let s := if remaining =? 0 then set_cooldown_until s None else s in
  (mkHealthSnapshot (hs_successes s) (hs_failures s) (hs_consecutive_transport_failures s)
     (hs_cooldown_activations s) (hs_cooldown_rejections s) remaining (hs_learned_response s)
     (hs_adaptive_attempts s) (hs_adaptive_fallbacks s), s).

Definition check_cooldown (s : HealthState) (bypass : bool) (now : Z)
    : result ManagedSessionError unit * HealthState :=
  if bypass then (Ok tt, s)
  else
    match hs_cooldown_until s with
    | None => (Ok tt, s)
    | Some until =>
        if until <? now then (Ok tt, set_cooldown_until s None)
        else
          let remaining := until - now in
          if remaining =? 0 then (Ok tt, set_cooldown_until s None)
          else (Err (CoolingDown remaining), count_rejection s)
    end.

Definition adaptive_timeout (options : DeviceHealthOptions) (s : HealthState)
    (command : CommandCode) (policy : RetryPolicy) : option Z :=
  if (rp_transport_retries policy =? 0) || negb (registered_read_only command) then None
  else
    match ho_adaptive options, hs_learned_response s with
    | Some adaptive, Some learned =>
        let candidate :=
          Z.min (clamp (duration_saturating_add learned (ad_margin adaptive))
                   (ad_minimum adaptive) (ad_maximum adaptive))
            (rp_response_timeout policy) in
        if candidate <? rp_response_timeout policy then Some candidate else None
    | _, _ => None
    end.

Definition record_success (options : DeviceHealthOptions) (s : HealthState) (elapsed : Z)
    (command : CommandCode) : HealthState :=
  mkHealthState (saturating_add u64_max (hs_successes s) 1) (hs_failures s) 0
    (hs_cooldown_activations s) (hs_cooldown_rejections s) None
    (if registered_read_only command
        && match ho_adaptive options with Some _ => true | None => false end
     then Some (smoothed_duration (hs_learned_response s) elapsed)
     else hs_learned_response s)
    (hs_adaptive_attempts s) (hs_adaptive_fallbacks s).

Definition record_failure (options : DeviceHealthOptions) (instant_max : Z) (s : HealthState)
    (e : SessionError) (now : Z) : HealthState :=
  let failures := saturating_add u64_max (hs_failures s) 1 in
  if is_transport_outage e then
    let consecutive := saturating_add u32_max (hs_consecutive_transport_failures s) 1 in
    if ho_failure_threshold options <=? consecutive then
      let already_active :=
        match hs_cooldown_until s with Some until => now <? until | None => false end in
      mkHealthState (hs_successes s) failures consecutive
        (if already_active then hs_cooldown_activations s
         else saturating_add u64_max (hs_cooldown_activations s) 1)
        (hs_cooldown_rejections s) (instant_checked_add instant_max now (ho_cooldown options))
        (hs_learned_response s) (hs_adaptive_attempts s) (hs_adaptive_fallbacks s)
    else
      mkHealthState (hs_successes s) failures consecutive (hs_cooldown_activations s)
        (hs_cooldown_rejections s) (hs_cooldown_until s) (hs_learned_response s)
        (hs_adaptive_attempts s) (hs_adaptive_fallbacks s)
  else
    mkHealthState (hs_successes s) failures 0 (hs_cooldown_activations s)
      (hs_cooldown_rejections s) None (hs_learned_response s) (hs_adaptive_attempts s)
      (hs_adaptive_fallbacks s).

(** ** Managed execution *)

Record ManagedDeviceSession := mkManaged {
  md_session : DeviceSession;
  md_options : DeviceHealthOptions;
  md_state : HealthState;
}.

Definition ManagedDeviceSession_from_valid_options (session : DeviceSession)
    (options : DeviceHealthOptions) : ManagedDeviceSession :=
  mkManaged session options HealthState_default.

Definition ManagedDeviceSession_new (session : DeviceSession) (options : DeviceHealthOptions)
    : result DeviceHealthConfigError ManagedDeviceSession :=
  let? _ := DeviceHealthOptions_validate options ;;
  Ok (ManagedDeviceSession_from_valid_options session options).

Definition ManagedDeviceSession_with_defaults (session : DeviceSession) : ManagedDeviceSession :=
  ManagedDeviceSession_from_valid_options session DeviceHealthOptions_default.

Definition DeviceSession_managed (session : DeviceSession) (options : DeviceHealthOptions)
    : result DeviceHealthConfigError ManagedDeviceSession :=
  ManagedDeviceSession_new session options.

Definition DeviceSession_managed_with_defaults (session : DeviceSession) : ManagedDeviceSession :=
  ManagedDeviceSession_with_defaults session.

Definition md_with (m : ManagedDeviceSession) (s : HealthState) : ManagedDeviceSession :=
  mkManaged (md_session m) (md_options m) s.

(** The policy of the short first attempt. *)
Definition fast_policy (policy : RetryPolicy) (fast_timeout : Z) : RetryPolicy :=
  mkRetry 0 (rp_busy_retries policy) (rp_delayed_response_polls policy) (rp_retry_delay policy)
    fast_timeout (rp_total_timeout policy).

(** The policy of the conservative attempt in the time that is left. *)
Definition fallback_policy (policy : RetryPolicy) (remaining : Z) : RetryPolicy :=
  mkRetry (saturating_sub (rp_transport_retries policy) 1) (rp_busy_retries policy)
    (rp_delayed_response_polls policy) (rp_retry_delay policy)
    (Z.min (rp_response_timeout policy) remaining) remaining.

Section Managed.
Context {W : Type} `{Service W} (instant_max : Z).

(** [record_failure] reads the clock only for an outage at the threshold. *)
Definition md_record_failure (w : W) (m : ManagedDeviceSession) (e : SessionError)
    : ManagedDeviceSession * W :=
  if is_transport_outage e
     && (ho_failure_threshold (md_options m)
         <=? saturating_add u32_max (hs_consecutive_transport_failures (md_state m)) 1)
  then
    let '(now, w) := sv_now w in
    (md_with m (record_failure (md_options m) instant_max (md_state m) e now), w)
  else (md_with m (record_failure (md_options m) instant_max (md_state m) e 0), w).

Definition md_finish {A} (w : W) (m : ManagedDeviceSession) (r : result SessionError A)
    (elapsed : Z) (command : CommandCode)
    : result ManagedSessionError A * ManagedDeviceSession * W :=
  match r with
  | Ok value => (Ok value, md_with m (record_success (md_options m) (md_state m) elapsed command), w)
  | Err e =>
      let '(m, w) := md_record_failure w m e in
      (Err (ManagedSession e), m, w)
  end.

Definition md_execute_inner {Op Output} `{Operation Op Output} (w : W) (m : ManagedDeviceSession)
    (operation : Op) (queue : QueueId) (policy : RetryPolicy) (bypass_cooldown : bool)
    : result ManagedSessionError Output * ManagedDeviceSession * W :=
  let '(now, w) := if bypass_cooldown then (0, w) else sv_now w in
  match check_cooldown (md_state m) bypass_cooldown now with
  | (Err e, s) => (Err e, md_with m s, w)
  | (Ok _, s) =>
      let m := md_with m s in
      let command := op_command operation in
      let '(logical_started, w) := sv_now w in
      match adaptive_timeout (md_options m) (md_state m) command policy with
      | None =>
          let '(attempt_started, w) := sv_now w in
          let '(r, w) := DeviceSession_execute w (md_session m) operation queue policy in
          let '(t, w) := sv_now w in
          md_finish w m r (saturating_sub t attempt_started) command
      | Some fast_timeout =>
          let m := md_with m (note_adaptive_attempt (md_state m)) in
          let '(fast_started, w) := sv_now w in
          let '(r, w) :=
            DeviceSession_execute w (md_session m) operation queue
              (fast_policy policy fast_timeout) in
          match r with
          | Ok value =>
              let '(t, w) := sv_now w in
              (Ok value,
               md_with m (record_success (md_options m) (md_state m) (saturating_sub t fast_started) command), w)
          | Err e =>
              if is_response_timeout e then
                let '(t, w) := sv_now w in
                match checked_sub (rp_total_timeout policy) (saturating_sub t logical_started) with
                | None =>
                    let '(m, w) := md_record_failure w m e in (Err (ManagedSession e), m, w)
                | Some remaining =>
                    if remaining =? 0 then
                      let '(m, w) := md_record_failure w m e in (Err (ManagedSession e), m, w)
                    else
                      let m := md_with m (note_adaptive_fallback (md_state m)) in
                      let '(fallback_started, w) := sv_now w in
                      let '(r, w) :=
                        DeviceSession_execute w (md_session m) operation queue
                          (fallback_policy policy remaining) in
                      let '(t, w) := sv_now w in
                      md_finish w m r (saturating_sub t fallback_started) command
                end
              else
                let '(m, w) := md_record_failure w m e in (Err (ManagedSession e), m, w)
          end
      end
  end.

Definition md_execute {Op Output} `{Operation Op Output} (w : W) (m : ManagedDeviceSession)
    (operation : Op) (queue : QueueId) (policy : RetryPolicy)
    : result ManagedSessionError Output * ManagedDeviceSession * W :=
  md_execute_inner w m operation queue policy false.

Definition md_execute_default {Op Output} `{Operation Op Output} (w : W)
    (m : ManagedDeviceSession) (operation : Op)
    : result ManagedSessionError Output * ManagedDeviceSession * W :=
  md_execute w m operation sv_default_queue sv_default_retry.

Definition md_probe {Op Output} `{Operation Op Output} (w : W) (m : ManagedDeviceSession)
    (operation : Op) (queue : QueueId) (policy : RetryPolicy)
    : result ManagedSessionError Output * ManagedDeviceSession * W :=
  if negb (registered_read_only (op_command operation)) then
    (Err (UnsafeProbe (CommandCode_get (op_command operation))), m, w)
  else md_execute_inner w m operation queue policy true.

Definition md_snapshot (w : W) (m : ManagedDeviceSession)
    : DeviceHealthSnapshot * ManagedDeviceSession * W :=
  let '(now, w) := sv_now w in
  let '(snapshot, s) := health_snapshot (md_state m) now in
  (snapshot, md_with m s, w).
End Managed.
