(* ===== verification/HealthProps.v ===== *)
(** * Device health: properties

    The cooldown of a managed session is a circuit breaker over the outages seen; a managed
    execution spends no more than the caller's budget. *)
From S2P Require Import Prelude Wire Catalog Codec Operation Identity QueueSet Link Service Session Health.

(** ** The breaker *)

(** The sections of the code that run under the lock, as they interleave. *)
Inductive Section_ :=
  | SecCheck (bypass : bool)
  | SecAttempt
  | SecFallback
  | SecSuccess (elapsed : Z) (command : CommandCode)
  | SecFailure (e : SessionError)
  | SecSnapshot.

(** A section as it was run: when its caller read the clock and when it held the lock.
    [check_cooldown] and [snapshot] read the clock before they wait for the lock,
    [record_failure] while it holds it; the other sections do not look at the clock. *)
Record Entered := mkEntered { en_read : Z; en_locked : Z; en_section : Section_ }.

Definition entered_ok (x : Entered) : Prop :=
  en_read x <= en_locked x
  /\ match en_section x with SecFailure _ => en_read x = en_locked x | _ => True end.

Section Breaker.
Context (options : DeviceHealthOptions) (instant_max : Z).

Definition section_apply (s : HealthState) (now : Z) (x : Section_) : HealthState :=
  match x with
  | SecCheck bypass => (check_cooldown s bypass now).2
  | SecAttempt => note_adaptive_attempt s
  | SecFallback => note_adaptive_fallback s
  | SecSuccess elapsed command => record_success options s elapsed command
  | SecFailure e => record_failure options instant_max s e now
  | SecSnapshot => (health_snapshot s now).2
  end.

Definition sections_run : HealthState -> list Entered -> HealthState :=
  foldl (fun s x => section_apply s (en_read x) (en_section x)).

(** *** The specification: consecutive outages, and when the last one hit the threshold *)

Record Breaker := mkBreaker { br_outages : Z; br_opened : option Z }.

Definition breaker_apply (b : Breaker) (now : Z) (x : Section_) : Breaker :=
  match x with
  | SecSuccess _ _ => mkBreaker 0 None
  | SecFailure e =>
      if is_transport_outage e then
        mkBreaker (br_outages b + 1)
          (if ho_failure_threshold options <=? br_outages b + 1 then Some now else br_opened b)
      else mkBreaker 0 None
  | _ => b
  end.

(** The breaker goes by the time of the lock. *)
Definition breaker_run : Breaker -> list Entered -> Breaker :=
  foldl (fun b x => breaker_apply b (en_locked x) (en_section x)).

(** The time that is left to wait at [now]. *)
Definition breaker_wait (b : Breaker) (now : Z) : Z :=
  match br_opened b with
  | Some t =>
      if t + ho_cooldown options <=? instant_max then Z.max 0 (t + ho_cooldown options - now) else 0
  | None => 0
  end.

(** *** The simulation *)

Definition breaker_sim (s : HealthState) (b : Breaker) (now : Z) : Prop :=
  0 <= br_outages b
  /\ hs_consecutive_transport_failures s = Z.min u32_max (br_outages b)
  /\ match hs_cooldown_until s with
     | Some until =>
         exists t, br_opened b = Some t /\ until = t + ho_cooldown options /\ until <= instant_max
     | None => breaker_wait b now = 0
     end.

Context (Hthreshold : 1 <= ho_failure_threshold options <= 255) (Hcooldown : 0 <= ho_cooldown options).

Lemma breaker_wait_later b now later : now <= later -> breaker_wait b now = 0 -> breaker_wait b later = 0.
Proof using. unfold breaker_wait. intros Hl. repeat case_match; lia. Qed.

Lemma breaker_sim_later s b now later :
  breaker_sim s b now -> now <= later -> breaker_sim s b later.
Proof using.
  intros (H1 & H2 & H3) Hl. split_and!; try done. destruct (hs_cooldown_until s); [done|].
  by eapply breaker_wait_later.
Qed.

(** The wait the state implies. *)
Lemma breaker_sim_wait s b now :
  breaker_sim s b now ->
  breaker_wait b now
    = match hs_cooldown_until s with Some until => Z.max 0 (until - now) | None => 0 end.
Proof using.
  intros (_ & _ & H). destruct (hs_cooldown_until s) as [until|]; [|done].
  destruct H as (t & Ho & -> & Hm). unfold breaker_wait. rewrite Ho.
  by rewrite (proj2 (Z.leb_le _ _)).
Qed.

Lemma clear_sim s b now until :
  breaker_sim s b now -> hs_cooldown_until s = Some until -> until <= now ->
  breaker_sim (set_cooldown_until s None) b now.
Proof using.
  intros Hs Eu Hle. pose proof (breaker_sim_wait _ _ _ Hs) as Hw. rewrite Eu in Hw.
  destruct Hs as (H1 & H2 & _). split_and!; try done. cbn. lia.
Qed.

Lemma failure_sim s b now e :
  breaker_sim s b now -> breaker_sim (record_failure options instant_max s e now)
                           (breaker_apply b now (SecFailure e)) now.
Proof using Hthreshold Hcooldown.
  intros (H1 & H2 & H3). unfold record_failure. cbn [breaker_apply].
  destruct (is_transport_outage e); [|split_and!; cbn; [done|unfold u32_max; lia|done]].
  rewrite H2. replace (saturating_add u32_max (Z.min u32_max (br_outages b)) 1)
    with (Z.min u32_max (br_outages b + 1)) by (unfold saturating_add, u32_max; lia).
  assert (Ht : (ho_failure_threshold options <=? Z.min u32_max (br_outages b + 1))
               = (ho_failure_threshold options <=? br_outages b + 1)).
  { unfold u32_max. destruct (Z.leb_spec (ho_failure_threshold options) (br_outages b + 1));
      [apply Z.leb_le|apply Z.leb_gt]; lia. }
  rewrite Ht. destruct (ho_failure_threshold options <=? br_outages b + 1);
    (split_and!; cbn; [lia|done|]); [|done].
  unfold instant_checked_add. destruct (Z.leb_spec (now + ho_cooldown options) instant_max); [eauto|].
  unfold breaker_wait. cbn. destruct (Z.leb_spec (now + ho_cooldown options) instant_max); lia.
Qed.

(** A reading from before the lock ends a cooldown only when it is over at the lock, too. *)
Lemma section_sim s b x :
  breaker_sim s b (en_locked x) -> entered_ok x ->
  breaker_sim (section_apply s (en_read x) (en_section x))
    (breaker_apply b (en_locked x) (en_section x)) (en_locked x).
Proof using Hthreshold Hcooldown.
  destruct x as [read locked x]. cbn [en_read en_locked en_section].
  intros Hs [Hr Hx]. cbn [en_read en_locked en_section] in Hr, Hx. pose proof Hs as (H1 & H2 & H3).
  destruct x; cbn [section_apply]; try exact Hs.
  - cbn [breaker_apply]. unfold check_cooldown. destruct bypass; [done|].
    destruct (hs_cooldown_until s) as [until|] eqn:Eu; [|done].
    destruct (Z.ltb_spec until read); [eapply clear_sim; eauto; lia|].
    destruct (Z.eqb_spec (until - read) 0); [eapply clear_sim; eauto; lia|].
    cbn. unfold breaker_sim. cbn. by rewrite Eu.
  - split_and!; cbn; [done|unfold u32_max; lia|done].
  - subst read. by apply failure_sim.
  - cbn [breaker_apply]. unfold health_snapshot. cbn [snd].
    destruct (hs_cooldown_until s) as [until|] eqn:Eu; [|by split_and!].
    destruct (Z.eqb_spec (if read <=? until then until - read else 0) 0) as [E|E]; [|done].
    eapply clear_sim; eauto. destruct (Z.leb_spec read until); lia.
Qed.

(** A history in the order of the lock, ending at or before [now]. *)
Fixpoint times_ok (from : Z) (l : list Entered) (now : Z) : Prop :=
  match l with
  | [] => from <= now
  | x :: l => from <= en_locked x /\ entered_ok x /\ times_ok (en_locked x) l now
  end.

Lemma sections_sim l s b from now :
  breaker_sim s b from -> times_ok from l now ->
  breaker_sim (sections_run s l) (breaker_run b l) now.
Proof using Hthreshold Hcooldown.
  revert s b from. induction l as [|x l IH]; intros s b from Hs Ht; cbn in *.
  - by eapply breaker_sim_later.
  - destruct Ht as (Hf & Hx & Ht). eapply IH; [|exact Ht]. apply section_sim; [|done].
    by eapply breaker_sim_later.
Qed.

Lemma breaker_start now : breaker_sim HealthState_default (mkBreaker 0 None) now.
Proof using. split_and!; cbn; [lia|done|done]. Qed.

(** An ordinary call that read the clock at [read] and has the lock at [locked]. *)
Lemma check_sim s b read locked :
  breaker_sim s b locked -> read <= locked ->
  match (check_cooldown s false read).1 with
  | Ok _ => breaker_wait b locked = 0
  | Err e => e = CoolingDown (breaker_wait b read) /\ 0 < breaker_wait b read
  end.
Proof using Hcooldown.
  intros (H1 & H2 & H3) Hr. unfold check_cooldown.
  destruct (hs_cooldown_until s) as [until|]; [|done]. destruct H3 as (t & Ho & -> & Hm).
  unfold breaker_wait. rewrite Ho, (proj2 (Z.leb_le _ _)) by done.
  destruct (Z.ltb_spec (t + ho_cooldown options) read); cbn [fst]; [lia|].
  destruct (Z.eqb_spec (t + ho_cooldown options - read) 0); cbn [fst]; [lia|].
  rewrite Z.max_r by lia. split; [done|lia].
Qed.

(** C24. Cooldown is a circuit breaker. The callers run their sections one at a time, in the
    order in which they get the lock, with clocks they may have read before they waited for
    it. After any such history an ordinary call passes only when no cooldown is running at the
    moment it holds the lock, where a cooldown runs from the latest transport outage at or
    above the failure threshold for its period, unless a success or another answer came since;
    and a call is refused only when the cooldown was running by its own reading of the clock,
    and is told exactly the time left then. The remaining time of a snapshot is the same. For a
    caller that does not wait for the lock the two moments are one, and refusal and permission
    are exact. A probe is never refused, and the count of consecutive outages is exact. *)
Theorem cooldown_is_a_breaker (l : list Entered) (from read locked : Z) :
  times_ok from l locked -> read <= locked ->
  let s := sections_run HealthState_default l in
  let b := breaker_run (mkBreaker 0 None) l in
  match (check_cooldown s false read).1 with
  | Ok _ => breaker_wait b locked = 0
  | Err e => e = CoolingDown (breaker_wait b read) /\ 0 < breaker_wait b read
  end
  /\ (let remaining := hn_cooldown_remaining (health_snapshot s read).1 in
      remaining = breaker_wait b read \/ (remaining = 0 /\ breaker_wait b locked = 0))
  /\ (check_cooldown s false locked).1
     = (if breaker_wait b locked =? 0 then Ok tt else Err (CoolingDown (breaker_wait b locked)))
  /\ (check_cooldown s true read).1 = Ok tt
  /\ hs_consecutive_transport_failures s = Z.min u32_max (br_outages b).
Proof using Hthreshold Hcooldown.
  intros Ht Hr s b.
  assert (Hs : breaker_sim s b locked) by (by eapply sections_sim; [apply breaker_start|]).
  pose proof Hs as (_ & Hn & Hu). split_and!; try done.
  - by apply check_sim.
  - cbn. destruct (hs_cooldown_until s) as [until|]; [left|by right]. destruct Hu as (t & Ho & -> & Hm).
    unfold breaker_wait. rewrite Ho, (proj2 (Z.leb_le (t + ho_cooldown options) instant_max)) by done.
    destruct (Z.leb_spec read (t + ho_cooldown options)); lia.
  - pose proof (check_sim s b locked locked Hs (Z.le_refl _)) as Hc.
    destruct (check_cooldown s false locked) as [[[]|e] s']; cbn [fst] in *; [by rewrite Hc|].
    destruct Hc as [-> Hp]. by rewrite (proj2 (Z.eqb_neq _ _)) by lia.
Qed.
End Breaker.

Definition demo_outages : list Entered :=
  [mkEntered 1 1 (SecFailure (SessionExchange ExResponseTimeout)); mkEntered 1 2 (SecCheck false);
   mkEntered 3 3 (SecFailure (SessionExchange ExSendTimeout));
   mkEntered 4 4 (SecFailure (SessionExchange ExRunnerStopped)); mkEntered 3 5 (SecCheck false)].

Lemma cooldown_is_a_breaker_witness :
  (check_cooldown (sections_run DeviceHealthOptions_default (10 ^ 20) HealthState_default
                     demo_outages) false 1000).1
    = Err (CoolingDown (10 * NANOS_PER_SECOND - 996)).
Proof.
  destruct (cooldown_is_a_breaker DeviceHealthOptions_default (10 ^ 20)
              ltac:(cbn; lia) ltac:(vm_compute; discriminate) demo_outages 0 1000 1000
              ltac:(cbn; unfold entered_ok; cbn; lia) ltac:(lia)) as (_ & _ & E & _).
  rewrite E. reflexivity.
Defined.

(** A caller that read the clock before the end of a cooldown and got the lock after another
    one had seen its end is let through, although its own reading was too early. *)
Example late_reader_passes :
  let l := demo_outages ++ [mkEntered (11 * NANOS_PER_SECOND) (11 * NANOS_PER_SECOND) (SecCheck false)] in
  (check_cooldown (sections_run DeviceHealthOptions_default (10 ^ 20) HealthState_default l)
     false (9 * NANOS_PER_SECOND)).1 = Ok tt.
Proof. reflexivity. Qed.

(** ** The budget of a managed execution *)

(** A link with a diary: the readings of the clock and the requests, in their order. *)
Inductive DiaryEntry := Clocked (t : Z) | Called (c : Call).

Record Diary (W : Type) := mkDiary { dy_world : W; dy_entries : list DiaryEntry }.
Arguments mkDiary {W} _ _.
Arguments dy_world {W} _.
Arguments dy_entries {W} _.

#[global] Instance diary_service {W} `{Service W} : Service (Diary W) := {
  sv_request_with_prefix w request prefix queue policy :=
    let '(r, w') := sv_request_with_prefix (dy_world w) request prefix queue policy in
    (r, mkDiary w' (dy_entries w ++ [Called (request, prefix, queue, policy)]));
  sv_default_queue := sv_default_queue;
  sv_default_retry := sv_default_retry;
  sv_now w := let '(t, w') := sv_now (dy_world w) in (t, mkDiary w' (dy_entries w ++ [Clocked t]));
  sv_sleep w d := mkDiary (sv_sleep (dy_world w) d) (dy_entries w);
}.

Definition calls_of (entries : list DiaryEntry) : list Call :=
  omap (fun e => match e with Called c => Some c | Clocked _ => None end) entries.

Lemma calls_of_app a b : calls_of (a ++ b) = calls_of a ++ calls_of b.
Proof. apply omap_app. Qed.

Section Budget.
Context {W : Type} `{Service W} (instant_max : Z).
Context {Op Output : Type} `{Operation Op Output}.

(** Transmissions a call may come to because no response was seen. *)
Definition attempts_of (c : Call) : Z := 1 + rp_transport_retries (call_policy c).

Definition total_attempts (l : list Call) : Z := foldr (fun c n => attempts_of c + n) 0 l.

(** A call of one managed execution: the session's request, and no more than the policy. *)
Definition within (request : Request) (queue : QueueId) (policy : RetryPolicy) (c : Call) : Prop :=
  call_request c = request /\ call_prefix c = [] /\ call_queue c = queue
  /\ rp_total_timeout (call_policy c) <= rp_total_timeout policy
  /\ rp_response_timeout (call_policy c) <= rp_response_timeout policy
  /\ rp_transport_retries (call_policy c) <= rp_transport_retries policy
  /\ rp_busy_retries (call_policy c) = rp_busy_retries policy
  /\ rp_delayed_response_polls (call_policy c) = rp_delayed_response_polls policy
  /\ rp_retry_delay (call_policy c) = rp_retry_delay policy.

(** What a step adds to the diary. *)
Definition adds (w w' : Diary W) (entries : list DiaryEntry) : Prop :=
  dy_entries w' = dy_entries w ++ entries.

Lemma adds_nil w : adds w w [].
Proof. unfold adds. by rewrite app_nil_r. Qed.

Lemma adds_trans w1 w2 w3 a b : adds w1 w2 a -> adds w2 w3 b -> adds w1 w3 (a ++ b).
Proof. unfold adds. intros E1 E2. by rewrite E2, E1, <- app_assoc. Qed.

Lemma now_adds (w : Diary W) t w' : sv_now w = (t, w') -> adds w w' [Clocked t].
Proof. cbn. destruct (sv_now (dy_world w)). by intros [= <- <-]. Qed.

Lemma session_execute_adds (w : Diary W) s (op : Op) queue policy r w' request :
  DeviceSession_request s op = Ok request ->
  DeviceSession_execute w s op queue policy = (r, w') ->
  adds w w' [Called (request, [], queue, policy)].
Proof.
  intros Er. unfold DeviceSession_execute. rewrite Er. unfold LinkClient_request. cbn.
  destruct (sv_request_with_prefix (dy_world w) request [] queue policy) as [[reply|e] w1];
    unfold call_map_err, call_bind; cbn; by intros [= _ <-].
Qed.

(** Entries without a request. *)
Definition readings (entries : list DiaryEntry) : Prop := calls_of entries = [].

Lemma record_failure_adds (w : Diary W) m e m' w' :
  md_record_failure instant_max w m e = (m', w') -> exists post, adds w w' post /\ readings post.
Proof.
  unfold md_record_failure. case_match.
  - destruct (sv_now w) as [t w1] eqn:E. apply now_adds in E. intros [= _ <-]. by eexists.
  - intros [= _ <-]. exists []. split; [apply adds_nil|done].
Qed.

Lemma finish_adds {A} (w : Diary W) m (r : result SessionError A) elapsed command r' m' w' :
  md_finish instant_max w m r elapsed command = (r', m', w') -> exists post, adds w w' post /\ readings post.
Proof.
  unfold md_finish. destruct r.
  - intros [= _ _ <-]. exists []. split; [apply adds_nil|done].
  - destruct (md_record_failure _ _ _ _) eqn:E. apply record_failure_adds in E. by intros [= _ _ <-].
Qed.

Lemma adaptive_timeout_spec options s command policy fast :
  adaptive_timeout options s command policy = Some fast ->
  registered_read_only command = true /\ rp_transport_retries policy <> 0
  /\ fast < rp_response_timeout policy.
Proof.
  unfold adaptive_timeout. destruct (Z.eqb_spec (rp_transport_retries policy) 0); [done|].
  destruct (registered_read_only command); [|done]. cbn [negb orb].
  repeat case_match; try done. intros [= <-]. split_and!; try done. by apply Z.ltb_lt.
Qed.

(** Cooling down at the first reading of the clock, if that is looked at. *)
Definition cooling (m : ManagedDeviceSession) (bypass : bool) (entries : list DiaryEntry)
    (remaining : Z) : Prop :=
  bypass = false /\ exists now until, head entries = Some (Clocked now)
    /\ hs_cooldown_until (md_state m) = Some until /\ remaining = until - now /\ 0 < remaining.

Definition not_cooling (m : ManagedDeviceSession) (bypass : bool) (entries : list DiaryEntry) : Prop :=
  bypass = true \/ exists now, head entries = Some (Clocked now)
    /\ forall until, hs_cooldown_until (md_state m) = Some until -> until <= now.

(** The diary of one managed execution. *)
Inductive execution (m : ManagedDeviceSession) (op : Op) (queue : QueueId) (policy : RetryPolicy)
    (bypass : bool) (request : Request) : result ManagedSessionError Output -> list DiaryEntry -> Prop :=
  | execution_refused now remaining :
      cooling m bypass [Clocked now] remaining ->
      execution m op queue policy bypass request (Err (CoolingDown remaining)) [Clocked now]
  | execution_once r entries policy' :
      not_cooling m bypass entries -> calls_of entries = [(request, [], queue, policy')] ->
      policy' = policy
      \/ (exists fast, policy' = fast_policy policy fast /\ fast < rp_response_timeout policy) ->
      execution m op queue policy bypass request r entries
  | execution_twice r pre post started fast_started finished fallback_started fast :
      registered_read_only (op_command op) = true -> rp_transport_retries policy <> 0 ->
      fast < rp_response_timeout policy -> readings pre -> readings post ->
      let remaining := rp_total_timeout policy - saturating_sub finished started in
      let entries := pre ++ [Clocked started; Clocked fast_started;
                             Called (request, [], queue, fast_policy policy fast);
                             Clocked finished; Clocked fallback_started;
                             Called (request, [], queue, fallback_policy policy remaining)] ++ post in
      0 < remaining -> not_cooling m bypass entries ->
      execution m op queue policy bypass request r entries.

(** [now_step], [execute_step]: one reading of the clock, one request. *)
Ltac now_step :=
  match goal with
  | |- context [sv_now ?w] =>
      let t := fresh "t" in let w' := fresh "w" in let E := fresh "E" in
      destruct (sv_now w) as [t w'] eqn:E; apply now_adds in E; cbn [fst snd]
  end.

Ltac execute_step Er :=
  match goal with
  | |- context [DeviceSession_execute ?w ?s ?op ?q ?p] =>
      let r := fresh "r" in let w' := fresh "w" in let E := fresh "E" in
      destruct (DeviceSession_execute w s op q p) as [r w'] eqn:E;
      apply (session_execute_adds w s op q p r w' _ Er) in E
  end.

(** [adds_chain]: the diary followed back through the steps. *)
Ltac adds_chain :=
  unfold adds in *;
  repeat match goal with
    | E : dy_entries ?w = _ |- context [dy_entries ?w] => rewrite E; clear E
    end; rewrite <- ?app_assoc; reflexivity.

(** The check of the cooldown, with the reading it makes. *)
Lemma check_adds (w : Diary W) m (bypass : bool) t w0 :
  (if bypass then (0, w) else sv_now w) = (t, w0) ->
  exists pre, adds w w0 pre /\ readings pre
    /\ match (check_cooldown (md_state m) bypass t).1 with
       | Ok _ => forall more, not_cooling m bypass (pre ++ more)
       | Err e => exists now remaining, pre = [Clocked now] /\ e = CoolingDown remaining
                    /\ cooling m bypass pre remaining
       end.
Proof.
  destruct bypass.
  { intros [= <- <-]. exists []. split_and!; [apply adds_nil|done|]. by left. }
  intros E%now_adds. exists [Clocked t]. split_and!; [done|done|]. unfold check_cooldown.
  destruct (hs_cooldown_until (md_state m)) as [until|] eqn:Eu; cbn [fst].
  - assert (Hgo : until <= t -> forall more, not_cooling m false ([Clocked t] ++ more)).
    { intros Hle more. right. exists t. split; [done|]. rewrite Eu. by intros ? [= <-]. }
    destruct (Z.ltb_spec until t); cbn [fst]; [apply Hgo; lia|].
    destruct (Z.eqb_spec (until - t) 0); cbn [fst]; [apply Hgo; lia|].
    exists t, (until - t). split; [done|]. split; [done|]. split; [done|]. exists t, until.
    split_and!; (done || lia).
  - intros more. right. exists t. split; [done|]. by rewrite Eu.
Qed.

Lemma execute_inner_diary (w w' : Diary W) m m' (op : Op) queue policy bypass r request :
  DeviceSession_request (md_session m) op = Ok request ->
  md_execute_inner instant_max w m op queue policy bypass = (r, m', w') ->
  exists entries, adds w w' entries /\ execution m op queue policy bypass request r entries.
Proof.
  intros Er. unfold md_execute_inner.
  destruct (if bypass then (0, w) else sv_now w) as [t0 w0] eqn:E0.
  apply (check_adds w m) in E0 as (pre & Hpre & Hno & Hcheck).
  destruct (check_cooldown (md_state m) bypass t0) as [[[]|e] s0]; cbn [fst] in Hcheck.
  2: { destruct Hcheck as (now & remaining & -> & -> & Hc). intros [= <- _ <-]. eexists. split; [done|].
       by constructor. }
  cbn [md_with md_session md_options md_state]. now_step.
  destruct (adaptive_timeout (md_options m) s0 (op_command op) policy) as [fast|] eqn:Ea.
  2: { now_step. execute_step Er. now_step. intros (post & Ep & Hp)%finish_adds.
       exists (pre ++ [Clocked t; Clocked t1; Called (request, [], queue, policy); Clocked t2] ++ post).
       split; [adds_chain|].
       eapply execution_once; [apply Hcheck| |by left]. rewrite !calls_of_app, Hno, Hp. done. }
  apply adaptive_timeout_spec in Ea as (Hro & Htr & Hfast). now_step. execute_step Er.
  assert (Hone : forall w2 r more, adds w w2 (pre ++ [Clocked t; Clocked t1;
                   Called (request, [], queue, fast_policy policy fast)] ++ more) -> readings more ->
    exists entries, adds w w2 entries /\ execution m op queue policy bypass request r entries).
  { intros w4 r1 more Ha Hm. eexists. split; [exact Ha|].
    eapply execution_once; [apply Hcheck|rewrite !calls_of_app, Hno, Hm; done|]. right. by exists fast. }
  destruct r0 as [value|e].
  { now_step. intros [= <- _ <-]. apply (Hone _ _ [Clocked t2]); [|done]. adds_chain. }
  assert (Hfail : forall w3 m3 more, adds w w3 (pre ++ [Clocked t; Clocked t1;
                   Called (request, [], queue, fast_policy policy fast)] ++ more) -> readings more ->
    (let '(m, w) := md_record_failure instant_max w3 m3 e in (Err (ManagedSession e), m, w)) = (r, m', w') ->
    exists entries, adds w w' entries /\ execution m op queue policy bypass request r entries).
  { intros w4 m4 more Ha Hm. destruct (md_record_failure _ _ _ _) as [m5 w5] eqn:Ef.
    apply record_failure_adds in Ef as (post & Ep & Hp). intros [= <- _ <-].
    apply (Hone _ _ (more ++ post)); [|unfold readings; by rewrite calls_of_app, Hm, Hp].
    pose proof (adds_trans _ _ _ _ _ Ha Ep) as Hx. rewrite <- !app_assoc in Hx. exact Hx. }
  destruct (is_response_timeout e); [|apply (Hfail _ _ []); [rewrite app_nil_r; adds_chain|done]].
  now_step. unfold checked_sub.
  destruct (Z.leb_spec (saturating_sub t2 t) (rp_total_timeout policy)) as [Hle|Hgt];
    [|apply (Hfail _ _ [Clocked t2]); [adds_chain|done]].
  destruct (Z.eqb_spec (rp_total_timeout policy - saturating_sub t2 t) 0) as [Hz|Hz];
    [apply (Hfail _ _ [Clocked t2]); [adds_chain|done]|].
  cbn [md_with md_session md_options md_state]. now_step. execute_step Er. now_step.
  intros (post & Ep & Hp)%finish_adds.
  eexists. split; [|apply (execution_twice m op queue policy bypass request r pre ([Clocked t4] ++ post) t t1 t2 t3 fast);
    first [done | apply Hcheck | unfold saturating_sub in *; lia]].
  adds_chain.
Qed.

(** C25. A managed execution stays within the caller's policy on every link. It makes no
    request exactly when it is not a probe and the device is cooling down at its first reading
    of the clock, and then it returns the time left. Otherwise it makes one request, or two for
    a command registered as read-only; all are the session's own request in the caller's queue,
    their transport attempts together do not exceed those of the policy, and none has a longer
    timeout. The total timeout of a second request is what the clock leaves of the policy's,
    so that the time from the start to its decision and that timeout together are the total
    timeout of the policy. A probe of any other command makes no request. *)
Theorem managed_execution_within_budget (w w' : Diary W) (m m' : ManagedDeviceSession)
    (op : Op) (queue : QueueId) (policy : RetryPolicy) (bypass : bool)
    (r : result ManagedSessionError Output) (request : Request) :
  DeviceSession_request (md_session m) op = Ok request ->
  0 <= rp_transport_retries policy ->
  md_execute_inner instant_max w m op queue policy bypass = (r, m', w') ->
  (exists entries, dy_entries w' = dy_entries w ++ entries
     /\ Forall (within request queue policy) (calls_of entries)
     /\ total_attempts (calls_of entries) <= 1 + rp_transport_retries policy
     /\ match calls_of entries with
        | [] => exists remaining, cooling m bypass entries remaining /\ r = Err (CoolingDown remaining)
        | [_] => not_cooling m bypass entries
        | [_; second] =>
            not_cooling m bypass entries /\ registered_read_only (op_command op) = true
            /\ exists pre started between first finished more post,
                 entries = pre ++ Clocked started :: between ++ Called first :: Clocked finished
                           :: more ++ Called second :: post
                 /\ readings pre /\ readings between /\ readings more
                 /\ Z.max 0 (finished - started) + rp_total_timeout (call_policy second)
                    = rp_total_timeout policy
        | _ => False
        end)
  /\ (registered_read_only (op_command op) = false ->
      md_probe instant_max w m op queue policy
        = (Err (UnsafeProbe (CommandCode_get (op_command op))), m, w)).
Proof.
  intros Er Hr E. split; [|intros Hro; unfold md_probe; by rewrite Hro].
  destruct (execute_inner_diary _ _ _ _ _ _ _ _ _ _ Er E) as (entries & Ea & Hx).
  exists entries. split; [exact Ea|].
  assert (Hfast : forall fast, fast < rp_response_timeout policy ->
    within request queue policy (request, [], queue, fast_policy policy fast)).
  { intros fast Hf. unfold within. cbn. split_and!; (done || lia). }
  destruct Hx as [now remaining Hc|r entries policy' Hno Hcalls Hpol
                 |r pre post started f finished b fast Hro Htr Hf Hpre Hpost remaining entries Hrem Hno].
  - cbn. split_and!; [constructor|lia|by exists remaining].
  - rewrite Hcalls. split_and!; [|destruct Hpol as [->|(fast & -> & _)]; cbn; unfold attempts_of; cbn; lia|done].
    constructor; [|constructor]. destruct Hpol as [->|(fast & -> & Hf)]; [|by apply Hfast].
    unfold within. cbn. split_and!; (done || lia).
  - assert (Hcalls : calls_of entries = [(request, [], queue, fast_policy policy fast);
                                         (request, [], queue, fallback_policy policy remaining)]).
    { unfold entries. rewrite !calls_of_app, Hpre, Hpost. done. }
    rewrite Hcalls. unfold saturating_sub in remaining. split_and!;
      [|unfold total_attempts, attempts_of, fallback_policy, saturating_sub; cbn; lia|..].
    + constructor; [by apply Hfast|]. constructor; [|constructor].
      unfold within, fallback_policy, saturating_sub. cbn. split_and!; (done || lia).
    + done.
    + done.
    + exists pre, started, [Clocked f], (request, [], queue, fast_policy policy fast), finished, [Clocked b], post.
      split_and!; try done. cbn. unfold remaining. lia.
Qed.
End Budget.

(** A device whose responses took 20 ms so far and that stays silent now: a short attempt,
    then the conservative one in the time that is left. *)
Definition demo_managed : ManagedDeviceSession :=
  mkManaged
    (mkDeviceSession
       (mkSessionProfile (mkIdentity 254 1 2 5 7 1 1 1 0 0 3 None None None None None None [])
          (Unique 0x102 3 Primary) 5))
    DeviceHealthOptions_default (mkHealthState 1 0 0 0 0 None (Some 20000000) 0 0).

Definition demo_diary : Diary ScriptLink := mkDiary (mkScriptLink 0 [] [] []) [].

Definition demo_execution :=
  md_execute_inner (10 ^ 30) demo_diary demo_managed mkReadDeviceIdentity QueueId_DEFAULT
    RetryPolicy_default false.

Definition demo_request : Request :=
  default (Request_new (Unique 0x102 3 Primary) (op_command mkReadDeviceIdentity) [])
    (match DeviceSession_request (md_session demo_managed) mkReadDeviceIdentity with
     | Ok r => Some r | Err _ => None end).

Lemma managed_execution_within_budget_witness :
  length (calls_of (dy_entries demo_execution.2)) = 2%nat
  /\ Forall (within demo_request QueueId_DEFAULT RetryPolicy_default)
       (calls_of (dy_entries demo_execution.2))
  /\ total_attempts (calls_of (dy_entries demo_execution.2)) <= 2.
Proof.
  destruct (managed_execution_within_budget (10 ^ 30) demo_diary demo_execution.2 demo_managed
              demo_execution.1.2 mkReadDeviceIdentity QueueId_DEFAULT RetryPolicy_default false
              demo_execution.1.1 demo_request) as ((entries & E & Hw & Ht & _) & _);
    [vm_compute; reflexivity|vm_compute; discriminate|vm_compute; reflexivity|].
  split; [vm_compute; reflexivity|].
  change (dy_entries demo_diary ++ entries) with entries in E. rewrite E. split; [exact Hw|].
  change (1 + rp_transport_retries RetryPolicy_default) with 2 in Ht. exact Ht.
Defined.
