(* ===== verification/Profile.v ===== *)
(** * Line profiles (src/src/profile.rs)

    Settings of one physical line: polling windows behind translating modules, timing and
    per-address overrides. Durations are nanoseconds. *)
From stdpp Require Import gmap.
From S2P Require Import Prelude Wire Chars QueueSet Link.

Definition MAXIMUM_PROFILE_NAME_BYTES : Z := 256.
Definition MAXIMUM_PROFILE_MODULES : Z := 64.
Definition MAXIMUM_PROFILE_DURATION : Z := 24 * 3600 * NANOS_PER_SECOND.
Definition MAXIMUM_PROFILE_WAKE_PREFIX : Z := 256.
Definition MAXIMUM_ADDRESS_TIMING_OVERRIDES : Z := 64.

Inductive ProfileError :=
  | EmptyName
  | NameLength (n : Z)
  | ProfilePollingWindow (first last : Z)
  | ProfilePreambles (n : Z)
  | WakePrefix (n : Z)
  | ProfileZeroTimeout
  | ProfileDuration (d : Z)
  | NoModules
  | ModuleLimit (n : Z)
  | DuplicateModule (module : Z)
  | UnreachableModule (module : Z)
  | AddressOverlap (address first_module second_module : Z).

(** ** Windows *)

Record PollingWindow := mkWindow { pw_first : Z; pw_last : Z }.

Definition PollingWindow_new (first last : Z) : result ProfileError PollingWindow :=
  return_if (last <? first) || (63 <? last) err ProfilePollingWindow first last ;;
  Ok (mkWindow first last).

(** The inclusive range; empty when it is reversed. *)
Definition PollingWindow_iter (w : PollingWindow) : list Z :=
  seqZ (pw_first w) (pw_last w - pw_first w + 1).

(** The shift is an [i8]. *)
Record ModuleWindow := mkModule { mw_module : Z; mw_polling : PollingWindow; mw_address_shift : Z }.

Definition ModuleWindow_new (module : Z) (polling : PollingWindow) : ModuleWindow :=
  mkModule module polling 0.

Definition ModuleWindow_with_address_shift (m : ModuleWindow) (address_shift : Z) : ModuleWindow :=
  mkModule (mw_module m) (mw_polling m) address_shift.

(** ** Timing *)

Record TimingProfile := mkTiming {
  tp_connect_settle : Z;
  tp_first_response : Z;
  tp_steady_response : Z;
  tp_scan_interval : Z;
}.

Definition TimingProfile_default : TimingProfile :=
  mkTiming (500 * 1000000) (5 * NANOS_PER_SECOND) (1600 * 1000000) (100 * 1000000).

(** The loop over a list of durations: the first one above the limit. *)
Fixpoint over_duration {E} (error : Z -> E) (l : list Z) : result E unit :=
  match l with
  | [] => Ok tt
  | d :: l => return_if MAXIMUM_PROFILE_DURATION <? d err error d ;; over_duration error l
  end.

Definition TimingProfile_validate (t : TimingProfile) : result ProfileError unit :=
  return_if (tp_first_response t =? 0) || (tp_steady_response t =? 0) err ProfileZeroTimeout ;;
  over_duration ProfileDuration
    [tp_connect_settle t; tp_first_response t; tp_steady_response t; tp_scan_interval t].

Definition TimingProfile_with_connect_settle (t : TimingProfile) (d : Z) : TimingProfile :=
  mkTiming d (tp_first_response t) (tp_steady_response t) (tp_scan_interval t).
Definition TimingProfile_with_first_response (t : TimingProfile) (d : Z) : TimingProfile :=
  mkTiming (tp_connect_settle t) d (tp_steady_response t) (tp_scan_interval t).
Definition TimingProfile_with_steady_response (t : TimingProfile) (d : Z) : TimingProfile :=
  mkTiming (tp_connect_settle t) (tp_first_response t) d (tp_scan_interval t).
Definition TimingProfile_with_scan_interval (t : TimingProfile) (d : Z) : TimingProfile :=
  mkTiming (tp_connect_settle t) (tp_first_response t) (tp_steady_response t) d.

(** ** Overrides for one address *)

Record AddressTiming := mkAddressTiming {
  at_delay_before_probe : Z;
  at_response_timeout : option Z;
}.

Definition AddressTiming_new : AddressTiming := mkAddressTiming 0 None.

Definition AddressTiming_with_delay_before_probe (t : AddressTiming) (delay : Z) : AddressTiming :=
  mkAddressTiming delay (at_response_timeout t).
Definition AddressTiming_with_response_timeout (t : AddressTiming) (timeout : Z) : AddressTiming :=
  mkAddressTiming (at_delay_before_probe t) (Some timeout).

Inductive AddressTimingError :=
  | TimingPollingAddress (n : Z)
  | TimingZeroTimeout
  | TimingDuration (d : Z).

Definition AddressTiming_validate (t : AddressTiming) : result AddressTimingError unit :=
  return_if match at_response_timeout t with Some timeout => timeout =? 0 | None => false end
    err TimingZeroTimeout ;;
  over_duration TimingDuration [at_delay_before_probe t; default 0 (at_response_timeout t)].

Definition AddressTimings : Type := gmap Z AddressTiming.

Definition AddressTimings_new : AddressTimings := ∅.

Definition AddressTimings_insert (t : AddressTimings) (polling_address : Z) (timing : AddressTiming)
    : result AddressTimingError AddressTimings :=
  return_if MAXIMUM_ADDRESS_TIMING_OVERRIDES <=? polling_address
    err TimingPollingAddress polling_address ;;
  let? _ := AddressTiming_validate timing ;;
  Ok (<[polling_address := timing]> t).

(** [with] takes and returns the set where [insert] updates it. *)
Definition AddressTimings_with (t : AddressTimings) (polling_address : Z) (timing : AddressTiming)
    : result AddressTimingError AddressTimings :=
  AddressTimings_insert t polling_address timing.

Definition AddressTimings_get (t : AddressTimings) (polling_address : Z) : option AddressTiming :=
  t !! polling_address.

(** The entries in the order of their [u8] keys. *)
Definition AddressTimings_iter (t : AddressTimings) : list (Z * AddressTiming) :=
  omap (fun a => (fun timing => (a, timing)) <$> t !! a) (seqZ 0 256).

Definition AddressTimings_len (t : AddressTimings) : Z := Z.of_nat (size t).
Definition AddressTimings_is_empty (t : AddressTimings) : bool := bool_decide (t = ∅).

(** ** The profile *)

Record LineProfile := mkLineProfile {
  lp_name : text;
  lp_timing : TimingProfile;
  lp_modules : list ModuleWindow;
  lp_discovery_preambles : Z;
  lp_wake_prefix : bytes;
}.

Definition LineProfile_new (name : text) : LineProfile :=
  mkLineProfile name TimingProfile_default [] 20 [].

Definition LineProfile_with_timing (p : LineProfile) (timing : TimingProfile) : LineProfile :=
  mkLineProfile (lp_name p) timing (lp_modules p) (lp_discovery_preambles p) (lp_wake_prefix p).
Definition LineProfile_with_module (p : LineProfile) (module : ModuleWindow) : LineProfile :=
  mkLineProfile (lp_name p) (lp_timing p) (lp_modules p ++ [module]) (lp_discovery_preambles p)
    (lp_wake_prefix p).
Definition LineProfile_with_modules (p : LineProfile) (modules : list ModuleWindow) : LineProfile :=
  mkLineProfile (lp_name p) (lp_timing p) modules (lp_discovery_preambles p) (lp_wake_prefix p).
Definition LineProfile_with_discovery_preambles (p : LineProfile) (preambles : Z) : LineProfile :=
  mkLineProfile (lp_name p) (lp_timing p) (lp_modules p) preambles (lp_wake_prefix p).
Definition LineProfile_with_wake_prefix (p : LineProfile) (prefix : bytes) : LineProfile :=
  mkLineProfile (lp_name p) (lp_timing p) (lp_modules p) (lp_discovery_preambles p) prefix.

Definition LineProfile_single_segment (name : text) (polling : PollingWindow) : LineProfile :=
  LineProfile_with_module (LineProfile_new name) (ModuleWindow_new 1 polling).

(** The physical address of a local one; the sum is an [i16] of a [u8] and an [i8]. *)
Definition shifted_address (module : ModuleWindow) (local : Z) : option Z :=
  if negb (in_range (pw_first (mw_polling module)) (pw_last (mw_polling module)) local) then None
  else
    let shifted := local + mw_address_shift module in
    if in_range 0 u8_max shifted && (shifted <=? 63) then Some shifted else None.

(** The addresses of one module: those seen so far with their modules, and whether any was
    reachable. *)
Fixpoint claim_addresses (current : ModuleWindow) (locals : list Z) (seen : gmap Z Z)
    (reachable : bool) : result ProfileError (gmap Z Z * bool) :=
  match locals with
  | [] => Ok (seen, reachable)
  | local :: locals =>
      match shifted_address current local with
      | None => claim_addresses current locals seen reachable
      | Some address =>
          match seen !! address with
          | Some previous => Err (AddressOverlap address previous (mw_module current))
          | None => claim_addresses current locals (<[address := mw_module current]> seen) true
          end
      end
  end.

Fixpoint validate_modules (modules : list ModuleWindow) (seen : gmap Z Z)
    : result ProfileError unit :=
  match modules with
  | [] => Ok tt
  | current :: rest =>
      let? _ := PollingWindow_new (pw_first (mw_polling current)) (pw_last (mw_polling current)) ;;
      return_if existsb (fun other => mw_module other =? mw_module current) rest
        err DuplicateModule (mw_module current) ;;
      let? claimed := claim_addresses current (PollingWindow_iter (mw_polling current)) seen false ;;
      return_if negb claimed.2 err UnreachableModule (mw_module current) ;;
      validate_modules rest claimed.1
  end.

Definition LineProfile_validate (p : LineProfile) : result ProfileError unit :=
  return_if bool_decide (trim (lp_name p) = []) err EmptyName ;;
  return_if MAXIMUM_PROFILE_NAME_BYTES <? str_len (lp_name p) err NameLength (str_len (lp_name p)) ;;
  return_if negb (in_range 2 40 (lp_discovery_preambles p))
    err ProfilePreambles (lp_discovery_preambles p) ;;
  return_if MAXIMUM_PROFILE_WAKE_PREFIX <? zlen (lp_wake_prefix p)
    err WakePrefix (zlen (lp_wake_prefix p)) ;;
  let? _ := TimingProfile_validate (lp_timing p) ;;
  return_if bool_decide (lp_modules p = []) err NoModules ;;
  return_if MAXIMUM_PROFILE_MODULES <? zlen (lp_modules p) err ModuleLimit (zlen (lp_modules p)) ;;
  validate_modules (lp_modules p) ∅.
