(* ===== verification/ProfileProps.v ===== *)
(** * Line profiles: properties

    [LineProfile_validate] accepts exactly the profiles that are well formed, and the error
    it gives names a defect the profile has. *)
From stdpp Require Import gmap.
From S2P Require Import Prelude Wire Chars QueueSet Link Profile.

(** ** The specification *)

(** The physical addresses behind one module, and behind a list of modules. *)
Definition module_addresses (m : ModuleWindow) : list Z :=
  omap (shifted_address m) (PollingWindow_iter (mw_polling m)).

Definition line_addresses (l : list ModuleWindow) : list Z := l ≫= module_addresses.

Definition window_ok (w : PollingWindow) : Prop := pw_first w <= pw_last w /\ pw_last w <= 63.

Definition modules_ok (l : list ModuleWindow) : Prop :=
  Forall (fun m => window_ok (mw_polling m)) l
  /\ NoDup (mw_module <$> l)
  /\ Forall (fun m => module_addresses m <> []) l
  /\ NoDup (line_addresses l).

Definition timing_ok (t : TimingProfile) : Prop :=
  tp_first_response t <> 0 /\ tp_steady_response t <> 0
  /\ Forall (fun d => d <= MAXIMUM_PROFILE_DURATION)
       [tp_connect_settle t; tp_first_response t; tp_steady_response t; tp_scan_interval t].

Definition profile_ok (p : LineProfile) : Prop :=
  trim (lp_name p) <> [] /\ str_len (lp_name p) <= 256
  /\ 2 <= lp_discovery_preambles p <= 40
  /\ zlen (lp_wake_prefix p) <= 256
  /\ timing_ok (lp_timing p)
  /\ lp_modules p <> [] /\ zlen (lp_modules p) <= 64
  /\ modules_ok (lp_modules p).

(** The defect an error names. *)
Definition modules_defect (l : list ModuleWindow) (e : ProfileError) : Prop :=
  match e with
  | ProfilePollingWindow first last =>
      exists m, m ∈ l /\ mw_polling m = mkWindow first last /\ ~ window_ok (mw_polling m)
  | DuplicateModule n =>
      exists i j x y, i <> j /\ l !! i = Some x /\ l !! j = Some y
                      /\ mw_module x = n /\ mw_module y = n
  | UnreachableModule n => exists m, m ∈ l /\ mw_module m = n /\ module_addresses m = []
  | AddressOverlap address first_module second_module =>
      exists i j x y, (i < j)%nat /\ l !! i = Some x /\ l !! j = Some y
                      /\ mw_module x = first_module /\ mw_module y = second_module
                      /\ address ∈ module_addresses x /\ address ∈ module_addresses y
  | _ => False
  end.

Definition profile_defect (p : LineProfile) (e : ProfileError) : Prop :=
  match e with
  | EmptyName => trim (lp_name p) = []
  | NameLength n => n = str_len (lp_name p) /\ 256 < n
  | ProfilePreambles n => n = lp_discovery_preambles p /\ ~ (2 <= n <= 40)
  | WakePrefix n => n = zlen (lp_wake_prefix p) /\ 256 < n
  | ProfileZeroTimeout => tp_first_response (lp_timing p) = 0 \/ tp_steady_response (lp_timing p) = 0
  | ProfileDuration d =>
      MAXIMUM_PROFILE_DURATION < d
      /\ d ∈ [tp_connect_settle (lp_timing p); tp_first_response (lp_timing p);
              tp_steady_response (lp_timing p); tp_scan_interval (lp_timing p)]
  | NoModules => lp_modules p = []
  | ModuleLimit n => n = zlen (lp_modules p) /\ 64 < n
  | _ => modules_defect (lp_modules p) e
  end.

(** ** Addresses of one module *)

Lemma elem_of_iter w x : x ∈ PollingWindow_iter w <-> pw_first w <= x <= pw_last w.
Proof. unfold PollingWindow_iter. rewrite elem_of_seqZ. lia. Qed.

Lemma shifted_address_spec m local a :
  shifted_address m local = Some a <->
  pw_first (mw_polling m) <= local <= pw_last (mw_polling m)
  /\ a = local + mw_address_shift m /\ 0 <= a <= 63.
Proof.
  unfold shifted_address, in_range, u8_max.
  destruct (Z.leb_spec (pw_first (mw_polling m)) local); cbn [negb andb]; [|split; [done|lia]].
  destruct (Z.leb_spec local (pw_last (mw_polling m))); cbn [negb andb]; [|split; [done|lia]].
  destruct (Z.leb_spec 0 (local + mw_address_shift m)); cbn [andb]; [|split; [done|lia]].
  destruct (Z.leb_spec (local + mw_address_shift m) 255); cbn [andb]; [|split; [done|lia]].
  destruct (Z.leb_spec (local + mw_address_shift m) 63); [|split; [done|lia]].
  split; [intros [= <-]; lia|]. intros (_ & -> & _). done.
Qed.

Lemma elem_of_module_addresses m a :
  a ∈ module_addresses m <->
  exists local, pw_first (mw_polling m) <= local <= pw_last (mw_polling m)
                /\ a = local + mw_address_shift m /\ 0 <= a <= 63.
Proof.
  unfold module_addresses. rewrite list_elem_of_omap. setoid_rewrite elem_of_iter.
  setoid_rewrite shifted_address_spec. split; intros (local & H); exists local; tauto.
Qed.

Lemma omap_shifted_NoDup m l : NoDup l -> NoDup (omap (shifted_address m) l).
Proof.
  induction 1 as [|x l Hx Hl IH]; cbn; [constructor|].
  destruct (shifted_address m x) as [a|] eqn:E; [|done]. constructor; [|done].
  rewrite list_elem_of_omap. intros (y & Hy & Ey). apply Hx.
  apply shifted_address_spec in E as (_ & -> & _). apply shifted_address_spec in Ey as (_ & ? & _).
  by replace x with y by lia.
Qed.

Lemma module_addresses_NoDup m : NoDup (module_addresses m).
Proof. apply omap_shifted_NoDup, NoDup_seqZ. Qed.

(** ** The checks *)

Lemma over_duration_spec {E} (error : Z -> E) l :
  match over_duration error l with
  | Ok _ => Forall (fun d => d <= MAXIMUM_PROFILE_DURATION) l
  | Err e => exists d, e = error d /\ MAXIMUM_PROFILE_DURATION < d /\ d ∈ l
  end.
Proof.
  induction l as [|d l IH]; cbn [over_duration]; [constructor|].
  destruct (Z.ltb_spec MAXIMUM_PROFILE_DURATION d).
  - exists d. split_and!; [done|done|by left].
  - destruct (over_duration error l); [by constructor|].
    destruct IH as (d' & ? & ? & ?). exists d'. split_and!; [done|done|by right].
Qed.

Lemma timing_validate_spec t :
  match TimingProfile_validate t with
  | Ok _ => timing_ok t
  | Err e => forall p, lp_timing p = t -> profile_defect p e
  end.
Proof.
  unfold TimingProfile_validate. destruct (Z.eqb_spec (tp_first_response t) 0) as [E1|E1]; cbn [orb].
  { intros p <-. by left. }
  destruct (Z.eqb_spec (tp_steady_response t) 0) as [E2|E2].
  { intros p <-. by right. }
  pose proof (over_duration_spec ProfileDuration
    [tp_connect_settle t; tp_first_response t; tp_steady_response t; tp_scan_interval t]) as Ho.
  destruct (over_duration _ _); [by split_and!|].
  destruct Ho as (d & -> & ? & ?). by intros p <-.
Qed.

Lemma claim_addresses_spec current locals seen reachable :
  NoDup (omap (shifted_address current) locals) ->
  match claim_addresses current locals seen reachable with
  | Ok (seen', reachable') =>
      (forall a, a ∈ omap (shifted_address current) locals -> seen !! a = None)
      /\ (reachable' = true <-> reachable = true \/ omap (shifted_address current) locals <> [])
      /\ (forall a k, seen' !! a = Some k <->
            seen !! a = Some k \/ (a ∈ omap (shifted_address current) locals /\ k = mw_module current))
  | Err e => exists a previous, e = AddressOverlap a previous (mw_module current)
               /\ a ∈ omap (shifted_address current) locals /\ seen !! a = Some previous
  end.
Proof.
  revert seen reachable. induction locals as [|x locals IH]; intros seen reachable Hnd; cbn in *.
  { split_and!; [by intros a ?%elem_of_nil|naive_solver|].
    intros a k. split; [by left|]. intros [?|[?%elem_of_nil _]]; done. }
  destruct (shifted_address current x) as [a|]; [|by apply IH].
  apply NoDup_cons in Hnd as [Ha Hnd]. destruct (seen !! a) as [previous|] eqn:Es.
  { exists a, previous. split_and!; [done|by left|done]. }
  specialize (IH (<[a := mw_module current]> seen) true Hnd).
  destruct (claim_addresses current locals _ true) as [[seen' reachable']|e].
  - destruct IH as (H1 & H2 & H3). split_and!.
    + intros b [->|Hb]%elem_of_cons; [done|]. specialize (H1 b Hb).
      by rewrite lookup_insert_ne in H1 by set_solver.
    + rewrite H2. split; intros _; [by right|by left].
    + intros b k. rewrite H3, elem_of_cons. destruct (decide (b = a)) as [->|Hne].
      * rewrite lookup_insert_eq, Es. split; [intros [[= <-]|[? ?]]; tauto|].
        intros [?|[_ ->]]; [done|by left].
      * rewrite lookup_insert_ne by done. tauto.
  - destruct IH as (b & previous & -> & Hb & Hs).
    exists b, previous. split_and!; [done|by right|].
    by rewrite lookup_insert_ne in Hs by set_solver.
Qed.

(** What [seen] holds after the modules [before]. *)
Definition seen_ok (before : list ModuleWindow) (seen : gmap Z Z) : Prop :=
  forall a k, seen !! a = Some k <-> exists m, m ∈ before /\ a ∈ module_addresses m /\ k = mw_module m.

Lemma seen_ok_step before seen seen' m :
  seen_ok before seen ->
  (forall a k, seen' !! a = Some k <->
     seen !! a = Some k \/ (a ∈ module_addresses m /\ k = mw_module m)) ->
  seen_ok (before ++ [m]) seen'.
Proof.
  intros Hseen Hseen' a k. rewrite Hseen', (Hseen a k). setoid_rewrite elem_of_app.
  setoid_rewrite list_elem_of_singleton. split.
  - intros [(x & ? & ? & ?)|[? ->]]; [exists x|exists m]; tauto.
  - intros (x & [?| ->] & ? & ->); [left; exists x; tauto|by right].
Qed.

Lemma validate_modules_spec modules before seen :
  seen_ok before seen ->
  match validate_modules modules seen with
  | Ok _ => modules_ok modules
            /\ forall a, a ∈ line_addresses modules -> ~ a ∈ line_addresses before
  | Err e => modules_defect (before ++ modules) e
  end.
Proof.
  revert before seen. induction modules as [|m modules IH]; intros before seen Hseen.
  { cbn. split; [by repeat split; constructor|]. by intros a ?%elem_of_nil. }
  cbn [validate_modules]. unfold PollingWindow_new.
  destruct ((pw_last (mw_polling m) <? pw_first (mw_polling m)) || (63 <? pw_last (mw_polling m)))
    eqn:Ew; cbn [result_bind].
  { cbn. exists m. split_and!; [set_solver|by destruct m as [? [] ?]|].
    unfold window_ok. intros [? ?]. apply orb_true_iff in Ew as [?%Z.ltb_lt|?%Z.ltb_lt]; lia. }
  apply orb_false_iff in Ew as [Ew1%Z.ltb_ge Ew2%Z.ltb_ge].
  destruct (existsb _ modules) eqn:Ed.
  { apply existsb_exists in Ed as (other & Hin & E%Z.eqb_eq).
    apply list_elem_of_In, list_elem_of_lookup in Hin as (j & Hj). cbn.
    exists (length before), (length before + S j)%nat, m, other. split_and!; [lia| | |done|done].
    - by rewrite lookup_app_r, Nat.sub_diag by lia.
    - rewrite lookup_app_r by lia. by replace (length before + S j - length before)%nat with (S j) by lia. }
  pose proof (claim_addresses_spec m (PollingWindow_iter (mw_polling m)) seen false
                (module_addresses_NoDup m)) as Hc.
  fold (module_addresses m) in Hc.
  destruct (claim_addresses m _ seen false) as [[seen' reachable]|e]; cbn [result_bind fst snd].
  2: { destruct Hc as (a & previous & -> & Ha & Hs). cbn.
       apply Hseen in Hs as (x & Hx & Hax & ->). apply list_elem_of_lookup in Hx as (i & Hi).
       exists i, (length before), x, m. pose proof (lookup_lt_Some _ _ _ Hi).
       split_and!; [done| | |done|done|done|done].
       - by rewrite lookup_app_l by done.
       - by rewrite lookup_app_r, Nat.sub_diag by lia. }
  destruct Hc as (Hfree & Hreach & Hseen').
  destruct reachable; cbn [negb].
  2: { exists m. split_and!; [set_solver|done|].
       destruct (decide (module_addresses m = [])) as [|Hne]; [done|].
       specialize (proj2 Hreach (or_intror Hne)). done. }
  assert (Hne : module_addresses m <> []) by (by destruct (proj1 Hreach eq_refl)).
  assert (Hfresh : forall a, a ∈ module_addresses m -> ~ a ∈ line_addresses before).
  { intros a Ha (x & Hax & Hx)%list_elem_of_bind. specialize (Hfree a Ha).
    by rewrite (proj2 (Hseen a (mw_module x)) (ex_intro _ x (conj Hx (conj Hax eq_refl)))) in Hfree. }
  specialize (IH (before ++ [m]) seen' (seen_ok_step _ _ _ _ Hseen Hseen')).
  destruct (validate_modules modules seen') as [[]|e].
  - destruct IH as ((H1 & H2 & H3 & H4) & H5).
    unfold line_addresses in H5. setoid_rewrite bind_app in H5. cbn in H5.
    rewrite app_nil_r in H5. setoid_rewrite elem_of_app in H5.
    split.
    + unfold modules_ok. split_and!.
      * constructor; [by split|done].
      * cbn. constructor; [|done]. intros (x & Ex & Hx)%list_elem_of_fmap.
        apply (eq_true_false_abs (existsb (fun other => mw_module other =? mw_module m) modules)); [|done].
        apply existsb_exists. exists x. split; [by apply list_elem_of_In|]. apply Z.eqb_eq. by rewrite Ex.
      * by constructor.
      * cbn. apply NoDup_app. split_and!; [apply module_addresses_NoDup| |done].
        intros a Ha Hb. apply (H5 a Hb). by right.
    + intros b. cbn. intros [Ha|Ha]%elem_of_app; [by apply Hfresh|]. intros Hb. apply (H5 b Ha). by left.
  - by rewrite <- app_assoc in IH.
Qed.

(** A defect is one: no well-formed profile has it. *)
Lemma modules_defect_not_ok l e : modules_defect l e -> ~ modules_ok l.
Proof.
  intros Hd (H1 & H2 & H3 & H4). destruct e; cbn in Hd; try done.
  - destruct Hd as (m & Hm & _ & Hw). rewrite Forall_forall in H1. by apply Hw, H1.
  - destruct Hd as (i & j & x & y & Hij & Hi & Hj & Ex & Ey). apply Hij.
    eapply (NoDup_lookup (mw_module <$> l)); [done| |];
      rewrite list_lookup_fmap; [by rewrite Hi|by rewrite Hj; cbn; rewrite Ey, <- Ex].
  - destruct Hd as (m & Hm & _ & He). rewrite Forall_forall in H3. by apply (H3 m).
  - destruct Hd as (i & j & x & y & Hij & Hi & Hj & _ & _ & Hx & Hy).
    rewrite <- (take_drop_middle _ _ _ Hi) in H4. unfold line_addresses in H4.
    rewrite bind_app in H4. cbn in H4. apply NoDup_app in H4 as (_ & _ & H4).
    apply NoDup_app in H4 as (_ & H4 & _). apply (H4 address Hx).
    apply list_elem_of_bind. exists y. split; [done|]. apply list_elem_of_lookup.
    exists (j - S i)%nat. rewrite lookup_drop. by replace (S i + (j - S i))%nat with j by lia.
Qed.

Lemma profile_defect_not_ok p e : profile_defect p e -> ~ profile_ok p.
Proof.
  intros Hd (H1 & H2 & H3 & H4 & (H5 & H6 & H7) & H8 & H9 & H10).
  destruct e; cbn [profile_defect] in Hd;
    try exact (modules_defect_not_ok _ _ Hd H10); try done; try lia.
  destruct Hd as [Hd Hin]. rewrite Forall_forall in H7. specialize (H7 _ Hin). lia.
Qed.

Lemma validate_spec p :
  match LineProfile_validate p with
  | Ok _ => profile_ok p
  | Err e => profile_defect p e
  end.
Proof.
  unfold LineProfile_validate, MAXIMUM_PROFILE_NAME_BYTES, MAXIMUM_PROFILE_WAKE_PREFIX,
    MAXIMUM_PROFILE_MODULES.
  destruct (bool_decide_reflect (trim (lp_name p) = [])) as [H1|H1]; [done|].
  destruct (Z.ltb_spec 256 (str_len (lp_name p))); [done|].
  destruct (in_range 2 40 (lp_discovery_preambles p)) eqn:Er; cbn [negb].
  2: { cbn. split; [done|]. unfold in_range in Er.
       apply andb_false_iff in Er as [?%Z.leb_gt|?%Z.leb_gt]; lia. }
  apply andb_true_iff in Er as [?%Z.leb_le ?%Z.leb_le].
  destruct (Z.ltb_spec 256 (zlen (lp_wake_prefix p))); [done|].
  pose proof (timing_validate_spec (lp_timing p)) as Ht.
  destruct (TimingProfile_validate (lp_timing p)) as [[]|e]; cbn [result_bind]; [|by apply Ht].
  destruct (bool_decide_reflect (lp_modules p = [])) as [Hn|Hn]; [done|].
  destruct (Z.ltb_spec 64 (zlen (lp_modules p))); [done|].
  assert (Hs : seen_ok [] ∅).
  { intros a k. rewrite lookup_empty. split; [done|]. by intros (m & ?%elem_of_nil & _). }
  pose proof (validate_modules_spec (lp_modules p) [] ∅ Hs) as Hm.
  destruct (validate_modules (lp_modules p) ∅) as [[]|e].
  - by split_and!; try apply Hm.
  - cbn [app] in Hm. by destruct e.
Qed.

(** C40. A line profile is accepted exactly when it is well formed: a name of at most 256
    bytes that is not blank, 2 to 40 preambles, a wake prefix of at most 256 bytes, nonzero
    response timeouts and no duration over a day, and 1 to 64 modules with distinct numbers
    and windows within 0..=63, each reaching an address and no two the same one after their
    shifts. A refusal names a defect the profile has. *)
Theorem profile_validation_exact (p : LineProfile) :
  (LineProfile_validate p = Ok tt <-> profile_ok p)
  /\ forall e, LineProfile_validate p = Err e -> profile_defect p e.
Proof.
  pose proof (validate_spec p) as Hv.
  destruct (LineProfile_validate p) as [[]|e].
  - split; [done|]. intros e [=].
  - split; [|by intros e' [= <-]]. split; [done|]. intros Hok.
    by destruct (profile_defect_not_ok p e Hv).
Qed.

(** Two modules whose shifted windows meet. *)
Example overlapping_modules :
  LineProfile_validate
    (LineProfile_with_modules (LineProfile_new [65])
       [ModuleWindow_new 1 (mkWindow 0 15);
        ModuleWindow_with_address_shift (ModuleWindow_new 2 (mkWindow 0 15)) 15])
    = Err (AddressOverlap 15 1 2).
Proof. vm_compute. reflexivity. Qed.
