(* ===== verification/Discovery.v ===== *)
(** * Discovery of a line (src/src/service/discovery.rs)

    The scan of every address of a profile over a link, in passes, with untrusted preamble
    hints. *)
From stdpp Require Import gmap.
From S2P Require Import Prelude Wire Catalog Codec Operation Identity QueueSet Link Service Profile.

(** Addresses as finite data, so that they index maps. *)
Definition address_code (a : Address) : Z * Z * Z * bool :=
  match a with
  | Polling node m => (0, node, 0, bool_decide (m = Primary))
  | Unique ty id m => (1, ty, id, bool_decide (m = Primary))
  end.

Definition address_uncode (c : Z * Z * Z * bool) : Address :=
  let '(tag, a, b, p) := c in
  let m := if p then Primary else Secondary in
  if tag =? 0 then Polling a m else Unique a b m.

#[global] Instance Address_countable : Countable Address.
Proof. by apply (inj_countable' address_code address_uncode); intros [node []|ty id []]. Defined.

Record DiscoveredDevice := mkDiscovered {
  dd_module : Z;
  dd_address : Address;
  dd_identity : DeviceIdentity;
}.

Record DiscoveryReport := mkDiscoveryReport {
  dr_attempts : Z;
  dr_hinted_attempts : Z;
  dr_hint_fallbacks : Z;
  dr_passes_completed : Z;
  dr_devices : list DiscoveredDevice;
  dr_errors : list (Address * ExchangeError);
}.

Definition DiscoveryReport_default : DiscoveryReport := mkDiscoveryReport 0 0 0 0 [] [].

(** ** Hints *)

Definition MAXIMUM_DISCOVERY_HINTS : Z := 128.

Definition DiscoveryHints : Type := gmap Address Z.

Definition DiscoveryHints_new : DiscoveryHints := ∅.

Inductive DiscoveryHintError :=
  | HintUniqueAddress
  | HintPreambles (n : Z)
  | HintLimit (n : Z).

Definition DiscoveryHints_insert (h : DiscoveryHints) (address : Address) (preambles : Z)
    : result DiscoveryHintError DiscoveryHints :=
  return_if match Address_polling_node address with Some _ => false | None => true end
    err HintUniqueAddress ;;
  return_if negb (in_range 2 40 preambles) err HintPreambles preambles ;;
  return_if match h !! address with Some _ => false | None => true end
            && (MAXIMUM_DISCOVERY_HINTS <=? Z.of_nat (size h))
    err HintLimit MAXIMUM_DISCOVERY_HINTS ;;
  Ok (<[address := preambles]> h).

Definition DiscoveryHints_get (h : DiscoveryHints) (address : Address) : option Z := h !! address.
Definition DiscoveryHints_len (h : DiscoveryHints) : Z := Z.of_nat (size h).
Definition DiscoveryHints_is_empty (h : DiscoveryHints) : bool := bool_decide (h = ∅).

(** ** Options *)

Record DiscoveryOptions := mkDiscoveryOptions {
  do_passes : Z;
  do_queue : QueueId;
  do_retry : RetryPolicy;
  do_pass_delay : Z;
  do_preamble_hints : DiscoveryHints;
}.

Definition DiscoveryOptions_default : DiscoveryOptions :=
  mkDiscoveryOptions 1 QueueId_DEFAULT RetryPolicy_default 0 DiscoveryHints_new.

Definition DiscoveryOptions_with_passes (o : DiscoveryOptions) (passes : Z) : DiscoveryOptions :=
  mkDiscoveryOptions passes (do_queue o) (do_retry o) (do_pass_delay o) (do_preamble_hints o).
Definition DiscoveryOptions_with_queue (o : DiscoveryOptions) (queue : QueueId) : DiscoveryOptions :=
  mkDiscoveryOptions (do_passes o) queue (do_retry o) (do_pass_delay o) (do_preamble_hints o).
Definition DiscoveryOptions_with_retry (o : DiscoveryOptions) (retry : RetryPolicy) : DiscoveryOptions :=
  mkDiscoveryOptions (do_passes o) (do_queue o) retry (do_pass_delay o) (do_preamble_hints o).
Definition DiscoveryOptions_with_pass_delay (o : DiscoveryOptions) (delay : Z) : DiscoveryOptions :=
  mkDiscoveryOptions (do_passes o) (do_queue o) (do_retry o) delay (do_preamble_hints o).
Definition DiscoveryOptions_with_preamble_hints (o : DiscoveryOptions) (hints : DiscoveryHints)
    : DiscoveryOptions :=
  mkDiscoveryOptions (do_passes o) (do_queue o) (do_retry o) (do_pass_delay o) hints.

Inductive DiscoveryError :=
  | DiscoveryProfile (e : ProfileError)
  | DiscoveryRetry (e : RetryPolicyError)
  | DiscoveryPassDelay (d : Z).

(** ** Timing of one probe *)

Definition discovery_response_timeout (profile : LineProfile) (timing : AddressTiming)
    (hinted_probe no_devices_found : bool) : Z :=
  default (if hinted_probe || negb no_devices_found then tp_steady_response (lp_timing profile)
           else tp_first_response (lp_timing profile))
    (at_response_timeout timing).

(** The counts are [u8] values, added in [u32]. *)
Definition discovery_retry (base : RetryPolicy) (response_timeout : Z)
    (allow_transport_retries : bool) : RetryPolicy :=
  let transport_retries := if allow_transport_retries then rp_transport_retries base else 0 in
  let maximum_attempts :=
    saturating_add u32_max
      (saturating_add u32_max (saturating_add u32_max 1 transport_retries) (rp_busy_retries base))
      (rp_delayed_response_polls base) in
  let transient_waits :=
    saturating_add u32_max (rp_busy_retries base) (rp_delayed_response_polls base) in
  mkRetry transport_retries (rp_busy_retries base) (rp_delayed_response_polls base)
    (rp_retry_delay base) response_timeout
    (duration_saturating_add (duration_saturating_mul response_timeout maximum_attempts)
       (duration_saturating_mul (rp_retry_delay base) transient_waits)).

(** ** The scan *)

Section Discovery.
Context {W : Type} `{Service W}.
Context (profile : LineProfile) (master : Master) (options : DiscoveryOptions)
        (address_timings : option AddressTimings).

(** What the scan changes: the report, the prefix not yet sent, the link. *)
Record Scan := mkScan { sc_report : DiscoveryReport; sc_wake : option bytes; sc_link : W }.

Definition with_report (s : Scan) (r : DiscoveryReport) : Scan :=
  mkScan r (sc_wake s) (sc_link s).

Definition scan_sleep (s : Scan) (duration : Z) : Scan :=
  mkScan (sc_report s) (sc_wake s) (sv_sleep (sc_link s) duration).

Definition wait_for_address_timing (s : Scan) (polling_address : Z) : AddressTiming * Scan :=
  let timing :=
    default AddressTiming_new
      (match address_timings with
       | Some timings => AddressTimings_get timings polling_address
       | None => None
       end) in
  (timing,
   if at_delay_before_probe timing =? 0 then s else scan_sleep s (at_delay_before_probe timing)).

Definition count_attempt (r : DiscoveryReport) (hinted : bool) : DiscoveryReport :=
  mkDiscoveryReport (dr_attempts r + 1)
    (if hinted then dr_hinted_attempts r + 1 else dr_hinted_attempts r)
    (dr_hint_fallbacks r) (dr_passes_completed r) (dr_devices r) (dr_errors r).

Definition count_fallback (r : DiscoveryReport) : DiscoveryReport :=
  mkDiscoveryReport (dr_attempts r) (dr_hinted_attempts r) (dr_hint_fallbacks r + 1)
    (dr_passes_completed r) (dr_devices r) (dr_errors r).

Definition add_device (r : DiscoveryReport) (d : DiscoveredDevice) : DiscoveryReport :=
  mkDiscoveryReport (dr_attempts r) (dr_hinted_attempts r) (dr_hint_fallbacks r)
    (dr_passes_completed r) (dr_devices r ++ [d]) (dr_errors r).

Definition add_error (r : DiscoveryReport) (address : Address) (e : ExchangeError)
    : DiscoveryReport :=
  mkDiscoveryReport (dr_attempts r) (dr_hinted_attempts r) (dr_hint_fallbacks r)
    (dr_passes_completed r) (dr_devices r) (dr_errors r ++ [(address, e)]).

Definition set_passes (r : DiscoveryReport) (n : Z) : DiscoveryReport :=
  mkDiscoveryReport (dr_attempts r) (dr_hinted_attempts r) (dr_hint_fallbacks r) n
    (dr_devices r) (dr_errors r).

(** The probes [(probe, preambles)] of one address, the conservative one after the hinted. *)
Fixpoint probe_address (module : Z) (address : Address) (timing : AddressTiming)
    (hinted : option Z) (probes : list (Z * Z)) (s : Scan) : Scan :=
  match probes with
  | [] => s
  | (probe, preambles) :: probes =>
      let is_hinted := match hinted with Some _ => true | None => false end in
      if (probe =? 1) && negb is_hinted then s
      else
        let s := with_report s (count_attempt (sc_report s) ((probe =? 0) && is_hinted)) in
        let response_timeout :=
          discovery_response_timeout profile timing (is_hinted && (probe =? 0))
            (bool_decide (dr_devices (sc_report s) = [])) in
        let retry :=
          discovery_retry (do_retry options) response_timeout
            (negb (probe =? 0) || negb is_hinted) in
        let request :=
          Request_with_preambles (Request_new address (CommandCode_new 0) []) preambles in
        let prefix := default [] (sc_wake s) in
        let '(answer, w) :=
          sv_request_with_prefix (sc_link s) request prefix (do_queue options) retry in
        let s := mkScan (sc_report s) None w in
        match answer with
        | Ok reply =>
            match op_decode_reply mkReadDeviceIdentity reply with
            | Ok found =>
                with_report s (add_device (sc_report s) (mkDiscovered module address found))
            | Err e => with_report s (add_error (sc_report s) address (ExOperation e))
            end
        | Err ((ExResponseTimeout | ExDeadline) as e) =>
            if is_hinted && (probe =? 0) then
              probe_address module address timing hinted probes
                (with_report s (count_fallback (sc_report s)))
            else s
        | Err e => with_report s (add_error (sc_report s) address e)
        end
  end.

(** The local addresses of one module: the visited addresses, whether the pass has probed. *)
Fixpoint scan_module (pass : Z) (module : ModuleWindow) (locals : list Z)
    (visited : gset Address) (previous_probe : bool) (s : Scan)
    : gset Address * bool * Scan :=
  match locals with
  | [] => (visited, previous_probe, s)
  | local :: locals =>
      match shifted_address module local with
      | None => scan_module pass module locals visited previous_probe s
      | Some node =>
          match Address_polling node master with
          | Err _ => scan_module pass module locals visited previous_probe s
          | Ok address =>
              let seen := bool_decide (address ∈ visited) in
              let visited := {[address]} ∪ visited in
              if seen
                 || existsb (fun d => bool_decide (dd_address d = address))
                      (dr_devices (sc_report s))
              then scan_module pass module locals visited previous_probe s
              else
                let s :=
                  if previous_probe && negb (tp_scan_interval (lp_timing profile) =? 0)
                  then scan_sleep s (tp_scan_interval (lp_timing profile)) else s in
                let '(timing, s) := wait_for_address_timing s node in
                let conservative := lp_discovery_preambles profile in
                let hinted :=
                  match (if pass =? 0 then DiscoveryHints_get (do_preamble_hints options) address
                         else None) with
                  | Some preambles => if preambles <? conservative then Some preambles else None
                  | None => None
                  end in
                let first := default conservative hinted in
                scan_module pass module locals visited true
                  (probe_address (mw_module module) address timing hinted
                     [(0, first); (1, conservative)] s)
          end
      end
  end.

Fixpoint scan_modules (pass : Z) (modules : list ModuleWindow) (visited : gset Address)
    (previous_probe : bool) (s : Scan) : gset Address * bool * Scan :=
  match modules with
  | [] => (visited, previous_probe, s)
  | module :: modules =>
      let '(visited, previous_probe, s) :=
        scan_module pass module (PollingWindow_iter (mw_polling module)) visited previous_probe s in
      scan_modules pass modules visited previous_probe s
  end.

(** The passes that are left, from [pass] on. *)
Fixpoint scan_passes (pass : Z) (remaining : nat) (s : Scan) : Scan :=
  match remaining with
  | O => s
  | S remaining =>
      let '(visited, _, s) := scan_modules pass (lp_modules profile) ∅ false s in
      let next := saturating_add u8_max pass 1 in
      let s := with_report s (set_passes (sc_report s) next) in
      if Z.of_nat (size visited) <=? zlen (dr_devices (sc_report s)) then s
      else
        scan_passes (pass + 1) remaining
          (if (next <? do_passes options) && negb (do_pass_delay options =? 0)
           then scan_sleep s (do_pass_delay options) else s)
  end.

Definition discover_validated (w : W) : DiscoveryReport * W :=
  let settle := tp_connect_settle (lp_timing profile) in
  let w := if settle =? 0 then w else sv_sleep w settle in
  let s :=
    scan_passes 0 (Z.to_nat (do_passes options))
      (mkScan DiscoveryReport_default (Some (lp_wake_prefix profile)) w) in
  (sc_report s, sc_link s).
End Discovery.

Arguments mkScan {W} _ _ _.
Arguments sc_report {W} _.
Arguments sc_wake {W} _.
Arguments sc_link {W} _.

(** ** Entry points *)

Section Entry.
Context {W : Type} `{Service W}.

Definition discover_line (w : W) (profile : LineProfile) (master : Master)
    : result ProfileError DiscoveryReport * W :=
  match LineProfile_validate profile with
  | Err e => (Err e, w)
  | Ok _ =>
      let '(report, w) := discover_validated profile master DiscoveryOptions_default None w in
      (Ok report, w)
  end.

(** The checks both entry points with options share. *)
Definition check_options (profile : LineProfile) (options : DiscoveryOptions)
    : result DiscoveryError unit :=
  let? _ := result_map_err DiscoveryProfile (LineProfile_validate profile) ;;
  let? _ := result_map_err DiscoveryRetry (RetryPolicy_validate (do_retry options)) ;;
  return_if MAXIMUM_PROFILE_DURATION <? do_pass_delay options
    err DiscoveryPassDelay (do_pass_delay options) ;;
  Ok tt.

Definition discover_line_with_options (w : W) (profile : LineProfile) (master : Master)
    (options : DiscoveryOptions) : result DiscoveryError DiscoveryReport * W :=
  match check_options profile options with
  | Err e => (Err e, w)
  | Ok _ =>
      let '(report, w) := discover_validated profile master options None w in
      (Ok report, w)
  end.

(** [validate_runtime] reads the clock once per override with a response timeout. *)
Fixpoint check_timings (instant_max : Z) (retry : RetryPolicy) (l : list (Z * AddressTiming))
    (w : W) : result DiscoveryError unit * W :=
  match l with
  | [] => (Ok tt, w)
  | (_, timing) :: l =>
      match at_response_timeout timing with
      | None => check_timings instant_max retry l w
      | Some response_timeout =>
          let '(now, w) := sv_now w in
          match RetryPolicy_validate_runtime (discovery_retry retry response_timeout true)
                  instant_max now with
          | Err e => (Err (DiscoveryRetry e), w)
          | Ok _ => check_timings instant_max retry l w
          end
      end
  end.

Definition discover_line_with_address_timings (instant_max : Z) (w : W) (profile : LineProfile)
    (master : Master) (options : DiscoveryOptions) (address_timings : AddressTimings)
    : result DiscoveryError DiscoveryReport * W :=
  match check_options profile options with
  | Err e => (Err e, w)
  | Ok _ =>
      match check_timings instant_max (do_retry options) (AddressTimings_iter address_timings) w with
      | (Err e, w) => (Err e, w)
      | (Ok _, w) =>
          let '(report, w) :=
            discover_validated profile master options (Some address_timings) w in
          (Ok report, w)
      end
  end.
End Entry.
