(* ===== verification/DiscoveryProps.v ===== *)
(** * Discovery: properties

    What a scan asks of the link and what its report says, over every link: the report is a
    function of the requests made and their answers. *)
From stdpp Require Import gmap.
From S2P Require Import Prelude Wire Catalog Codec Operation Identity QueueSet Link Service Profile.
From S2P Require Import ProfileProps Discovery.

(** ** What the answers say *)

Definition answer_identity (e : Answered) : option (Address * DeviceIdentity) :=
  match e.2 with
  | Ok reply =>
      match op_decode_reply mkReadDeviceIdentity reply with
      | Ok found => Some (call_address e.1, found)
      | Err _ => None
      end
  | Err _ => None
  end.

(** A missing response is not an error of the scan. *)
Definition answer_error (e : Answered) : option (Address * ExchangeError) :=
  match e.2 with
  | Ok reply =>
      match op_decode_reply mkReadDeviceIdentity reply with
      | Ok _ => None
      | Err error => Some (call_address e.1, ExOperation error)
      end
  | Err (ExResponseTimeout | ExDeadline) => None
  | Err error => Some (call_address e.1, error)
  end.

(** After an answer that identifies an address no request goes to it. *)
Fixpoint settled (log : list Answered) : Prop :=
  match log with
  | [] => True
  | e :: log =>
      (forall a found, answer_identity e = Some (a, found) ->
         Forall (fun e' => call_address e'.1 <> a) log)
      /\ settled log
  end.

(** Requests to one address. *)
Definition calls_to (a : Address) (log : list Answered) : Z :=
  zlen (filter (fun e : Answered => call_address e.1 = a) log).

Lemma calls_to_app a l1 l2 : calls_to a (l1 ++ l2) = calls_to a l1 + calls_to a l2.
Proof. unfold calls_to. rewrite filter_app, zlen_app. done. Qed.

Lemma calls_to_all a l : Forall (fun e : Answered => call_address e.1 = a) l -> calls_to a l = zlen l.
Proof.
  intros Hl. unfold calls_to. induction Hl as [|e l He Hl IH]; [done|].
  rewrite filter_cons_True by done. unfold zlen in *. cbn [length]. lia.
Qed.

Lemma calls_to_none a b l :
  a <> b -> Forall (fun e : Answered => call_address e.1 = a) l -> calls_to b l = 0.
Proof.
  intros Hne Hl. unfold calls_to. induction Hl as [|e l He Hl IH]; [done|].
  rewrite filter_cons_False by congruence. done.
Qed.

Lemma calls_to_pos a l : 1 <= calls_to a l -> exists e, e ∈ l /\ call_address e.1 = a.
Proof.
  unfold calls_to. induction l as [|e l IH]; [unfold zlen; cbn; lia|].
  destruct (decide (call_address e.1 = a)) as [Ea|Ea].
  - intros _. exists e. split; [by left|done].
  - rewrite filter_cons_False by done. intros (x & ? & ?)%IH. exists x. split; [by right|done].
Qed.

Lemma settled_snoc log e :
  settled log ->
  (forall a found, (a, found) ∈ omap answer_identity log -> call_address e.1 <> a) ->
  settled (log ++ [e]).
Proof.
  induction log as [|x log IH]; cbn [settled app]; intros Hs Hf.
  { split; [constructor|done]. }
  destruct Hs as [Hx Hs]. split.
  - intros a found Ex. apply Forall_app. split; [by eapply Hx|]. constructor; [|done].
    eapply Hf. cbn. rewrite Ex. by left.
  - apply IH; [done|]. intros a found Hin. eapply Hf. cbn.
    destruct (answer_identity x); [by right|done].
Qed.

(** Addresses identified in a settled log are distinct. *)
Lemma settled_NoDup log : settled log -> NoDup (omap answer_identity log).*1.
Proof.
  induction log as [|x log IH]; cbn; intros Hs; [constructor|]. destruct Hs as [Hx Hs].
  destruct (answer_identity x) as [[a found]|]; [|by apply IH]. cbn. constructor; [|by apply IH].
  specialize (Hx a found eq_refl). rewrite Forall_forall in Hx.
  intros ([b f] & -> & Hin)%list_elem_of_fmap. apply list_elem_of_omap in Hin as (y & Hy & Ey).
  apply (Hx y Hy). unfold answer_identity in Ey. repeat case_match; by simplify_eq.
Qed.

Section Scan.
Context {W : Type} `{Service W}.
Context (profile : LineProfile) (master : Master) (options : DiscoveryOptions)
        (address_timings : option AddressTimings) (base : list Answered).

(** The preambles of a hint that is used. *)
Definition useful_hint (a : Address) : option Z :=
  match do_preamble_hints options !! a with
  | Some n => if n <? lp_discovery_preambles profile then Some n else None
  | None => None
  end.

(** A request of the scan. *)
Definition probe_ok (c : Call) : Prop :=
  exists node preambles timeout allow,
    c = (Request_with_preambles (Request_new (Polling node master) (CommandCode_new 0) []) preambles,
         call_prefix c, do_queue options, discovery_retry (do_retry options) timeout allow)
    /\ node ∈ line_addresses (lp_modules profile)
    /\ ((preambles = lp_discovery_preambles profile /\ allow = true)
        \/ (useful_hint (Polling node master) = Some preambles /\ allow = false)).

(** The wake prefix goes out with the first request and only with it. *)
Definition wake_ok (log : list Answered) (wake : option bytes) : Prop :=
  match log with
  | [] => wake = Some (lp_wake_prefix profile)
  | e :: log =>
      wake = None /\ call_prefix e.1 = lp_wake_prefix profile
      /\ Forall (fun e' => call_prefix e'.1 = []) log
  end.

Definition device_ok (d : DiscoveredDevice) : Prop :=
  exists m node, m ∈ lp_modules profile /\ mw_module m = dd_module d
    /\ node ∈ module_addresses m /\ dd_address d = Polling node master.

(** The state of the scan after the requests [log]. *)
Record scan_ok (s : Scan (W := Watched W)) (log : list Answered) : Prop := {
  so_log : wd_log (sc_link s) = rev log ++ base;
  so_attempts : dr_attempts (sc_report s) = zlen log;
  so_devices : (fun d => (dd_address d, dd_identity d)) <$> dr_devices (sc_report s)
               = omap answer_identity log;
  so_errors : dr_errors (sc_report s) = omap answer_error log;
  so_probes : Forall (fun e => probe_ok e.1) log;
  so_wake : wake_ok log (sc_wake s);
  so_owned : Forall device_ok (dr_devices (sc_report s));
  so_settled : settled log;
  so_hints : 0 <= dr_hint_fallbacks (sc_report s) <= dr_hinted_attempts (sc_report s)
             /\ dr_hinted_attempts (sc_report s) <= dr_attempts (sc_report s);
}.

Lemma wake_ok_snoc log wake e :
  wake_ok log wake -> call_prefix e.1 = default [] wake -> wake_ok (log ++ [e]) None.
Proof.
  unfold wake_ok. destruct log as [|x log]; cbn [app].
  - intros -> ->. split_and!; [done|done|constructor].
  - intros (-> & ? & ?) E. split_and!; [done|done|]. apply Forall_app. split; [done|].
    by constructor.
Qed.

Lemma scan_sleep_ok s d log : scan_ok s log -> scan_ok (scan_sleep s d) log.
Proof. intros []. by constructor. Qed.

Lemma set_passes_ok s n log :
  scan_ok s log -> scan_ok (with_report s (set_passes (sc_report s) n)) log.
Proof. intros []. by constructor. Qed.

Lemma identified_address s log a :
  scan_ok s log ->
  a ∈ (omap answer_identity log).*1 <->
  existsb (fun d => bool_decide (dd_address d = a)) (dr_devices (sc_report s)) = true.
Proof.
  intros Hs. rewrite <- (so_devices _ _ Hs), existsb_exists, <- list_fmap_compose, list_elem_of_fmap.
  setoid_rewrite bool_decide_eq_true. setoid_rewrite <- list_elem_of_In. cbn.
  split; intros (d & H1 & H2); exists d; by split.
Qed.

(** One request and what the report takes from its answer. *)
Lemma probe_step s log m node preambles timeout allow answer w r :
  let a := Polling node master in
  let c := (Request_with_preambles (Request_new a (CommandCode_new 0) []) preambles,
            default [] (sc_wake s), do_queue options,
            discovery_retry (do_retry options) timeout allow) in
  m ∈ lp_modules profile -> node ∈ module_addresses m ->
  ((preambles = lp_discovery_preambles profile /\ allow = true)
   \/ (useful_hint a = Some preambles /\ allow = false)) ->
  scan_ok s log -> ~ a ∈ (omap answer_identity log).*1 ->
  wd_log w = (c, answer) :: wd_log (sc_link s) ->
  dr_attempts r = dr_attempts (sc_report s) + 1 ->
  dr_devices r = dr_devices (sc_report s)
    ++ match answer_identity (c, answer) with
       | Some (_, found) => [mkDiscovered (mw_module m) a found] | None => [] end ->
  dr_errors r = dr_errors (sc_report s) ++ option_list (answer_error (c, answer)) ->
  0 <= dr_hint_fallbacks r <= dr_hinted_attempts r -> dr_hinted_attempts r <= dr_attempts r ->
  scan_ok (mkScan r None w) (log ++ [(c, answer)]).
Proof.
  intros a c Hm Hn Hp Hs Hfresh Hw Hra Hrd Hre Hrh Hrh'.
  destruct Hs as [H1 H2 H3 H4 H5 H6 H7 H8 H9].
  assert (Hid : answer_identity (c, answer)
                = match answer_identity (c, answer) with
                  | Some (_, found) => Some (a, found) | None => None end).
  { unfold answer_identity. cbn [fst snd]. destruct answer as [reply|]; [|done].
    by destruct (op_decode_reply mkReadDeviceIdentity reply). }
  constructor; cbn [sc_report sc_wake sc_link].
  - by rewrite Hw, H1, rev_app_distr.
  - rewrite Hra, H2, zlen_app. done.
  - rewrite Hrd, fmap_app, H3, omap_app. f_equal. cbn [omap list_omap]. rewrite Hid.
    by destruct (answer_identity (c, answer)) as [[]|].
  - rewrite Hre, H4, omap_app. cbn [omap list_omap]. by destruct (answer_error (c, answer)).
  - apply Forall_app. split; [done|]. constructor; [|done]. exists node, preambles, timeout, allow.
    split; [done|]. split; [|done]. apply list_elem_of_bind. by exists m.
  - by eapply wake_ok_snoc.
  - rewrite Hrd. apply Forall_app. split; [done|].
    destruct (answer_identity (c, answer)) as [[]|]; constructor; [|done]. by exists m, node.
  - apply settled_snoc; [done|]. cbn [fst]. intros b found Hin <-. apply Hfresh.
    apply list_elem_of_fmap. by exists (a, found).
  - done.
Qed.

Definition pair_ok (hinted : option Z) (probe : Z * Z) : Prop :=
  (probe.1 = 0 /\ hinted = Some probe.2)
  \/ (probe.2 = lp_discovery_preambles profile /\ (probe.1 <> 0 \/ hinted = None)).

(** What the probes of an address add to the log. *)
Definition probed (a : Address) (hinted : option Z) (probes : list (Z * Z)) (log : list Answered)
    (s' : Scan) : Prop :=
  exists new, scan_ok s' (log ++ new)
    /\ Forall (fun e : Answered => call_address e.1 = a) new
    /\ zlen new <= match hinted with Some _ => zlen probes | None => 1 end
    /\ (match probes with (0, _) :: _ => new <> [] | _ => True end).

Lemma probed_none a hinted probes log s' :
  scan_ok s' log -> (match probes with (0, _) :: _ => False | _ => True end) -> probed a hinted probes log s'.
Proof.
  intros Hs Hp. exists []. rewrite app_nil_r. split_and!; [done|constructor| |].
  - unfold zlen. destruct hinted; cbn; lia.
  - by destruct probes as [|[[] ?] ?].
Qed.

Lemma probed_one a hinted probe preambles probes log s' c answer :
  scan_ok s' (log ++ [(c, answer)]) -> call_address c = a ->
  probed a hinted ((probe, preambles) :: probes) log s'.
Proof.
  intros Hs Hc. exists [(c, answer)]. split_and!; [done|by repeat constructor| |by destruct probe].
  unfold zlen. destruct hinted; cbn; lia.
Qed.

Lemma probed_more a hint probe preambles probes log s' c answer :
  probed a (Some hint) probes (log ++ [(c, answer)]) s' -> call_address c = a ->
  probed a (Some hint) ((probe, preambles) :: probes) log s'.
Proof.
  intros (new & H1 & H2 & H3 & _) Hc. exists ((c, answer) :: new). rewrite cons_middle, app_assoc.
  split_and!; [done|by constructor| |by destruct probe]. unfold zlen in *. cbn [length]. lia.
Qed.

(** The preambles of a probe, and whether it is retried. *)
Lemma probe_choice a hinted probe preambles :
  pair_ok hinted (probe, preambles) -> hinted = None \/ hinted = useful_hint a ->
  let allow := negb (probe =? 0) || negb (match hinted with Some _ => true | None => false end) in
  (preambles = lp_discovery_preambles profile /\ allow = true)
  \/ (useful_hint a = Some preambles /\ allow = false).
Proof.
  intros Hpair Hh allow. unfold allow. destruct Hpair as [[E1 E2]|[E1 [E2|E2]]]; cbn in E1, E2.
  - right. rewrite E1, E2. destruct Hh as [Hh|Hh]; [by rewrite Hh in E2|]. by rewrite <- Hh.
  - left. by rewrite (proj2 (Z.eqb_neq probe 0) E2).
  - left. rewrite E2. by rewrite orb_true_r.
Qed.

Lemma probe_address_ok m node timing hinted probes s log :
  let a := Polling node master in
  m ∈ lp_modules profile -> node ∈ module_addresses m ->
  (hinted = None \/ hinted = useful_hint a) ->
  Forall (pair_ok hinted) probes ->
  scan_ok s log -> ~ a ∈ (omap answer_identity log).*1 ->
  probed a hinted probes log (probe_address profile options (mw_module m) a timing hinted probes s).
Proof.
  intros a Hm Hn Hh Hp. revert s log. induction Hp as [|[probe preambles] probes Hpair Hp IH];
    intros s log Hs Hfresh; cbn [probe_address]; [by apply probed_none|].
  set (is_hinted := match hinted with Some _ => true | None => false end).
  destruct ((probe =? 1) && negb is_hinted) eqn:Estop.
  { apply andb_true_iff in Estop as [->%Z.eqb_eq _]. by apply probed_none. }
  clear Estop. cbn [with_report sc_report sc_wake sc_link].
  set (timeout := discovery_response_timeout _ _ _ _).
  set (allow := negb (probe =? 0) || negb is_hinted).
  destruct (sv_request_with_prefix (sc_link s) _ _ _ _) as [answer w] eqn:Er.
  apply watched_request_log in Er as [Ew _].
  pose proof (fun r => probe_step s log m node preambles timeout allow answer w r Hm Hn
                         (probe_choice a hinted probe preambles Hpair Hh) Hs Hfresh Ew) as Hstep.
  fold a in Hstep. clear Ew.
  set (c := (Request_with_preambles (Request_new a (CommandCode_new 0) []) preambles,
             default [] (sc_wake s), do_queue options,
             discovery_retry (do_retry options) timeout allow)) in *.
  pose proof (so_hints _ _ Hs) as Hhints.
  destruct answer as [reply|error].
  { destruct (op_decode_reply mkReadDeviceIdentity reply) as [found|error] eqn:Ed;
      apply (probed_one a hinted probe preambles probes log _ c (Ok reply)); try done; apply Hstep;
      unfold answer_identity, answer_error; cbn [fst snd]; rewrite ?Ed; cbn -[Z.add];
      rewrite ?app_nil_r; try done; destruct ((probe =? 0) && is_hinted); lia. }
  assert (Hmiss : answer_error (c, Err error) = None ->
    probed a hinted ((probe, preambles) :: probes) log
      (let s' := mkScan (count_attempt (sc_report s) ((probe =? 0) && is_hinted)) None w in
       if is_hinted && (probe =? 0)
       then probe_address profile options (mw_module m) a timing hinted probes
              (with_report s' (count_fallback (sc_report s')))
       else s')).
  { intros Hnone. cbn zeta. destruct (is_hinted && (probe =? 0)) eqn:Efall.
    - unfold is_hinted in Efall. destruct hinted as [hint|]; [|done].
      apply (probed_more _ _ _ _ _ _ _ c (Err error)); [|done]. apply IH.
      + apply Hstep; rewrite ?Hnone; cbn -[Z.add]; rewrite ?app_nil_r; try done;
          rewrite andb_comm in Efall; unfold is_hinted; rewrite Efall; lia.
      + rewrite omap_app. cbn. by rewrite app_nil_r.
    - apply (probed_one _ _ _ _ _ _ _ c (Err error)); [|done].
      apply Hstep; rewrite ?Hnone; cbn -[Z.add]; rewrite ?app_nil_r; try done;
        destruct ((probe =? 0) && is_hinted); lia. }
  destruct error; try (by apply Hmiss);
    (eapply probed_one; [apply Hstep|done]; cbn -[Z.add]; rewrite ?app_nil_r; try done;
     destruct ((probe =? 0) && is_hinted); lia).
Qed.

(** *** Rounds: how often an address may have been asked *)

Definition hint_extra (a : Address) : Z := if useful_hint a is Some _ then 1 else 0.

Definition rounds (pass : Z) (visited : gset Address) (a : Address) : Z :=
  pass + (if bool_decide (a ∈ visited) then 1 else 0).

Definition budget (pass : Z) (visited : gset Address) (log : list Answered) : Prop :=
  forall a,
    calls_to a log <= (if rounds pass visited a =? 0 then 0 else rounds pass visited a + hint_extra a)
    /\ (a ∈ visited -> 1 <= calls_to a log).

Lemma hint_extra_nonneg a : 0 <= hint_extra a.
Proof. unfold hint_extra. case_match; lia. Qed.

Lemma calls_to_nonneg a log : 0 <= calls_to a log.
Proof. apply zlen_nonneg. Qed.

Lemma identified_called a log : a ∈ (omap answer_identity log).*1 -> 1 <= calls_to a log.
Proof.
  intros ([b found] & -> & (e & He & Ee)%list_elem_of_omap)%list_elem_of_fmap. cbn.
  assert (call_address e.1 = b).
  { unfold answer_identity in Ee. repeat case_match; by simplify_eq. }
  apply list_elem_of_split in He as (l1 & l2 & ->).
  rewrite calls_to_app. unfold calls_to at 2. rewrite filter_cons_True by done.
  unfold zlen. cbn [length]. pose proof (calls_to_nonneg b l1). lia.
Qed.

(** Asking nobody, or only an address that has been found, visits it. *)
Lemma budget_visit pass visited log a :
  0 <= pass -> budget pass visited log -> (a ∈ visited \/ 1 <= calls_to a log) ->
  budget pass ({[a]} ∪ visited) log.
Proof.
  intros Hp Hb Ha b. destruct (Hb b) as [H1 H2]. pose proof (hint_extra_nonneg b). split.
  - unfold rounds in *. destruct (decide (b ∈ visited)) as [Hv|Hv].
    + by rewrite bool_decide_true in H1 |- * by set_solver.
    + rewrite bool_decide_false in H1 by done. destruct (decide (b = a)) as [->|Hne].
      * rewrite bool_decide_true by set_solver.
        destruct (Z.eqb_spec (pass + 0) 0), (Z.eqb_spec (pass + 1) 0); lia.
      * by rewrite bool_decide_false by set_solver.
  - intros [->%elem_of_singleton|Hv]%elem_of_union; [|auto]. destruct Ha; auto.
Qed.

Lemma budget_probe pass visited log new a :
  0 <= pass -> budget pass visited log -> ~ a ∈ visited -> new <> [] ->
  Forall (fun e : Answered => call_address e.1 = a) new ->
  (zlen new <= 1 \/ (pass = 0 /\ zlen new <= 1 + hint_extra a)) ->
  budget pass ({[a]} ∪ visited) (log ++ new).
Proof.
  intros Hp Hb Ha Hne Hnew Hlen b. destruct (Hb b) as [H1 H2]. pose proof (hint_extra_nonneg b).
  rewrite calls_to_app. unfold rounds in *. destruct (decide (b = a)) as [->|Hba].
  - rewrite (calls_to_all a new Hnew). rewrite bool_decide_false in H1 by done.
    rewrite bool_decide_true by set_solver.
    assert (1 <= zlen new) by (destruct new; [done|unfold zlen; cbn [length]; lia]).
    pose proof (calls_to_nonneg a log).
    split; [|lia]. destruct (Z.eqb_spec (pass + 0) 0), (Z.eqb_spec (pass + 1) 0); lia.
  - rewrite (calls_to_none a b new) by done. rewrite Z.add_0_r.
    rewrite (bool_decide_ext (b ∈ {[a]} ∪ visited) (b ∈ visited)) by set_solver.
    split; [done|]. intros Hv. apply H2. set_solver.
Qed.

Lemma wait_ok s node log : scan_ok s log -> scan_ok (wait_for_address_timing address_timings s node).2 log.
Proof. intros Hs. cbn. case_match; [done|by apply scan_sleep_ok]. Qed.

Lemma scan_module_ok pass m locals visited previous s log :
  0 <= pass -> m ∈ lp_modules profile ->
  scan_ok s log -> budget pass visited log ->
  let '(visited', _, s') :=
    scan_module profile master options address_timings pass m locals visited previous s in
  visited' = list_to_set ((fun n => Polling n master) <$> omap (shifted_address m) locals) ∪ visited
  /\ exists log', scan_ok s' log' /\ budget pass visited' log'.
Proof.
  intros Hpass Hm. revert visited previous s log.
  induction locals as [|local locals IH]; intros visited previous s log Hs Hb; cbn [scan_module].
  { split; [set_solver|by exists log]. }
  cbn [omap list_omap]. destruct (shifted_address m local) as [node|] eqn:En; [|by eapply IH].
  pose proof (proj1 (shifted_address_spec m local node) En) as (Hl & Hnode & Hr).
  assert (Hin : node ∈ module_addresses m).
  { apply elem_of_module_addresses. by exists local. }
  unfold Address_polling. rewrite (proj2 (Z.ltb_ge 63 node)) by lia.
  set (a := Polling node master). change (omap (shifted_address m) locals) with
    (list_omap _ _ (shifted_address m) locals).
  assert (Hset : forall visited' X : gset Address, visited' = X ∪ ({[a]} ∪ visited) ->
            visited' = ({[a]} ∪ X) ∪ visited) by set_solver.
  cbn [fmap list_fmap list_to_set].
  destruct (bool_decide_reflect (a ∈ visited)) as [Hv|Hv]; cbn [orb].
  { specialize (IH ({[a]} ∪ visited) previous s log Hs (budget_visit _ _ _ _ Hpass Hb (or_introl Hv))).
    destruct (scan_module _ _ _ _ _ _ _ _ _ _) as [[visited' previous'] s'].
    destruct IH as [E IH]. split; [by apply Hset|done]. }
  destruct (existsb _ (dr_devices (sc_report s))) eqn:Ef.
  { apply (identified_address s log a Hs), identified_called in Ef.
    specialize (IH ({[a]} ∪ visited) previous s log Hs (budget_visit _ _ _ _ Hpass Hb (or_intror Ef))).
    destruct (scan_module _ _ _ _ _ _ _ _ _ _) as [[visited' previous'] s'].
    destruct IH as [E IH]. split; [by apply Hset|done]. }
  set (s1 := if previous && _ then _ else s).
  assert (Hs1 : scan_ok s1 log /\ dr_devices (sc_report s1) = dr_devices (sc_report s)).
  { unfold s1. case_match; [split; [by apply scan_sleep_ok|done]|done]. }
  destruct Hs1 as [Hs1 _]. pose proof (wait_ok s1 node log Hs1) as Hs2.
  destruct (wait_for_address_timing address_timings s1 node) as [timing s2]. cbn [snd] in Hs2.
  set (hinted := match (if pass =? 0 then _ else None) with Some _ => _ | None => None end).
  assert (Hh : hinted = None \/ (pass = 0 /\ hinted = useful_hint a)).
  { unfold hinted, useful_hint, DiscoveryHints_get. destruct (Z.eqb_spec pass 0); [by right|by left]. }
  destruct (probe_address_ok m node timing hinted
              [(0, default (lp_discovery_preambles profile) hinted); (1, lp_discovery_preambles profile)]
              s2 log Hm Hin) as (new & H1 & H2 & H3 & H4).
  { tauto. }
  { apply Forall_cons. split; [|apply Forall_singleton]; unfold pair_ok; cbn.
    - destruct hinted; [by left|by right; split; [|right]].
    - by right; split; [|left]. }
  { done. }
  { intros Hid. by rewrite (proj1 (identified_address s log a Hs) Hid) in Ef. }
  fold a in H1, H2. specialize (IH ({[a]} ∪ visited) true _ _ H1).
  destruct (scan_module _ _ _ _ _ _ _ _ _ _) as [[visited' previous'] s'].
  assert (Hb' : budget pass ({[a]} ∪ visited) (log ++ new)); [|destruct (IH Hb') as [E IH']; split; [by apply Hset|done]].
  apply budget_probe; try done. destruct Hh as [Hh|[-> Hh]]; rewrite Hh in H3; [by left|].
  unfold hint_extra. destruct (useful_hint a); [right|left]; unfold zlen in *; cbn in *; lia.
Qed.

(** *** Passes *)

Definition line_set : gset Address :=
  list_to_set ((fun n => Polling n master) <$> line_addresses (lp_modules profile)).

Lemma scan_modules_ok pass modules visited previous s log :
  0 <= pass -> (forall m, m ∈ modules -> m ∈ lp_modules profile) ->
  scan_ok s log -> budget pass visited log ->
  let '(visited', _, s') :=
    scan_modules profile master options address_timings pass modules visited previous s in
  visited' = list_to_set ((fun n => Polling n master) <$> line_addresses modules) ∪ visited
  /\ exists log', scan_ok s' log' /\ budget pass visited' log'.
Proof.
  intros Hpass. revert visited previous s log.
  induction modules as [|m modules IH]; intros visited previous s log Hm Hs Hb; cbn [scan_modules].
  { split; [set_solver|by exists log]. }
  pose proof (scan_module_ok pass m (PollingWindow_iter (mw_polling m)) visited previous s log Hpass
                (Hm m ltac:(by left)) Hs Hb) as Hone.
  destruct (scan_module _ _ _ _ _ _ _ _ _ _) as [[v1 p1] s1].
  destruct Hone as (E1 & log1 & Hs1 & Hb1).
  specialize (IH v1 p1 s1 log1 ltac:(set_solver) Hs1 Hb1).
  destruct (scan_modules _ _ _ _ _ _ _ _ _) as [[v2 p2] s2]. destruct IH as (E2 & IH).
  split; [|done]. rewrite E2, E1. unfold line_addresses. cbn [mbind list_bind].
  rewrite fmap_app, list_to_set_app_L. fold (module_addresses m). set_solver.
Qed.

Lemma probes_in_line log :
  Forall (fun e => probe_ok e.1) log -> forall a, 1 <= calls_to a log -> a ∈ line_set.
Proof.
  intros Hp a (e & He & Ea)%calls_to_pos. rewrite Forall_forall in Hp.
  destruct (Hp e He) as (node & preambles & timeout & allow & Ec & Hn & _).
  unfold line_set. apply elem_of_list_to_set, list_elem_of_fmap. exists node. split; [|done].
  rewrite <- Ea. unfold call_address, call_request. by rewrite Ec.
Qed.

(** When there are as many devices as addresses, every address has been identified. *)
Lemma all_identified s log a :
  scan_ok s log ->
  Z.of_nat (size line_set) <= zlen (dr_devices (sc_report s)) ->
  a ∈ line_set -> a ∈ (omap answer_identity log).*1.
Proof.
  intros Hs Hsize Ha. set (found := (omap answer_identity log).*1).
  assert (Hsub : (list_to_set found : gset Address) ⊆ line_set).
  { intros b Hb%elem_of_list_to_set. eapply probes_in_line; [apply Hs|]. by apply identified_called. }
  assert (Heq : (list_to_set found : gset Address) = line_set).
  { apply set_subseteq_size_eq; [done|]. rewrite size_list_to_set by (by apply settled_NoDup, Hs).
    unfold found. rewrite length_fmap, <- (so_devices _ _ Hs), length_fmap.
    unfold zlen in Hsize. lia. }
  rewrite <- Heq in Ha. by apply elem_of_list_to_set in Ha.
Qed.

Lemma scan_passes_ok remaining pass s log :
  0 <= pass -> pass + Z.of_nat remaining = do_passes options -> do_passes options <= 255 ->
  scan_ok s log -> budget pass ∅ log -> dr_passes_completed (sc_report s) = pass ->
  (pass <> 0 -> forall a, a ∈ line_set -> 1 <= calls_to a log) ->
  let s' := scan_passes profile master options address_timings pass remaining s in
  let completed := dr_passes_completed (sc_report s') in
  exists log', scan_ok s' log'
    /\ (forall a, calls_to a log' <= completed + hint_extra a)
    /\ (completed <> 0 -> forall a, a ∈ line_set -> 1 <= calls_to a log')
    /\ (remaining <> O -> pass < completed) /\ completed <= do_passes options
    /\ (completed < do_passes options ->
        forall a, a ∈ line_set -> a ∈ (omap answer_identity log').*1).
Proof.
  revert pass s log. induction remaining as [|remaining IH];
    intros pass s log Hpass Hsum Hmax Hs Hb Hc Hcov; cbn [scan_passes].
  { exists log. rewrite Hc. split_and!; try done; try lia. intros a. destruct (Hb a) as [H1 _].
    unfold rounds in H1. rewrite bool_decide_false in H1 by set_solver.
    pose proof (hint_extra_nonneg a). destruct (Z.eqb_spec (pass + 0) 0); lia. }
  pose proof (scan_modules_ok pass (lp_modules profile) ∅ false s log Hpass ltac:(done) Hs Hb) as Hmods.
  destruct (scan_modules _ _ _ _ _ _ _ _ _) as [[visited previous] s1].
  destruct Hmods as (Ev & log1 & Hs1 & Hb1). rewrite (union_empty_r_L) in Ev. fold line_set in Ev.
  subst visited.
  assert (Hnext : saturating_add u8_max pass 1 = pass + 1) by (unfold saturating_add, u8_max; lia).
  rewrite Hnext.
  assert (Hup : forall a, calls_to a log1 <= pass + 1 + hint_extra a).
  { intros a. destruct (Hb1 a) as [H1 _]. unfold rounds in H1. pose proof (hint_extra_nonneg a).
    destruct (bool_decide (a ∈ line_set)), (_ =? 0) in H1; lia. }
  pose proof (set_passes_ok s1 (pass + 1) log1 Hs1) as Hs2.
  set (s2 := with_report s1 (set_passes (sc_report s1) (pass + 1))) in *.
  destruct (Z.leb_spec (Z.of_nat (size line_set)) (zlen (dr_devices (sc_report s2)))) as [Hfull|Hfull].
  - exists log1. cbn [s2 with_report sc_report set_passes dr_passes_completed].
    split_and!; [done|done|intros _ a Ha; by apply Hb1|lia|lia|].
    intros _ a Ha. by eapply all_identified.
  - set (s3 := if (pass + 1 <? do_passes options) && negb (do_pass_delay options =? 0)
               then scan_sleep s2 (do_pass_delay options) else s2).
    assert (Hs3 : scan_ok s3 log1 /\ dr_passes_completed (sc_report s3) = pass + 1).
    { unfold s3. case_match; (split; [|done]); [by apply scan_sleep_ok|done]. }
    destruct Hs3 as [Hs3 Hc3].
    assert (Hb3 : budget (pass + 1) ∅ log1).
    { intros a. split; [|set_solver]. unfold rounds. rewrite bool_decide_false by set_solver.
      specialize (Hup a). destruct (Z.eqb_spec (pass + 1 + 0) 0); lia. }
    destruct (IH (pass + 1) s3 log1 ltac:(lia) ltac:(lia) Hmax Hs3 Hb3 Hc3) as
      (log' & H1 & H2 & H3 & H4 & H5 & H6).
    { intros _ a Ha. by apply Hb1. }
    exists log'. split_and!; try done. intros _.
    destruct remaining; [|specialize (H4 ltac:(done)); lia].
    cbn [scan_passes]. rewrite Hc3. lia.
Qed.
End Scan.

(** A report that is explained by the requests made and their answers: the devices in the
    order found and the errors other than a missing response, one attempt per request, and
    what was asked. *)
Record explained (profile : LineProfile) (master : Master) (options : DiscoveryOptions)
    (log : list Answered) (report : DiscoveryReport) : Prop := {
  ex_devices : (fun d => (dd_address d, dd_identity d)) <$> dr_devices report
               = omap answer_identity log;
  ex_errors : dr_errors report = omap answer_error log;
  ex_attempts : dr_attempts report = zlen log;
  ex_hints : 0 <= dr_hint_fallbacks report <= dr_hinted_attempts report;
  ex_probes : Forall (fun e => probe_ok profile master options e.1) log;
  ex_wake : forall e rest, log = e :: rest ->
    call_prefix e.1 = lp_wake_prefix profile /\ Forall (fun e' => call_prefix e'.1 = []) rest;
  ex_settled : settled log;
  ex_distinct : NoDup (dd_address <$> dr_devices report);
  ex_owned : Forall (device_ok profile master) (dr_devices report);
  ex_covered : forall node, node ∈ line_addresses (lp_modules profile) ->
    1 <= calls_to (Polling node master) log
      <= dr_passes_completed report + hint_extra profile options (Polling node master);
  ex_passes : 1 <= dr_passes_completed report <= do_passes options;
  ex_complete : dr_passes_completed report < do_passes options ->
    forall node, node ∈ line_addresses (lp_modules profile) ->
      Polling node master ∈ dd_address <$> dr_devices report;
}.

Lemma discovery_explained {W} `{Service W} (profile : LineProfile) (master : Master)
    (options : DiscoveryOptions) (timings : option AddressTimings) (w w' : Watched W)
    (report : DiscoveryReport) :
  1 <= do_passes options <= 255 ->
  discover_validated profile master options timings w = (report, w') ->
  exists log, wd_log w' = rev log ++ wd_log w /\ explained profile master options log report.
Proof.
  intros Hp. unfold discover_validated.
  set (w0 := if tp_connect_settle (lp_timing profile) =? 0 then w else _).
  set (s0 := mkScan DiscoveryReport_default (Some (lp_wake_prefix profile)) w0).
  assert (Hs0 : scan_ok profile master options (wd_log w) s0 []).
  { constructor; cbn; try done; try constructor. unfold w0. by case_match. }
  intros [= <- <-].
  destruct (scan_passes_ok profile master options timings (wd_log w)
              (Z.to_nat (do_passes options)) 0 s0 []) as (log & Hs & H1 & H2 & H3 & H4 & H5);
    try done; try lia.
  set (s := scan_passes _ _ _ _ _ _ _) in *.
  assert (Hdev : dd_address <$> dr_devices (sc_report s) = (omap answer_identity log).*1).
  { by rewrite <- (so_devices _ _ _ _ _ _ Hs), <- list_fmap_compose. }
  assert (Hline : forall node, node ∈ line_addresses (lp_modules profile) ->
                    Polling node master ∈ line_set profile master).
  { intros node Hn. apply elem_of_list_to_set, list_elem_of_fmap. by exists node. }
  specialize (H3 ltac:(lia)). exists log. split; [apply Hs|]. split; try (by apply Hs); try lia.
  - intros e rest ->. by destruct (so_wake _ _ _ _ _ _ Hs).
  - rewrite Hdev. by apply settled_NoDup, Hs.
  - intros node Hn. split; [apply H2; [lia|auto]|apply H1].
  - intros Hlt node Hn. rewrite Hdev. auto.
Qed.

(** A scan of a line, over every link: the report is exactly what the answers say, the
    devices in the order found, the errors other than a missing response, one attempt per
    request; every request is Command 0 for an address of the profile, with the conservative
    preambles or a hinted smaller count and then without transport retries, and the wake
    prefix goes out with the first request only; an address that has been identified is not
    asked again, so no device is listed twice, and it is listed under a module that reaches
    it; every address of the line is asked, at most once per pass and once more for its hint;
    passes end early only when every address has been identified. *)
Theorem discovery_report_exact {W} `{Service W} (profile : LineProfile) (master : Master)
    (options : DiscoveryOptions) (timings : option AddressTimings) (w w' : Watched W)
    (report : DiscoveryReport) :
  1 <= do_passes options <= 255 ->
  discover_validated profile master options timings w = (report, w') ->
  exists log, wd_log w' = rev log ++ wd_log w
    /\ (fun d => (dd_address d, dd_identity d)) <$> dr_devices report = omap answer_identity log
    /\ dr_errors report = omap answer_error log
    /\ dr_attempts report = zlen log
    /\ 0 <= dr_hint_fallbacks report <= dr_hinted_attempts report
    /\ Forall (fun e => probe_ok profile master options e.1) log
    /\ (forall e rest, log = e :: rest ->
          call_prefix e.1 = lp_wake_prefix profile /\ Forall (fun e' => call_prefix e'.1 = []) rest)
    /\ settled log /\ NoDup (dd_address <$> dr_devices report)
    /\ Forall (device_ok profile master) (dr_devices report)
    /\ (forall node, node ∈ line_addresses (lp_modules profile) ->
          1 <= calls_to (Polling node master) log
            <= dr_passes_completed report + hint_extra profile options (Polling node master))
    /\ 1 <= dr_passes_completed report <= do_passes options
    /\ (dr_passes_completed report < do_passes options ->
        forall node, node ∈ line_addresses (lp_modules profile) ->
          Polling node master ∈ dd_address <$> dr_devices report).
Proof.
  intros Hp Hd. destruct (discovery_explained _ _ _ _ _ _ _ Hp Hd) as (log & Hl & []).
  exists log. split_and!; (done || lia).
Qed.

(** A line of three addresses with a device at the second, which is found in the first pass. *)
Definition demo_profile : LineProfile := LineProfile_single_segment [76] (mkWindow 0 2).

Definition demo_options : DiscoveryOptions :=
  DiscoveryOptions_with_preamble_hints (DiscoveryOptions_with_passes DiscoveryOptions_default 2)
    (<[Polling 1 Primary := 5]> ∅).

Definition demo_reply : DeviceReply :=
  mkReply (Polling 1 Primary) (CommandCode_new 0) 0 0 [254; 1; 2; 5; 5; 1; 1; 8; 0; 0; 0; 3]
    false Fsk 5 [].

Definition demo_line : Watched ScriptLink :=
  mkWatched (mkScriptLink 0 [Err ExResponseTimeout; Err ExResponseTimeout; Ok demo_reply] [] []) [] [].

Definition demo_scan := discover_validated demo_profile Primary demo_options None demo_line.

Lemma discovery_report_exact_witness :
  dd_address <$> dr_devices demo_scan.1 = [Polling 1 Primary]
  /\ dr_attempts demo_scan.1 = 6 /\ dr_hint_fallbacks demo_scan.1 = 1
  /\ exists log, wd_log demo_scan.2 = rev log ++ [] /\ settled log.
Proof.
  split_and!; [vm_compute; reflexivity..|].
  destruct (discovery_report_exact demo_profile Primary demo_options None demo_line demo_scan.2
              demo_scan.1 ltac:(vm_compute; split; discriminate) ltac:(vm_compute; reflexivity))
    as (log & Hlog & _ & _ & _ & _ & _ & _ & Hs & _).
  exists log. split; [exact Hlog|exact Hs].
Defined.
