(* ===== verification/DiscoveryLink.v ===== *)
(** * Discovery over a link that keeps its contract

    The scan of a profile is proved against [LinkContract]: every request it makes is one the
    link admits, so that the link is good to its end and every answer in the report is one the
    link may give. *)
From stdpp Require Import gmap.
From S2P Require Import Prelude Wire Catalog Codec Operation Identity QueueSet Link Service Profile.
From S2P Require Import ProfileProps Discovery DiscoveryProps.

(** The response timeouts a scan uses. *)
Definition scan_timeout (profile : LineProfile) (timings : option AddressTimings) (timeout : Z) : Prop :=
  timeout = tp_first_response (lp_timing profile)
  \/ timeout = tp_steady_response (lp_timing profile)
  \/ exists t node timing, timings = Some t /\ AddressTimings_get t node = Some timing
       /\ at_response_timeout timing = Some timeout.

(** The requests a scan may make. *)
Definition scan_call (profile : LineProfile) (master : Master) (options : DiscoveryOptions)
    (timings : option AddressTimings) (c : Call) : Prop :=
  exists node preambles prefix timeout allow,
    c = (Request_with_preambles (Request_new (Polling node master) (CommandCode_new 0) []) preambles,
         prefix, do_queue options, discovery_retry (do_retry options) timeout allow)
    /\ 0 <= node <= 63
    /\ (preambles = lp_discovery_preambles profile
        \/ do_preamble_hints options !! Polling node master = Some preambles)
    /\ (prefix = [] \/ prefix = lp_wake_prefix profile)
    /\ scan_timeout profile timings timeout.

(** The waits of a scan, within what the link can sleep. *)
Record scan_waits (longest : Z) (profile : LineProfile) (options : DiscoveryOptions)
    (timings : option AddressTimings) : Prop := {
  sw_settle : 0 <= tp_connect_settle (lp_timing profile) <= longest;
  sw_interval : 0 <= tp_scan_interval (lp_timing profile) <= longest;
  sw_pass : 0 <= do_pass_delay options <= longest;
  sw_probe : forall t node timing, timings = Some t -> AddressTimings_get t node = Some timing ->
    0 <= at_delay_before_probe timing <= longest;
}.

(** Steps of a scan, four for each local address: two waits and two probes. *)
Definition module_steps (m : ModuleWindow) : Z := 4 * zlen (PollingWindow_iter (mw_polling m)).
Definition pass_steps (modules : list ModuleWindow) : Z :=
  foldr (fun m n => module_steps m + n) 1 modules.
Definition scan_steps (profile : LineProfile) (options : DiscoveryOptions) : Z :=
  1 + do_passes options * pass_steps (lp_modules profile).

Lemma module_steps_nonneg m : 0 <= module_steps m.
Proof. unfold module_steps. pose proof (zlen_nonneg (PollingWindow_iter (mw_polling m))). lia. Qed.

Lemma pass_steps_pos modules : 1 <= pass_steps modules.
Proof.
  induction modules as [|m l IH]; cbn; [lia|]. pose proof (module_steps_nonneg m).
  unfold pass_steps in IH. lia.
Qed.

Section Contract.
Context {W : Type} {steps longest : Z} {inv : Z -> W -> Prop} {admits : Call -> Prop}.
Context {says : Call -> result ExchangeError DeviceReply -> Prop}.
Context `{LinkContract W steps longest inv admits says}.
Context (profile : LineProfile) (master : Master) (options : DiscoveryOptions)
        (timings : option AddressTimings).
Context (Hcalls : forall c, scan_call profile master options timings c -> admits c).
Context (Hwaits : scan_waits longest profile options timings).

(** The prefix not yet sent is the wake prefix. *)
Definition scanning (n : Z) (s : Scan (W := W)) : Prop :=
  inv n (sc_link s) /\ (sc_wake s = None \/ sc_wake s = Some (lp_wake_prefix profile)).

Lemma scanning_later n m s : n <= m -> scanning n s -> scanning m s.
Proof. intros Hnm [Hi Hw]. split; [by eapply ct_later|done]. Qed.

Lemma scanning_report n s r : scanning n s -> scanning n (with_report s r).
Proof. done. Qed.

Lemma scanning_sleep n s d :
  n < steps -> 0 <= d <= longest -> scanning n s -> scanning (n + 1) (scan_sleep s d).
Proof. intros Hn Hd [Hi Hw]. split; [by apply ct_sleep|done]. Qed.

Lemma scanning_sleep_if n s d (b : bool) :
  n < steps -> 0 <= d <= longest -> scanning n s -> scanning (n + 1) (if b then scan_sleep s d else s).
Proof.
  intros Hn Hd Hs. destruct b; [by apply scanning_sleep|]. eapply scanning_later; [|exact Hs]. lia.
Qed.

Lemma response_timeout_used timing hinted none :
  (forall timeout, at_response_timeout timing = Some timeout -> scan_timeout profile timings timeout) ->
  scan_timeout profile timings (discovery_response_timeout profile timing hinted none).
Proof.
  intros Ht. unfold discovery_response_timeout. destruct (at_response_timeout timing) as [t|]; cbn.
  - by apply Ht.
  - destruct (hinted || negb none); [by right; left|by left].
Qed.

Lemma probe_contract module node timing hinted probes n s :
  0 <= node <= 63 ->
  (forall timeout, at_response_timeout timing = Some timeout -> scan_timeout profile timings timeout) ->
  Forall (fun p : Z * Z => p.2 = lp_discovery_preambles profile
            \/ do_preamble_hints options !! Polling node master = Some p.2) probes ->
  n + zlen probes <= steps -> scanning n s ->
  scanning (n + zlen probes)
    (probe_address profile options module (Polling node master) timing hinted probes s).
Proof.
  intros Hnode Ht Hp. revert n s.
  induction Hp as [|[probe preambles] probes Hp1 Hp IH]; intros n s Hn Hs; cbn [probe_address].
  { change (zlen []) with 0. by rewrite Z.add_0_r. }
  assert (El : zlen ((probe, preambles) :: probes) = 1 + zlen probes) by apply zlen_cons.
  rewrite El in *. pose proof (zlen_nonneg probes).
  set (is_hinted := match hinted with Some _ => true | None => false end).
  destruct ((probe =? 1) && negb is_hinted); [eapply scanning_later; [|exact Hs]; lia|].
  set (s1 := with_report s _). set (timeout := discovery_response_timeout _ _ _ _).
  set (retry := discovery_retry _ _ _). set (request := Request_with_preambles _ _).
  destruct Hs as [Hi Hw].
  destruct (ct_request n (sc_link s) (request, default [] (sc_wake s), do_queue options, retry))
    as (answer & w' & E & _ & Hi'); [lia|done| |].
  { apply Hcalls. exists node, preambles, (default [] (sc_wake s)), timeout, (negb (probe =? 0) || negb is_hinted).
    split_and!; try done; [lia..| |by apply response_timeout_used].
    destruct Hw as [-> | ->]; [by left|by right]. }
  unfold call_request, call_prefix, call_queue, call_policy in E. cbn [fst snd] in E.
  change (sc_wake s1) with (sc_wake s). change (sc_link s1) with (sc_link s). rewrite E.
  assert (Hs' : forall r, scanning (n + 1) (mkScan r None w')) by (intros r; split; [done|by left]).
  assert (Hend : forall r, scanning (n + (1 + zlen probes)) (mkScan r None w')).
  { intros r. eapply scanning_later; [|apply Hs']. lia. }
  destruct answer as [reply|e].
  - destruct (op_decode_reply mkReadDeviceIdentity reply); apply Hend.
  - destruct e; try apply Hend; destruct (is_hinted && (probe =? 0)); try apply Hend;
      rewrite Z.add_assoc; apply IH; (lia || apply Hs').
Qed.

Lemma wait_contract n s node :
  n < steps -> scanning n s ->
  let '(timing, s') := wait_for_address_timing timings s node in
  scanning (n + 1) s'
  /\ forall timeout, at_response_timeout timing = Some timeout -> scan_timeout profile timings timeout.
Proof.
  intros Hn Hs. unfold wait_for_address_timing.
  set (found := match timings with Some t => AddressTimings_get t node | None => None end).
  assert (Hfound : forall timing, found = Some timing ->
            exists t, timings = Some t /\ AddressTimings_get t node = Some timing).
  { intros timing. unfold found. destruct timings as [t|]; [eauto|done]. }
  destruct found as [timing|]; cbn [default from_option id].
  - destruct (Hfound timing eq_refl) as (t & Et & Eg). split.
    + destruct (_ =? 0); [eapply scanning_later; [|exact Hs]; lia|].
      apply scanning_sleep; [done|by eapply (sw_probe _ _ _ _ Hwaits)|done].
    + intros timeout Eo. right. right. by exists t, node, timing.
  - split; [eapply scanning_later; [|exact Hs]; lia|done].
Qed.

Lemma module_contract pass m locals visited previous n s :
  n + 4 * zlen locals <= steps -> scanning n s ->
  scanning (n + 4 * zlen locals)
    (scan_module profile master options timings pass m locals visited previous s).2.
Proof.
  revert visited previous n s.
  induction locals as [|local locals IH]; intros visited previous n s Hn Hs; cbn [scan_module].
  { change (zlen []) with 0. by rewrite Z.add_0_r. }
  assert (El : zlen (local :: locals) = 1 + zlen locals) by apply zlen_cons.
  rewrite El in *. pose proof (zlen_nonneg locals).
  assert (Hskip : forall v p, scanning (n + 4 * (1 + zlen locals))
            (scan_module profile master options timings pass m locals v p s).2).
  { intros v p. eapply scanning_later; [|apply (IH v p n s); [lia|done]]. lia. }
  destruct (shifted_address m local) as [node|] eqn:En; [|apply Hskip].
  apply shifted_address_spec in En as (_ & _ & Hr). unfold Address_polling.
  rewrite (proj2 (Z.ltb_ge 63 node)) by lia.
  destruct (bool_decide _ || existsb _ _); [apply Hskip|].
  set (s1 := if previous && _ then _ else s).
  assert (Hs1 : scanning (n + 1) s1).
  { unfold s1. apply scanning_sleep_if; [lia|apply Hwaits|done]. }
  pose proof (wait_contract (n + 1) s1 node ltac:(lia) Hs1) as Hwait.
  destruct (wait_for_address_timing timings s1 node) as [timing s2]. destruct Hwait as [Hs2 Ht].
  set (hinted := match (if pass =? 0 then _ else None) with Some _ => _ | None => None end).
  replace (n + 4 * (1 + zlen locals)) with ((n + 1 + 1 + 2) + 4 * zlen locals) by lia.
  apply IH; [lia|].
  eapply scanning_later; [|apply (probe_contract (mw_module m) node timing hinted _ (n + 1 + 1))];
    [done|done|done| |unfold zlen; cbn [length]; lia|done].
  constructor; [|by constructor; [left|]]. cbn [snd]. unfold hinted, DiscoveryHints_get.
  destruct (pass =? 0); [|by left]. destruct (do_preamble_hints options !! _) as [p|]; [|by left].
  destruct (p <? _); [by right|by left].
Qed.

Lemma modules_contract pass modules visited previous n s :
  n + (pass_steps modules - 1) <= steps -> scanning n s ->
  scanning (n + (pass_steps modules - 1))
    (scan_modules profile master options timings pass modules visited previous s).2.
Proof.
  revert visited previous n s.
  induction modules as [|m modules IH]; intros visited previous n s Hn Hs; cbn [scan_modules].
  { cbn [pass_steps foldr]. by rewrite Z.add_0_r. }
  assert (Hp : pass_steps (m :: modules) = module_steps m + pass_steps modules) by done.
  pose proof (pass_steps_pos modules) as Hone.
  rewrite Hp in *. unfold module_steps in *.
  pose proof (module_contract pass m (PollingWindow_iter (mw_polling m)) visited previous n s ltac:(lia) Hs) as Hm.
  destruct (scan_module _ _ _ _ _ _ _ _ _ _) as [[v1 p1] s1]. cbn [snd] in Hm.
  eapply scanning_later; [|apply IH; [|exact Hm]]; lia.
Qed.

Lemma passes_contract remaining pass n s :
  n + Z.of_nat remaining * pass_steps (lp_modules profile) <= steps ->
  scanning n s ->
  scanning (n + Z.of_nat remaining * pass_steps (lp_modules profile))
    (scan_passes profile master options timings pass remaining s).
Proof.
  pose proof (pass_steps_pos (lp_modules profile)) as Hone. revert pass n s. induction remaining as [|remaining IH]; intros pass n s Hn Hs;
    cbn [scan_passes].
  { by rewrite Z.mul_0_l, Z.add_0_r. }
  pose proof (modules_contract pass (lp_modules profile) ∅ false n s ltac:(lia) Hs) as Hm.
  destruct (scan_modules _ _ _ _ _ _ _ _ _) as [[visited previous] s1]. cbn [snd] in Hm.
  set (s2 := with_report s1 _). assert (Hs2 : scanning (n + (pass_steps (lp_modules profile) - 1)) s2) by done.
  destruct (_ <=? _); [eapply scanning_later; [|exact Hs2]; nia|].
  eapply scanning_later; [|apply (IH _ (n + pass_steps (lp_modules profile)))]; [lia|lia|].
  replace (n + pass_steps (lp_modules profile)) with (n + (pass_steps (lp_modules profile) - 1) + 1) by lia.
  apply scanning_sleep_if; [lia|apply Hwaits|done].
Qed.

Lemma discovery_contract n w :
  0 <= do_passes options -> n + scan_steps profile options <= steps -> inv n w ->
  inv (n + scan_steps profile options) (discover_validated profile master options timings w).2.
Proof.
  intros Hp Hn Hi. unfold discover_validated, scan_steps in *.
  pose proof (pass_steps_pos (lp_modules profile)) as Hone.
  set (w0 := if _ =? 0 then w else _).
  assert (Hs0 : scanning (n + 1) (mkScan DiscoveryReport_default (Some (lp_wake_prefix profile)) w0)).
  { split; [|by right]. unfold w0. cbn [sc_link].
    destruct (_ =? 0); [eapply ct_later; [|exact Hi]; lia|]. apply ct_sleep; [nia|done|apply Hwaits]. }
  pose proof (passes_contract (Z.to_nat (do_passes options)) 0 (n + 1) _
                ltac:(rewrite Z2Nat.id by done; lia) Hs0) as [Hend _].
  rewrite Z2Nat.id in Hend by done. cbn [snd]. by rewrite Z.add_assoc.
Qed.
End Contract.

(** ** Watching a link changes nothing *)

Section Watch.
Context {W : Type} `{Service W}.
Context (profile : LineProfile) (master : Master) (options : DiscoveryOptions)
        (timings : option AddressTimings).

Definition unwatch (s : Scan (W := Watched W)) : Scan (W := W) :=
  mkScan (sc_report s) (sc_wake s) (wd_world (sc_link s)).

Lemma unwatch_probe module address timing hinted probes s :
  unwatch (probe_address profile options module address timing hinted probes s)
  = probe_address profile options module address timing hinted probes (unwatch s).
Proof.
  revert s. induction probes as [|[probe preambles] probes IH]; intros s; cbn [probe_address]; [done|].
  destruct ((probe =? 1) && _); [done|].
  cbn [sv_request_with_prefix watched_service with_report sc_report sc_wake sc_link unwatch].
  destruct (sv_request_with_prefix (wd_world (sc_link s)) _ _ _ _) as [[reply|e] w'].
  - by destruct (op_decode_reply mkReadDeviceIdentity reply).
  - destruct e; try done; (destruct (_ && (probe =? 0)); [apply IH|done]).
Qed.

Lemma unwatch_wait s node :
  (wait_for_address_timing timings (unwatch s) node).1 = (wait_for_address_timing timings s node).1
  /\ (wait_for_address_timing timings (unwatch s) node).2
     = unwatch (wait_for_address_timing timings s node).2.
Proof. split; [done|]. unfold wait_for_address_timing. cbn [snd]. by destruct (_ =? 0). Qed.

Lemma unwatch_module pass m locals visited previous s :
  let '(v, p, s') := scan_module profile master options timings pass m locals visited previous s in
  scan_module profile master options timings pass m locals visited previous (unwatch s)
  = (v, p, unwatch s').
Proof.
  revert visited previous s.
  induction locals as [|local locals IH]; intros visited previous s; cbn [scan_module]; [done|].
  destruct (shifted_address m local) as [node|]; [|apply IH].
  destruct (Address_polling node master) as [address|]; [|apply IH].
  change (dr_devices (sc_report (unwatch s))) with (dr_devices (sc_report s)).
  destruct (bool_decide _ || _); [apply IH|].
  set (s1 := if previous && _ then scan_sleep s _ else s).
  replace (if previous && _ then scan_sleep (unwatch s) _ else unwatch s) with (unwatch s1)
    by (unfold s1; by destruct (previous && _)).
  destruct (unwatch_wait s1 node) as [E1 E2].
  destruct (wait_for_address_timing timings s1 node) as [timing s2].
  destruct (wait_for_address_timing timings (unwatch s1) node) as [timing' s2'].
  cbn [fst snd] in *. subst timing' s2'. rewrite <- unwatch_probe. apply IH.
Qed.

Lemma unwatch_modules pass modules visited previous s :
  let '(v, p, s') := scan_modules profile master options timings pass modules visited previous s in
  scan_modules profile master options timings pass modules visited previous (unwatch s)
  = (v, p, unwatch s').
Proof.
  revert visited previous s.
  induction modules as [|m modules IH]; intros visited previous s; cbn [scan_modules]; [done|].
  pose proof (unwatch_module pass m (PollingWindow_iter (mw_polling m)) visited previous s) as Hm.
  destruct (scan_module _ _ _ _ _ _ _ _ _ s) as [[v p] s1]. rewrite Hm. apply IH.
Qed.

Lemma unwatch_passes remaining pass s :
  unwatch (scan_passes profile master options timings pass remaining s)
  = scan_passes profile master options timings pass remaining (unwatch s).
Proof.
  revert pass s. induction remaining as [|remaining IH]; intros pass s; cbn [scan_passes]; [done|].
  pose proof (unwatch_modules pass (lp_modules profile) ∅ false s) as Hm.
  destruct (scan_modules _ _ _ _ _ _ _ _ s) as [[v p] s1]. rewrite Hm.
  cbn [with_report unwatch sc_report]. destruct (_ <=? _); [done|]. rewrite IH.
  by destruct (_ && _).
Qed.

Lemma unwatch_discovery (w : Watched W) :
  let '(report, w') := discover_validated profile master options timings w in
  discover_validated profile master options timings (wd_world w) = (report, wd_world w').
Proof.
  unfold discover_validated. set (w0 := if _ =? 0 then w else _).
  replace (if _ =? 0 then wd_world w else _) with (wd_world w0) by (unfold w0; by destruct (_ =? 0)).
  set (s0 := mkScan _ _ w0).
  change (mkScan DiscoveryReport_default (Some (lp_wake_prefix profile)) (wd_world w0)) with (unwatch s0).
  by rewrite <- unwatch_passes.
Qed.
End Watch.
