(* ===== verification/Client.v ===== *)
(** * Building links and handles (src/src/service/link.rs)

    Settings, the construction of a connected client and runner, and the handles of the
    client. The client and the runner share the queues and counters: both views hold them. *)
From stdpp Require Import gmap.
From S2P Require Import Prelude Wire Decoder Catalog Codec Operation QueueSet Burst Link LinkRunner.

(** ** Settings *)

Definition RetryPolicy_with_transport_retries (p : RetryPolicy) (n : Z) : RetryPolicy :=
  mkRetry n (rp_busy_retries p) (rp_delayed_response_polls p) (rp_retry_delay p)
    (rp_response_timeout p) (rp_total_timeout p).
Definition RetryPolicy_with_busy_retries (p : RetryPolicy) (n : Z) : RetryPolicy :=
  mkRetry (rp_transport_retries p) n (rp_delayed_response_polls p) (rp_retry_delay p)
    (rp_response_timeout p) (rp_total_timeout p).
Definition RetryPolicy_with_delayed_response_polls (p : RetryPolicy) (n : Z) : RetryPolicy :=
  mkRetry (rp_transport_retries p) (rp_busy_retries p) n (rp_retry_delay p)
    (rp_response_timeout p) (rp_total_timeout p).
Definition RetryPolicy_with_retry_delay (p : RetryPolicy) (d : Z) : RetryPolicy :=
  mkRetry (rp_transport_retries p) (rp_busy_retries p) (rp_delayed_response_polls p) d
    (rp_response_timeout p) (rp_total_timeout p).
Definition RetryPolicy_with_response_timeout (p : RetryPolicy) (d : Z) : RetryPolicy :=
  mkRetry (rp_transport_retries p) (rp_busy_retries p) (rp_delayed_response_polls p)
    (rp_retry_delay p) d (rp_total_timeout p).
Definition RetryPolicy_with_total_timeout (p : RetryPolicy) (d : Z) : RetryPolicy :=
  mkRetry (rp_transport_retries p) (rp_busy_retries p) (rp_delayed_response_polls p)
    (rp_retry_delay p) (rp_response_timeout p) d.

Definition LinkConfig_with_queue_capacity (c : LinkConfig) (n : Z) : LinkConfig :=
  mkLinkConfig n (lc_read_buffer_size c) (lc_decoder c).
Definition LinkConfig_with_read_buffer_size (c : LinkConfig) (n : Z) : LinkConfig :=
  mkLinkConfig (lc_queue_capacity c) n (lc_decoder c).
Definition LinkConfig_with_decoder (c : LinkConfig) (d : DecodeLimits) : LinkConfig :=
  mkLinkConfig (lc_queue_capacity c) (lc_read_buffer_size c) d.

(** The builder's setters change one field each; [update_builder] writes all of them. *)
Definition update_builder (b : LinkBuilder) (config : LinkConfig) (event_capacity maximum_coalesced : Z)
    (layout : option (list QueueConfig)) (queue : QueueId) (retry : RetryPolicy) (guard : Z)
    : LinkBuilder :=
  mkBuilder config event_capacity maximum_coalesced layout queue retry guard
    (lb_command_policy b) (lb_command_routing b).

Definition LinkBuilder_config (b : LinkBuilder) (config : LinkConfig) : LinkBuilder :=
  update_builder b config (lb_event_capacity b) (lb_maximum_coalesced b) (lb_queue_layout b)
    (lb_default_queue b) (lb_default_retry b) (lb_late_response_guard b).
Definition LinkBuilder_queues (b : LinkBuilder) (queues : list QueueConfig) : LinkBuilder :=
  update_builder b (lb_config b) (lb_event_capacity b) (lb_maximum_coalesced b) (Some queues)
    (lb_default_queue b) (lb_default_retry b) (lb_late_response_guard b).
Definition LinkBuilder_read_buffer_size (b : LinkBuilder) (n : Z) : LinkBuilder :=
  LinkBuilder_config b (LinkConfig_with_read_buffer_size (lb_config b) n).
Definition LinkBuilder_decoder (b : LinkBuilder) (d : DecodeLimits) : LinkBuilder :=
  LinkBuilder_config b (LinkConfig_with_decoder (lb_config b) d).
Definition LinkBuilder_event_capacity (b : LinkBuilder) (n : Z) : LinkBuilder :=
  update_builder b (lb_config b) n (lb_maximum_coalesced b) (lb_queue_layout b)
    (lb_default_queue b) (lb_default_retry b) (lb_late_response_guard b).
Definition LinkBuilder_maximum_coalesced (b : LinkBuilder) (n : Z) : LinkBuilder :=
  update_builder b (lb_config b) (lb_event_capacity b) n (lb_queue_layout b)
    (lb_default_queue b) (lb_default_retry b) (lb_late_response_guard b).
Definition LinkBuilder_default_queue (b : LinkBuilder) (queue : QueueId) : LinkBuilder :=
  update_builder b (lb_config b) (lb_event_capacity b) (lb_maximum_coalesced b)
    (lb_queue_layout b) queue (lb_default_retry b) (lb_late_response_guard b).
Definition LinkBuilder_default_retry (b : LinkBuilder) (retry : RetryPolicy) : LinkBuilder :=
  update_builder b (lb_config b) (lb_event_capacity b) (lb_maximum_coalesced b)
    (lb_queue_layout b) (lb_default_queue b) retry (lb_late_response_guard b).
Definition LinkBuilder_late_response_guard (b : LinkBuilder) (guard : Z) : LinkBuilder :=
  update_builder b (lb_config b) (lb_event_capacity b) (lb_maximum_coalesced b)
    (lb_queue_layout b) (lb_default_queue b) (lb_default_retry b) guard.
Definition LinkBuilder_command_policy (b : LinkBuilder) (policy : CommandPolicy) : LinkBuilder :=
  mkBuilder (lb_config b) (lb_event_capacity b) (lb_maximum_coalesced b) (lb_queue_layout b)
    (lb_default_queue b) (lb_default_retry b) (lb_late_response_guard b) policy
    (lb_command_routing b).
Definition LinkBuilder_command_routing (b : LinkBuilder) (routing : CommandRouting) : LinkBuilder :=
  mkBuilder (lb_config b) (lb_event_capacity b) (lb_maximum_coalesced b) (lb_queue_layout b)
    (lb_default_queue b) (lb_default_retry b) (lb_late_response_guard b) (lb_command_policy b)
    routing.

(** ** Construction *)

Section Build.
Context {E S C : Type} `{Runtime E} `{Semaphore S} `{Mpsc C}.

(** The channel is the environment [e] of the runner. *)
Definition build_link (e : E) (config : LinkConfig) (options : LinkRuntimeOptions)
    : LinkClient S * LinkRunner E S C :=
  let counters := Counters_default in
  let queues := QueueSet_new (ro_queue_layout options) in
  (mkClient queues [] counters (ro_default_queue options) (ro_default_retry options)
     (ro_command_policy options) (ro_command_routing options),
   mkRunner e [] queues counters (FrameDecoder_new (lc_decoder config))
     (lc_read_buffer_size config) None true (ro_maximum_coalesced options)
     (ro_late_response_guard options)).

Definition LinkRunner_with_burst_hub (l : LinkRunner E S C) (hub : BurstState C)
    : LinkRunner E S C := LinkRunner.with_hub l (Some hub).

(** [None] is a panic of [expect]. *)
Definition LinkBuilder_build_link (b : LinkBuilder) (hub : option (BurstState C)) (e : E)
    (instant_max now : Z) : option (result LinkBuildError (LinkClient S * LinkRunner E S C)) :=
  match LinkBuilder_build b instant_max now with
  | None => None
  | Some (Err error) => Some (Err error)
  | Some (Ok options) =>
      let '(client, runner) := build_link e (lb_config b) options in
      Some (Ok (client, LinkRunner.with_hub runner hub))
  end.

Definition create_link (e : E) (config : LinkConfig) : option (LinkClient S * LinkRunner E S C) :=
  let config := create_link_config config in
  option_map (build_link e config) (default_runtime_options config).

Definition try_create_link (e : E) (config : LinkConfig)
    : option (result LinkConfigError (LinkClient S * LinkRunner E S C)) :=
  match LinkConfig_validate config with
  | Err error => Some (Err error)
  | Ok _ => option_map (fun options => Ok (build_link e config options)) (default_runtime_options config)
  end.
End Build.

(** ** The client *)

Record LinkSnapshot := mkLinkSnapshot {
  lsn_queued : Z;
  lsn_started : Z;
  lsn_completed : Z;
  lsn_failed : Z;
  lsn_cancelled : Z;
  lsn_coalesced : Z;
  lsn_denied : Z;
}.

(** The receiver gives the answer, or [None] when its sender was dropped. *)
Definition PendingReply_wait (received : option (result ExchangeError DeviceReply))
    : result ExchangeError DeviceReply :=
  match received with Some answer => answer | None => Err ExRunnerStopped end.

Section Handles.
Context {S : Type} `{Semaphore S}.
Implicit Types c : LinkClient S.

Definition LinkClient_snapshot c : LinkSnapshot :=
  let n := cl_counters c in
  mkLinkSnapshot (QueueSet_pending_total (cl_queues c)) (cnt_started n) (cnt_completed n)
    (cnt_failed n) (cnt_cancelled n) (cnt_coalesced n) (cnt_denied n).

Definition LinkClient_queue_priority c (queue : QueueId) : result QueueError QueuePriority :=
  QueueSet_priority (cl_queues c) queue.

Definition on_queues c (r : result QueueError (QueueSet Job S)) : result QueueError (LinkClient S) :=
  let? queues := r ;; Ok (Link.with_queues c queues).

Definition LinkClient_set_queue_priority c (queue : QueueId) (priority : QueuePriority)
    : result QueueError (LinkClient S) :=
  on_queues c (QueueSet_set_priority (cl_queues c) queue priority).

Definition LinkClient_set_queue_weight c (queue : QueueId) (weight : Z)
    : result QueueError (LinkClient S) :=
  on_queues c (QueueSet_set_weight (cl_queues c) queue weight).

Definition LinkClient_queue_snapshot c (queue : QueueId) : result QueueError QueueSnapshot :=
  QueueSet_snapshot (cl_queues c) queue.

Definition LinkClient_queue_snapshots c : list QueueSnapshot := QueueSet_snapshots (cl_queues c).

(** Up to the wait for capacity, which is [LinkClient_start_poll]. *)
Definition LinkClient_start c (request : Request) (queue : QueueId) (policy : RetryPolicy)
    (instant_max now later ticket : Z)
    : result StartError (Job * QueueId * nat) * LinkClient S :=
  LinkClient_start_begin c request [] queue policy instant_max now later ticket.

Definition LinkClient_start_default c (request : Request) (instant_max now later ticket : Z)
    : result StartError (Job * QueueId * nat) * LinkClient S :=
  LinkClient_start c request (cl_default_queue c) (cl_default_retry c) instant_max now later ticket.

(** The last client gone, the queues take no more input. *)
Definition ClientLifetime_drop c : LinkClient S :=
  Link.with_queues c (QueueSet_close_input (cl_queues c)).

(** A handle shares the client and keeps a queue identifier. *)
Record QueueClient := mkQueueClient { qh_queue : QueueId }.

Definition LinkClient_queue c (queue : QueueId) : result QueueError QueueClient :=
  return_if negb (QueueSet_contains (cl_queues c) queue) err UnknownQueue queue ;;
  Ok (mkQueueClient queue).

Definition LinkClient_default_queue c : QueueClient := mkQueueClient (cl_default_queue c).

(** [None] is the panic of [expect]. *)
Definition QueueClient_snapshot c (h : QueueClient) : option QueueSnapshot :=
  match LinkClient_queue_snapshot c (qh_queue h) with Ok s => Some s | Err _ => None end.

Definition QueueClient_set_priority c (h : QueueClient) (priority : QueuePriority)
    : result QueueError (LinkClient S) :=
  LinkClient_set_queue_priority c (qh_queue h) priority.

Definition QueueClient_set_weight c (h : QueueClient) (weight : Z)
    : result QueueError (LinkClient S) :=
  LinkClient_set_queue_weight c (qh_queue h) weight.

Definition QueueClient_start c (h : QueueClient) (request : Request) (policy : RetryPolicy)
    (instant_max now later ticket : Z)
    : result StartError (Job * QueueId * nat) * LinkClient S :=
  LinkClient_start c request (qh_queue h) policy instant_max now later ticket.

Definition QueueClient_try_start c (h : QueueClient) (request : Request) (policy : RetryPolicy)
    (instant_max now later ticket : Z) : result StartError Z * LinkClient S :=
  LinkClient_try_start c request (qh_queue h) policy instant_max now later ticket.
End Handles.
