(* ===== verification/ClientProps.v ===== *)
(** * Building links and handles: properties *)
From stdpp Require Import gmap.
From S2P Require Import Prelude Wire Decoder Catalog Codec Operation QueueSet QueueRuns QueueProps.
From S2P Require Import Burst BurstProps Link LinkRunner ExchangeProps Client.

Lemma default_layout_capacity n layout :
  default_layout n = Some layout -> exists c, layout = [c] /\ qc_capacity c = n.
Proof.
  unfold default_layout, QueueConfig_weighted, QueueConfig_new.
  cbn [QueuePriority_weighted Z.eqb result_bind]. destruct (n =? 0); [done|].
  destruct (MAXIMUM_QUEUE_CAPACITY <? n); [done|]. intros [= <-]. eauto.
Qed.

Definition requested_layout (b : LinkBuilder) : list QueueConfig := default [] (lb_queue_layout b).

Lemma build_options b instant_max now o :
  LinkBuilder_build b instant_max now = Some (Ok o) ->
  validate_layout (ro_queue_layout o) (ro_default_queue o) = Ok tt
  /\ (ro_queue_layout o = requested_layout b
      \/ exists c, ro_queue_layout o = [c] /\ qc_capacity c = lc_queue_capacity (lb_config b)).
Proof.
  unfold LinkBuilder_build, requested_layout.
  destruct (LinkConfig_validate _); [|done]. destruct (RetryPolicy_validate_runtime _ _ _); [|done].
  destruct (lb_event_capacity b =? 0); [done|].
  destruct (MAXIMUM_LINK_EVENT_CAPACITY <? _); [done|].
  destruct (MAXIMUM_LATE_RESPONSE_GUARD <? _); [done|].
  destruct (lb_queue_layout b) as [layout|]; [|destruct (default_layout _) as [layout|] eqn:El; [|done]];
    (destruct (validate_layout layout (lb_default_queue b)) as [[]|] eqn:Ev; [|done]);
    intros [= <-]; cbn; (split; [done|]); [by left|right].
  by apply default_layout_capacity.
Qed.

(** A queue that is known stays known, with its capacity. *)
Lemma known_queue_snapshot {T S} `{SemaphoreLaws S} (w w' : World (T:=T) (S:=S)) id :
  rtc step w w' -> world_ok w -> QueueSet_contains (w_set w) id = true ->
  exists s, QueueSet_snapshot (w_set w') id = Ok s /\ qs_id s = id
            /\ (id, qs_capacity s) ∈ layout_of (w_set w).
Proof.
  intros Run Hok Hc. pose proof (run_layout _ _ Run) as Hlay. apply (run_preserves _ _ Run) in Hok as Hok'.
  apply bool_decide_eq_true in Hc as [i Hi]. apply (world_index _ Hok) in Hi.
  assert (Hi' : (slot_id <$> set_slots (w_set w')) !! i = Some id).
  { assert (E : forall q : QueueSet T S, slot_id <$> set_slots q = (layout_of q).*1).
    { intros q. unfold layout_of. by rewrite <- list_fmap_compose. }
    by rewrite E, Hlay, <- E. }
  pose proof Hi' as Hslot. rewrite list_lookup_fmap in Hslot. apply fmap_Some in Hslot as (s & Hs & ->).
  apply (world_index _ Hok') in Hi'.
  exists (QueueSlot_snapshot s). unfold QueueSet_snapshot, QueueSet_slot, QueueSet_slot_index.
  rewrite Hi'. cbn. rewrite Hs. split_and!; [done|done|].
  rewrite <- Hlay. apply list_elem_of_fmap. exists s. split; [done|]. by eapply list_elem_of_lookup_2.
Qed.

Section Built.
Context {E S C : Type} `{Runtime E} `{SemaphoreLaws S} `{Mpsc C}.

(** A built link is one link: the runner serves the queues its client fills, with all
    counters at zero; a handle is given for exactly the configured queues, the default one
    among them, and it never panics: whatever producers and runner do with the queues, and
    after closing, its snapshot is that of its own queue with the configured capacity. *)
Theorem built_link_handles_are_safe (b : LinkBuilder) (hub : option (BurstState C)) (e : E)
    (instant_max now : Z) (client : LinkClient S) (runner : LinkRunner E S C) :
  LinkBuilder_build_link b hub e instant_max now = Some (Ok (client, runner)) ->
  0 <= lc_queue_capacity (lb_config b) ->
  Forall (fun c => 0 <= qc_capacity c) (requested_layout b) ->
  let start := mkWorld (cl_queues client) [] [] [] in
  ln_queues runner = cl_queues client /\ ln_counters runner = cl_counters client
  /\ ln_burst_hub runner = hub /\ LinkClient_snapshot client = mkLinkSnapshot 0 0 0 0 0 0 0
  /\ LinkClient_queue client (cl_default_queue client) = Ok (LinkClient_default_queue client)
  /\ forall id,
       match LinkClient_queue client id with
       | Ok h => forall w, rtc step start w ->
           exists s, QueueClient_snapshot (Link.with_queues client (w_set w)) h = Some s
                     /\ qs_id s = id /\ (id, qs_capacity s) ∈ layout_of (cl_queues client)
       | Err error => error = UnknownQueue id /\ ~ id ∈ (layout_of (cl_queues client)).*1
       end.
Proof.
  unfold LinkBuilder_build_link. destruct (LinkBuilder_build b instant_max now) as [[o|]|] eqn:Eb; [|done|done].
  intros Eq Hcap Hlay. cbn [build_link] in Eq.
  injection Eq as <- <-. cbn [fst snd cl_queues].
  set (start := mkWorld (QueueSet_new (T:=Job) (S:=S) (ro_queue_layout o)) [] [] []). apply build_options in Eb as [Hv Hl].
  assert (Hw : world_ok start).
  { eapply (start_ok (ro_queue_layout o)); [exact Hv|].
    destruct Hl as [->|(c & -> & Hc)]; [done|]. constructor; [lia|constructor]. }
  assert (Hknown : forall id, QueueSet_contains (QueueSet_new (T:=Job) (S:=S) (ro_queue_layout o)) id = true
                   <-> id ∈ (layout_of (QueueSet_new (T:=Job) (S:=S) (ro_queue_layout o))).*1).
  { intros id. unfold QueueSet_contains, layout_of. rewrite bool_decide_eq_true.
    rewrite <- list_fmap_compose, list_elem_of_lookup. split; intros [i Hi]; exists i;
      by apply (world_index _ Hw). }
  assert (Hdef : ro_default_queue o
                 ∈ (layout_of (QueueSet_new (T:=Job) (S:=S) (ro_queue_layout o))).*1).
  { apply validate_layout_ok in Hv as (_ & Hd & _). unfold layout_of. rewrite <- list_fmap_compose.
    change (ro_default_queue o ∈ slot_id <$> set_slots (QueueSet_new (T:=Job) (S:=S) (ro_queue_layout o))).
    by rewrite new_ids. }
  split_and!; try done.
  - unfold LinkClient_snapshot. cbn. f_equal. clear. induction (ro_queue_layout o) as [|c l IH]; [done|].
    unfold QueueSet_pending_total in *. cbn [QueueSet_new set_slots map foldr] in *. by rewrite IH.
  - unfold LinkClient_queue. cbn. by rewrite (proj2 (Hknown _) Hdef).
  - intros id. unfold LinkClient_queue. cbn. destruct (QueueSet_contains _ id) eqn:Ec; cbn [negb].
    + intros w Run. destruct (known_queue_snapshot start w id Run Hw Ec) as (s & Es & Hid & Hin).
      exists s. split_and!; [|done|done]. unfold QueueClient_snapshot, LinkClient_queue_snapshot. cbn.
      by rewrite Es.
    + split; [done|]. intros Hin. by rewrite (proj2 (Hknown id) Hin) in Ec.
Qed.
End Built.

Definition demo_built :=
  LinkBuilder_build_link (S := CountingSemaphore) (C := ListChannel) LinkBuilder_new None
    ((0, []) : Script) (10 ^ 30) 0.

Lemma built_link_handles_are_safe_witness :
  match demo_built with
  | Some (Ok (client, runner)) => ln_queues runner = cl_queues client
      /\ LinkClient_queue client QueueId_DEFAULT = Ok (LinkClient_default_queue client)
  | _ => False
  end.
Proof.
  destruct demo_built as [[[client runner]|]|] eqn:E;
    [|vm_compute in E; discriminate E|vm_compute in E; discriminate E].
  destruct (built_link_handles_are_safe LinkBuilder_new None ((0, []) : Script) (10 ^ 30) 0 client
              runner E ltac:(vm_compute; discriminate) ltac:(constructor))
    as (H1 & _ & _ & _ & H2 & _).
  split; [exact H1|]. vm_compute in E. injection E as <- <-. exact H2.
Defined.
