(* ===== verification/Services.v ===== *)
(** * Plans, recovery, snapshots, campaigns, metrics

    The services that use a link or a session one request after the other:
    src/src/service/planner.rs, recovery.rs and snapshot.rs, src/src/verification.rs and
    telemetry.rs. *)
From S2P Require Import Prelude Wire Catalog Codec Operation Text Chars Identity Process.
From S2P Require Import Information QueueSet Link Service Session Health Client.

(** [slice::starts_with]. *)
Definition starts_with (data prefix : bytes) : bool :=
  bool_decide (take (length prefix) data = prefix).

(** ** Plans *)

Inductive PlanExpectation :=
  | PlanSuccess
  | PlanResponseCodes (codes : bytes)
  | PlanDataPrefix (prefix : bytes).

Record PlanStep := mkPlanStep {
  ps_name : text;
  ps_request : Request;
  ps_queue : QueueId;
  ps_retry : RetryPolicy;
  ps_expectation : PlanExpectation;
}.

Definition PlanStep_new (name : text) (request : Request) : PlanStep :=
  mkPlanStep name request QueueId_DEFAULT RetryPolicy_default PlanSuccess.
Definition PlanStep_with_queue (s : PlanStep) (queue : QueueId) : PlanStep :=
  mkPlanStep (ps_name s) (ps_request s) queue (ps_retry s) (ps_expectation s).
Definition PlanStep_with_retry (s : PlanStep) (retry : RetryPolicy) : PlanStep :=
  mkPlanStep (ps_name s) (ps_request s) (ps_queue s) retry (ps_expectation s).
Definition PlanStep_expecting (s : PlanStep) (expectation : PlanExpectation) : PlanStep :=
  mkPlanStep (ps_name s) (ps_request s) (ps_queue s) (ps_retry s) expectation.

Record Plan := mkPlan { pl_steps : list PlanStep; pl_continue_after_failure : bool }.

Definition Plan_new : Plan := mkPlan [] false.
Definition Plan_with_step (p : Plan) (step : PlanStep) : Plan :=
  mkPlan (pl_steps p ++ [step]) (pl_continue_after_failure p).
Definition Plan_continuing_after_failure (p : Plan) (enabled : bool) : Plan :=
  mkPlan (pl_steps p) enabled.

Record StepReport := mkStepReport {
  sr_name : text;
  sr_result : result ExchangeError DeviceReply;
  sr_expectation_met : bool;
}.

Definition expectation_matches (expectation : PlanExpectation) (reply : DeviceReply) : bool :=
  match expectation with
  | PlanSuccess => rep_response_code reply =? 0
  | PlanResponseCodes codes =>
      negb (DeviceReply_has_communication_error reply)
      && bool_decide (rep_response_code reply ∈ codes)
  | PlanDataPrefix prefix =>
      (rep_response_code reply =? 0) && negb (DeviceReply_has_communication_error reply)
      && starts_with (rep_data reply) prefix
  end.

(** ** Recovery *)

Record KnownDevice := mkKnownDevice { kd_address : Address; kd_identity : DeviceIdentity }.

Inductive RecoveryStatus :=
  | Restored (found : DeviceIdentity)
  | Replaced (found : DeviceIdentity)
  | Unavailable (e : ExchangeError).

Definition same_device (left_ right_ : DeviceIdentity) : bool :=
  (id_manufacturer_id left_ =? id_manufacturer_id right_)
  && (DeviceIdentity_address_device_type left_ =? DeviceIdentity_address_device_type right_)
  && (id_device_id left_ =? id_device_id right_).

(** ** Campaigns *)

Record CaseExpectation := mkCaseExpectation {
  ce_response_codes : bytes;
  ce_data_prefix : option bytes;
}.

Record VerificationCase := mkCase {
  vc_name : text;
  vc_request : Request;
  vc_expectation : CaseExpectation;
  vc_retry : RetryPolicy;
}.

Record CaseResult := mkCaseResult {
  cr_name : text;
  cr_elapsed : Z;
  cr_passed : bool;
  cr_error : option ExchangeError;
}.

Definition VerificationReport_passed (cases : list CaseResult) : bool :=
  negb (bool_decide (zlen cases = 0)) && forallb cr_passed cases.

Definition case_matches (e : CaseExpectation) (reply : DeviceReply) : bool :=
  let code_ok :=
    bool_decide (rep_response_code reply ∈ ce_response_codes e)
    && negb (DeviceReply_has_communication_error reply) in
  let data_ok :=
    match ce_data_prefix e with Some prefix => starts_with (rep_data reply) prefix | None => true end in
  code_ok && data_ok.

(** ** Snapshots *)

Record SnapshotOptions := mkSnapshotOptions {
  so_process_values : bool;
  so_tags : bool;
  so_diagnostics : bool;
}.

Definition SnapshotOptions_IDENTITY_ONLY : SnapshotOptions := mkSnapshotOptions false false false.
Definition SnapshotOptions_FULL : SnapshotOptions := mkSnapshotOptions true true true.
Definition SnapshotOptions_default : SnapshotOptions := SnapshotOptions_FULL.
Definition SnapshotOptions_with_process_values (o : SnapshotOptions) (enabled : bool) : SnapshotOptions :=
  mkSnapshotOptions enabled (so_tags o) (so_diagnostics o).
Definition SnapshotOptions_with_tags (o : SnapshotOptions) (enabled : bool) : SnapshotOptions :=
  mkSnapshotOptions (so_process_values o) enabled (so_diagnostics o).
Definition SnapshotOptions_with_diagnostics (o : SnapshotOptions) (enabled : bool) : SnapshotOptions :=
  mkSnapshotOptions (so_process_values o) (so_tags o) enabled.

Record SnapshotError := mkSnapshotError { se_command : CommandCode; se_message : text }.

Inductive SnapshotField (A : Type) :=
  | NotRequested
  | Unsupported (reason : string)
  | FieldValue (value : A)
  | FieldError (e : SnapshotError).
Arguments NotRequested {A}.
Arguments Unsupported {A} _.
Arguments FieldValue {A} _.
Arguments FieldError {A} _.

Definition SnapshotField_value {A} (f : SnapshotField A) : option A :=
  match f with FieldValue value => Some value | _ => None end.
Definition SnapshotField_error {A} (f : SnapshotField A) : option SnapshotError :=
  match f with FieldError e => Some e | _ => None end.
Definition SnapshotField_is_error {A} (f : SnapshotField A) : bool :=
  match f with FieldError _ => true | _ => false end.

Record DeviceSnapshot := mkDeviceSnapshot {
  sn_captured_at : Z;
  sn_profile : SessionProfile;
  sn_primary_value : SnapshotField PrimaryValue;
  sn_loop_signal : SnapshotField LoopSignal;
  sn_dynamic_values : SnapshotField DynamicValues;
  sn_tag : SnapshotField TagDescriptorDate;
  sn_long_tag : SnapshotField text;
  sn_additional_status : SnapshotField AdditionalStatus;
}.

Definition DeviceSnapshot_has_errors (s : DeviceSnapshot) : bool :=
  SnapshotField_is_error (sn_primary_value s) || SnapshotField_is_error (sn_loop_signal s)
  || SnapshotField_is_error (sn_dynamic_values s) || SnapshotField_is_error (sn_tag s)
  || SnapshotField_is_error (sn_long_tag s) || SnapshotField_is_error (sn_additional_status s).

(** ** Over a link *)

Section Services.
Context {W : Type} `{Service W}.

(** The steps that are left, and the reports so far. *)
Fixpoint plan_steps (continue_after_failure : bool) (steps : list PlanStep) (w : W)
    (report : list StepReport) : list StepReport * W :=
  match steps with
  | [] => (report, w)
  | step :: steps =>
      let '(answer, w) := LinkClient_request w (ps_request step) (ps_queue step) (ps_retry step) in
      let expectation_met :=
        match answer with Ok reply => expectation_matches (ps_expectation step) reply | Err _ => false end in
      let exchange_failed := negb (is_ok answer) in
      let report := report ++ [mkStepReport (ps_name step) answer expectation_met] in
      if (exchange_failed || negb expectation_met) && negb continue_after_failure
      then (report, w)
      else plan_steps continue_after_failure steps w report
  end.

Definition Plan_execute (p : Plan) (w : W) : list StepReport * W :=
  plan_steps (pl_continue_after_failure p) (pl_steps p) w [].

Fixpoint reconcile_loop (known : list KnownDevice) (retry : RetryPolicy) (w : W)
    (report : list (Address * RecoveryStatus)) : list (Address * RecoveryStatus) * W :=
  match known with
  | [] => (report, w)
  | previous :: known =>
      let '(answer, w) :=
        LinkClient_execute w (kd_address previous) mkReadDeviceIdentity sv_default_queue retry in
      let status :=
        match answer with
        | Ok found =>
            if same_device found (kd_identity previous) then Restored found else Replaced found
        | Err e => Unavailable e
        end in
      reconcile_loop known retry w (report ++ [(kd_address previous, status)])
  end.

Definition reconcile_devices (w : W) (known : list KnownDevice) (retry : RetryPolicy)
    : list (Address * RecoveryStatus) * W := reconcile_loop known retry w [].

Fixpoint campaign_loop (cases : list VerificationCase) (w : W) (report : list CaseResult)
    : list CaseResult * W :=
  match cases with
  | [] => (report, w)
  | case :: cases =>
      let '(started, w) := sv_now w in
      let '(answer, w) := LinkClient_request w (vc_request case) sv_default_queue (vc_retry case) in
      let '(ended, w) := sv_now w in
      let elapsed := saturating_sub ended started in
      let '(passed, error) :=
        match answer with
        | Ok reply => (case_matches (vc_expectation case) reply, None)
        | Err e => (false, Some e)
        end in
      campaign_loop cases w (report ++ [mkCaseResult (vc_name case) elapsed passed error])
  end.

Definition run_campaign (w : W) (cases : list VerificationCase) : list CaseResult * W :=
  campaign_loop cases w [].

(** [display] is the text of an error. *)
Definition capture {A} (display : SessionError -> text) (command : CommandCode)
    (r : result SessionError A) : SnapshotField A :=
  match r with
  | Ok value => FieldValue value
  | Err e => FieldError (mkSnapshotError command (display e))
  end.

(** A group that was asked for is executed and captured. *)
Definition capture_if {Op A} `{Operation Op A} (display : SessionError -> text) (requested : bool)
    (command : Z) (session : DeviceSession) (operation : Op) (w : W) : SnapshotField A * W :=
  if requested then
    let '(r, w) := DeviceSession_execute_default w session operation in
    (capture display (CommandCode_new command) r, w)
  else (NotRequested, w).

(** [captured_at] is the system clock. *)
Definition capture_snapshot (display : SessionError -> text) (captured_at : Z)
    (session : DeviceSession) (options : SnapshotOptions) (w : W) : DeviceSnapshot * W :=
  let '(primary_value, w) :=
    capture_if display (so_process_values options) 1 session mkReadPrimaryValue w in
  let '(loop_signal, w) :=
    capture_if display (so_process_values options) 2 session mkReadLoopSignal w in
  let '(dynamic_values, w) :=
    capture_if display (so_process_values options) 3 session mkReadDynamicValues w in
  let '(tag, w) := capture_if display (so_tags options) 13 session mkReadTagDescriptorDate w in
  let '(long_tag, w) :=
    if negb (so_tags options) then (NotRequested, w)
    else if id_universal_revision (sp_identity (ds_profile session)) <? 6 then
      (Unsupported "long tag requires HART 6 or newer", w)
    else capture_if display true 20 session mkReadLongTag w in
  let '(additional_status, w) :=
    capture_if display (so_diagnostics options) 48 session mkReadAdditionalStatus w in
  (mkDeviceSnapshot captured_at (ds_profile session) primary_value loop_signal dynamic_values tag
     long_tag additional_status, w).

Definition DeviceSession_snapshot (display : SessionError -> text) (captured_at : Z)
    (session : DeviceSession) (options : SnapshotOptions) (w : W) : DeviceSnapshot * W :=
  capture_snapshot display captured_at session options w.
End Services.

(** ** Metrics *)

Class MetricSink (M : Type) := {
  sink_counter : M -> string -> Z -> M;
  sink_gauge : M -> string -> Z -> M;
}.

(** [u64::try_from(..).unwrap_or(u64::MAX)]. *)
Definition u64_or_max (n : Z) : Z := if n <=? u64_max then n else u64_max.

Section Metrics.
Context {M : Type} `{MetricSink M}.

Definition export_link_snapshot (s : LinkSnapshot) (sink : M) : M :=
  let sink := sink_gauge sink "hart_link_queue_pending" (u64_or_max (lsn_queued s)) in
  let sink := sink_counter sink "hart_link_started_total" (lsn_started s) in
  let sink := sink_counter sink "hart_link_completed_total" (lsn_completed s) in
  let sink := sink_counter sink "hart_link_failed_total" (lsn_failed s) in
  let sink := sink_counter sink "hart_link_cancelled_total" (lsn_cancelled s) in
  let sink := sink_counter sink "hart_link_coalesced_total" (lsn_coalesced s) in
  sink_counter sink "hart_link_denied_total" (lsn_denied s).

(** Durations are nanoseconds: [as_millis] and [as_micros] divide. *)
Definition export_device_health_snapshot (s : DeviceHealthSnapshot) (sink : M) : M :=
  let sink := sink_counter sink "hart_link_device_successes_total" (hn_successes s) in
  let sink := sink_counter sink "hart_link_device_failures_total" (hn_failures s) in
  let sink := sink_counter sink "hart_link_device_cooldown_activations_total"
                (hn_cooldown_activations s) in
  let sink := sink_counter sink "hart_link_device_cooldown_rejections_total"
                (hn_cooldown_rejections s) in
  let sink := sink_counter sink "hart_link_device_adaptive_attempts_total"
                (hn_adaptive_attempts s) in
  let sink := sink_counter sink "hart_link_device_adaptive_fallbacks_total"
                (hn_adaptive_fallbacks s) in
  let sink := sink_gauge sink "hart_link_device_consecutive_transport_failures"
                (hn_consecutive_transport_failures s) in
  let sink := sink_gauge sink "hart_link_device_cooldown_remaining_milliseconds"
                (u64_or_max (hn_cooldown_remaining s / 1000000)) in
  sink_gauge sink "hart_link_device_learned_response_microseconds"
    (match hn_learned_response s with
     | Some duration => u64_or_max (duration / 1000)
     | None => 0
     end).
End Metrics.
