(* ===== verification/ServicesProps.v ===== *)
(** * Plans, recovery, snapshots, campaigns: properties *)
From S2P Require Import Prelude Wire Catalog Codec Operation Text Chars Identity Process.
From S2P Require Import Information QueueSet Link Service Session Health Client Services.

Section Services.
Context {W : Type} `{Service W}.

(** ** Plans *)

Definition step_call (s : PlanStep) : Call := (ps_request s, [], ps_queue s, ps_retry s).

Definition step_passed (s : PlanStep) (answer : result ExchangeError DeviceReply) : bool :=
  match answer with Ok reply => expectation_matches (ps_expectation s) reply | Err _ => false end.

Definition step_report (s : PlanStep) (answer : result ExchangeError DeviceReply) : StepReport :=
  mkStepReport (ps_name s) answer (step_passed s answer).

(** The steps that ran, with their answers. *)
Inductive plan_ran (go_on : bool) : list PlanStep -> list (PlanStep * result ExchangeError DeviceReply) -> Prop :=
  | ran_end : plan_ran go_on [] []
  | ran_stop s answer steps :
      step_passed s answer = false -> go_on = false -> plan_ran go_on (s :: steps) [(s, answer)]
  | ran_step s answer steps ran :
      step_passed s answer = true \/ go_on = true ->
      plan_ran go_on steps ran -> plan_ran go_on (s :: steps) ((s, answer) :: ran).

Lemma plan_steps_spec go_on steps (w w' : Watched W) report report' :
  plan_steps go_on steps w report = (report', w') ->
  exists ran, plan_ran go_on steps ran
    /\ report' = report ++ ((fun x => step_report x.1 x.2) <$> ran)
    /\ wd_log w' = rev ((fun x => (step_call x.1, x.2)) <$> ran) ++ wd_log w.
Proof.
  revert w report. induction steps as [|s steps IH]; intros w report; cbn [plan_steps].
  { intros [= <- <-]. exists []. rewrite app_nil_r. split_and!; [constructor|done|done]. }
  unfold LinkClient_request. destruct (sv_request_with_prefix w _ _ _ _) as [answer w1] eqn:E.
  apply watched_request_log in E as [E _]. fold (step_passed s answer).
  destruct ((negb (is_ok answer) || negb (step_passed s answer)) && negb go_on) eqn:Estop.
  - intros [= <- <-]. apply andb_true_iff in Estop as [Ef Eg%negb_true_iff].
    exists [(s, answer)]. split_and!; [|done|by rewrite E]. constructor; [|done].
    destruct (step_passed s answer) eqn:Ep; [|done]. by destruct answer.
  - intros (ran & Hr & -> & Hl)%IH. exists ((s, answer) :: ran). split_and!.
    + constructor; [|done]. destruct go_on; [by right|left].
      rewrite andb_true_r in Estop. apply orb_false_iff in Estop as [_ ?%negb_false_iff]. done.
    + by rewrite <- app_assoc.
    + rewrite Hl, E. cbn. by rewrite <- app_assoc.
Qed.

Lemma plan_ran_prefix go_on steps ran : plan_ran go_on steps ran -> exists rest, steps = ran.*1 ++ rest.
Proof. induction 1 as [|s a steps|s a steps ran _ _ [rest ->]]; [by exists []|by exists steps|by exists rest]. Qed.

Lemma plan_ran_all steps ran : plan_ran true steps ran -> ran.*1 = steps.
Proof.
  intros Hr. remember true as g. induction Hr; cbn; [done|congruence|].
  by rewrite IHHr.
Qed.

Lemma plan_ran_stops go_on steps ran :
  plan_ran go_on steps ran -> go_on = false -> forall i x, ran !! i = Some x ->
  step_passed x.1 x.2 = false -> S i = length ran.
Proof.
  induction 1 as [|s a steps Hp _|s a steps ran Hp Hr IH]; intros Hg i x Hi Hf; [done| |].
  - by destruct i as [|i].
  - destruct i as [|i]; cbn in Hi |- *.
    + injection Hi as <-. cbn in Hf. destruct Hp; congruence.
    + f_equal. by eapply IH.
Qed.

Lemma plan_ran_short go_on steps ran :
  plan_ran go_on steps ran -> length ran <> length steps ->
  exists x, last ran = Some x /\ step_passed x.1 x.2 = false.
Proof.
  induction 1 as [|s a steps Hp _|s a steps ran Hp Hr IH]; intros Hl; [done| |].
  - by exists (s, a).
  - destruct IH as (x & Hx & Hf); [cbn in Hl; lia|]. exists x. split; [|done].
    by rewrite last_cons, Hx.
Qed.

(** A plan asks, in order and one after the other, exactly the requests of its steps, each
    in its own queue under its own policy, and reports every answer with whether the step's
    expectation was met; with continuation every step runs, and without it the plan stops
    after the first step that failed and never before. *)
Theorem plan_runs_to_first_failure (p : Plan) (w w' : Watched W) (report : list StepReport) :
  Plan_execute p w = (report, w') ->
  exists ran : list (PlanStep * result ExchangeError DeviceReply),
    wd_log w' = rev ((fun x => (step_call x.1, x.2)) <$> ran) ++ wd_log w
    /\ report = (fun x => step_report x.1 x.2) <$> ran
    /\ (exists rest, pl_steps p = ran.*1 ++ rest)
    /\ (pl_continue_after_failure p = true -> ran.*1 = pl_steps p)
    /\ (pl_continue_after_failure p = false ->
        (forall i x, ran !! i = Some x -> step_passed x.1 x.2 = false -> S i = length ran)
        /\ (length ran <> length (pl_steps p) ->
            exists x, last ran = Some x /\ step_passed x.1 x.2 = false)).
Proof.
  unfold Plan_execute. intros (ran & Hr & -> & Hl)%plan_steps_spec. exists ran.
  split_and!; [done|done|by eapply plan_ran_prefix| |].
  - intros Eg. rewrite Eg in Hr. by apply plan_ran_all.
  - intros Eg. rewrite Eg in Hr. split.
    + by eapply plan_ran_stops.
    + by eapply plan_ran_short.
Qed.

(** ** Recovery and campaigns *)

Definition status_of (known : KnownDevice) (answer : result ExchangeError DeviceIdentity) : RecoveryStatus :=
  match answer with
  | Ok found => if same_device found (kd_identity known) then Restored found else Replaced found
  | Err e => Unavailable e
  end.

Definition identity_of (answer : result ExchangeError DeviceReply) : result ExchangeError DeviceIdentity :=
  match answer with
  | Ok reply => result_map_err ExOperation (op_decode_reply mkReadDeviceIdentity reply)
  | Err e => Err e
  end.

(** The request of a typed read with an empty payload. *)
Definition read_request (a : Address) (command : Z) : Request :=
  Request_with_retry_safety (Request_new a (CommandCode_new command) []) ReadOnly.

Definition identify_call (retry : RetryPolicy) (known : KnownDevice) : Call :=
  (read_request (kd_address known) 0, [], sv_default_queue, retry).

Lemma execute_log (w w' : Watched W) {Op A} `{Operation Op A} {request} a (op : Op) queue policy r :
  op_request op a = Ok request ->
  LinkClient_execute w a op queue policy = (r, w') ->
  exists answer, wd_log w' = ((request, [], queue, policy), answer) :: wd_log w
    /\ r = match answer with
           | Ok reply => result_map_err ExOperation (op_decode_reply op reply)
           | Err e => Err e
           end.
Proof.
  intros Er. unfold LinkClient_execute. rewrite Er. unfold LinkClient_request.
  destruct (sv_request_with_prefix w request [] queue policy) as [answer w1] eqn:E.
  apply watched_request_log in E as [E _]. unfold call_bind.
  destruct answer; intros [= <- <-]; eauto.
Qed.

(** Every known device is asked once, in order; it is restored when the same device answers. *)
Lemma recovery_exact (known : list KnownDevice) (retry : RetryPolicy) (w w' : Watched W) report :
  reconcile_devices w known retry = (report, w') ->
  exists answers, length answers = length known
    /\ wd_log w' = rev (zip (identify_call retry <$> known) answers) ++ wd_log w
    /\ report = zip_with (fun k a => (kd_address k, status_of k (identity_of a))) known answers.
Proof.
  unfold reconcile_devices. change report with ([] ++ report) at 1.
  enough (Hgen : forall acc report', reconcile_loop known retry w acc = (report', w') ->
    exists answers, length answers = length known
    /\ wd_log w' = rev (zip (identify_call retry <$> known) answers) ++ wd_log w
    /\ report' = acc ++ zip_with (fun k a => (kd_address k, status_of k (identity_of a))) known answers).
  { by intros Hr%Hgen. }
  revert w. induction known as [|k known IH]; intros w acc report'; cbn [reconcile_loop].
  { intros [= <- <-]. exists []. rewrite app_nil_r. done. }
  destruct (LinkClient_execute w (kd_address k) mkReadDeviceIdentity sv_default_queue retry)
    as [r w1] eqn:E.
  eapply (execute_log w w1 (request := read_request (kd_address k) 0)) in E as (answer & El & ->);
    [|reflexivity].
  fold (identity_of answer). fold (status_of k (identity_of answer)).
  intros (answers & Hlen & Hl & ->)%IH. exists (answer :: answers). split_and!; [cbn; lia| |].
  - rewrite Hl, El. cbn. by rewrite <- app_assoc.
  - by rewrite <- app_assoc.
Qed.

(** ** Snapshots *)

Definition session_decode {Op A} `{Operation Op A} (op : Op)
    (answer : result ExchangeError DeviceReply) : result SessionError A :=
  match answer with
  | Ok reply => result_map_err SessionOperation (op_decode_reply op reply)
  | Err e => Err (SessionExchange e)
  end.

(** The calls a snapshot makes, by command. *)
Definition snapshot_commands (options : SnapshotOptions) (revision : Z) : list Z :=
  (if so_process_values options then [1; 2; 3] else [])
  ++ (if so_tags options then 13 :: (if revision <? 6 then [] else [20]) else [])
  ++ (if so_diagnostics options then [48] else []).

Definition read_call (session : DeviceSession) (command : Z) : Call :=
  (Request_with_preambles (read_request (sp_address (ds_profile session)) command)
     (sp_request_preambles (ds_profile session)), [], sv_default_queue, sv_default_retry).

(** A field as the answer to its command says. *)
Definition field_of {Op A} `{Operation Op A} (display : SessionError -> text) (op : Op)
    (command : Z) (log : list Answered) : SnapshotField A :=
  match find (fun e : Answered => CommandCode_get (req_command (call_request e.1)) =? command) log with
  | Some e => capture display (CommandCode_new command) (session_decode op e.2)
  | None => NotRequested
  end.

Lemma capture_if_log {Op A} `{Operation Op A} display requested command session (op : Op)
    (w w' : Watched W) f :
  DeviceSession_request session op = Ok (call_request (read_call session command)) ->
  capture_if display requested command session op w = (f, w') ->
  if requested then
    exists answer, wd_log w' = (read_call session command, answer) :: wd_log w
      /\ f = capture display (CommandCode_new command) (session_decode op answer)
  else w' = w /\ f = NotRequested.
Proof.
  intros Er. unfold capture_if. destruct requested; [|by intros [= <- <-]].
  unfold DeviceSession_execute_default. rewrite Er. unfold LinkClient_request_default, LinkClient_request.
  destruct (sv_request_with_prefix w _ _ _ _) as [answer w1] eqn:E.
  apply watched_request_log in E as [E _]. unfold call_map_err, call_bind. cbn [fst snd].
  destruct answer; cbn; intros [= <- <-]; eexists; (split; [exact E|done]).
Qed.

(** A snapshot reads and changes nothing: over every link it makes exactly the requests of
    the groups asked for, in order, each to the session's address with the learned preambles
    and the default settings, and all of them registered as read-only; every field is what
    the answer to its own command says, so one failure does not lose another value, and a
    group that was not asked for, or a long tag before HART 6, is marked so. *)
Theorem snapshot_reads_only (display : SessionError -> text) (captured_at : Z)
    (session : DeviceSession) (options : SnapshotOptions) (w w' : Watched W) (sn : DeviceSnapshot) :
  capture_snapshot display captured_at session options w = (sn, w') ->
  let revision := id_universal_revision (sp_identity (ds_profile session)) in
  exists log, wd_log w' = rev log ++ wd_log w
    /\ log.*1 = read_call session <$> snapshot_commands options revision
    /\ Forall (fun e => registered_read_only (req_command (call_request e.1)) = true) log
    /\ sn_profile sn = ds_profile session
    /\ sn_primary_value sn = field_of display mkReadPrimaryValue 1 log
    /\ sn_loop_signal sn = field_of display mkReadLoopSignal 2 log
    /\ sn_dynamic_values sn = field_of display mkReadDynamicValues 3 log
    /\ sn_tag sn = field_of display mkReadTagDescriptorDate 13 log
    /\ sn_long_tag sn
       = (if so_tags options && (revision <? 6) then Unsupported "long tag requires HART 6 or newer"
          else field_of display mkReadLongTag 20 log)
    /\ sn_additional_status sn = field_of display mkReadAdditionalStatus 48 log.
Proof.
  intros E revision. revert E. unfold capture_snapshot, snapshot_commands. fold revision.
  destruct (capture_if display _ 1 _ _ w) as [f1 w1] eqn:E1.
  destruct (capture_if display _ 2 _ _ w1) as [f2 w2] eqn:E2.
  destruct (capture_if display _ 3 _ _ w2) as [f3 w3] eqn:E3.
  destruct (capture_if display _ 13 _ _ w3) as [f4 w4] eqn:E4.
  apply capture_if_log in E1; [|reflexivity]. apply capture_if_log in E2; [|reflexivity].
  apply capture_if_log in E3; [|reflexivity]. apply capture_if_log in E4; [|reflexivity].
  destruct (if negb (so_tags options) then _ else _) as [f5 w5] eqn:E5.
  destruct (capture_if display _ 48 _ _ w5) as [f6 w6] eqn:E6.
  apply capture_if_log in E6; [|reflexivity]. intros [= <- <-]. cbn [sn_profile sn_primary_value
    sn_loop_signal sn_dynamic_values sn_tag sn_long_tag sn_additional_status].
  assert (H5 : if so_tags options && negb (revision <? 6) then
            exists answer, wd_log w5 = (read_call session 20, answer) :: wd_log w4
              /\ f5 = capture display (CommandCode_new 20) (session_decode mkReadLongTag answer)
          else w5 = w4 /\ f5 = if so_tags options then Unsupported "long tag requires HART 6 or newer"
                              else NotRequested).
  { destruct (so_tags options); cbn [negb andb] in *; [|by injection E5 as <- <-].
    destruct (revision <? 6); cbn [negb] in *; [by injection E5 as <- <-|].
    by apply capture_if_log in E5. }
  clear E5.
  destruct (so_process_values options), (so_tags options), (so_diagnostics options), (revision <? 6);
    cbn [negb andb app] in *;
    repeat match goal with
      | E : exists _, wd_log _ = _ /\ _ |- _ => destruct E as (? & ? & ->)
      | E : _ = _ /\ _ = _ |- _ => destruct E as [-> ->]
      end;
    first [ exists []; split; [cbn [rev app]; log_chain|]
          | eexists [_]; split; [cbn [rev app]; log_chain|]
          | eexists [_; _]; split; [cbn [rev app]; log_chain|]
          | eexists [_; _; _]; split; [cbn [rev app]; log_chain|]
          | eexists [_; _; _; _]; split; [cbn [rev app]; log_chain|]
          | eexists [_; _; _; _; _]; split; [cbn [rev app]; log_chain|]
          | eexists [_; _; _; _; _; _]; split; [cbn [rev app]; log_chain|] ];
    (split; [reflexivity|]); (split; [repeat constructor|]); split_and!; reflexivity.
Qed.

(** ** Campaigns *)

Definition case_call (c : VerificationCase) : Call :=
  (vc_request c, [], sv_default_queue, vc_retry c).

Definition case_passed (c : VerificationCase) (answer : result ExchangeError DeviceReply) : bool :=
  match answer with Ok reply => case_matches (vc_expectation c) reply | Err _ => false end.

(** Every case runs, in order, and the campaign passes when there is one and all pass. *)
Lemma campaign_exact (cases : list VerificationCase) (w w' : Watched W) report :
  run_campaign w cases = (report, w') ->
  exists answers, length answers = length cases
    /\ wd_log w' = rev (zip (case_call <$> cases) answers) ++ wd_log w
    /\ cr_name <$> report = vc_name <$> cases
    /\ cr_passed <$> report = zip_with case_passed cases answers
    /\ (VerificationReport_passed report = true <->
        cases <> [] /\ Forall (fun b => b = true) (zip_with case_passed cases answers)).
Proof.
  enough (Hgen : forall acc report', campaign_loop cases w acc = (report', w') ->
    exists answers, length answers = length cases
    /\ wd_log w' = rev (zip (case_call <$> cases) answers) ++ wd_log w
    /\ cr_name <$> report' = (cr_name <$> acc) ++ (vc_name <$> cases)
    /\ cr_passed <$> report' = (cr_passed <$> acc) ++ zip_with case_passed cases answers).
  { intros (answers & H1 & H2 & H3 & H4)%Hgen. exists answers. split_and!; try done.
    cbn in H3, H4. unfold VerificationReport_passed. rewrite andb_true_iff, negb_true_iff.
    rewrite bool_decide_eq_false, forallb_forall, <- H4, Forall_fmap, Forall_forall.
    assert (Hlen : length report = length cases).
    { rewrite <- (length_fmap cr_name report), H3. by rewrite length_fmap. }
    setoid_rewrite list_elem_of_In. unfold zlen. rewrite Hlen.
    split; intros [Ha Hb]; (split; [|exact Hb]); [by intros ->|]. by destruct cases; cbn; [|lia]. }
  revert w. induction cases as [|c cases IH]; intros w acc report'; cbn [campaign_loop].
  { intros [= <- <-]. exists []. rewrite !app_nil_r. done. }
  destruct (sv_now w) as [t1 w1] eqn:E1. unfold LinkClient_request.
  destruct (sv_request_with_prefix w1 _ _ _ _) as [answer w2] eqn:E2.
  destruct (sv_now w2) as [t2 w3] eqn:E3.
  apply watched_now_log in E1 as [E1 _]. apply watched_now_log in E3 as [E3 _].
  apply watched_request_log in E2 as [E2 _].
  assert (Hp : (match answer with
                | Ok reply => (case_matches (vc_expectation c) reply, None)
                | Err e => (false, Some e)
                end).1 = case_passed c answer) by (by destruct answer).
  destruct (match answer with Ok _ => _ | Err _ => _ end) as [passed error]. cbn in Hp. subst passed.
  intros (answers & H1 & H2 & H3 & H4)%IH. exists (answer :: answers). split_and!; [cbn; lia| | |].
  - rewrite H2, E3, E2, E1. cbn. by rewrite <- app_assoc.
  - rewrite H3, fmap_app, <- app_assoc. done.
  - rewrite H4, fmap_app, <- app_assoc. done.
Qed.
End Services.

(** Three steps of which the second is refused by the device. *)
Definition demo_step_request : Request := Request_new (Polling 0 Primary) (CommandCode_new 1) [].

Definition demo_code_reply (code : Z) : DeviceReply :=
  mkReply (Polling 0 Primary) (CommandCode_new 1) code 0 [] false Fsk 5 [].

Definition demo_plan : Plan :=
  let s := PlanStep_new [65] demo_step_request in
  Plan_with_step (Plan_with_step (Plan_with_step Plan_new s) s) s.

Definition demo_plan_link : Watched ScriptLink :=
  mkWatched (mkScriptLink 0 [Ok (demo_code_reply 0); Ok (demo_code_reply 7); Ok (demo_code_reply 0)] [] [])
    [] [].

Lemma plan_runs_to_first_failure_witness :
  sr_expectation_met <$> (Plan_execute demo_plan demo_plan_link).1 = [true; false]
  /\ exists ran : list (PlanStep * result ExchangeError DeviceReply),
      (Plan_execute demo_plan demo_plan_link).1 = (fun x => step_report x.1 x.2) <$> ran
      /\ exists rest, pl_steps demo_plan = ran.*1 ++ rest.
Proof.
  split; [vm_compute; reflexivity|].
  destruct (plan_runs_to_first_failure demo_plan demo_plan_link
              (Plan_execute demo_plan demo_plan_link).2 (Plan_execute demo_plan demo_plan_link).1
              (surjective_pairing _)) as (ran & _ & H1 & H2 & _).
  exists ran. split; [exact H1|exact H2].
Defined.

(** A HART 5 device that answers its primary value only. *)
Definition demo_snapshot_session : DeviceSession :=
  mkDeviceSession
    (mkSessionProfile (mkIdentity 254 1 2 5 5 1 1 1 0 0 3 None None None None None None [])
       (Unique 0x102 3 Primary) 5).

Definition demo_snapshot :=
  capture_snapshot (fun _ => [63]) 0 demo_snapshot_session SnapshotOptions_FULL
    (mkWatched (mkScriptLink 0
       [Ok (mkReply (Unique 0x102 3 Primary) (CommandCode_new 1) 0 0 [39; 65; 200; 0; 0] false Fsk 5 [])]
       [] []) [] []).

Lemma snapshot_reads_only_witness :
  (exists v, sn_primary_value demo_snapshot.1 = FieldValue v)
  /\ sn_long_tag demo_snapshot.1 = Unsupported "long tag requires HART 6 or newer"
  /\ length (wd_log demo_snapshot.2) = 5%nat
  /\ exists log, wd_log demo_snapshot.2 = rev log ++ []
      /\ Forall (fun e => registered_read_only (req_command (call_request e.1)) = true) log.
Proof.
  split; [vm_compute; eauto|]. split; [vm_compute; reflexivity|]. split; [vm_compute; reflexivity|].
  destruct (snapshot_reads_only (fun _ => [63]) 0 demo_snapshot_session SnapshotOptions_FULL
              (mkWatched (mkScriptLink 0
       [Ok (mkReply (Unique 0x102 3 Primary) (CommandCode_new 1) 0 0 [39; 65; 200; 0; 0] false Fsk 5 [])]
       [] []) [] []) demo_snapshot.2 demo_snapshot.1 (surjective_pairing _))
    as (log & H1 & _ & H2 & _).
  exists log. split; [exact H1|exact H2].
Defined.
