(* ===== verification/Trace.v ===== *)
(** * Recording and replay (src/src/trace.rs)

    The bounded recorder, the channel that records, its export as PCAP-NG, and the channel
    that replays a scenario. The trait [ByteChannel] (src/src/channel/mod.rs) is a class:
    an operation that completed, with the channel after it. System times are nanoseconds
    since the epoch. *)
From S2P Require Import Prelude Wire Catalog Codec Operation QueueSet Link.

(** [receive] gives the count and the bytes of the buffer. *)
Class ByteChannel (C : Type) := {
  bc_send : C -> bytes -> result ChannelError unit * C;
  bc_receive : C -> Z -> result ChannelError (Z * bytes) * C;
  bc_flush : C -> result ChannelError unit * C;
}.

(** ** Limits *)

Definition DEFAULT_MAXIMUM_TRACE_BYTES : Z := 16 * 1024 * 1024.
Definition MAXIMUM_TRACE_BYTES : Z := 256 * 1024 * 1024.
Definition MAXIMUM_TRACE_RECORDS : Z := 1048576.
Definition DEFAULT_MAXIMUM_REPLAY_STEPS : Z := 65536.
Definition DEFAULT_MAXIMUM_REPLAY_BYTES : Z := 16 * 1024 * 1024.
Definition MAXIMUM_REPLAY_STEPS : Z := 1048576.
Definition MAXIMUM_REPLAY_BYTES : Z := 256 * 1024 * 1024.

Record TraceLimits := mkTraceLimits { tl_maximum_records : Z; tl_maximum_bytes : Z }.

Definition TraceLimits_default : TraceLimits := mkTraceLimits 4096 DEFAULT_MAXIMUM_TRACE_BYTES.
Definition TraceLimits_with_maximum_records (l : TraceLimits) (n : Z) : TraceLimits :=
  mkTraceLimits n (tl_maximum_bytes l).
Definition TraceLimits_with_maximum_bytes (l : TraceLimits) (n : Z) : TraceLimits :=
  mkTraceLimits (tl_maximum_records l) n.

Inductive TraceLimitsError :=
  | TraceZeroLimit
  | TraceRecordLimit (n : Z)
  | TraceByteLimit (n : Z).

Definition TraceLimits_validate (l : TraceLimits) : result TraceLimitsError unit :=
  return_if (tl_maximum_records l =? 0) || (tl_maximum_bytes l =? 0) err TraceZeroLimit ;;
  return_if MAXIMUM_TRACE_RECORDS <? tl_maximum_records l err TraceRecordLimit (tl_maximum_records l) ;;
  return_if MAXIMUM_TRACE_BYTES <? tl_maximum_bytes l err TraceByteLimit (tl_maximum_bytes l) ;;
  Ok tt.

(** ** The recorder *)

Inductive TraceDirection := Outbound | Inbound.

Record TraceRecord := mkTraceRecord {
  tr_direction : TraceDirection;
  tr_timestamp : Z;
  tr_bytes : bytes;
}.

(** Dropped records and bytes are one pair, as [note_dropped] counts them. *)
Record Trace := mkTrace {
  trace_records : list TraceRecord;
  trace_limits : TraceLimits;
  trace_retained_bytes : Z;
  trace_dropped : Z * Z;
}.

Definition Trace_with_limits (limits : TraceLimits) : Trace :=
  mkTrace []
    (mkTraceLimits (clamp (tl_maximum_records limits) 1 MAXIMUM_TRACE_RECORDS)
       (clamp (tl_maximum_bytes limits) 1 MAXIMUM_TRACE_BYTES)) 0 (0, 0).

Definition Trace_new (maximum_records : Z) : Trace :=
  Trace_with_limits (TraceLimits_with_maximum_records TraceLimits_default maximum_records).

Definition Trace_try_with_limits (limits : TraceLimits) : result TraceLimitsError Trace :=
  let? _ := TraceLimits_validate limits ;;
  Ok (Trace_with_limits limits).

Definition record_size (r : TraceRecord) : Z := zlen (tr_bytes r).

(** A [usize] always fits into a [u64]. *)
Definition note_dropped (dropped : Z * Z) (r : TraceRecord) : Z * Z :=
  (saturating_add u64_max dropped.1 1, saturating_add u64_max dropped.2 (record_size r)).

Definition Trace_push (t : Trace) (record : TraceRecord) : Trace :=
  let limits := trace_limits t in
  let record_bytes := record_size record in
  if tl_maximum_bytes limits <? record_bytes then
    mkTrace (trace_records t) limits (trace_retained_bytes t) (note_dropped (trace_dropped t) record)
  else
    let '(records, retained, dropped) :=
      evict_while record_size note_dropped
        (fun len retained =>
           (tl_maximum_records limits <=? len)
           || (tl_maximum_bytes limits <? saturating_add usize_max retained record_bytes))
        (trace_records t) (trace_retained_bytes t) (trace_dropped t) in
    mkTrace (records ++ [record]) limits (saturating_add usize_max retained record_bytes) dropped.

(** ** Export *)

Definition push_u32 (output : bytes) (value : Z) : bytes := output ++ rev (to_be_bytes 4 value).

Definition write_section_header (output : bytes) : bytes :=
  let output := push_u32 output 0x0a0d0d0a in
  let output := push_u32 output 28 in
  let output := push_u32 output 0x1a2b3c4d in
  let output := output ++ rev (to_be_bytes 2 1) in
  let output := output ++ rev (to_be_bytes 2 0) in
  let output := output ++ rev (to_be_bytes 8 u64_max) in
  push_u32 output 28.

Definition write_interface (output : bytes) : bytes :=
  let output := push_u32 output 1 in
  let output := push_u32 output 20 in
  let output := output ++ rev (to_be_bytes 2 147) in
  let output := output ++ rev (to_be_bytes 2 0) in
  let output := push_u32 output 65535 in
  push_u32 output 20.

Definition u32_or_max (n : Z) : Z := if n <=? u32_max then n else u32_max.

(** A time before the epoch is the epoch. *)
Definition timestamp_micros (timestamp : Z) : Z :=
  let micros := (if timestamp <? 0 then 0 else timestamp) / 1000 in
  if micros <=? u64_max then micros else u64_max.

Definition write_packet (output : bytes) (record : TraceRecord) : bytes :=
  let packet := (match tr_direction record with Outbound => 0 | Inbound => 1 end) :: tr_bytes record in
  let padded := Z.land (zlen packet + 3) (Z.lnot 3) in
  let total := 32 + padded in
  let timestamp_bytes := to_be_bytes 8 (timestamp_micros (tr_timestamp record)) in
  let output := push_u32 output 6 in
  let output := push_u32 output (u32_or_max total) in
  let output := push_u32 output 0 in
  let output := push_u32 output (from_be_bytes (take 4 timestamp_bytes)) in
  let output := push_u32 output (from_be_bytes (drop 4 timestamp_bytes)) in
  let output := push_u32 output (u32_or_max (zlen packet)) in
  let output := push_u32 output (u32_or_max (zlen packet)) in
  let output := output ++ packet in
  let output := output ++ replicate (Z.to_nat (padded - zlen packet)) 0 in
  push_u32 output (u32_or_max total).

Definition Trace_to_pcapng (t : Trace) : bytes :=
  foldl write_packet (write_interface (write_section_header [])) (trace_records t).

(** ** A channel that records *)

Section Recording.
Context {C : Type} `{ByteChannel C}.

(** The recorder is shared with its reader; a poisoned lock records nothing and is not
    modelled. *)
Record RecordingChannel := mkRecording { rc_inner : C; rc_trace : Trace }.

Definition RecordingChannel_with_limits (inner : C) (limits : TraceLimits) : RecordingChannel :=
  mkRecording inner (Trace_with_limits limits).

Definition RecordingChannel_new (inner : C) (maximum_records : Z) : RecordingChannel :=
  RecordingChannel_with_limits inner
    (TraceLimits_with_maximum_records TraceLimits_default maximum_records).

Definition RecordingChannel_try_with_limits (inner : C) (limits : TraceLimits)
    : result TraceLimitsError RecordingChannel :=
  let? _ := TraceLimits_validate limits ;;
  Ok (RecordingChannel_with_limits inner limits).

Definition RecordingChannel_record (c : RecordingChannel) (direction : TraceDirection) (now : Z)
    (data : bytes) : RecordingChannel :=
  mkRecording (rc_inner c) (Trace_push (rc_trace c) (mkTraceRecord direction now data)).

(** [now] is the system time of the record. *)
Definition RecordingChannel_send (now : Z) (c : RecordingChannel) (data : bytes)
    : result ChannelError unit * RecordingChannel :=
  match bc_send (rc_inner c) data with
  | (Err e, inner) => (Err e, mkRecording inner (rc_trace c))
  | (Ok _, inner) =>
      (Ok tt, RecordingChannel_record (mkRecording inner (rc_trace c)) Outbound now data)
  end.

Definition RecordingChannel_receive (now : Z) (c : RecordingChannel) (capacity : Z)
    : result ChannelError (Z * bytes) * RecordingChannel :=
  match bc_receive (rc_inner c) capacity with
  | (Err e, inner) => (Err e, mkRecording inner (rc_trace c))
  | (Ok (count, buffer), inner) =>
      let c := mkRecording inner (rc_trace c) in
      if capacity <? count then
        (Err (ChannelConfiguration
                "recorded channel returned more bytes than the receive buffer can hold"), c)
      else
        (Ok (count, buffer),
         RecordingChannel_record c Inbound now (take (Z.to_nat count) buffer))
  end.

Definition RecordingChannel_flush (c : RecordingChannel) : result ChannelError unit * RecordingChannel :=
  let '(r, inner) := bc_flush (rc_inner c) in (r, mkRecording inner (rc_trace c)).
End Recording.

Arguments RecordingChannel : clear implicits.

(** ** Replay *)

Inductive ReplayStep :=
  | Expect (data : bytes)
  | Provide (data : bytes)
  | FailRead.

Definition payload_bytes (s : ReplayStep) : Z :=
  match s with Expect data | Provide data => zlen data | FailRead => 0 end.

Record ReplayLimits := mkReplayLimits { rl_maximum_steps : Z; rl_maximum_bytes : Z }.

Definition ReplayLimits_default : ReplayLimits :=
  mkReplayLimits DEFAULT_MAXIMUM_REPLAY_STEPS DEFAULT_MAXIMUM_REPLAY_BYTES.
Definition ReplayLimits_with_maximum_steps (l : ReplayLimits) (n : Z) : ReplayLimits :=
  mkReplayLimits n (rl_maximum_bytes l).
Definition ReplayLimits_with_maximum_bytes (l : ReplayLimits) (n : Z) : ReplayLimits :=
  mkReplayLimits (rl_maximum_steps l) n.

Inductive ReplayBuildError :=
  | ReplayZeroLimit
  | ReplayStepLimit (n : Z)
  | ReplayByteLimit (n : Z)
  | ScenarioSteps (n : Z)
  | ScenarioBytes (n : Z).

Definition ReplayLimits_validate (l : ReplayLimits) : result ReplayBuildError unit :=
  return_if (rl_maximum_steps l =? 0) || (rl_maximum_bytes l =? 0) err ReplayZeroLimit ;;
  return_if MAXIMUM_REPLAY_STEPS <? rl_maximum_steps l err ReplayStepLimit (rl_maximum_steps l) ;;
  return_if MAXIMUM_REPLAY_BYTES <? rl_maximum_bytes l err ReplayByteLimit (rl_maximum_bytes l) ;;
  Ok tt.

Record ReplayChannel := mkReplay { rp_steps : list ReplayStep; rp_pending : bytes }.

(** The loop over the iterator's steps. *)
Fixpoint collect_steps (limits : ReplayLimits) (steps : list ReplayStep) (retained : Z)
    (bounded : list ReplayStep) : result ReplayBuildError (list ReplayStep) :=
  match steps with
  | [] => Ok bounded
  | step :: steps =>
      return_if rl_maximum_steps limits <=? zlen bounded err ScenarioSteps (rl_maximum_steps limits) ;;
      let? retained := ok_or (checked_add usize_max retained (payload_bytes step))
                         (ScenarioBytes (rl_maximum_bytes limits)) ;;
      return_if rl_maximum_bytes limits <? retained err ScenarioBytes (rl_maximum_bytes limits) ;;
      collect_steps limits steps retained (bounded ++ [step])
  end.

Definition ReplayChannel_with_limits (steps : list ReplayStep) (limits : ReplayLimits)
    : result ReplayBuildError ReplayChannel :=
  let? _ := ReplayLimits_validate limits ;;
  let? bounded := collect_steps limits steps 0 [] ;;
  Ok (mkReplay bounded []).

Definition ReplayChannel_new (steps : list ReplayStep) : result ReplayBuildError ReplayChannel :=
  ReplayChannel_with_limits steps ReplayLimits_default.

Definition ReplayChannel_is_complete (c : ReplayChannel) : bool :=
  bool_decide (zlen (rp_steps c) = 0) && bool_decide (rp_pending c = []).

Definition ReplayChannel_send (c : ReplayChannel) (data : bytes)
    : result ChannelError unit * ReplayChannel :=
  match rp_steps c with
  | [] => (Err ChannelIsClosed, c)
  | step :: steps =>
      let c := mkReplay steps (rp_pending c) in
      match step with
      | Expect expected =>
          if bool_decide (expected = data) then (Ok tt, c)
          else (Err (ChannelConfiguration "outgoing bytes do not match the scenario"), c)
      | _ => (Err (ChannelConfiguration "scenario expected a read, not a write"), c)
      end
  end.

Definition take_pending (c : ReplayChannel) (capacity : Z)
    : result ChannelError (Z * bytes) * ReplayChannel :=
  let count := Z.min capacity (zlen (rp_pending c)) in
  (Ok (count, take (Z.to_nat count) (rp_pending c)),
   mkReplay (rp_steps c) (drop (Z.to_nat count) (rp_pending c))).

Definition ReplayChannel_receive (c : ReplayChannel) (capacity : Z)
    : result ChannelError (Z * bytes) * ReplayChannel :=
  if capacity =? 0 then
    (Err (ChannelConfiguration "replay receive buffer cannot be empty"), c)
  else if bool_decide (rp_pending c = []) then
    match rp_steps c with
    | [] => (Err ChannelIsClosed, c)
    | Provide data :: steps => take_pending (mkReplay steps data) capacity
    | FailRead :: steps =>
        (Err (ChannelConfiguration "scheduled read failure"), mkReplay steps (rp_pending c))
    | Expect _ :: steps =>
        (Err (ChannelConfiguration "scenario expected a write, not a read"),
         mkReplay steps (rp_pending c))
    end
  else take_pending c capacity.

#[global] Instance replay_channel : ByteChannel ReplayChannel := {
  bc_send := ReplayChannel_send;
  bc_receive := ReplayChannel_receive;
  bc_flush c := (Ok tt, c);
}.
