(* ===== verification/TraceProps.v ===== *)
(** * Recording and replay: properties *)
From S2P Require Import Prelude Wire Catalog Codec Operation QueueSet Link Trace.

(** ** The recorder keeps the longest suffix that fits *)

Definition trace_size (l : list TraceRecord) : Z := total_size record_size l.

Definition fits (limits : TraceLimits) (l : list TraceRecord) : bool :=
  (zlen l <=? tl_maximum_records limits) && (trace_size l <=? tl_maximum_bytes limits).

Fixpoint longest_fitting (limits : TraceLimits) (l : list TraceRecord) : list TraceRecord :=
  if fits limits l then l
  else match l with [] => [] | _ :: l => longest_fitting limits l end.

Definition storable (limits : TraceLimits) (r : TraceRecord) : bool :=
  record_size r <=? tl_maximum_bytes limits.

Definition limits_ok (limits : TraceLimits) : Prop :=
  1 <= tl_maximum_records limits <= MAXIMUM_TRACE_RECORDS
  /\ 1 <= tl_maximum_bytes limits <= MAXIMUM_TRACE_BYTES.

Lemma record_size_nonneg r : 0 <= record_size r.
Proof. apply zlen_nonneg. Qed.

Lemma trace_size_cons r l : trace_size (r :: l) = record_size r + trace_size l.
Proof. done. Qed.

Lemma trace_size_one r : trace_size [r] = record_size r.
Proof. rewrite trace_size_cons. apply Z.add_0_r. Qed.

Lemma trace_size_app l k : trace_size (l ++ k) = trace_size l + trace_size k.
Proof. apply total_size_app. Qed.

Lemma trace_size_nonneg l : 0 <= trace_size l.
Proof. apply total_size_nonneg, record_size_nonneg. Qed.

#[local] Hint Resolve record_size_nonneg trace_size_nonneg : core.

Lemma fits_app limits l k : fits limits (l ++ k) = true -> fits limits l = true.
Proof.
  unfold fits. rewrite zlen_app, trace_size_app. pose proof (trace_size_nonneg k).
  pose proof (zlen_nonneg k). rewrite !andb_true_iff, !Z.leb_le. lia.
Qed.

Lemma longest_fitting_fits limits l : limits_ok limits -> fits limits (longest_fitting limits l) = true.
Proof.
  intros Hl. induction l as [|r l IH]; cbn [longest_fitting].
  - assert (E : fits limits [] = true); [|by rewrite !E].
    unfold fits, limits_ok in *. apply andb_true_iff. rewrite !Z.leb_le. change (zlen (@nil TraceRecord)) with 0. change (trace_size []) with 0. lia.
  - by destruct (fits limits (r :: l)) eqn:E.
Qed.

Lemma longest_fitting_id limits l : fits limits l = true -> longest_fitting limits l = l.
Proof. intros Hf. destruct l; cbn [longest_fitting]; by rewrite Hf. Qed.

(** Adding at the end looks only at what was kept. *)
Lemma longest_fitting_snoc limits l r :
  longest_fitting limits (l ++ [r]) = longest_fitting limits (longest_fitting limits l ++ [r]).
Proof.
  induction l as [|x l IH].
  - assert (E : longest_fitting limits [] = []) by (cbn; by case_match). by rewrite E.
  - cbn [longest_fitting app]. destruct (fits limits (x :: l)) eqn:Ef; [done|].
    destruct (fits limits (x :: l ++ [r])) eqn:Ef'; [|done].
    change (x :: l ++ [r]) with ((x :: l) ++ [r]) in Ef'. apply fits_app in Ef'. congruence.
Qed.

(** The eviction loop computes it. *)
Lemma evict_longest limits q r dropped q' retained' dropped' :
  limits_ok limits -> storable limits r = true -> trace_size q <= tl_maximum_bytes limits ->
  evict_while record_size note_dropped
    (fun len retained => (tl_maximum_records limits <=? len)
       || (tl_maximum_bytes limits <? saturating_add usize_max retained (record_size r)))
    q (trace_size q) dropped = (q', retained', dropped') ->
  q' ++ [r] = longest_fitting limits (q ++ [r]) /\ retained' = trace_size q'
  /\ exists evicted, q = evicted ++ q' /\ dropped' = foldl note_dropped dropped evicted.
Proof.
  intros (Hr & Hb) Hs Hq E. apply Z.leb_le in Hs. split.
  - revert dropped Hq E. induction q as [|x q IH]; intros dropped Hq; cbn [evict_while].
    + cbn [app]. rewrite longest_fitting_id; [by case_match; intros [= <- _ _]|].
      unfold fits. rewrite trace_size_one. apply andb_true_iff. rewrite !Z.leb_le. split; [|done].
      change (zlen [r]) with 1. lia.
    + assert (Hx : trace_size q <= tl_maximum_bytes limits).
      { rewrite trace_size_cons in Hq. pose proof (record_size_nonneg x). lia. }
      assert (Efull : (tl_maximum_records limits <=? zlen (x :: q))
                      || (tl_maximum_bytes limits <? saturating_add usize_max (trace_size (x :: q)) (record_size r))
                      = negb (fits limits ((x :: q) ++ [r]))).
      { unfold fits. rewrite negb_andb, zlen_app, trace_size_app. unfold saturating_add, usize_max, u64_max.
        unfold MAXIMUM_TRACE_BYTES in Hb.
        rewrite trace_size_one. change (zlen [r]) with 1. f_equal.
        - destruct (Z.leb_spec (tl_maximum_records limits) (zlen (x :: q)));
            destruct (Z.leb_spec (zlen (x :: q) + 1) (tl_maximum_records limits)); cbn; lia || done.
        - rewrite Z.min_r by lia.
          destruct (Z.ltb_spec (tl_maximum_bytes limits) (trace_size (x :: q) + record_size r));
            destruct (Z.leb_spec (trace_size (x :: q) + record_size r) (tl_maximum_bytes limits)); cbn; lia || done. }
      rewrite Efull. destruct (fits limits ((x :: q) ++ [r])) eqn:Ef; cbn [negb].
      * intros [= <- _ _]. by rewrite longest_fitting_id.
      * replace (saturating_sub (trace_size (x :: q)) (record_size x)) with (trace_size q).
        2: { rewrite trace_size_cons. unfold saturating_sub. pose proof (trace_size_nonneg q). lia. }
        intros E%IH; [|done]. rewrite E. cbn [app longest_fitting] in Ef |- *. by rewrite Ef.
  - apply evict_while_spec in E as (evicted & -> & -> & -> & _); [|done]. split; [done|]. by exists evicted.
Qed.

Lemma note_dropped_all l d :
  0 <= d.1 <= u64_max -> 0 <= d.2 <= u64_max ->
  foldl note_dropped d l
    = (saturating_add u64_max d.1 (zlen l), saturating_add u64_max d.2 (trace_size l)).
Proof.
  revert d. induction l as [|r l IH]; intros [a b] Ha Hb; cbn in Ha, Hb.
  - cbn. rewrite !saturating_add_0_r by lia. done.
  - cbn [foldl]. pose proof (record_size_nonneg r).
    rewrite IH by (unfold note_dropped, saturating_add, u64_max in *; cbn [fst snd]; lia). cbn [note_dropped fst snd].
    rewrite trace_size_cons. pose proof (trace_size_nonneg l).
    f_equal; unfold saturating_add, u64_max, zlen; cbn [length]; lia.
Qed.

(** The recorder after a history of pushes. *)
Record recorded (limits : TraceLimits) (history : list TraceRecord) (t : Trace) : Prop := {
  rec_limits : trace_limits t = limits;
  rec_records : trace_records t = longest_fitting limits (List.filter (storable limits) history);
  rec_retained : trace_retained_bytes t = trace_size (trace_records t);
  rec_dropped : trace_dropped t
    = (Z.min u64_max (zlen history - zlen (trace_records t)),
       Z.min u64_max (trace_size history - trace_size (trace_records t)));
  rec_books : zlen (trace_records t) <= zlen history /\ trace_size (trace_records t) <= trace_size history;
}.

Lemma recorded_push limits history t r :
  limits_ok limits -> recorded limits history t -> recorded limits (history ++ [r]) (Trace_push t r).
Proof.
  intros Hl [El Er Et Ed [Hn Hs]]. unfold Trace_push. rewrite El.
  pose proof (longest_fitting_fits limits (List.filter (storable limits) history) Hl) as Hf.
  rewrite <- Er in Hf. unfold fits in Hf. apply andb_true_iff in Hf as [_ Hf%Z.leb_le].
  pose proof (record_size_nonneg r) as Hr. pose proof (zlen_nonneg history) as Hz.
  destruct (Z.ltb_spec (tl_maximum_bytes limits) (record_size r)) as [Hbig|Hsmall].
  - assert (Hst : storable limits r = false) by (by apply Z.leb_gt).
    constructor; cbn [trace_records trace_limits trace_retained_bytes trace_dropped]; [done| |done| |].
    + by rewrite List.filter_app, Er; cbn; rewrite Hst, app_nil_r.
    + rewrite Ed. unfold note_dropped. cbn [fst snd]. rewrite zlen_app, trace_size_app, trace_size_one.
      unfold saturating_add, zlen in *. cbn [length]. f_equal; lia.
    + rewrite zlen_app, trace_size_app, trace_size_one. unfold zlen in *. cbn [length]. lia.
  - assert (Hst : storable limits r = true) by (by apply Z.leb_le). rewrite Et.
    destruct (evict_while _ _ _ _ _ _) as [[q' retained'] dropped'] eqn:Eev.
    destruct (evict_longest limits (trace_records t) r (trace_dropped t) q' retained' dropped' Hl Hst Hf Eev)
      as (Hq & -> & evicted & Hsplit & ->).
    assert (Hq' : trace_size q' <= trace_size (trace_records t)).
    { rewrite Hsplit, trace_size_app. pose proof (trace_size_nonneg evicted). lia. }
    destruct Hl as [_ Hb]. unfold MAXIMUM_TRACE_BYTES in Hb.
    constructor; cbn [trace_records trace_limits trace_retained_bytes trace_dropped]; [done| | | |].
    + rewrite List.filter_app. cbn. rewrite Hst, longest_fitting_snoc, <- Er. done.
    + rewrite trace_size_app, trace_size_one. unfold saturating_add, usize_max, u64_max.
      pose proof (trace_size_nonneg q'). lia.
    + rewrite Ed, note_dropped_all by (cbn [fst snd]; unfold u64_max in *; lia). cbn [fst snd].
      rewrite Hsplit in Hn, Hs |- *. rewrite !zlen_app, !trace_size_app in *. rewrite trace_size_one.
      pose proof (trace_size_nonneg evicted). pose proof (zlen_nonneg evicted).
      unfold saturating_add. replace (zlen [r]) with 1 by done. f_equal; lia.
    + rewrite Hsplit in Hn, Hs. rewrite !zlen_app, !trace_size_app in *. rewrite trace_size_one.
      pose proof (trace_size_nonneg evicted). pose proof (zlen_nonneg evicted). lia.
Qed.

Lemma recorded_run history limits t :
  limits_ok limits -> forall before, recorded limits before t ->
  recorded limits (before ++ history) (foldl Trace_push t history).
Proof.
  intros Hl. revert t. induction history as [|r history IH]; intros t before Ht; cbn [foldl].
  - by rewrite app_nil_r.
  - rewrite cons_middle, app_assoc. by apply IH, recorded_push.
Qed.

Lemma with_limits_ok limits : limits_ok (trace_limits (Trace_with_limits limits)).
Proof.
  unfold limits_ok, Trace_with_limits, clamp, MAXIMUM_TRACE_RECORDS, MAXIMUM_TRACE_BYTES.
  cbn [trace_limits tl_maximum_records tl_maximum_bytes]. lia.
Qed.

Lemma recorded_start limits :
  recorded (trace_limits (Trace_with_limits limits)) [] (Trace_with_limits limits).
Proof. constructor; try done. cbn [List.filter]. by cbn; case_match. Qed.

(** C26. After any history the recorder holds the longest run of latest records that fits
    both limits, of the records that fit alone, in order and unchanged; the retained size is
    exact, and the two drop counters account for every other record and byte, up to
    saturation. *)
Theorem trace_keeps_longest_suffix (limits : TraceLimits) (history : list TraceRecord) :
  let t := foldl Trace_push (Trace_with_limits limits) history in
  let bounds := trace_limits (Trace_with_limits limits) in
  trace_records t = longest_fitting bounds (List.filter (storable bounds) history)
  /\ fits bounds (trace_records t) = true
  /\ trace_retained_bytes t = trace_size (trace_records t)
  /\ trace_dropped t
     = (Z.min u64_max (zlen history - zlen (trace_records t)),
        Z.min u64_max (trace_size history - trace_size (trace_records t))).
Proof.
  pose proof (recorded_run history _ _ (with_limits_ok limits) [] (recorded_start limits)) as [].
  cbn [app] in *. split_and!; try done. rewrite rec_records0.
  apply longest_fitting_fits, with_limits_ok.
Qed.

(** A record too large for the limits is counted among the dropped ones. *)
Example oversize_is_counted_dropped :
  trace_dropped (Trace_push (Trace_with_limits (mkTraceLimits 4 2)) (mkTraceRecord Outbound 0 [1; 2; 3]))
    = (1, 3).
Proof. reflexivity. Qed.

(** ** The export is a capture that reads back *)

(** A reader of PCAP-NG as far as the export uses it: little-endian section header,
    one interface with its snap length, enhanced packet blocks. As the format has it, a packet
    captures no more than the snap length of its interface. *)
Definition read_u32 (l : bytes) : option (Z * bytes) :=
  if (4 <=? length l)%nat then Some (from_be_bytes (rev (take 4 l)), drop 4 l) else None.

Definition padded4 (n : Z) : Z := 4 * ((n + 3) / 4).

Definition PacketView : Type := TraceDirection * Z * bytes.

Definition read_packet (snap_length : Z) (l : bytes) : option (PacketView * bytes) :=
  '(block_type, l) ← read_u32 l;
  '(total, l) ← read_u32 l;
  '(interface, l) ← read_u32 l;
  '(high, l) ← read_u32 l;
  '(low, l) ← read_u32 l;
  '(captured, l) ← read_u32 l;
  '(original, l) ← read_u32 l;
  if (block_type =? 6) && (interface =? 0) && (captured =? original) && (captured <=? snap_length)
     && (total =? 32 + padded4 captured) && (padded4 captured <=? zlen l) then
    let packet := take (Z.to_nat captured) l in
    '(total', l) ← read_u32 (drop (Z.to_nat (padded4 captured)) l);
    match packet with
    | direction :: data =>
        if (total' =? total) && in_range 0 1 direction then
          Some ((if direction =? 0 then Outbound else Inbound, high * 2 ^ 32 + low, data), l)
        else None
    | [] => None
    end
  else None.

Fixpoint read_packets (fuel : nat) (snap_length : Z) (l : bytes) : option (list PacketView) :=
  match fuel, l with
  | _, [] => Some []
  | O, _ => None
  | S fuel, _ =>
      '(p, l) ← read_packet snap_length l; ps ← read_packets fuel snap_length l; Some (p :: ps)
  end.

(** The section header, and the interface with link type USER0 up to its snap length. *)
Definition pcapng_preamble : bytes :=
  [0x0a; 0x0d; 0x0d; 0x0a; 28; 0; 0; 0; 0x4d; 0x3c; 0x2b; 0x1a; 1; 0; 0; 0;
   255; 255; 255; 255; 255; 255; 255; 255; 28; 0; 0; 0;
   1; 0; 0; 0; 20; 0; 0; 0; 147; 0; 0; 0].

Definition read_pcapng (l : bytes) : option (list PacketView) :=
  if bool_decide (take 40 l = pcapng_preamble) then
    '(snap_length, l) ← read_u32 (drop 40 l);
    '(total, l) ← read_u32 l;
    if total =? 20 then read_packets (length l) snap_length l else None
  else None.

Definition packet_view (r : TraceRecord) : PacketView :=
  (tr_direction r, timestamp_micros (tr_timestamp r), tr_bytes r).

Lemma read_push_u32 v rest :
  0 <= v <= u32_max -> read_u32 (rev (to_be_bytes 4 v) ++ rest) = Some (v, rest).
Proof.
  intros Hv. unfold read_u32.
  assert (Hl : length (rev (to_be_bytes 4 v)) = 4%nat) by (by rewrite length_rev, length_to_be_bytes).
  rewrite length_app, Hl. cbn [Nat.add Nat.leb].
  rewrite take_app_le, drop_app_ge by lia. rewrite Hl, take_ge by lia. cbn [Nat.sub drop].
  rewrite rev_involutive, from_to_be_bytes, Z.mod_small; [done|]. unfold u32_max in Hv.
  change (256 ^ Z.of_nat 4) with 4294967296. lia.
Qed.

Lemma padded4_land n : 0 <= n -> Z.land (n + 3) (Z.lnot 3) = padded4 n.
Proof.
  intros Hn. unfold padded4. rewrite <- (Z.ldiff_land (n + 3) 3).
  change 3 with (Z.ones 2) at 2. rewrite Z.ldiff_ones_r by lia.
  rewrite Z.shiftl_mul_pow2, Z.shiftr_div_pow2 by lia. change (2 ^ 2) with 4. lia.
Qed.

Lemma padded4_bounds n : 0 <= n -> n <= padded4 n <= n + 3.
Proof. intros Hn. unfold padded4. pose proof (Z.div_mod (n + 3) 4 ltac:(lia)). pose proof (Z.mod_pos_bound (n + 3) 4 ltac:(lia)). lia. Qed.

Lemma from_be_bytes_app a b : from_be_bytes (a ++ b) = from_be_bytes a * 256 ^ zlen b + from_be_bytes b.
Proof. unfold from_be_bytes at 1. rewrite foldl_app. apply from_be_bytes_acc. Qed.

Lemma timestamp_halves x :
  0 <= x <= u64_max ->
  from_be_bytes (take 4 (to_be_bytes 8 x)) * 2 ^ 32 + from_be_bytes (drop 4 (to_be_bytes 8 x)) = x
  /\ 0 <= from_be_bytes (take 4 (to_be_bytes 8 x)) <= u32_max
  /\ 0 <= from_be_bytes (drop 4 (to_be_bytes 8 x)) <= u32_max.
Proof.
  intros Hx. pose proof (length_to_be_bytes 8 x) as Hl. pose proof (to_be_bytes_u8 8 x) as Hu.
  assert (Hx' : from_be_bytes (to_be_bytes 8 x) = x).
  { rewrite from_to_be_bytes, Z.mod_small; [done|]. unfold u64_max in Hx.
    change (256 ^ Z.of_nat 8) with 18446744073709551616. lia. }
  set (l := to_be_bytes 8 x) in *.
  assert (Ht : zlen (take 4 l) = 4) by (unfold zlen; rewrite length_take; lia).
  assert (Hd : zlen (drop 4 l) = 4) by (unfold zlen; rewrite length_drop; lia).
  pose proof (from_be_bytes_bound (take 4 l) ltac:(by apply Forall_take)) as Bt. rewrite Ht in Bt.
  pose proof (from_be_bytes_bound (drop 4 l) ltac:(by apply Forall_drop)) as Bd. rewrite Hd in Bd.
  change (256 ^ 4) with 4294967296 in *. unfold u32_max. split_and!; try lia.
  transitivity (from_be_bytes (take 4 l ++ drop 4 l)); [|by rewrite take_drop].
  by rewrite from_be_bytes_app, Hd.
Qed.

(** One packet block. *)
Definition packet_block (r : TraceRecord) : bytes := write_packet [] r.

Lemma write_packet_block output r : write_packet output r = output ++ packet_block r.
Proof. unfold packet_block, write_packet, push_u32. by rewrite <- !app_assoc. Qed.

(** The snap length of the interface. *)
Definition SNAP_LENGTH : Z := 65535.

Definition pcapng_head : bytes :=
  pcapng_preamble ++ rev (to_be_bytes 4 SNAP_LENGTH) ++ rev (to_be_bytes 4 20).

Lemma to_pcapng_blocks t : Trace_to_pcapng t = pcapng_head ++ (trace_records t ≫= packet_block).
Proof.
  unfold Trace_to_pcapng. change (write_interface (write_section_header [])) with pcapng_head.
  generalize pcapng_head. induction (trace_records t) as [|r l IH]; intros output; cbn.
  - by rewrite app_nil_r.
  - rewrite IH, write_packet_block, <- app_assoc. done.
Qed.

Lemma timestamp_micros_range t : 0 <= timestamp_micros t <= u64_max.
Proof.
  unfold timestamp_micros. set (x := if t <? 0 then 0 else t).
  assert (Hx : 0 <= x) by (unfold x; destruct (Z.ltb_spec t 0); lia).
  pose proof (Z.div_pos x 1000 Hx ltac:(lia)).
  destruct (Z.leb_spec (x / 1000) u64_max); unfold u64_max in *; lia.
Qed.

Lemma read_packet_block r rest :
  record_size r <= MAXIMUM_TRACE_BYTES ->
  read_packet SNAP_LENGTH (packet_block r ++ rest)
  = if record_size r <? SNAP_LENGTH then Some (packet_view r, rest) else None.
Proof.
  intros Hr. unfold packet_block, write_packet, push_u32.
  destruct (timestamp_halves _ (timestamp_micros_range (tr_timestamp r))) as (Hts & Hhi & Hlo).
  set (direction := match tr_direction r with Outbound => 0 | Inbound => 1 end).
  set (packet := direction :: tr_bytes r).
  assert (Hp : zlen packet = record_size r + 1) by (unfold packet, record_size, zlen; cbn [length]; lia).
  pose proof (record_size_nonneg r) as Hr0.
  rewrite padded4_land by lia. pose proof (padded4_bounds (zlen packet) ltac:(lia)) as Hpad.
  unfold MAXIMUM_TRACE_BYTES in Hr.
  assert (Hcap : u32_or_max (zlen packet) = zlen packet).
  { unfold u32_or_max. by rewrite (proj2 (Z.leb_le _ _)) by (unfold u32_max; lia). }
  assert (Htot : u32_or_max (32 + padded4 (zlen packet)) = 32 + padded4 (zlen packet)).
  { unfold u32_or_max. by rewrite (proj2 (Z.leb_le _ _)) by (unfold u32_max; lia). }
  rewrite Hcap, Htot, <- !app_assoc. cbn [app]. unfold read_packet.
  rewrite read_push_u32 by (unfold u32_max; lia). cbn [mbind option_bind].
  rewrite read_push_u32 by (unfold u32_max; lia). cbn [mbind option_bind].
  rewrite read_push_u32 by (unfold u32_max; lia). cbn [mbind option_bind].
  rewrite read_push_u32 by done. cbn [mbind option_bind].
  rewrite read_push_u32 by done. cbn [mbind option_bind].
  rewrite read_push_u32 by (unfold u32_max; lia). cbn [mbind option_bind].
  rewrite read_push_u32 by (unfold u32_max; lia). cbn [mbind option_bind].
  set (pad := replicate (Z.to_nat (padded4 (zlen packet) - zlen packet)) 0).
  set (tail := rev (to_be_bytes 4 (32 + padded4 (zlen packet))) ++ rest).
  assert (Hlen : length (packet ++ pad) = Z.to_nat (padded4 (zlen packet))).
  { unfold pad. rewrite length_app, length_replicate. unfold zlen in *. lia. }
  assert (Hfit : (padded4 (zlen packet) <=? zlen (packet ++ pad ++ tail)) = true).
  { apply Z.leb_le. rewrite app_assoc, zlen_app. unfold zlen at 2. rewrite Hlen.
    pose proof (zlen_nonneg tail). lia. }
  rewrite !Z.eqb_refl, Hfit. cbn [andb]. rewrite andb_true_r, Hp.
  destruct (Z.ltb_spec (record_size r) SNAP_LENGTH) as [Hs|Hs];
    [rewrite (proj2 (Z.leb_le _ _)) by lia|by rewrite (proj2 (Z.leb_gt _ _)) by lia]. rewrite <- Hp.
  replace (take (Z.to_nat (zlen packet)) (packet ++ pad ++ tail)) with packet.
  2: { unfold zlen. by rewrite Nat2Z.id, take_app_length. }
  replace (drop (Z.to_nat (padded4 (zlen packet))) (packet ++ pad ++ tail)) with tail.
  2: { rewrite app_assoc, drop_app_length' by (by rewrite Hlen). done. }
  unfold tail. rewrite read_push_u32 by (unfold u32_max; lia). cbn [mbind option_bind].
  unfold packet at 1. rewrite Z.eqb_refl, Hts. unfold packet_view, direction.
  by destruct (tr_direction r).
Qed.

(** Every record and the byte for its direction fit the snap length. *)
Definition exportable (l : list TraceRecord) : bool := forallb (fun r => record_size r <? SNAP_LENGTH) l.

Lemma read_packets_blocks l fuel :
  Forall (fun r => record_size r <= MAXIMUM_TRACE_BYTES) l ->
  (length (l ≫= packet_block) <= fuel)%nat ->
  read_packets fuel SNAP_LENGTH (l ≫= packet_block)
  = if exportable l then Some (packet_view <$> l) else None.
Proof.
  intros Hl. revert fuel. induction Hl as [|r l Hr Hl IH]; intros fuel Hf; [by destruct fuel|].
  assert (Hne : exists b bs, packet_block r = b :: bs) by (by do 2 eexists).
  destruct Hne as (b & bs & Eb).
  cbn [mbind list_bind] in Hf |- *. fold (mbind (M:=list) packet_block l) in *.
  rewrite length_app in Hf. destruct fuel as [|fuel]; [rewrite Eb in Hf; cbn in Hf; lia|].
  assert (Eu : read_packets (S fuel) SNAP_LENGTH (packet_block r ++ (l ≫= packet_block))
    = ('(p, l) ← read_packet SNAP_LENGTH (packet_block r ++ (l ≫= packet_block));
       ps ← read_packets fuel SNAP_LENGTH l; Some (p :: ps))) by (by rewrite Eb).
  rewrite Eu, read_packet_block by done. unfold exportable in *. cbn [forallb].
  destruct (record_size r <? SNAP_LENGTH); [|done]. cbn [mbind option_bind andb].
  rewrite IH; [|rewrite Eb in Hf; cbn [length] in Hf; lia]. by destruct (forallb _ l).
Qed.

(** C27. The PCAP-NG export reads back when its records are small enough for the interface it
    declares: for every recorder that records can be pushed into, a reader of the format finds
    a little-endian section, one interface of link type USER0 with a snap length of 65535 bytes
    and, in order, one packet per retained record with its direction, its bytes and its capture
    time in microseconds, provided every record has fewer than 65535 bytes; an export with a
    longer record, which the limits of the recorder allow, captures more than the interface
    says, and the reader refuses it. *)
Theorem pcapng_roundtrip (limits : TraceLimits) (history : list TraceRecord) :
  let t := foldl Trace_push (Trace_with_limits limits) history in
  read_pcapng (Trace_to_pcapng t)
  = if exportable (trace_records t) then Some (packet_view <$> trace_records t) else None.
Proof.
  intros t. rewrite to_pcapng_blocks. unfold read_pcapng, pcapng_head. rewrite <- !app_assoc.
  rewrite take_app_length', drop_app_length' by done. rewrite bool_decide_true by done.
  rewrite read_push_u32 by (by vm_compute). cbn [mbind option_bind].
  rewrite read_push_u32 by (by vm_compute). cbn [mbind option_bind].
  rewrite Z.eqb_refl. apply read_packets_blocks; [|done].
  pose proof (recorded_run history _ _ (with_limits_ok limits) [] (recorded_start limits)) as Hr.
  fold t in Hr. destruct (with_limits_ok limits) as [_ Hb].
  pose proof (longest_fitting_fits _ (List.filter (storable (trace_limits (Trace_with_limits limits)))
                ([] ++ history)) (with_limits_ok limits)) as Hf.
  rewrite <- (rec_records _ _ _ Hr) in Hf. apply andb_true_iff in Hf as [_ Hf%Z.leb_le].
  apply Forall_forall. intros r (l1 & l2 & E)%list_elem_of_split.
  rewrite E, trace_size_app, trace_size_cons in Hf.
  pose proof (trace_size_nonneg l1). pose proof (trace_size_nonneg l2). lia.
Qed.

(** ** A recording replays *)

Inductive ChannelOp := OpSend (data : bytes) | OpReceive (capacity : Z).

(** The scenario of a recording. *)
Definition replay_step (r : TraceRecord) : ReplayStep :=
  match tr_direction r with Outbound => Expect (tr_bytes r) | Inbound => Provide (tr_bytes r) end.

(** Operations on a channel that all complete, and what they read: nothing for a send. *)
Fixpoint channel_session {C} `{ByteChannel C} (ops : list ChannelOp) (c : C) : option (list bytes * C) :=
  match ops with
  | [] => Some ([], c)
  | OpSend data :: ops =>
      match bc_send c data with
      | (Ok _, c) => '(reads, c) ← channel_session ops c; Some ([] :: reads, c)
      | (Err _, _) => None
      end
  | OpReceive capacity :: ops =>
      match bc_receive c capacity with
      | (Ok (count, buffer), c) =>
          '(reads, c) ← channel_session ops c; Some (take (Z.to_nat count) buffer :: reads, c)
      | (Err _, _) => None
      end
  end.

Section Record.
Context {C : Type} `{ByteChannel C}.

(** A recording channel whose clock shows [now]. *)
Definition recording_at (now : Z) : ByteChannel (RecordingChannel C) := {|
  bc_send := RecordingChannel_send now;
  bc_receive := RecordingChannel_receive now;
  bc_flush := RecordingChannel_flush;
|}.

(** The records a session makes of its operations and reads. *)
Definition session_record (now : Z) (x : ChannelOp * bytes) : TraceRecord :=
  match x with
  | (OpSend data, _) => mkTraceRecord Outbound now data
  | (OpReceive _, data) => mkTraceRecord Inbound now data
  end.

Definition read_fits (x : ChannelOp * bytes) : Prop :=
  match x with (OpSend _, data) => data = [] | (OpReceive capacity, data) => zlen data <= capacity end.

Lemma recording_history now ops (c c' : RecordingChannel C) reads :
  channel_session (H := recording_at now) ops c = Some (reads, c') ->
  rc_trace c' = foldl Trace_push (rc_trace c) (session_record now <$> zip ops reads)
  /\ length reads = length ops
  /\ (Forall (fun o => match o with OpReceive n => 0 < n | _ => True end) ops ->
      Forall read_fits (zip ops reads)).
Proof.
  revert c reads. induction ops as [|op ops IH]; intros c reads; cbn [channel_session].
  { intros [= <- <-]. done. }
  destruct op as [data|capacity]; cbn [bc_send bc_receive recording_at].
  - unfold RecordingChannel_send. destruct (bc_send (rc_inner c) data) as [[[]|] inner]; [|done].
    intros ([reads' c1] & E & [= <- <-])%bind_Some. apply IH in E as (Et & El & Ef).
    split_and!; [exact Et|cbn; lia|]. intros [_ Ho]%Forall_cons. constructor; [done|by apply Ef].
  - unfold RecordingChannel_receive.
    destruct (bc_receive (rc_inner c) capacity) as [[[count buffer]|] inner]; [|done].
    destruct (Z.ltb_spec capacity count) as [|Hc]; [done|].
    intros ([reads' c1] & E & [= <- <-])%bind_Some. apply IH in E as (Et & El & Ef).
    split_and!; [exact Et|cbn; lia|]. intros [Hpos Ho]%Forall_cons. constructor; [|by apply Ef].
    cbn. unfold zlen. rewrite length_take. lia.
Qed.
End Record.

(** The replay of what a session saw. *)
Lemma replay_session now ops reads :
  length reads = length ops -> Forall read_fits (zip ops reads) ->
  Forall (fun o => match o with OpReceive n => 0 < n | _ => True end) ops ->
  channel_session ops (mkReplay (replay_step <$> (session_record now <$> zip ops reads)) [])
    = Some (reads, mkReplay [] []).
Proof.
  revert reads. induction ops as [|op ops IH]; intros [|data reads] Hl Hf Hp; try done.
  cbn [zip fmap list_fmap] in *. apply Forall_cons in Hf as [Hf1 Hf]. apply Forall_cons in Hp as [Hp1 Hp].
  specialize (IH reads ltac:(cbn in Hl; lia) Hf Hp).
  destruct op as [sent|capacity]; cbn [channel_session].
  - cbn. rewrite bool_decide_true by done. cbn in IH. rewrite IH. cbn in Hf1. by subst data.
  - cbn [bc_receive replay_channel]. unfold ReplayChannel_receive.
    rewrite (proj2 (Z.eqb_neq capacity 0)) by lia. cbn -[Z.min take drop]. cbn in Hf1.
    rewrite Z.min_r by done.
    assert (En : Z.to_nat (zlen data) = length data) by (unfold zlen; lia).
    rewrite En, drop_all, !firstn_all, IH. done.
Qed.

Lemma collect_steps_all limits steps retained bounded l :
  collect_steps limits steps retained bounded = Ok l -> l = bounded ++ steps.
Proof.
  revert retained bounded. induction steps as [|step steps IH]; intros retained bounded; cbn [collect_steps].
  { intros [= <-]. by rewrite app_nil_r. }
  destruct (_ <=? zlen bounded); [done|]. intros (n & _ & E)%result_bind_Ok.
  destruct (_ <? n); [done|]. apply IH in E as ->. by rewrite <- app_assoc.
Qed.

Lemma longest_fitting_suffix limits l : longest_fitting limits l `suffix_of` l.
Proof.
  induction l as [|r l IH]; cbn [longest_fitting]; case_match; try done. by apply suffix_cons_r.
Qed.

Lemma filter_length_all {A} (f : A -> bool) l : length (List.filter f l) = length l -> List.filter f l = l.
Proof.
  induction l as [|x l IH]; cbn; [done|]. destruct (f x); cbn; intros E; [by rewrite IH by lia|].
  pose proof (List.filter_length_le f l). lia.
Qed.

Lemma nothing_dropped limits history t :
  recorded limits history t -> trace_dropped t = (0, 0) -> trace_records t = history.
Proof.
  intros [_ Er _ Ed [Hn _]] E. rewrite E in Ed. injection Ed as En _.
  assert (Hlen : length (trace_records t) = length history).
  { unfold zlen, u64_max in *. lia. }
  pose proof (longest_fitting_suffix limits (List.filter (storable limits) history)) as Hs.
  rewrite <- Er in Hs. pose proof (suffix_length _ _ Hs) as Hl.
  pose proof (List.filter_length_le (storable limits) history) as Hf.
  rewrite <- (filter_length_all (storable limits) history) by lia.
  destruct Hs as [k Hk]. rewrite Hk in Hl |- *. rewrite length_app in Hl.
  destruct k; [done|]. rewrite Hk in Hf. rewrite length_app in Hf. cbn in Hf. lia.
Qed.

(** C28. What was recorded can be replayed: for every channel, when a session of sends and of
    receives into nonempty buffers completed through a recorder that dropped nothing, the
    scenario made of the records, if it is accepted, lets the same session read the same
    bytes, chunk by chunk, and is then complete. *)
Theorem recording_replays {C} `{ByteChannel C} (now : Z) (ops : list ChannelOp) (inner : C)
    (limits : TraceLimits) (replay_limits : ReplayLimits) (reads : list bytes)
    (c : RecordingChannel C) (channel : ReplayChannel) :
  channel_session (H := recording_at now) ops (RecordingChannel_with_limits inner limits)
    = Some (reads, c) ->
  Forall (fun o => match o with OpReceive n => 0 < n | _ => True end) ops ->
  trace_dropped (rc_trace c) = (0, 0) ->
  ReplayChannel_with_limits (replay_step <$> trace_records (rc_trace c)) replay_limits = Ok channel ->
  exists channel', channel_session ops channel = Some (reads, channel')
    /\ ReplayChannel_is_complete channel' = true.
Proof.
  intros (Et & El & Ef)%recording_history Hpos Hd Hrep. specialize (Ef Hpos). cbn in Et.
  set (history := session_record now <$> zip ops reads) in *.
  pose proof (recorded_run history _ _ (with_limits_ok limits) [] (recorded_start limits)) as Hr.
  rewrite <- Et in Hr. cbn [app] in Hr.
  assert (Hall : trace_records (rc_trace c) = history) by (by eapply nothing_dropped).
  rewrite Hall in Hrep.
  assert (channel = mkReplay (replay_step <$> history) []) as ->.
  { unfold ReplayChannel_with_limits in Hrep. apply result_bind_Ok in Hrep as (? & _ & Hrep).
    apply result_bind_Ok in Hrep as (bounded & Hb & [= <-]). by apply collect_steps_all in Hb as ->. }
  exists (mkReplay [] []). split; [by apply replay_session|done].
Qed.

Definition demo_ops : list ChannelOp := [OpSend [1; 2]; OpReceive 4; OpReceive 4].

Definition demo_inner : ReplayChannel := mkReplay [Expect [1; 2]; Provide [7; 8; 9; 10; 11]] [].

Definition demo_recording : option (list bytes * RecordingChannel ReplayChannel) :=
  channel_session (H := recording_at 5) demo_ops
    (RecordingChannel_with_limits demo_inner TraceLimits_default).

Lemma recording_replays_witness :
  exists channel, channel_session demo_ops
    (mkReplay [Expect [1; 2]; Provide [7; 8; 9; 10]; Provide [11]] [])
      = Some ([[]; [7; 8; 9; 10]; [11]], channel)
    /\ ReplayChannel_is_complete channel = true.
Proof.
  destruct demo_recording as [[reads c]|] eqn:E; [|vm_compute in E; discriminate E].
  assert (Er : [[]; [7; 8; 9; 10]; [11]] = reads) by (vm_compute in E; injection E as <- <-; reflexivity).
  rewrite Er.
  apply (recording_replays 5 demo_ops demo_inner TraceLimits_default ReplayLimits_default reads c);
    [exact E| | |].
  - repeat constructor.
  - vm_compute in E. injection E as _ <-. reflexivity.
  - vm_compute in E. injection E as _ <-. reflexivity.
Defined.
