(* ===== verification/Schema.v ===== *)
(** * Payload schemas (src/src/device/schema.rs)

    Sequential descriptions of a response payload and the decoder they drive. A float is
    its bit pattern; the map of values is looked up by name only. *)
From stdpp Require Import gmap.
From S2P Require Import Prelude Chars Codec.

Definition MAXIMUM_SCHEMA_FIELDS : Z := 255.
Definition MAXIMUM_SCHEMA_NAME_BYTES : Z := 256.

Record EnumChoice := mkChoice { ch_value : Z; ch_name : text }.

Definition EnumChoice_new (value : Z) (name : text) : EnumChoice := mkChoice value name.

Inductive FieldKind :=
  | KindU8
  | KindI8
  | KindU16
  | KindI16
  | KindU24
  | KindU32
  | KindI32
  | KindF32
  | KindBoolean
  | KindBytes (length : Z)
  | KindLatin1 (length : Z)
  | KindPackedAscii (length : Z)
  | KindEnum8 (choices : list EnumChoice).

Definition encoded_len (k : FieldKind) : Z :=
  match k with
  | KindU8 | KindI8 | KindBoolean | KindEnum8 _ => 1
  | KindU16 | KindI16 => 2
  | KindU24 => 3
  | KindU32 | KindI32 | KindF32 => 4
  | KindBytes length | KindLatin1 length | KindPackedAscii length => length
  end.

Record FieldSpec := mkField { fs_name : text; fs_field_type : FieldKind }.

Definition FieldSpec_new (name : text) (field_type : FieldKind) : FieldSpec := mkField name field_type.

Record DataSchema := mkSchema { sch_fields : list FieldSpec; sch_preserve_tail : bool }.

Definition DataSchema_new : DataSchema := mkSchema [] false.
Definition DataSchema_with_field (s : DataSchema) (field : FieldSpec) : DataSchema :=
  mkSchema (sch_fields s ++ [field]) (sch_preserve_tail s).
Definition DataSchema_preserving_tail (s : DataSchema) (preserve_tail : bool) : DataSchema :=
  mkSchema (sch_fields s) preserve_tail.

Inductive SchemaError :=
  | SchemaEmptyName
  | TooManyFields (n : Z)
  | NameTooLong (n : Z)
  | EmptyProfileName
  | MissingSourceRevision
  | ProfileTextTooLong (what : string) (n : Z)
  | TooManyProfileCommands (n : Z)
  | CatalogProfileLimit (n : Z)
  | SchemaResponseCode (code : Z)
  | EmptyResponseCodeDescription (code : Z)
  | SchemaExpandedDeviceType (n : Z)
  | DuplicateName (name : text)
  | PayloadTooLarge (n : Z)
  | EnumValue (value : Z)
  | DuplicateEnum (value : Z)
  | EmptyEnumLabel (value : Z)
  | TooManyEnumChoices (n : Z)
  | EnumLabelTooLong (value n : Z)
  | ZeroLengthField (name : text)
  | SchemaCodec (e : OperationError).

(** ** Validation *)

(** The choices of an enumeration, and the values seen. *)
Fixpoint validate_choices (choices : list EnumChoice) (values : list Z) : result SchemaError unit :=
  match choices with
  | [] => Ok tt
  | choice :: choices =>
      return_if bool_decide (trim (ch_name choice) = []) err EmptyEnumLabel (ch_value choice) ;;
      return_if MAXIMUM_SCHEMA_NAME_BYTES <? str_len (ch_name choice)
        err EnumLabelTooLong (ch_value choice) (str_len (ch_name choice)) ;;
      return_if u8_max <? ch_value choice err EnumValue (ch_value choice) ;;
      return_if bool_decide (ch_value choice ∈ values) err DuplicateEnum (ch_value choice) ;;
      validate_choices choices (ch_value choice :: values)
  end.

Definition validate_kind (field : FieldSpec) : result SchemaError unit :=
  let? _ :=
    match fs_field_type field with
    | KindEnum8 choices =>
        return_if u8_max + 1 <? zlen choices err TooManyEnumChoices (zlen choices) ;;
        validate_choices choices []
    | _ => Ok tt
    end ;;
  match fs_field_type field with
  | KindBytes 0 | KindLatin1 0 | KindPackedAscii 0 => Err (ZeroLengthField (fs_name field))
  | _ => Ok tt
  end.

(** The fields, the names seen and the running length. *)
Fixpoint validate_fields (fields : list FieldSpec) (names : list text) (total : Z)
    : result SchemaError Z :=
  match fields with
  | [] => Ok total
  | field :: fields =>
      return_if bool_decide (trim (fs_name field) = []) err SchemaEmptyName ;;
      return_if MAXIMUM_SCHEMA_NAME_BYTES <? str_len (fs_name field)
        err NameTooLong (str_len (fs_name field)) ;;
      return_if bool_decide (fs_name field ∈ names) err DuplicateName (fs_name field) ;;
      let? total := ok_or (checked_add usize_max total (encoded_len (fs_field_type field)))
                      (PayloadTooLarge usize_max) ;;
      let? _ := validate_kind field ;;
      validate_fields fields (fs_name field :: names) total
  end.

Definition DataSchema_validate (s : DataSchema) : result SchemaError unit :=
  return_if MAXIMUM_SCHEMA_FIELDS <? zlen (sch_fields s) err TooManyFields (zlen (sch_fields s)) ;;
  let? total := validate_fields (sch_fields s) [] 0 ;;
  return_if u8_max <? total err PayloadTooLarge total ;;
  Ok tt.

(** ** Decoding *)

Inductive DynamicValue :=
  | DynUnsigned (n : Z)
  | DynSigned (n : Z)
  | DynFloat (bits : Z)
  | DynBoolean (b : bool)
  | DynBytes (l : bytes)
  | DynText (s : text)
  | DynEnumeration (code : Z) (name : option text).

Record DynamicRecord := mkDynamicRecord { dyn_values : gmap text DynamicValue; dyn_tail : bytes }.

(** [iN::from_be_bytes]: two's complement of [bits] bits. *)
Definition to_signed (bits n : Z) : Z := if n <? 2 ^ (bits - 1) then n else n - 2 ^ bits.

(** The inner loop: codes of six bits while there are as many. *)
Fixpoint packed_codes (fuel : nat) (accumulator bits : Z) (output : text) : Z * text :=
  match fuel with
  | O => (bits, output)
  | S fuel =>
      if 6 <=? bits then
        let bits := bits - 6 in
        let code := Z.land (Z.shiftr accumulator bits) 0x3f in
        packed_codes fuel accumulator bits (output ++ [code + 0x20])
      else (bits, output)
  end.

(** The accumulator is a [u32]; at most 13 bits are held, two passes of the inner loop. *)
Fixpoint packed_loop (l : bytes) (accumulator bits : Z) (output : text) : text :=
  match l with
  | [] => output
  | byte :: l =>
      let accumulator := Z.lor (Z.land (Z.shiftl accumulator 8) u32_max) byte in
      let '(bits, output) := packed_codes 3 accumulator (bits + 8) output in
      packed_loop l accumulator bits output
  end.

Definition decode_packed_ascii (l : bytes) : text := trim_end (packed_loop l 0 0 []).

Definition decode_field (field : FieldSpec) : reader DynamicValue := fun r =>
  let name := "dynamic field"%string in
  match fs_field_type field with
  | KindU8 => let? (v, r) := PayloadReader_u8 name r ;; Ok (DynUnsigned v, r)
  | KindI8 => let? (v, r) := PayloadReader_u8 name r ;; Ok (DynSigned (to_signed 8 v), r)
  | KindU16 => let? (v, r) := PayloadReader_u16 name r ;; Ok (DynUnsigned v, r)
  | KindI16 => let? (v, r) := PayloadReader_u16 name r ;; Ok (DynSigned (to_signed 16 v), r)
  | KindU24 => let? (v, r) := PayloadReader_u24 name r ;; Ok (DynUnsigned v, r)
  | KindU32 => let? (v, r) := PayloadReader_u32 name r ;; Ok (DynUnsigned v, r)
  | KindI32 => let? (v, r) := PayloadReader_u32 name r ;; Ok (DynSigned (to_signed 32 v), r)
  | KindF32 => let? (v, r) := PayloadReader_f32 name r ;; Ok (DynFloat v, r)
  | KindBoolean => let? (v, r) := PayloadReader_u8 name r ;; Ok (DynBoolean (negb (v =? 0)), r)
  | KindBytes length => let? (l, r) := PayloadReader_bytes length name r ;; Ok (DynBytes l, r)
  | KindLatin1 length =>
      let? (l, r) := PayloadReader_bytes length name r ;;
      Ok (DynText (trim_end_matches (fun c => (c =? 0) || (c =? 32)) l), r)
  | KindPackedAscii length =>
      let? (l, r) := PayloadReader_bytes length name r ;; Ok (DynText (decode_packed_ascii l), r)
  | KindEnum8 choices =>
      let? (code, r) := PayloadReader_u8 name r ;;
      Ok (DynEnumeration code
            (ch_name <$> List.find (fun choice => ch_value choice =? code) choices), r)
  end.

Fixpoint decode_fields (fields : list FieldSpec) (r : PayloadReader)
    (values : gmap text DynamicValue)
    : result OperationError (gmap text DynamicValue * PayloadReader) :=
  match fields with
  | [] => Ok (values, r)
  | field :: fields =>
      let? (value, r) := decode_field field r ;;
      decode_fields fields r (<[fs_name field := value]> values)
  end.

Definition DataSchema_decode (s : DataSchema) (l : bytes) : result SchemaError DynamicRecord :=
  let? _ := DataSchema_validate s ;;
  let? (values, r) :=
    result_map_err SchemaCodec (decode_fields (sch_fields s) (PayloadReader_new l) ∅) ;;
  if sch_preserve_tail s then Ok (mkDynamicRecord values (PayloadReader_rest r).1)
  else
    let? _ := result_map_err SchemaCodec (PayloadReader_finish r) ;;
    Ok (mkDynamicRecord values []).
