(* ===== verification/SchemaProps.v ===== *)
(** * Payload schemas: properties *)
From stdpp Require Import gmap.
From S2P Require Import Prelude Chars Codec Operation Text TextProps Schema.

(** ** The meaning of a schema *)

(** The codes of six bits in these bytes, from the most significant bit of the number they
    make; bits left over at the end are no code. *)
Definition six_bit_code (l : bytes) (i : Z) : Z :=
  (from_be_bytes l / 2 ^ (8 * zlen l - 6 * (i + 1))) mod 64.

Definition six_bit_codes (l : bytes) : list Z := six_bit_code l <$> seqZ 0 (8 * zlen l / 6).

(** The value of a field whose bytes are [l]. Packed text is read as the code has it: each
    six-bit code stands for the character 0x20 above it. *)
Definition field_value (k : FieldKind) (l : bytes) : DynamicValue :=
  let n := from_be_bytes l in
  match k with
  | KindU8 | KindU16 | KindU24 | KindU32 => DynUnsigned n
  | KindI8 => DynSigned (to_signed 8 n)
  | KindI16 => DynSigned (to_signed 16 n)
  | KindI32 => DynSigned (to_signed 32 n)
  | KindF32 => DynFloat n
  | KindBoolean => DynBoolean (negb (n =? 0))
  | KindBytes _ => DynBytes l
  | KindLatin1 _ => DynText (trim_end_matches (fun c => (c =? 0) || (c =? 32)) l)
  | KindPackedAscii _ => DynText (trim_end ((fun code => code + 0x20) <$> six_bit_codes l))
  | KindEnum8 choices =>
      DynEnumeration n (ch_name <$> List.find (fun choice => ch_value choice =? n) choices)
  end.

Definition schema_size (fields : list FieldSpec) : Z :=
  foldr (fun f n => encoded_len (fs_field_type f) + n) 0 fields.

(** The fields laid out over [l], one after the other. *)
Fixpoint layout (fields : list FieldSpec) (l : bytes) : list (text * DynamicValue) :=
  match fields with
  | [] => []
  | f :: fields =>
      let n := Z.to_nat (encoded_len (fs_field_type f)) in
      (fs_name f, field_value (fs_field_type f) (take n l)) :: layout fields (drop n l)
  end.

(** Lengths are [usize] values. *)
Definition fields_typed (fields : list FieldSpec) : Prop :=
  Forall (fun f => 0 <= encoded_len (fs_field_type f)) fields.

Lemma layout_names fields l : (layout fields l).*1 = fs_name <$> fields.
Proof. revert l. induction fields as [|f fields IH]; intros l; cbn; [done|]. by rewrite IH. Qed.

Lemma schema_size_nonneg fields : fields_typed fields -> 0 <= schema_size fields.
Proof. induction 1; cbn; [lia|]. fold (schema_size l). lia. Qed.

(** ** Packed text, byte by byte *)

Lemma zlen_snoc {A} (l : list A) x : zlen (l ++ [x]) = zlen l + 1.
Proof. rewrite zlen_app. done. Qed.

Lemma six_bit_code_snoc past b i :
  is_u8 b -> 0 <= i -> 6 * (i + 1) <= 8 * zlen past -> six_bit_code (past ++ [b]) i = six_bit_code past i.
Proof.
  unfold is_u8. intros Hb Hi Hle. unfold six_bit_code. rewrite from_be_bytes_snoc, zlen_snoc.
  replace (8 * (zlen past + 1) - 6 * (i + 1)) with (8 + (8 * zlen past - 6 * (i + 1))) by lia.
  rewrite Z.pow_add_r, <- Z.div_div by lia. change (2 ^ 8) with 256.
  by rewrite Z.div_add_l, (Z.div_small b), Z.add_0_r by lia.
Qed.

(** One more byte adds the codes that become complete with it. *)
Lemma six_bit_codes_snoc past b :
  is_u8 b ->
  let m := 8 * zlen past / 6 in
  six_bit_codes (past ++ [b])
  = six_bit_codes past ++ (six_bit_code (past ++ [b]) <$> seqZ m (8 * (zlen past + 1) / 6 - m)).
Proof.
  intros Hb m. pose proof (zlen_nonneg past). unfold six_bit_codes at 1. rewrite zlen_snoc.
  assert (0 <= m <= 8 * (zlen past + 1) / 6).
  { unfold m. split; [apply Z.div_pos; lia|apply Z.div_le_mono; lia]. }
  replace (8 * (zlen past + 1) / 6) with (m + (8 * (zlen past + 1) / 6 - m)) at 1 by lia.
  rewrite seqZ_app, Z.add_0_l, fmap_app by lia. f_equal.
  unfold six_bit_codes. fold m. apply list_fmap_ext. intros k x Hx.
  apply list_elem_of_lookup_2, elem_of_seqZ in Hx. apply six_bit_code_snoc; [done|lia|].
  pose proof (Z.mul_div_le (8 * zlen past) 6). unfold m in Hx. lia.
Qed.

(** What the inner loop takes from the accumulator. *)
Lemma accumulator_code l bits i :
  0 <= bits <= 20 -> 8 * zlen l - 6 * (i + 1) = bits ->
  Z.land (Z.shiftr (from_be_bytes l mod 2 ^ 32) bits) 0x3f = six_bit_code l i.
Proof.
  intros Hb <-. set (k := 8 * zlen l - 6 * (i + 1)) in *. unfold six_bit_code. fold k.
  change 0x3f with (Z.ones 6). rewrite Z.land_ones, Z.shiftr_div_pow2 by lia. change 64 with (2 ^ 6).
  rewrite <- !Z.land_ones, <- !Z.shiftr_div_pow2 by lia. apply Z.bits_inj'. intros n Hn.
  rewrite !Z.land_spec, !Z.shiftr_spec, !Z.land_spec, !Z.testbit_ones_nonneg by lia.
  destruct (Z.ltb_spec n 6); [|by rewrite !andb_false_r].
  by rewrite (proj2 (Z.ltb_lt (n + k) 32)), andb_true_r by lia.
Qed.

Lemma accumulator_next past b :
  is_u8 b ->
  Z.lor (Z.land (Z.shiftl (from_be_bytes past mod 2 ^ 32) 8) u32_max) b = from_be_bytes (past ++ [b]) mod 2 ^ 32.
Proof.
  intros Hb. unfold is_u8 in Hb. rewrite from_be_bytes_snoc. set (n := from_be_bytes past).
  change u32_max with (Z.ones 32). rewrite Z.land_ones, Z.shiftl_mul_pow2, Zmult_mod_idemp_l by lia.
  change (2 ^ 32) with (2 ^ 24 * 2 ^ 8). rewrite Z.mul_mod_distr_r by done.
  rewrite <- (Z.shiftl_mul_pow2 _ 8), lor_shiftl_add by (try change (2 ^ 8) with 256; lia).
  apply (Z.mod_unique_pos _ _ (n / 2 ^ 24)).
  - pose proof (Z.mod_pos_bound n (2 ^ 24) ltac:(done)). change (2 ^ 24) with 16777216 in *.
    change (2 ^ 8) with 256. lia.
  - pose proof (Z.div_mod n (2 ^ 24) ltac:(done)). change (2 ^ 24) with 16777216 in *.
    change (2 ^ 8) with 256. lia.
Qed.

(** The inner loop after one more byte, by the bits left of the bytes before. *)
Lemma packed_codes_byte acc output :
  let char k := Z.land (Z.shiftr acc k) 0x3f + 0x20 in
  packed_codes 3 acc (0 + 8) output = (2, output ++ [char 2])
  /\ packed_codes 3 acc (2 + 8) output = (4, output ++ [char 4])
  /\ packed_codes 3 acc (4 + 8) output = (0, output ++ [char 6; char 0]).
Proof. intros char. split_and!; [done|done|]. transitivity (0, (output ++ [char 6]) ++ [char 0]); [done|].
  by rewrite <- app_assoc.
Qed.

Lemma seqZ_short m : seqZ m 1 = [m] /\ seqZ m 2 = [m; m + 1].
Proof.
  split; [by rewrite seqZ_cons by lia|].
  rewrite seqZ_cons by lia. by rewrite Z.add_1_r.
Qed.

Lemma packed_loop_codes l past :
  all_u8 l ->
  packed_loop l (from_be_bytes past mod 2 ^ 32) (8 * zlen past mod 6)
    ((fun code => code + 0x20) <$> six_bit_codes past)
  = (fun code => code + 0x20) <$> six_bit_codes (past ++ l).
Proof.
  intros Hl. revert past. induction Hl as [|b l Hb Hl IH]; intros past; cbn [packed_loop].
  { by rewrite app_nil_r. }
  rewrite accumulator_next by done. specialize (IH (past ++ [b])). rewrite <- app_assoc in IH.
  change (b :: l) with ([b] ++ l). rewrite <- IH, six_bit_codes_snoc, fmap_app, zlen_snoc by done.
  pose proof (zlen_nonneg past) as Hn. pose proof (zlen_snoc past b) as Hz.
  pose proof (Z.div_mod (zlen past) 3 ltac:(lia)) as Hd. set (q := zlen past / 3) in *.
  set (acc := from_be_bytes (past ++ [b]) mod 2 ^ 32). set (output := _ <$> six_bit_codes past).
  destruct (packed_codes_byte acc output) as (P0 & P2 & P4).
  assert (Hcode : forall bits i, 0 <= bits <= 20 -> 8 * zlen (past ++ [b]) - 6 * (i + 1) = bits ->
    Z.land (Z.shiftr acc bits) 0x3f = six_bit_code (past ++ [b]) i) by (by apply accumulator_code).
  assert (Hcase : zlen past mod 3 = 0 \/ zlen past mod 3 = 1 \/ zlen past mod 3 = 2).
  { pose proof (Z.mod_pos_bound (zlen past) 3). lia. }
  destruct Hcase as [E|[E|E]]; rewrite E in Hd.
  - replace (8 * zlen past mod 6) with 0 by (Z.to_euclidean_division_equations; lia).
    replace (8 * zlen past / 6) with (4 * q) by (Z.to_euclidean_division_equations; lia).
    replace (8 * (zlen past + 1) / 6 - 4 * q) with 1 by (Z.to_euclidean_division_equations; lia).
    replace (8 * (zlen past + 1) mod 6) with 2 by (Z.to_euclidean_division_equations; lia).
    rewrite P0, (proj1 (seqZ_short _)), (Hcode 2 (4 * q)) by lia. done.
  - replace (8 * zlen past mod 6) with 2 by (Z.to_euclidean_division_equations; lia).
    replace (8 * zlen past / 6) with (4 * q + 1) by (Z.to_euclidean_division_equations; lia).
    replace (8 * (zlen past + 1) / 6 - (4 * q + 1)) with 1 by (Z.to_euclidean_division_equations; lia).
    replace (8 * (zlen past + 1) mod 6) with 4 by (Z.to_euclidean_division_equations; lia).
    rewrite P2, (proj1 (seqZ_short _)), (Hcode 4 (4 * q + 1)) by lia. done.
  - replace (8 * zlen past mod 6) with 4 by (Z.to_euclidean_division_equations; lia).
    replace (8 * zlen past / 6) with (4 * q + 2) by (Z.to_euclidean_division_equations; lia).
    replace (8 * (zlen past + 1) / 6 - (4 * q + 2)) with 2 by (Z.to_euclidean_division_equations; lia).
    replace (8 * (zlen past + 1) mod 6) with 0 by (Z.to_euclidean_division_equations; lia).
    rewrite P4, (proj2 (seqZ_short _)), (Hcode 6 (4 * q + 2)), (Hcode 0 (4 * q + 2 + 1)) by lia. done.
Qed.

Lemma decode_packed_codes l :
  all_u8 l -> decode_packed_ascii l = trim_end ((fun code => code + 0x20) <$> six_bit_codes l).
Proof. intros Hl. unfold decode_packed_ascii. f_equal. exact (packed_loop_codes l [] Hl). Qed.

(** ** Reading one field *)

Lemma one_byte l : zlen l = 1 -> exists b, l = [b] /\ from_be_bytes l = b.
Proof. unfold zlen. destruct l as [|b [|]]; cbn; try lia. eauto. Qed.

Lemma read_u32_at field past l rest :
  usize_len (past ++ l ++ rest) -> length l = 4%nat ->
  PayloadReader_u32 field (at_ past (l ++ rest)) = Ok (from_be_bytes l, at_ (past ++ l) rest).
Proof. intros H Hl. unfold PayloadReader_u32. by rewrite read_array_at by (unfold zlen; done || lia). Qed.

Lemma decode_field_at f past l rest :
  zlen l = encoded_len (fs_field_type f) -> all_u8 l -> usize_len (past ++ l ++ rest) ->
  decode_field f (at_ past (l ++ rest)) = Ok (field_value (fs_field_type f) l, at_ (past ++ l) rest).
Proof.
  destruct f as [name k]. cbn [fs_field_type]. intros Hl Hu Hlen. unfold decode_field. cbn [fs_field_type].
  assert (H1 : zlen l = 1 -> exists b, from_be_bytes l = b /\
    PayloadReader_u8 "dynamic field" (at_ past (l ++ rest)) = Ok (b, at_ (past ++ l) rest)).
  { intros (b & -> & E)%one_byte. exists b. split; [done|]. cbn [app]. by rewrite read_u8_at. }
  destruct k; cbn [encoded_len] in Hl; cbn [field_value];
    try (destruct (H1 Hl) as (b & -> & ->); done);
    try (rewrite read_u16_at by (unfold zlen in Hl; done || lia); done);
    try (rewrite read_u24_at by (unfold zlen in Hl; done || lia); done);
    try (rewrite read_u32_at by (unfold zlen in Hl; done || lia); done);
    try (rewrite read_f32_at by (unfold zlen in Hl; done || lia); done);
    rewrite <- Hl, read_bytes_at by done; cbn [result_bind]; rewrite ?decode_packed_codes by done; done.
Qed.

Lemma decode_field_short f past rest :
  zlen rest < encoded_len (fs_field_type f) -> usize_len (past ++ rest) ->
  exists e, decode_field f (at_ past rest) = Err e.
Proof.
  destruct f as [name k]. cbn [fs_field_type]. intros Hl Hlen. unfold decode_field. cbn [fs_field_type].
  assert (H1 : zlen rest < 1 -> rest = []).
  { unfold zlen. destruct rest; [done|cbn; lia]. }
  destruct k; cbn [encoded_len] in Hl;
    try (rewrite (H1 Hl), read_u8_end; eauto; done);
    try (unfold PayloadReader_u16, PayloadReader_u24, PayloadReader_u32, PayloadReader_f32;
         rewrite read_short_at by done; cbn; eauto; done);
    rewrite read_bytes_short by done; cbn; eauto.
Qed.

(** ** Reading all fields *)

Lemma decode_fields_at fields past l values :
  fields_typed fields -> all_u8 l -> usize_len (past ++ l) ->
  if schema_size fields <=? zlen l then
    decode_fields fields (at_ past l) values
      = Ok (foldl (fun m kv => <[kv.1 := kv.2]> m) values (layout fields l),
            at_ (past ++ take (Z.to_nat (schema_size fields)) l)
              (drop (Z.to_nat (schema_size fields)) l))
  else exists e, decode_fields fields (at_ past l) values = Err e.
Proof.
  intros Ht. revert past l values. induction Ht as [|f fields Hf Ht IH]; intros past l values Hu Hlen.
  { cbn. pose proof (zlen_nonneg l). destruct (Z.leb_spec 0 (zlen l)); [|lia].
    by rewrite take_0, drop_0, app_nil_r. }
  cbn [decode_fields]. unfold schema_size. cbn [foldr]. fold (schema_size fields).
  pose proof (schema_size_nonneg fields Ht) as Hs.
  set (n := encoded_len (fs_field_type f)) in *.
  destruct (Z.ltb_spec (zlen l) n) as [Hshort|Hn].
  { destruct (decode_field_short f past l Hshort Hlen) as (e & ->).
    destruct (Z.leb_spec (n + schema_size fields) (zlen l)); [lia|]. cbn. eauto. }
  assert (El : l = take (Z.to_nat n) l ++ drop (Z.to_nat n) l) by (by rewrite take_drop).
  assert (Hz : zlen (take (Z.to_nat n) l) = n).
  { unfold zlen in *. rewrite length_take. lia. }
  assert (Hd : zlen (drop (Z.to_nat n) l) = zlen l - n).
  { unfold zlen in *. rewrite length_drop. lia. }
  pose proof (decode_field_at f past (take (Z.to_nat n) l) (drop (Z.to_nat n) l) Hz
                ltac:(by apply Forall_take) ltac:(by rewrite <- El)) as Ed.
  rewrite <- El in Ed. rewrite Ed. cbn [result_bind].
  specialize (IH (past ++ take (Z.to_nat n) l) (drop (Z.to_nat n) l)
                (<[fs_name f := field_value (fs_field_type f) (take (Z.to_nat n) l)]> values)
                ltac:(by apply Forall_drop) ltac:(by rewrite <- app_assoc, take_drop)).
  rewrite Hd in IH. replace (n + schema_size fields <=? zlen l) with (schema_size fields <=? zlen l - n).
  2: { destruct (Z.leb_spec (schema_size fields) (zlen l - n)), (Z.leb_spec (n + schema_size fields) (zlen l)); lia || done. }
  destruct (schema_size fields <=? zlen l - n); [|done]. rewrite IH. cbn [layout foldl fst snd]. fold n.
  f_equal. f_equal. unfold at_. rewrite <- !app_assoc, drop_drop.
  rewrite Z2Nat.inj_add by lia. f_equal.
  - f_equal. rewrite <- (take_drop (Z.to_nat n) (take (Z.to_nat n + Z.to_nat (schema_size fields)) l)).
    rewrite take_take, Nat.min_l by lia. rewrite <- app_assoc. f_equal. f_equal.
    rewrite take_drop_commute. done.
  - rewrite !length_app. f_equal. rewrite !length_take, length_drop. unfold zlen in Hn. lia.
Qed.

(** ** What validation gives *)

Definition kind_ok (k : FieldKind) : Prop :=
  match k with
  | KindEnum8 choices => NoDup (ch_value <$> choices) /\ Forall (fun c => ch_value c <= 255) choices
  | KindBytes n | KindLatin1 n | KindPackedAscii n => n <> 0
  | _ => True
  end.

Lemma validate_choices_ok choices values :
  validate_choices choices values = Ok tt -> NoDup values ->
  NoDup (ch_value <$> choices) /\ Forall (fun c => ch_value c <= 255) choices
  /\ (forall c, c ∈ choices -> ~ ch_value c ∈ values).
Proof.
  revert values. induction choices as [|c choices IH]; intros values; cbn [validate_choices].
  { intros _ _. split_and!; [constructor|constructor|]. by intros c ?%elem_of_nil. }
  destruct (bool_decide (trim (ch_name c) = [])); [done|].
  destruct (_ <? str_len (ch_name c)); [done|].
  destruct (Z.ltb_spec u8_max (ch_value c)) as [|Hv]; [done|].
  destruct (bool_decide_reflect (ch_value c ∈ values)) as [|Hn]; [done|].
  intros E Hnd. destruct (IH _ E) as (H1 & H2 & H3); [by constructor|]. split_and!.
  - cbn. constructor; [|done]. intros (x & Ex & Hx)%list_elem_of_fmap. apply (H3 x Hx). rewrite <- Ex. by left.
  - by constructor.
  - intros x [->|Hx]%elem_of_cons; [done|]. intros Hin. apply (H3 x Hx). by right.
Qed.

Lemma validate_kind_ok f : validate_kind f = Ok tt -> kind_ok (fs_field_type f).
Proof.
  unfold validate_kind. destruct f as [name k]. cbn [fs_field_type fs_name].
  intros ([] & E & Ek)%result_bind_Ok. destruct k; cbn; try done;
    try (intros ->; done).
  destruct (_ <? zlen choices); [done|].
  destruct (validate_choices_ok choices [] E) as (H1 & H2 & _); [constructor|]. done.
Qed.

Lemma validate_fields_ok fields names total total' :
  validate_fields fields names total = Ok total' -> NoDup names ->
  total' = total + schema_size fields /\ NoDup (fs_name <$> fields)
  /\ Forall (fun f => kind_ok (fs_field_type f)) fields
  /\ (forall f, f ∈ fields -> ~ fs_name f ∈ names).
Proof.
  revert names total. induction fields as [|f fields IH]; intros names total; cbn [validate_fields].
  { intros [= <-] _. split_and!; [cbn; lia|constructor|constructor|]. by intros f ?%elem_of_nil. }
  destruct (bool_decide (trim (fs_name f) = [])); [done|].
  destruct (_ <? str_len (fs_name f)); [done|].
  destruct (bool_decide_reflect (fs_name f ∈ names)) as [|Hn]; [done|].
  unfold checked_add. destruct (_ <=? usize_max); [|done]. cbn [ok_or result_bind].
  intros ([] & Ek & E)%result_bind_Ok Hnd.
  destruct (IH _ _ E) as (H1 & H2 & H3 & H4); [by constructor|]. split_and!.
  - rewrite H1. cbn. fold (schema_size fields). lia.
  - cbn. constructor; [|done]. intros (x & Ex & Hx)%list_elem_of_fmap. apply (H4 x Hx). rewrite <- Ex. by left.
  - constructor; [by apply validate_kind_ok|done].
  - intros x [->|Hx]%elem_of_cons; [done|]. intros Hin. apply (H4 x Hx). by right.
Qed.

Lemma validate_schema_ok s :
  DataSchema_validate s = Ok tt ->
  NoDup (fs_name <$> sch_fields s) /\ schema_size (sch_fields s) <= 255
  /\ Forall (fun f => kind_ok (fs_field_type f)) (sch_fields s).
Proof.
  unfold DataSchema_validate. destruct (_ <? zlen (sch_fields s)); [done|].
  intros (total & E & Ht)%result_bind_Ok.
  apply validate_fields_ok in E as (-> & H1 & H2 & _); [|constructor].
  destruct (Z.ltb_spec u8_max (0 + schema_size (sch_fields s))); [done|]. unfold u8_max in *.
  split_and!; done || lia.
Qed.

(** ** Decoding *)

Lemma foldl_insert_lookup (l : list (text * DynamicValue)) (m : gmap text DynamicValue) name v :
  NoDup l.*1 -> (forall k, k ∈ l.*1 -> m !! k = None) ->
  foldl (fun m kv => <[kv.1 := kv.2]> m) m l !! name = Some v
    <-> (name, v) ∈ l \/ m !! name = Some v.
Proof.
  revert m. induction l as [|[k x] l IH]; intros m Hnd Hfree; cbn [foldl fst snd fmap list_fmap] in *.
  { split; [by right|]. by intros [?%elem_of_nil|?]. }
  apply NoDup_cons in Hnd as [Hk Hnd]. rewrite IH; [|done|].
  - rewrite elem_of_cons. destruct (decide (name = k)) as [->|Hne].
    + rewrite lookup_insert_eq, (Hfree k) by (by left). split.
      * intros [Hin|[= <-]]; [|by left; left]. destruct Hk. apply list_elem_of_fmap. by exists (k, v).
      * intros [[[= <-]|Hin]|?]; [by right| |done]. destruct Hk. apply list_elem_of_fmap. by exists (k, v).
    + rewrite lookup_insert_ne by done. split; [tauto|]. intros [[[= -> _]|?]|?]; tauto.
  - intros j Hj. rewrite lookup_insert_ne; [apply Hfree; by right|]. by intros <-.
Qed.

Lemma decode_spec s l :
  fields_typed (sch_fields s) -> all_u8 l -> usize_len l -> DataSchema_validate s = Ok tt ->
  let total := schema_size (sch_fields s) in
  match DataSchema_decode s l with
  | Ok r =>
      (if sch_preserve_tail s then total <= zlen l else total = zlen l)
      /\ dyn_tail r = drop (Z.to_nat total) l
      /\ (forall name v, dyn_values r !! name = Some v <-> (name, v) ∈ layout (sch_fields s) l)
  | Err _ => if sch_preserve_tail s then zlen l < total else zlen l <> total
  end.
Proof.
  intros Ht Hu Hlen Hv total. pose proof (validate_schema_ok s Hv) as (Hnd & _ & _).
  pose proof (schema_size_nonneg _ Ht) as Hs. fold total in Hs.
  pose proof (decode_fields_at (sch_fields s) [] l ∅ Ht Hu Hlen) as Hd.
  rewrite <- reader_new_at in Hd. fold total in Hd. unfold DataSchema_decode. rewrite Hv. cbn [result_bind].
  destruct (Z.leb_spec total (zlen l)) as [Hle|Hgt].
  2: { destruct Hd as (e & ->). cbn. destruct (sch_preserve_tail s); lia. }
  rewrite Hd. cbn [result_map_err result_bind].
  assert (Hvals : forall name v,
    foldl (fun m kv => <[kv.1 := kv.2]> m) (∅ : gmap text DynamicValue) (layout (sch_fields s) l) !! name = Some v
      <-> (name, v) ∈ layout (sch_fields s) l).
  { intros name v. rewrite foldl_insert_lookup; [|by rewrite layout_names|done].
    rewrite lookup_empty. split; [by intros [?|?]|by left]. }
  destruct (sch_preserve_tail s).
  - cbn [dyn_tail dyn_values]. split_and!; [done|by rewrite rest_at|done].
  - rewrite finish_at. assert (Hdl : zlen (drop (Z.to_nat total) l) = zlen l - total).
    { unfold zlen in *. rewrite length_drop. lia. }
    destruct (drop (Z.to_nat total) l) as [|b rest] eqn:Edrop; cbn [result_map_err result_bind].
    + cbn [dyn_tail dyn_values]. split_and!; [unfold zlen in *; cbn in Hdl; lia|done|done].
    + unfold zlen in *. cbn in Hdl. lia.
Qed.

(** C34. A valid schema decodes exactly the payloads of its length, or with a preserved tail
    those at least that long: the fields lie one after the other in their encoded lengths,
    each name maps to the value of its own bytes and no other name is present, and the tail
    is what follows the last field. The values are the big-endian numbers in their width and
    sign, Latin-1 without its padding, the enumeration with the name of its code, and for packed
    text the six-bit codes of the bytes, each read as the character 0x20 above it. That last
    reading is what the code does and not the packed text of the tag operations, from which it
    differs in every code ([packed_code_disagrees]). *)
Theorem schema_decode_exact (s : DataSchema) (l : bytes) :
  fields_typed (sch_fields s) -> all_u8 l -> usize_len l -> DataSchema_validate s = Ok tt ->
  let total := schema_size (sch_fields s) in
  match DataSchema_decode s l with
  | Ok r =>
      (if sch_preserve_tail s then total <= zlen l else total = zlen l)
      /\ dyn_tail r = drop (Z.to_nat total) l
      /\ (forall name v, dyn_values r !! name = Some v <-> (name, v) ∈ layout (sch_fields s) l)
  | Err _ => if sch_preserve_tail s then zlen l < total else zlen l <> total
  end.
Proof. apply decode_spec. Qed.

(** ** Types *)

(** The values of a kind. *)
Definition has_kind (k : FieldKind) (v : DynamicValue) : Prop :=
  match k, v with
  | KindU8, DynUnsigned n => 0 <= n < 2 ^ 8
  | KindU16, DynUnsigned n => 0 <= n < 2 ^ 16
  | KindU24, DynUnsigned n => 0 <= n < 2 ^ 24
  | KindU32, DynUnsigned n => 0 <= n < 2 ^ 32
  | KindI8, DynSigned n => - 2 ^ 7 <= n < 2 ^ 7
  | KindI16, DynSigned n => - 2 ^ 15 <= n < 2 ^ 15
  | KindI32, DynSigned n => - 2 ^ 31 <= n < 2 ^ 31
  | KindF32, DynFloat bits => 0 <= bits < 2 ^ 32
  | KindBoolean, DynBoolean _ => True
  | KindBytes n, DynBytes l => zlen l = n /\ all_u8 l
  | KindLatin1 n, DynText s => zlen s <= n /\ Forall (fun c => 0 <= c < 256) s
  | KindPackedAscii n, DynText s => 6 * zlen s <= 8 * n /\ Forall (fun c => 0x20 <= c <= 0x5f) s
  | KindEnum8 choices, DynEnumeration code name =>
      0 <= code < 2 ^ 8
      /\ match name with
         | Some label => mkChoice code label ∈ choices
         | None => ~ code ∈ ch_value <$> choices
         end
  | _, _ => False
  end.

Lemma packed_codes_spec fuel accumulator bits output bits' output' :
  packed_codes fuel accumulator bits output = (bits', output') ->
  0 <= bits < 6 * Z.of_nat fuel ->
  0 <= bits' < 6
  /\ exists codes, output' = output ++ codes /\ 6 * zlen codes + bits' = bits
                   /\ Forall (fun c => 0x20 <= c <= 0x5f) codes.
Proof.
  revert bits output. induction fuel as [|fuel IH]; intros bits output; [lia|].
  cbn [packed_codes]. destruct (Z.leb_spec 6 bits) as [Hb|Hb].
  - intros E Hlt. apply IH in E as (Hb' & codes & -> & Hz & Hc); [|lia].
    set (code := Z.land (Z.shiftr accumulator (bits - 6)) 0x3f) in *. split; [done|].
    exists ((code + 0x20) :: codes). split_and!.
    + by rewrite <- app_assoc.
    + unfold zlen in *. cbn [length]. lia.
    + constructor; [|done]. assert (0 <= code < 2 ^ 6); [|lia]. unfold code.
      change 0x3f with (Z.ones 6). rewrite Z.land_ones by lia. apply Z.mod_pos_bound. lia.
  - intros [= <- <-] Hlt. split; [lia|]. exists []. rewrite app_nil_r. split_and!; [done|unfold zlen; cbn [length]; lia|constructor].
Qed.

Lemma packed_loop_spec l accumulator bits output :
  0 <= bits < 6 ->
  exists codes, packed_loop l accumulator bits output = output ++ codes
    /\ 6 * zlen codes <= 8 * zlen l + bits /\ Forall (fun c => 0x20 <= c <= 0x5f) codes.
Proof.
  revert accumulator bits output. induction l as [|b l IH]; intros accumulator bits output Hb; cbn [packed_loop].
  { exists []. rewrite app_nil_r. split_and!; [done|unfold zlen; cbn [length]; lia|constructor]. }
  destruct (packed_codes 3 _ (bits + 8) output) as [bits' output'] eqn:E.
  apply packed_codes_spec in E as (Hb' & codes & -> & Hz & Hc); [|lia].
  destruct (IH (Z.lor (Z.land (Z.shiftl accumulator 8) u32_max) b) bits' (output ++ codes) Hb')
    as (more & -> & Hm & Hc').
  exists (codes ++ more). split_and!; [by rewrite <- app_assoc| |by apply Forall_app].
  rewrite zlen_app. unfold zlen in *. cbn [length]. lia.
Qed.

Lemma find_choice code choices :
  match ch_name <$> List.find (fun choice => ch_value choice =? code) choices with
  | Some label => mkChoice code label ∈ choices
  | None => ~ code ∈ ch_value <$> choices
  end.
Proof.
  induction choices as [|c choices IH]; cbn; [by intros ?%elem_of_nil|].
  destruct (Z.eqb_spec (ch_value c) code) as [E|E]; cbn.
  - destruct c as [value name]; cbn in E |- *; subst. by left.
  - destruct (List.find _ choices) as [x|]; cbn in *; [by right|].
    intros [->|?]%elem_of_cons; done.
Qed.

Lemma to_signed_range bits n : 0 < bits -> 0 <= n < 2 ^ bits -> - 2 ^ (bits - 1) <= to_signed bits n < 2 ^ (bits - 1).
Proof.
  intros Hb Hn. unfold to_signed. assert (E : 2 ^ bits = 2 * 2 ^ (bits - 1)).
  { rewrite <- Z.pow_succ_r by lia. f_equal. lia. }
  destruct (Z.ltb_spec n (2 ^ (bits - 1))); lia.
Qed.

Lemma prefix_Forall_trim (P : Z -> Prop) p l :
  Forall P l -> zlen (trim_end_matches p l) <= zlen l /\ Forall P (trim_end_matches p l).
Proof.
  intros Hl. destruct (trim_end_matches_split p l) as (k & E & _). rewrite E in Hl.
  apply Forall_app in Hl as [Hl _]. split; [|done]. rewrite E at 2. rewrite zlen_app.
  pose proof (zlen_nonneg k). lia.
Qed.

Lemma field_value_kind k l :
  zlen l = encoded_len k -> all_u8 l -> has_kind k (field_value k l).
Proof.
  intros Hl Hu. pose proof (from_be_bytes_bound l Hu) as Hn. rewrite Hl in Hn.
  destruct k; cbn [encoded_len] in Hl, Hn; cbn [field_value has_kind]; try done;
    try (change (2 ^ 24) with (256 ^ 3); done).
  - apply (to_signed_range 8); [lia|done].
  - apply (to_signed_range 16); [lia|done].
  - apply (to_signed_range 32); [lia|done].
  - rewrite <- Hl. by apply prefix_Forall_trim.
  - destruct (packed_loop_spec l 0 0 [] ltac:(lia)) as (codes & E & Hz & Hc).
    rewrite <- decode_packed_codes by done. unfold decode_packed_ascii. rewrite E. cbn [app].
    destruct (prefix_Forall_trim _ char_is_whitespace codes Hc) as [Ht Hf]. split; [|done].
    unfold trim_end. lia.
  - split; [done|]. apply find_choice.
Qed.

Lemma layout_kinds fields l name v :
  fields_typed fields -> all_u8 l -> schema_size fields <= zlen l ->
  (name, v) ∈ layout fields l -> exists f, f ∈ fields /\ fs_name f = name /\ has_kind (fs_field_type f) v.
Proof.
  intros Ht. revert l. induction Ht as [|f fields Hf Ht IH]; intros l Hu Hle; cbn [layout].
  { by intros ?%elem_of_nil. }
  unfold schema_size in Hle. cbn [foldr] in Hle. fold (schema_size fields) in Hle.
  pose proof (schema_size_nonneg fields Ht).
  intros [[= -> ->]|Hin]%elem_of_cons.
  - exists f. split_and!; [by left|done|]. apply field_value_kind; [|by apply Forall_take].
    unfold zlen in *. rewrite length_take. lia.
  - destruct (IH (drop (Z.to_nat (encoded_len (fs_field_type f))) l)) as (g & ? & ? & ?); try done.
    + by apply Forall_drop.
    + unfold zlen in *. rewrite length_drop. lia.
    + exists g. split_and!; [by right|done|done].
Qed.

(** C35. Decoded records are well typed: every field of the schema has exactly one value, of
    its own kind and in the range of its width; bytes keep their length, texts their alphabet,
    an enumeration keeps its code and has a label exactly when the schema names that code;
    the record has no value of any other name. *)
Theorem decoded_records_are_well_typed (s : DataSchema) (l : bytes) (r : DynamicRecord) :
  fields_typed (sch_fields s) -> all_u8 l -> usize_len l ->
  DataSchema_decode s l = Ok r ->
  (forall f, f ∈ sch_fields s ->
     exists v, dyn_values r !! fs_name f = Some v /\ has_kind (fs_field_type f) v)
  /\ (forall name v, dyn_values r !! name = Some v ->
        exists f, f ∈ sch_fields s /\ fs_name f = name /\ has_kind (fs_field_type f) v)
  /\ all_u8 (dyn_tail r).
Proof.
  intros Ht Hu Hlen E.
  assert (Hv : DataSchema_validate s = Ok tt).
  { unfold DataSchema_decode in E. by destruct (DataSchema_validate s) as [[]|]. }
  pose proof (decode_spec s l Ht Hu Hlen Hv) as Hd. cbn zeta in Hd. rewrite E in Hd.
  destruct Hd as (Hsize & Htail & Hvals). pose proof (validate_schema_ok s Hv) as (Hnd & _ & _).
  assert (Hle : schema_size (sch_fields s) <= zlen l) by (destruct (sch_preserve_tail s); lia).
  split_and!.
  - intros f Hf.
    assert (Hin : fs_name f ∈ (layout (sch_fields s) l).*1).
    { rewrite layout_names. apply list_elem_of_fmap. by exists f. }
    apply list_elem_of_fmap in Hin as ([name v] & Ename & Hin). cbn in Ename. subst name.
    exists v. split; [by apply Hvals|].
    destruct (layout_kinds _ _ _ _ Ht Hu Hle Hin) as (g & Hg & Eg & Hk).
    assert (f = g) as ->; [|done].
    apply list_elem_of_lookup in Hf as (i & Hi). apply list_elem_of_lookup in Hg as (j & Hj).
    assert (i = j) as ->; [|congruence].
    eapply (NoDup_lookup (fs_name <$> sch_fields s)); [done| |]; rewrite list_lookup_fmap.
    + by rewrite Hi.
    + by rewrite Hj; cbn; rewrite Eg.
  - intros name v Hn%Hvals. by eapply layout_kinds.
  - rewrite Htail. by apply Forall_drop.
Qed.

(** ** Packed text

    The schema decoder and the tag operations disagree on every code of packed text. *)

Lemma packed_code_disagrees (code : Z) :
  0 <= code < 64 -> code + 0x20 <> unpack_ascii code.
Proof.
  intros Hc. assert (H : forallb (fun c => negb (c + 0x20 =? unpack_ascii c)) (seqZ 0 64) = true)
    by (vm_compute; reflexivity).
  rewrite forallb_forall in H. specialize (H code).
  rewrite <- list_elem_of_In, elem_of_seqZ in H. specialize (H ltac:(lia)).
  by apply negb_true_iff, Z.eqb_neq in H.
Qed.

Example packed_text_disagrees :
  let hart := [72; 65; 82; 84] in
  pack_text hart 3 = Ok [0x20; 0x14; 0x94] /\ unpack_text [0x20; 0x14; 0x94] = hart
  /\ decode_packed_ascii [0x20; 0x14; 0x94] = [40; 33; 50; 52].
Proof. vm_compute. auto. Qed.

Definition demo_schema : DataSchema :=
  mkSchema [mkField [117] KindU8; mkField [105] KindI16;
            mkField [101] (KindEnum8 [mkChoice 1 [111; 110]])] true.

Lemma schema_decode_exact_witness :
  match DataSchema_decode demo_schema [7; 255; 254; 1; 9] with
  | Ok r => dyn_tail r = [9] /\ dyn_values r !! [105] = Some (DynSigned (-2))
  | Err _ => False
  end.
Proof.
  pose proof (schema_decode_exact demo_schema [7; 255; 254; 1; 9]
    ltac:(repeat constructor; cbn; lia) ltac:(repeat constructor; lia)
    ltac:(unfold usize_len, isize_max, zlen; cbn; lia) ltac:(reflexivity)) as Hd.
  cbn zeta in Hd.
  destruct (DataSchema_decode demo_schema [7; 255; 254; 1; 9]) as [r|] eqn:E;
    [|vm_compute in E; discriminate E].
  destruct Hd as (_ & Ht & Hv). split; [exact Ht|]. apply Hv. vm_compute. right. left.
Defined.

Lemma decoded_records_are_well_typed_witness :
  match DataSchema_decode demo_schema [7; 255; 254; 1; 9] with
  | Ok r => exists v, dyn_values r !! [101] = Some v
              /\ has_kind (KindEnum8 [mkChoice 1 [111; 110]]) v
  | Err _ => False
  end.
Proof.
  destruct (DataSchema_decode demo_schema [7; 255; 254; 1; 9]) as [r|] eqn:E;
    [|vm_compute in E; discriminate E].
  destruct (decoded_records_are_well_typed demo_schema [7; 255; 254; 1; 9] r
    ltac:(repeat constructor; cbn; lia) ltac:(repeat constructor; lia)
    ltac:(unfold usize_len, isize_max, zlen; cbn; lia) E) as (Hf & _).
  apply (Hf (mkField [101] (KindEnum8 [mkChoice 1 [111; 110]]))). right. right. left.
Defined.
