(* ===== verification/DeviceCatalog.v ===== *)
(** * Device profiles and packages (src/src/device/catalog.rs, src/src/package.rs)

    Profiles of exact device revisions, the catalog that keeps them, and the import of a
    container of profiles. The JSON reader and the ZIP reader are third-party code: the
    parser is an argument, and an archive is what the reader gives for it. *)
From stdpp Require Import gmap.
From S2P Require Import Prelude Chars Wire Catalog Codec Schema Burst.

Definition DEFAULT_MAXIMUM_CATALOG_PROFILES : Z := 4096.
Definition DEFAULT_MAXIMUM_CATALOG_JSON_BYTES : Z := 8 * 1024 * 1024.
Definition MAXIMUM_CATALOG_PROFILES : Z := 65536.
Definition MAXIMUM_CATALOG_JSON_BYTES : Z := 64 * 1024 * 1024.
Definition MAXIMUM_PROFILE_TEXT_BYTES : Z := 1024.
Definition MAXIMUM_PROFILE_COMMANDS : Z := 4096.

Record CatalogLimits := mkCatalogLimits { cat_profiles : Z; cat_json_bytes : Z }.

Definition CatalogLimits_default : CatalogLimits :=
  mkCatalogLimits DEFAULT_MAXIMUM_CATALOG_PROFILES DEFAULT_MAXIMUM_CATALOG_JSON_BYTES.
Definition CatalogLimits_with_profiles (l : CatalogLimits) (n : Z) : CatalogLimits :=
  mkCatalogLimits n (cat_json_bytes l).
Definition CatalogLimits_with_json_bytes (l : CatalogLimits) (n : Z) : CatalogLimits :=
  mkCatalogLimits (cat_profiles l) n.

Inductive CatalogLoadError :=
  | LoadJson
  | LoadSchema (e : SchemaError)
  | LoadZeroLimit
  | ProfileConfigurationLimit (n : Z)
  | JsonConfigurationLimit (n : Z)
  | JsonLimit (actual maximum : Z).

Definition CatalogLimits_validate (l : CatalogLimits) : result CatalogLoadError unit :=
  return_if (cat_profiles l =? 0) || (cat_json_bytes l =? 0) err LoadZeroLimit ;;
  return_if MAXIMUM_CATALOG_PROFILES <? cat_profiles l err ProfileConfigurationLimit (cat_profiles l) ;;
  return_if MAXIMUM_CATALOG_JSON_BYTES <? cat_json_bytes l
    err JsonConfigurationLimit (cat_json_bytes l) ;;
  Ok tt.

(** ** Profiles *)

(** The expanded type and the revision. *)
Record DeviceKey := mkDeviceKey { key_expanded_type : Z; key_device_revision : Z }.

#[global] Instance DeviceKey_eq_dec : EqDecision DeviceKey.
Proof. solve_decision. Defined.

#[global] Instance DeviceKey_countable : Countable DeviceKey.
Proof.
  by apply (inj_countable' (fun k => (key_expanded_type k, key_device_revision k))
              (fun p => mkDeviceKey p.1 p.2)); intros [].
Defined.

Definition DeviceKey_new (expanded_type device_revision : Z) : result SchemaError DeviceKey :=
  return_if 0x3fff <? expanded_type err SchemaExpandedDeviceType expanded_type ;;
  Ok (mkDeviceKey expanded_type device_revision).

Inductive ResponseCodeStatus := StatusSuccess | StatusWarning | StatusError.

#[global] Instance ResponseCodeStatus_eq_dec : EqDecision ResponseCodeStatus.
Proof. solve_decision. Defined.

Record ResponseCodeDefinition := mkCodeDefinition {
  rcd_status : ResponseCodeStatus;
  rcd_description : text;
}.

Definition ResponseCodeDefinition_new (status : ResponseCodeStatus) (description : text)
    : ResponseCodeDefinition := mkCodeDefinition status description.

Record DeviceProfile := mkDeviceProfile {
  dp_key : DeviceKey;
  dp_display_name : text;
  dp_source_revision : text;
  dp_responses : list (Z * DataSchema);
  dp_response_codes : list (Z * list (Z * ResponseCodeDefinition));
}.

Definition DeviceProfile_new (key : DeviceKey) (display_name source_revision : text)
    : DeviceProfile := mkDeviceProfile key display_name source_revision [] [].

Definition DeviceProfile_with_response (p : DeviceProfile) (command : CommandCode)
    (schema : DataSchema) : DeviceProfile :=
  mkDeviceProfile (dp_key p) (dp_display_name p) (dp_source_revision p)
    (btree_insert (CommandCode_get command) schema (dp_responses p)) (dp_response_codes p).

Definition DeviceProfile_with_response_code (p : DeviceProfile) (command : CommandCode) (code : Z)
    (definition : ResponseCodeDefinition) : DeviceProfile :=
  let codes := default [] (btree_get (CommandCode_get command) (dp_response_codes p)) in
  mkDeviceProfile (dp_key p) (dp_display_name p) (dp_source_revision p) (dp_responses p)
    (btree_insert (CommandCode_get command) (btree_insert code definition codes)
       (dp_response_codes p)).

Definition DeviceProfile_response (p : DeviceProfile) (command : CommandCode) : option DataSchema :=
  btree_get (CommandCode_get command) (dp_responses p).

Definition DeviceProfile_response_code (p : DeviceProfile) (command : CommandCode) (code : Z)
    : option ResponseCodeDefinition :=
  match btree_get (CommandCode_get command) (dp_response_codes p) with
  | Some codes => btree_get code codes
  | None => None
  end.

Definition DeviceProfile_warning_codes (p : DeviceProfile) (command : CommandCode) : bytes :=
  omap (fun e => if bool_decide (rcd_status e.2 = StatusWarning) then Some e.1 else None)
    (default [] (btree_get (CommandCode_get command) (dp_response_codes p))).

Fixpoint validate_responses (l : list (Z * DataSchema)) : result SchemaError unit :=
  match l with
  | [] => Ok tt
  | (_, schema) :: l => let? _ := DataSchema_validate schema ;; validate_responses l
  end.

Fixpoint validate_codes (l : list (Z * ResponseCodeDefinition)) : result SchemaError unit :=
  match l with
  | [] => Ok tt
  | (code, definition) :: l =>
      return_if negb (Z.land code 0x80 =? 0) err SchemaResponseCode code ;;
      return_if bool_decide (trim (rcd_description definition) = [])
        err EmptyResponseCodeDescription code ;;
      return_if MAXIMUM_PROFILE_TEXT_BYTES <? str_len (rcd_description definition)
        err ProfileTextTooLong "response code description" (str_len (rcd_description definition)) ;;
      validate_codes l
  end.

Fixpoint validate_response_codes (l : list (Z * list (Z * ResponseCodeDefinition)))
    : result SchemaError unit :=
  match l with
  | [] => Ok tt
  | (_, codes) :: l => let? _ := validate_codes codes ;; validate_response_codes l
  end.

Definition DeviceProfile_validate (p : DeviceProfile) : result SchemaError unit :=
  return_if 0x3fff <? key_expanded_type (dp_key p)
    err SchemaExpandedDeviceType (key_expanded_type (dp_key p)) ;;
  return_if bool_decide (trim (dp_display_name p) = []) err EmptyProfileName ;;
  return_if bool_decide (trim (dp_source_revision p) = []) err MissingSourceRevision ;;
  return_if MAXIMUM_PROFILE_TEXT_BYTES <? str_len (dp_display_name p)
    err ProfileTextTooLong "display_name" (str_len (dp_display_name p)) ;;
  return_if MAXIMUM_PROFILE_TEXT_BYTES <? str_len (dp_source_revision p)
    err ProfileTextTooLong "source_revision" (str_len (dp_source_revision p)) ;;
  return_if (MAXIMUM_PROFILE_COMMANDS <? zlen (dp_responses p))
            || (MAXIMUM_PROFILE_COMMANDS <? zlen (dp_response_codes p))
    err TooManyProfileCommands (Z.max (zlen (dp_responses p)) (zlen (dp_response_codes p))) ;;
  let? _ := validate_responses (dp_responses p) ;;
  validate_response_codes (dp_response_codes p).

(** ** The catalog *)

Record DeviceCatalog := mkDeviceCatalog {
  dc_profiles : gmap DeviceKey DeviceProfile;
  dc_limits : CatalogLimits;
}.

Definition DeviceCatalog_new : DeviceCatalog := mkDeviceCatalog ∅ CatalogLimits_default.

Definition DeviceCatalog_with_limits (limits : CatalogLimits) : result CatalogLoadError DeviceCatalog :=
  let? _ := CatalogLimits_validate limits ;;
  Ok (mkDeviceCatalog ∅ limits).

(** The replaced profile and the catalog. *)
Definition DeviceCatalog_insert (c : DeviceCatalog) (profile : DeviceProfile)
    : result SchemaError (option DeviceProfile * DeviceCatalog) :=
  let? _ := DeviceProfile_validate profile ;;
  return_if bool_decide (dc_profiles c !! dp_key profile = None)
            && (cat_profiles (dc_limits c) <=? Z.of_nat (size (dc_profiles c)))
    err CatalogProfileLimit (cat_profiles (dc_limits c)) ;;
  Ok (dc_profiles c !! dp_key profile,
      mkDeviceCatalog (<[dp_key profile := profile]> (dc_profiles c)) (dc_limits c)).

Definition DeviceCatalog_resolve (c : DeviceCatalog) (key : DeviceKey) : option DeviceProfile :=
  dc_profiles c !! key.

Definition DeviceCatalog_len (c : DeviceCatalog) : Z := Z.of_nat (size (dc_profiles c)).
Definition DeviceCatalog_is_empty (c : DeviceCatalog) : bool := bool_decide (dc_profiles c = ∅).

Section Load.
Context (parse_json : bytes -> option DeviceProfile).

Definition DeviceCatalog_load_json (c : DeviceCatalog) (l : bytes)
    : result CatalogLoadError (DeviceKey * DeviceCatalog) :=
  return_if cat_json_bytes (dc_limits c) <? zlen l
    err JsonLimit (zlen l) (cat_json_bytes (dc_limits c)) ;;
  let? profile := ok_or (parse_json l) LoadJson ;;
  let? inserted := result_map_err LoadSchema (DeviceCatalog_insert c profile) ;;
  Ok (dp_key profile, inserted.2).

(** ** Packages *)

(** An entry as the ZIP reader gives it: its name, whether the name stays below the root,
    the declared size, whether it is a file, and the bytes it reads, or the error. *)
Record ArchiveEntry := mkArchiveEntry {
  ae_name : text;
  ae_enclosed : bool;
  ae_size : Z;
  ae_is_file : bool;
  ae_content : option bytes;
}.

Inductive PackageError :=
  | PackageZeroLimit
  | LimitTooLarge (what : string)
  | ArchiveSize (actual maximum : Z)
  | PackageZip
  | PackageIo
  | FileCount
  | FileNameSize (n : Z)
  | FileSize (name : text)
  | TotalSize
  | UnsafePath (name : text)
  | PackageDevice (e : CatalogLoadError)
  | DuplicateDevice (expanded_type device_revision : Z).

Record PackageLimits := mkPackageLimits {
  pkl_archive_bytes : Z;
  pkl_files : Z;
  pkl_file_name_bytes : Z;
  pkl_uncompressed_bytes : Z;
  pkl_file_bytes : Z;
}.

Definition MAXIMUM_PACKAGE_ARCHIVE_BYTES : Z := 256 * 1024 * 1024.
Definition MAXIMUM_PACKAGE_FILES : Z := 65536.
Definition MAXIMUM_PACKAGE_FILE_NAME_BYTES : Z := 16 * 1024.
Definition MAXIMUM_PACKAGE_UNCOMPRESSED_BYTES : Z := 1024 * 1024 * 1024.
Definition MAXIMUM_PACKAGE_FILE_BYTES : Z := 64 * 1024 * 1024.

Definition PackageLimits_default : PackageLimits :=
  mkPackageLimits (64 * 1024 * 1024) 1024 1024 (64 * 1024 * 1024) (8 * 1024 * 1024).

Definition PackageLimits_validate (l : PackageLimits) : result PackageError unit :=
  return_if (pkl_archive_bytes l =? 0) || (pkl_files l =? 0) || (pkl_file_name_bytes l =? 0)
            || (pkl_uncompressed_bytes l =? 0) || (pkl_file_bytes l =? 0)
    err PackageZeroLimit ;;
  return_if MAXIMUM_PACKAGE_ARCHIVE_BYTES <? pkl_archive_bytes l err LimitTooLarge "archive_bytes" ;;
  return_if MAXIMUM_PACKAGE_FILES <? pkl_files l err LimitTooLarge "files" ;;
  return_if MAXIMUM_PACKAGE_FILE_NAME_BYTES <? pkl_file_name_bytes l
    err LimitTooLarge "file_name_bytes" ;;
  return_if MAXIMUM_PACKAGE_UNCOMPRESSED_BYTES <? pkl_uncompressed_bytes l
    err LimitTooLarge "uncompressed_bytes" ;;
  return_if MAXIMUM_PACKAGE_FILE_BYTES <? pkl_file_bytes l err LimitTooLarge "file_bytes" ;;
  Ok tt.

Definition PackageLimits_with_archive_bytes (l : PackageLimits) (n : Z) : PackageLimits :=
  mkPackageLimits n (pkl_files l) (pkl_file_name_bytes l) (pkl_uncompressed_bytes l) (pkl_file_bytes l).
Definition PackageLimits_with_files (l : PackageLimits) (n : Z) : PackageLimits :=
  mkPackageLimits (pkl_archive_bytes l) n (pkl_file_name_bytes l) (pkl_uncompressed_bytes l)
    (pkl_file_bytes l).
Definition PackageLimits_with_file_name_bytes (l : PackageLimits) (n : Z) : PackageLimits :=
  mkPackageLimits (pkl_archive_bytes l) (pkl_files l) n (pkl_uncompressed_bytes l) (pkl_file_bytes l).
Definition PackageLimits_with_uncompressed_bytes (l : PackageLimits) (n : Z) : PackageLimits :=
  mkPackageLimits (pkl_archive_bytes l) (pkl_files l) (pkl_file_name_bytes l) n (pkl_file_bytes l).
Definition PackageLimits_with_file_bytes (l : PackageLimits) (n : Z) : PackageLimits :=
  mkPackageLimits (pkl_archive_bytes l) (pkl_files l) (pkl_file_name_bytes l)
    (pkl_uncompressed_bytes l) n.

Record PackageReport := mkPackageReport {
  pr_devices : list DeviceKey;
  pr_inspected_files : Z;
  pr_skipped_json : list text;
}.

(** [name.to_ascii_lowercase().ends_with(".json")]. *)
Definition ascii_lower (c : Z) : Z := if in_range 65 90 c then c + 32 else c.

Definition is_json_name (name : text) : bool :=
  bool_decide (drop (length name - 5) (map ascii_lower name) = [46; 106; 115; 111; 110]).

(** What the loop carries: the declared and the read total, the keys and names found, the
    staging catalog. *)
Record Import := mkImport {
  im_total : Z;
  im_json_bytes : Z;
  im_devices : list DeviceKey;
  im_skipped : list text;
  im_keys : gset DeviceKey;
  im_staging : DeviceCatalog;
}.

Definition import_json (limits : PackageLimits) (i : Import) (name : text) (content : option bytes)
    : result PackageError Import :=
  let read_limit := saturating_add u64_max (pkl_file_bytes limits) 1 in
  let? content := ok_or content PackageIo ;;
  let content := take (Z.to_nat read_limit) content in
  return_if pkl_file_bytes limits <? zlen content err FileSize name ;;
  let? json_bytes := ok_or (checked_add u64_max (im_json_bytes i) (zlen content)) TotalSize ;;
  return_if pkl_uncompressed_bytes limits <? json_bytes err TotalSize ;;
  match DeviceCatalog_load_json (im_staging i) content with
  | Ok (key, staging) =>
      if bool_decide (key ∈ im_keys i) then
        Err (DuplicateDevice (key_expanded_type key) (key_device_revision key))
      else
        Ok (mkImport (im_total i) json_bytes (im_devices i ++ [key]) (im_skipped i)
              ({[key]} ∪ im_keys i) staging)
  | Err ((JsonLimit _ _ | LoadSchema (CatalogProfileLimit _)) as e) => Err (PackageDevice e)
  | Err _ =>
      Ok (mkImport (im_total i) json_bytes (im_devices i) (im_skipped i ++ [name]) (im_keys i)
            (im_staging i))
  end.

(** [None] is an entry the reader cannot open. *)
Fixpoint import_entries (limits : PackageLimits) (entries : list (option ArchiveEntry)) (i : Import)
    : result PackageError Import :=
  match entries with
  | [] => Ok i
  | entry :: entries =>
      let? file := ok_or entry PackageZip ;;
      return_if pkl_file_name_bytes limits <? str_len (ae_name file)
        err FileNameSize (str_len (ae_name file)) ;;
      return_if negb (ae_enclosed file) err UnsafePath (ae_name file) ;;
      return_if pkl_file_bytes limits <? ae_size file err FileSize (ae_name file) ;;
      let? total := ok_or (checked_add u64_max (im_total i) (ae_size file)) TotalSize ;;
      return_if pkl_uncompressed_bytes limits <? total err TotalSize ;;
      let i := mkImport total (im_json_bytes i) (im_devices i) (im_skipped i) (im_keys i)
                 (im_staging i) in
      if ae_is_file file && is_json_name (ae_name file) then
        let? i := import_json limits i (ae_name file) (ae_content file) ;;
        import_entries limits entries i
      else import_entries limits entries i
  end.

(** [open_archive] is the ZIP reader. *)
Definition import_package (open_archive : bytes -> option (list (option ArchiveEntry)))
    (l : bytes) (catalog : DeviceCatalog) (limits : PackageLimits)
    : result PackageError PackageReport * DeviceCatalog :=
  let run : result PackageError (PackageReport * DeviceCatalog) :=
    let? _ := PackageLimits_validate limits ;;
    return_if pkl_archive_bytes limits <? zlen l err ArchiveSize (zlen l) (pkl_archive_bytes limits) ;;
    let? archive := ok_or (open_archive l) PackageZip ;;
    return_if pkl_files limits <? zlen archive err FileCount ;;
    let? i := import_entries limits archive (mkImport 0 0 [] [] ∅ catalog) ;;
    Ok (mkPackageReport (im_devices i) (zlen archive) (im_skipped i), im_staging i) in
  match run with
  | Ok (report, staging) => (Ok report, staging)
  | Err e => (Err e, catalog)
  end.
End Load.
