(* ===== verification/PackageProps.v ===== *)
(** * Device profiles and packages: properties *)
From stdpp Require Import gmap.
From S2P Require Import Prelude Chars Wire Catalog Codec Schema DeviceCatalog.

(** A catalog holds valid profiles under their own keys, within its limit. *)
Record catalog_ok (c : DeviceCatalog) : Prop := {
  co_size : Z.of_nat (size (dc_profiles c)) <= cat_profiles (dc_limits c);
  co_profiles : forall key p, dc_profiles c !! key = Some p ->
    dp_key p = key /\ DeviceProfile_validate p = Ok tt;
}.

Lemma insert_ok c p old c' :
  catalog_ok c -> DeviceCatalog_insert c p = Ok (old, c') ->
  catalog_ok c' /\ dc_limits c' = dc_limits c
  /\ dc_profiles c' = <[dp_key p := p]> (dc_profiles c) /\ DeviceProfile_validate p = Ok tt.
Proof.
  intros [Hs Hp]. unfold DeviceCatalog_insert. intros ([] & Hv & E)%result_bind_Ok.
  destruct (bool_decide_reflect (dc_profiles c !! dp_key p = None)) as [Hn|Hn]; cbn [andb] in E.
  - destruct (Z.leb_spec (cat_profiles (dc_limits c)) (Z.of_nat (size (dc_profiles c)))); [done|].
    injection E as _ <-. split_and!; try done. constructor; cbn.
    + rewrite map_size_insert_None by done. lia.
    + intros key q [[<- <-]|[_ Hq]]%lookup_insert_Some; [done|by apply Hp].
  - injection E as _ <-. split_and!; try done. constructor; cbn.
    + destruct (dc_profiles c !! dp_key p) as [q|] eqn:Eq; [|done].
      erewrite map_size_insert_Some by done. lia.
    + intros key q [[<- <-]|[_ Hq]]%lookup_insert_Some; [done|by apply Hp].
Qed.

Section Package.
Context (parse_json : bytes -> option DeviceProfile).

Lemma load_json_ok c l key c' :
  catalog_ok c -> DeviceCatalog_load_json parse_json c l = Ok (key, c') ->
  catalog_ok c' /\ dc_limits c' = dc_limits c
  /\ exists p, parse_json l = Some p /\ dp_key p = key
               /\ dc_profiles c' = <[key := p]> (dc_profiles c).
Proof.
  intros Hc. unfold DeviceCatalog_load_json. destruct (_ <? zlen l); [done|].
  intros (p & Hp & E)%result_bind_Ok. apply result_bind_Ok in E as ([old c1] & Hi & [= <- <-]).
  destruct (parse_json l) as [q|]; [|done]. injection Hp as ->.
  destruct (DeviceCatalog_insert c p) as [[old' c2]|] eqn:E; [|done]. injection Hi as -> ->.
  destruct (insert_ok c p old c1 Hc E) as (H1 & H2 & H3 & _). split_and!; [done|done|]. by exists p.
Qed.

(** The files a package offers as profiles: JSON entries with the bytes that are read. *)
Definition offers (limits : PackageLimits) (entry : option ArchiveEntry) (content : bytes) : Prop :=
  exists file whole, entry = Some file /\ ae_is_file file = true /\ is_json_name (ae_name file) = true
    /\ ae_content file = Some whole /\ content = take (Z.to_nat (pkl_file_bytes limits + 1)) whole
    /\ zlen content <= pkl_file_bytes limits.

(** An entry that was let through. *)
Definition entry_ok (limits : PackageLimits) (entry : option ArchiveEntry) : Prop :=
  exists file, entry = Some file /\ ae_enclosed file = true
    /\ str_len (ae_name file) <= pkl_file_name_bytes limits /\ ae_size file <= pkl_file_bytes limits.

(** The state of the loop after the entries [seen]. *)
Record import_ok (limits : PackageLimits) (catalog : DeviceCatalog)
    (seen : list (option ArchiveEntry)) (i : Import) : Prop := {
  io_catalog : catalog_ok (im_staging i);
  io_limits : dc_limits (im_staging i) = dc_limits catalog;
  io_nodup : NoDup (im_devices i);
  io_keys : forall key, key ∈ im_keys i <-> key ∈ im_devices i;
  io_changed : forall key, ~ key ∈ im_devices i ->
    dc_profiles (im_staging i) !! key = dc_profiles catalog !! key;
  io_loaded : forall key, key ∈ im_devices i -> exists entry content p,
    entry ∈ seen /\ offers limits entry content /\ parse_json content = Some p
    /\ dc_profiles (im_staging i) !! key = Some p;
  io_entries : Forall (entry_ok limits) seen;
}.

Lemma import_json_ok limits catalog seen i file whole i' :
  0 <= pkl_file_bytes limits < u64_max -> import_ok limits catalog seen i ->
  Some file ∈ seen -> ae_is_file file = true -> is_json_name (ae_name file) = true ->
  ae_content file = whole ->
  import_json parse_json limits i (ae_name file) whole = Ok i' ->
  import_ok limits catalog seen i'.
Proof.
  intros Hb [H1 H2 H3 H4 H5 H6 H7] Hseen Hfile Hname Hwhole. unfold import_json.
  replace (saturating_add u64_max (pkl_file_bytes limits) 1) with (pkl_file_bytes limits + 1)
    by (unfold saturating_add; lia).
  intros (content & Hc & E)%result_bind_Ok. destruct whole as [whole|]; [|done]. injection Hc as ->.
  set (data := take (Z.to_nat (pkl_file_bytes limits + 1)) content) in *.
  destruct (Z.ltb_spec (pkl_file_bytes limits) (zlen data)) as [|Hsize]; [done|].
  apply result_bind_Ok in E as (json_bytes & _ & E).
  destruct (_ <? json_bytes); [done|].
  assert (Hoffer : offers limits (Some file) data).
  { exists file, content. by split_and!. }
  destruct (DeviceCatalog_load_json parse_json (im_staging i) data) as [[key staging]|e] eqn:El.
  - destruct (bool_decide_reflect (key ∈ im_keys i)) as [|Hk]; [done|]. injection E as <-.
    apply load_json_ok in El as (Hc & Hl & p & Hp & Hkey & Hs); [|done].
    assert (Hkd : ~ key ∈ im_devices i) by (by rewrite <- H4).
    constructor; cbn; try done.
    + by rewrite Hl.
    + apply NoDup_app. split_and!; [done| |apply NoDup_singleton]. intros x Hx ->%list_elem_of_singleton. done.
    + intros x. rewrite elem_of_union, elem_of_singleton, elem_of_app, list_elem_of_singleton, H4. tauto.
    + intros x Hx. rewrite elem_of_app, list_elem_of_singleton in Hx.
      rewrite Hs, lookup_insert_ne by (intros <-; tauto). apply H5. tauto.
    + intros x [Hx| ->%list_elem_of_singleton]%elem_of_app.
      * destruct (H6 x Hx) as (entry & c & q & ? & ? & ? & Hq). exists entry, c, q. split_and!; try done.
        rewrite Hs, lookup_insert_ne by (by intros <-). done.
      * exists (Some file), data, p. split_and!; try done. by rewrite Hs, lookup_insert_eq.
  - assert (Eskip : i' = mkImport (im_total i) json_bytes (im_devices i) (im_skipped i ++ [ae_name file])
                           (im_keys i) (im_staging i)).
    { destruct e as [|[]| | | |]; first [discriminate E|by injection E as <-]. }
    subst i'. by constructor.
Qed.

Lemma import_ok_seen limits catalog seen i total entry :
  import_ok limits catalog seen i -> entry_ok limits entry ->
  import_ok limits catalog (seen ++ [entry])
    (mkImport total (im_json_bytes i) (im_devices i) (im_skipped i) (im_keys i) (im_staging i)).
Proof.
  intros [H1 H2 H3 H4 H5 H6 H7] He. constructor; cbn; try done.
  - intros key Hk. destruct (H6 key Hk) as (x & c & p & Hx & Hrest). exists x, c, p.
    split; [by apply elem_of_app; left|done].
  - apply Forall_app. split; [done|]. by constructor.
Qed.

Lemma import_entries_ok limits catalog entries seen i i' :
  0 <= pkl_file_bytes limits < u64_max -> import_ok limits catalog seen i ->
  import_entries parse_json limits entries i = Ok i' -> import_ok limits catalog (seen ++ entries) i'.
Proof.
  intros Hb. revert seen i. induction entries as [|entry entries IH]; intros seen i Hi; cbn [import_entries].
  { intros [= <-]. by rewrite app_nil_r. }
  intros (file & Hf & E)%result_bind_Ok. destruct entry as [f|]; [|done]. injection Hf as ->.
  destruct (Z.ltb_spec (pkl_file_name_bytes limits) (str_len (ae_name file))); [done|].
  destruct (ae_enclosed file) eqn:Een; [|done]. cbn [negb] in E.
  destruct (Z.ltb_spec (pkl_file_bytes limits) (ae_size file)); [done|].
  apply result_bind_Ok in E as (total & Ht & E).
  destruct (Z.ltb_spec (pkl_uncompressed_bytes limits) total); [done|].
  assert (He : entry_ok limits (Some file)) by (by exists file).
  pose proof (import_ok_seen limits catalog seen i total (Some file) Hi He) as Hi'.
  rewrite cons_middle, app_assoc.
  destruct (ae_is_file file && is_json_name (ae_name file)) eqn:Ej; [|by eapply IH].
  apply andb_true_iff in Ej as [Ef En]. apply result_bind_Ok in E as (i1 & E1 & E).
  eapply IH; [|exact E]. eapply import_json_ok; [done|exact Hi'| |done|done|done|exact E1].
  apply elem_of_app. right. by left.
Qed.

(** What an entry declares as its size, and what is read of it. *)
Definition declared_size (entry : option ArchiveEntry) : Z :=
  match entry with Some file => ae_size file | None => 0 end.

Definition read_size (limits : PackageLimits) (entry : option ArchiveEntry) : Z :=
  match entry with
  | Some (mkArchiveEntry name _ _ true (Some whole)) =>
      if is_json_name name then zlen (take (Z.to_nat (pkl_file_bytes limits + 1)) whole) else 0
  | _ => 0
  end.

Lemma import_json_totals limits i name whole i' :
  0 <= pkl_file_bytes limits < u64_max ->
  import_json parse_json limits i name whole = Ok i' ->
  im_total i' = im_total i /\ im_json_bytes i' <= pkl_uncompressed_bytes limits
  /\ exists content, whole = Some content
     /\ im_json_bytes i' = im_json_bytes i
                           + zlen (take (Z.to_nat (pkl_file_bytes limits + 1)) content).
Proof.
  intros Hb. unfold import_json.
  replace (saturating_add u64_max (pkl_file_bytes limits) 1) with (pkl_file_bytes limits + 1)
    by (unfold saturating_add; lia).
  intros (content & Hc & E)%result_bind_Ok. destruct whole as [whole|]; [|done]. injection Hc as ->.
  destruct (_ <? zlen _); [done|]. apply result_bind_Ok in E as (json_bytes & Hj & E).
  destruct (Z.ltb_spec (pkl_uncompressed_bytes limits) json_bytes); [done|].
  unfold checked_add in Hj. destruct (_ <=? u64_max); [|done]. injection Hj as <-.
  assert (Hi : im_total i' = im_total i /\ im_json_bytes i' = im_json_bytes i
    + zlen (take (Z.to_nat (pkl_file_bytes limits + 1)) content)).
  { repeat case_match; first [discriminate E|by injection E as <-]. }
  destruct Hi as [-> ->]. eauto.
Qed.

(** The loop adds up the declared sizes and the bytes it reads, both within the limit. *)
Lemma import_entries_totals limits entries i i' :
  0 <= pkl_file_bytes limits < u64_max ->
  im_total i <= pkl_uncompressed_bytes limits -> im_json_bytes i <= pkl_uncompressed_bytes limits ->
  import_entries parse_json limits entries i = Ok i' ->
  im_total i + total_size declared_size entries <= pkl_uncompressed_bytes limits
  /\ im_json_bytes i + total_size (read_size limits) entries <= pkl_uncompressed_bytes limits.
Proof.
  intros Hb. revert i. induction entries as [|entry entries IH]; intros i Ht Hj; cbn [import_entries].
  { intros _. cbn. lia. }
  intros (file & Hf & E)%result_bind_Ok. destruct entry as [f|]; [|done]. injection Hf as ->.
  do 3 (destruct (_ : bool); [done|]).
  apply result_bind_Ok in E as (total & Et & E). unfold checked_add in Et.
  destruct (_ <=? u64_max); [|done]. injection Et as <-.
  destruct (Z.ltb_spec (pkl_uncompressed_bytes limits) (im_total i + ae_size file)); [done|].
  cbn [total_size foldr]. fold (total_size declared_size entries).
  fold (total_size (read_size limits) entries).
  destruct file as [name en size is_file content]. cbn [ae_is_file ae_name ae_content ae_size] in *.
  destruct (is_file && is_json_name name) eqn:Ej.
  - apply andb_true_iff in Ej as [-> En]. apply result_bind_Ok in E as (i1 & E1 & E).
    apply import_json_totals in E1 as (E1 & Hl & whole & -> & E2); [|done]. cbn in E1, E2.
    destruct (IH i1) as [H1 H2]; [lia|lia|exact E|]. cbn [declared_size read_size ae_size].
    rewrite En. lia.
  - apply IH in E as [H1 H2]; [|cbn; lia..]. cbn in H1, H2. cbn [declared_size read_size ae_size].
    replace (match is_file with true => _ | false => _ end) with 0; [lia|].
    by destruct is_file, content; cbn in Ej; rewrite ?Ej.
Qed.

(** C36. Importing a package is all or nothing and bounded, for every archive and parser: on an
    error the catalog is as before; on success the devices reported are distinct, each of
    them is the profile read from a JSON file of the package, and every other profile is
    unchanged; all entries stay below the root with bounded names and sizes, and together neither
    declare nor make the import read more than the limit; the catalog stays within its limit and
    holds valid profiles only, under their own keys. *)
Theorem package_import_is_transactional
    (open_archive : bytes -> option (list (option ArchiveEntry))) (l : bytes)
    (catalog catalog' : DeviceCatalog) (limits : PackageLimits)
    (r : result PackageError PackageReport) :
  catalog_ok catalog -> 0 <= pkl_file_bytes limits -> 0 <= pkl_uncompressed_bytes limits ->
  import_package parse_json open_archive l catalog limits = (r, catalog') ->
  catalog_ok catalog'
  /\ match r with
     | Err _ => catalog' = catalog
     | Ok report =>
         NoDup (pr_devices report)
         /\ exists archive, open_archive l = Some archive
            /\ zlen l <= pkl_archive_bytes limits /\ zlen archive <= pkl_files limits
            /\ pr_inspected_files report = zlen archive
            /\ Forall (entry_ok limits) archive
            /\ total_size declared_size archive <= pkl_uncompressed_bytes limits
            /\ total_size (read_size limits) archive <= pkl_uncompressed_bytes limits
            /\ (forall key, key ∈ pr_devices report -> exists entry content p,
                  entry ∈ archive /\ offers limits entry content /\ parse_json content = Some p
                  /\ DeviceCatalog_resolve catalog' key = Some p /\ dp_key p = key)
            /\ (forall key, ~ key ∈ pr_devices report ->
                  DeviceCatalog_resolve catalog' key = DeviceCatalog_resolve catalog key)
     end.
Proof.
  intros Hc Hb Hu. unfold import_package.
  destruct (PackageLimits_validate limits) as [[]|e] eqn:Ev; cbn [result_bind]; [|by intros [= <- <-]].
  assert (Hb' : 0 <= pkl_file_bytes limits < u64_max).
  { split; [done|]. unfold PackageLimits_validate in Ev. repeat case_match; try done.
    unfold MAXIMUM_PACKAGE_FILE_BYTES, u64_max in *.
    match goal with E : (_ <? pkl_file_bytes limits) = false |- _ => apply Z.ltb_ge in E end. lia. }
  destruct (Z.ltb_spec (pkl_archive_bytes limits) (zlen l)); [by intros [= <- <-]|].
  destruct (open_archive l) as [archive|]; cbn [ok_or result_bind]; [|by intros [= <- <-]].
  destruct (Z.ltb_spec (pkl_files limits) (zlen archive)); [by intros [= <- <-]|].
  destruct (import_entries _ _ _ _) as [i|e] eqn:E; cbn [result_bind]; [|by intros [= <- <-]].
  intros [= <- <-].
  assert (Hstart : import_ok limits catalog [] (mkImport 0 0 [] [] ∅ catalog)).
  { constructor; cbn; try done; try apply NoDup_nil_2; try apply Forall_nil_2; intros key; set_solver. }
  destruct (import_entries_ok limits catalog archive [] _ i Hb' Hstart E) as [H1 H2 H3 _ H5 H6 H7].
  destruct (import_entries_totals limits archive (mkImport 0 0 [] [] ∅ catalog) i Hb' Hu Hu E)
    as [Hdeclared Hread].
  cbn [app pr_devices pr_inspected_files] in *. split; [done|]. split; [done|]. exists archive.
  split_and!; try done.
  intros key Hk. destruct (H6 key Hk) as (entry & content & p & ? & ? & ? & Hp).
  exists entry, content, p. split_and!; try done. by apply (co_profiles _ H1 key p) in Hp as [? _].
Qed.
End Package.

(** A package with one profile and a file that is none. *)
Definition demo_profile : DeviceProfile := DeviceProfile_new (mkDeviceKey 0x1234 1) [65] [49].

Definition demo_parser (l : bytes) : option DeviceProfile :=
  if bool_decide (l = [123]) then Some demo_profile else None.

Definition demo_archive (_ : bytes) : option (list (option ArchiveEntry)) :=
  Some [Some (mkArchiveEntry [97; 46; 74; 83; 79; 78] true 1 true (Some [123]));
        Some (mkArchiveEntry [98; 46; 106; 115; 111; 110] true 1 true (Some [0]))].

Lemma package_import_is_transactional_witness :
  exists report catalog,
    import_package demo_parser demo_archive [] DeviceCatalog_new PackageLimits_default
      = (Ok report, catalog)
    /\ pr_devices report = [mkDeviceKey 0x1234 1] /\ pr_skipped_json report = [[98; 46; 106; 115; 111; 110]]
    /\ catalog_ok catalog.
Proof.
  destruct (import_package demo_parser demo_archive [] DeviceCatalog_new PackageLimits_default)
    as [[report|e] catalog] eqn:E; [|vm_compute in E; discriminate E].
  exists report, catalog. split; [reflexivity|].
  split; [vm_compute in E; injection E as <- <-; reflexivity|].
  split; [vm_compute in E; injection E as <- <-; reflexivity|].
  apply (package_import_is_transactional demo_parser demo_archive [] DeviceCatalog_new catalog
           PackageLimits_default (Ok report)).
  - constructor; [vm_compute; discriminate|]. intros key p Hp. vm_compute in Hp. destruct key; discriminate Hp.
  - vm_compute; discriminate.
  - vm_compute; discriminate.
  - exact E.
Defined.
