(* ===== verification/Emulator.v ===== *)
(** * The emulator (src/src/emulator.rs)

    The in-memory link with its fault plans, and the emulated device. An endpoint holds the
    queue of fragments sent to it; a send that has to wait for capacity is given as it
    completes. Floats are their bit patterns. *)
From S2P Require Import Prelude Wire Decoder Catalog Codec Operation QueueSet Link Trace.

Definition MAXIMUM_EMULATOR_CHANNEL_CAPACITY : Z := 65536.
Definition MAXIMUM_EMULATOR_NOISE_PREFIX : Z := 1024 * 1024.
Definition MAXIMUM_EMULATOR_TRANSMISSION_BYTES : Z := 1024 * 1024.
Definition MAXIMUM_EMULATOR_LATENCY : Z := 24 * 3600 * NANOS_PER_SECOND.

(** ** Faults *)

Record FaultPlan := mkFaults {
  fp_drop_next : bool;
  fp_echo : bool;
  fp_corrupt_next : bool;
  fp_noise_prefix : bytes;
  fp_fragment_size : option Z;
  fp_latency : Z;
}.

Definition FaultPlan_default : FaultPlan := mkFaults false false false [] None 0.

Definition FaultPlan_with_noise_prefix (p : FaultPlan) (noise : bytes) : FaultPlan :=
  mkFaults (fp_drop_next p) (fp_echo p) (fp_corrupt_next p) noise (fp_fragment_size p) (fp_latency p).
Definition FaultPlan_with_fragment_size (p : FaultPlan) (n : Z) : FaultPlan :=
  mkFaults (fp_drop_next p) (fp_echo p) (fp_corrupt_next p) (fp_noise_prefix p) (Some n) (fp_latency p).
Definition FaultPlan_with_latency (p : FaultPlan) (latency : Z) : FaultPlan :=
  mkFaults (fp_drop_next p) (fp_echo p) (fp_corrupt_next p) (fp_noise_prefix p) (fp_fragment_size p)
    latency.

Definition FaultPlan_validate (p : FaultPlan) : result ChannelError unit :=
  return_if MAXIMUM_EMULATOR_NOISE_PREFIX <? zlen (fp_noise_prefix p)
    err ChannelConfiguration "emulator noise prefix exceeds the supported limit" ;;
  return_if bool_decide (fp_fragment_size p = Some 0)
    err ChannelConfiguration "emulator fragment size must be greater than zero" ;;
  return_if MAXIMUM_EMULATOR_LATENCY <? fp_latency p
    err ChannelConfiguration "emulator latency exceeds the supported limit" ;;
  Ok tt.

Definition FaultPlan_sanitize (p : FaultPlan) : FaultPlan :=
  mkFaults (fp_drop_next p) (fp_echo p) (fp_corrupt_next p)
    (take (Z.to_nat MAXIMUM_EMULATOR_NOISE_PREFIX) (fp_noise_prefix p))
    (if bool_decide (fp_fragment_size p = Some 0) then Some 1 else fp_fragment_size p)
    (Z.min (fp_latency p) MAXIMUM_EMULATOR_LATENCY).

(** ** Endpoints *)

(** [ep_waited] adds up the latencies slept. *)
Record MemoryChannel := mkEndpoint {
  ep_incoming : list bytes;
  ep_remainder : bytes;
  ep_faults : FaultPlan;
  ep_alive : bool;
  ep_waited : Z;
}.

Definition fresh_endpoint : MemoryChannel := mkEndpoint [] [] FaultPlan_default true 0.

(** The capacity bounds the queues, over which sends wait. *)
Definition MemoryChannel_pair (capacity : Z) : Z * (MemoryChannel * MemoryChannel) :=
  (clamp capacity 1 MAXIMUM_EMULATOR_CHANNEL_CAPACITY, (fresh_endpoint, fresh_endpoint)).

Definition MemoryChannel_try_pair (capacity : Z)
    : result ChannelError (Z * (MemoryChannel * MemoryChannel)) :=
  return_if capacity =? 0
    err ChannelConfiguration "emulator channel capacity must be greater than zero" ;;
  return_if MAXIMUM_EMULATOR_CHANNEL_CAPACITY <? capacity
    err ChannelConfiguration "emulator channel capacity exceeds the supported limit" ;;
  Ok (capacity, (fresh_endpoint, fresh_endpoint)).

Definition with_faults (c : MemoryChannel) (plan : FaultPlan) : MemoryChannel :=
  mkEndpoint (ep_incoming c) (ep_remainder c) plan (ep_alive c) (ep_waited c).

Definition deliver (c : MemoryChannel) (fragments : list bytes) : MemoryChannel :=
  mkEndpoint (ep_incoming c ++ fragments) (ep_remainder c) (ep_faults c) (ep_alive c) (ep_waited c).

Definition wait_for (c : MemoryChannel) (duration : Z) : MemoryChannel :=
  mkEndpoint (ep_incoming c) (ep_remainder c) (ep_faults c) (ep_alive c) (ep_waited c + duration).

Definition MemoryChannel_set_faults (c : MemoryChannel) (plan : FaultPlan) : MemoryChannel :=
  with_faults c (FaultPlan_sanitize plan).

Definition MemoryChannel_try_set_faults (c : MemoryChannel) (plan : FaultPlan)
    : result ChannelError MemoryChannel :=
  let? _ := FaultPlan_validate plan ;;
  Ok (with_faults c plan).

(** [slice::chunks]; [n] is positive, so the length is fuel enough. *)
Fixpoint chunks_fuel (fuel n : nat) (l : bytes) : list bytes :=
  match fuel, l with
  | _, [] => []
  | O, _ => []
  | S fuel, _ => take n l :: chunks_fuel fuel n (drop n l)
  end.

Definition chunks (n : Z) (l : bytes) : list bytes := chunks_fuel (length l) (Z.to_nat n) l.

(** The loop over the fragments, to a peer that is there or not. *)
Fixpoint send_fragments (latency : Z) (fragments : list bytes) (self peer : MemoryChannel)
    : result ChannelError unit * MemoryChannel * MemoryChannel :=
  match fragments with
  | [] => (Ok tt, self, peer)
  | fragment :: fragments =>
      let self := if latency =? 0 then self else wait_for self latency in
      if ep_alive peer then send_fragments latency fragments self (deliver peer [fragment])
      else (Err ChannelIsClosed, self, peer)
  end.

Definition corrupt_last (l : bytes) : bytes :=
  match last l with Some b => take (length l - 1) l ++ [Z.lxor b 0x01] | None => l end.

Definition MemoryChannel_transmit (self peer : MemoryChannel) (l : bytes)
    : result ChannelError unit * MemoryChannel * MemoryChannel :=
  if MAXIMUM_EMULATOR_TRANSMISSION_BYTES <? zlen l then
    (Err (ChannelConfiguration "emulator transmission exceeds the supported limit"), self, peer)
  else
    let plan := ep_faults self in
    let fragment_size := Z.max (default (Z.max (zlen l) 1) (fp_fragment_size plan)) 1 in
    let self :=
      with_faults self
        (mkFaults false (fp_echo plan) false [] (fp_fragment_size plan) (fp_latency plan)) in
    let self := if fp_echo plan then deliver self [l] else self in
    if fp_drop_next plan then (Ok tt, self, peer)
    else
      let output := fp_noise_prefix plan ++ l in
      let output := if fp_corrupt_next plan then corrupt_last output else output in
      send_fragments (fp_latency plan) (chunks fragment_size output) self peer.

(** [while self.remainder.is_empty()]: [None] when it has to wait; a fragment that is there
    comes before the closing of the peer. *)
Fixpoint next_remainder (peer_alive : bool) (incoming : list bytes) (remainder : bytes)
    : option (result ChannelError (list bytes * bytes)) :=
  match remainder with
  | _ :: _ => Some (Ok (incoming, remainder))
  | [] =>
      match incoming with
      | fragment :: incoming => next_remainder peer_alive incoming fragment
      | [] => if peer_alive then None else Some (Err ChannelIsClosed)
      end
  end.

Definition MemoryChannel_receive (self peer : MemoryChannel) (capacity : Z)
    : option (result ChannelError (Z * bytes) * MemoryChannel) :=
  if capacity =? 0 then
    Some (Err (ChannelConfiguration "memory-channel receive buffer cannot be empty"), self)
  else
    match next_remainder (ep_alive peer) (ep_incoming self) (ep_remainder self) with
    | None => None
    | Some (Err e) => Some (Err e, mkEndpoint [] [] (ep_faults self) (ep_alive self) (ep_waited self))
    | Some (Ok (incoming, remainder)) =>
        let count := Z.min capacity (zlen remainder) in
        Some (Ok (count, take (Z.to_nat count) remainder),
              mkEndpoint incoming (drop (Z.to_nat count) remainder) (ep_faults self)
                (ep_alive self) (ep_waited self))
    end.

(** ** The device *)

Record EmulatedIdentity := mkEmulatedIdentity {
  ei_manufacturer_id : Z;
  ei_device_type : Z;
  ei_request_preambles : Z;
  ei_universal_revision : Z;
  ei_device_revision : Z;
  ei_software_revision : Z;
  ei_hardware_revision : Z;
  ei_physical_signaling : Z;
  ei_flags : Z;
  ei_device_id : Z;
  ei_response_preambles : Z;
  ei_maximum_device_variables : Z;
  ei_configuration_change_counter : Z;
  ei_extended_status : Z;
  ei_private_label_distributor : Z;
  ei_device_profile : Z;
}.

Record EmulatedDevice := mkEmulatedDevice {
  ed_address : Address;
  ed_identity : EmulatedIdentity;
  ed_primary_unit : Z;
  ed_primary_value : Z;
  ed_loop_current : Z;
  ed_percent : Z;
  ed_status : Z;
  ed_additional_status : bytes;
}.

Definition accepts_address (d : EmulatedDevice) (address : Address) : bool :=
  if bool_decide (address = ed_address d) then true
  else
    let i := ed_identity d in
    let address_device_type :=
      if 7 <=? ei_universal_revision i then Z.land (ei_device_type i) 0x3fff
      else Z.lor (Z.land (Z.shiftl (Z.land (ei_manufacturer_id i) 0x3f) 8) 0xffff)
             (Z.land (ei_device_type i) 0xff) in
    match Address_unique address_device_type (ei_device_id i) (Address_master address) with
    | Ok expected => bool_decide (expected = address)
    | Err _ => false
    end.

(** The shift is on a [u8]; the unique part is the low three bytes of a [u32]. *)
Definition identity_payload (i : EmulatedIdentity) : bytes :=
  [0xfe] ++ to_be_bytes 2 (ei_device_type i)
  ++ [ei_request_preambles i; ei_universal_revision i; ei_device_revision i; ei_software_revision i;
      Z.lor (Z.land (Z.shiftl (Z.land (ei_hardware_revision i) 0x1f) 3) 0xff)
        (Z.land (ei_physical_signaling i) 0x07);
      ei_flags i]
  ++ drop 1 (to_be_bytes 4 (ei_device_id i))
  ++ (if 6 <=? ei_universal_revision i then
        [ei_response_preambles i; ei_maximum_device_variables i]
        ++ to_be_bytes 2 (ei_configuration_change_counter i) ++ [ei_extended_status i]
      else [])
  ++ (if 7 <=? ei_universal_revision i then
        to_be_bytes 2 (ei_manufacturer_id i) ++ to_be_bytes 2 (ei_private_label_distributor i)
        ++ [ei_device_profile i]
      else []).

Definition respond (d : EmulatedDevice) (request : Frame) : Frame :=
  let expanded := (frame_wire_command request =? 31) && (2 <=? zlen (frame_payload request)) in
  let logical :=
    if expanded then from_be_bytes (take 2 (frame_payload request))
    else frame_wire_command request in
  let data :=
    if logical =? 0 then identity_payload (ed_identity d)
    else if logical =? 1 then ed_primary_unit d :: to_be_bytes 4 (ed_primary_value d)
    else if logical =? 2 then to_be_bytes 4 (ed_loop_current d) ++ to_be_bytes 4 (ed_percent d)
    else if logical =? 48 then ed_additional_status d
    else [] in
  let response_code :=
    if (logical =? 0) || (logical =? 1) || (logical =? 2) || (logical =? 48) then 0 else 64 in
  mkFrame (Z.max (ei_response_preambles (ed_identity d)) 2) KindResponse
    (frame_physical_layer request) (frame_address request) (frame_expansion request)
    (frame_wire_command request)
    ([response_code; ed_status d]
     ++ (if expanded then to_be_bytes 2 logical else []) ++ data) None.

Section Run.
Context {C : Type} `{ByteChannel C}.

(** The loop over the events of one read. *)
Fixpoint serve_events (d : EmulatedDevice) (events : list DecodeEvent) (c : C)
    : result ChannelError unit * C :=
  match events with
  | [] => (Ok tt, c)
  | EventFrame request :: events =>
      if negb (bool_decide (frame_kind request = KindRequest))
         || negb (accepts_address d (frame_address request))
      then serve_events d events c
      else
        match Frame_encode (respond d request) with
        | Err _ => (Err (ChannelConfiguration "emulator generated an invalid frame"), c)
        | Ok encoded =>
            match bc_send c encoded with
            | (Err e, c) => (Err e, c)
            | (Ok _, c) => serve_events d events c
            end
        end
  | EventRejected _ :: events => serve_events d events c
  end.

(** One unit of fuel per read; [None] when it runs out. *)
Fixpoint run_loop (fuel : nat) (d : EmulatedDevice) (decoder : FrameDecoder) (c : C)
    : option (result ChannelError unit) * C :=
  match fuel with
  | O => (None, c)
  | S fuel =>
      match bc_receive c 512 with
      | (Err ChannelIsClosed, c) => (Some (Ok tt), c)
      | (Err e, c) => (Some (Err e), c)
      | (Ok (read, buffer), c) =>
          let '(events, decoder) := FrameDecoder_push decoder (take (Z.to_nat read) buffer) in
          match serve_events d events c with
          | (Err e, c) => (Some (Err e), c)
          | (Ok _, c) => run_loop fuel d decoder c
          end
      end
  end.

Definition EmulatedDevice_run (fuel : nat) (d : EmulatedDevice) (c : C)
    : option (result ChannelError unit) * C :=
  run_loop fuel d (FrameDecoder_new DecodeLimits_default) c.
End Run.
