(* ===== verification/EmulatorProps.v ===== *)
(** * The emulator: properties *)
From S2P Require Import Prelude Wire Decoder DecoderSpec DecoderFacts DecoderProps Catalog Codec.
From S2P Require Import Operation Identity ReplyProps QueueSet Link Trace Emulator.

(** ** The in-memory link *)

(** The bytes on the way to an endpoint. *)
Definition pending (c : MemoryChannel) : bytes := ep_remainder c ++ concat (ep_incoming c).

(** What the line makes of one transmission. *)
Definition line_output (plan : FaultPlan) (l : bytes) : bytes :=
  if fp_drop_next plan then []
  else if fp_corrupt_next plan then corrupt_last (fp_noise_prefix plan ++ l)
  else fp_noise_prefix plan ++ l.

Definition clear_faults (plan : FaultPlan) : FaultPlan :=
  mkFaults false (fp_echo plan) false [] (fp_fragment_size plan) (fp_latency plan).

Lemma concat_chunks_fuel fuel n l :
  (0 < n)%nat -> (length l <= fuel)%nat -> concat (chunks_fuel fuel n l) = l.
Proof.
  revert l. induction fuel as [|fuel IH]; intros l Hn Hl; [by destruct l; [|cbn in Hl; lia]|].
  destruct l as [|b l]; [done|]. cbn [chunks_fuel concat].
  rewrite IH; [by rewrite take_drop|done|]. rewrite length_drop. cbn in *. lia.
Qed.

Lemma concat_chunks n l : 1 <= n -> concat (chunks n l) = l.
Proof. intros Hn. apply concat_chunks_fuel; lia. Qed.

Lemma chunks_sizes n l : 1 <= n -> Forall (fun f => zlen f <= n) (chunks n l).
Proof.
  intros Hn. unfold chunks. generalize (length l) at 1. intros fuel. revert l.
  induction fuel as [|fuel IH]; intros l; cbn; [destruct l; constructor|].
  destruct l as [|b l]; [constructor|]. constructor; [|apply IH].
  unfold zlen. rewrite length_take. lia.
Qed.

Lemma send_fragments_spec latency fragments self peer :
  ep_alive peer = true ->
  send_fragments latency fragments self peer
    = (Ok tt, if latency =? 0 then self else wait_for self (latency * zlen fragments), deliver peer fragments).
Proof.
  revert self peer. induction fragments as [|f fragments IH]; intros self peer Ha; cbn [send_fragments].
  - unfold deliver, wait_for, zlen. cbn [length]. rewrite app_nil_r, Z.mul_0_r, Z.add_0_r.
    destruct self, peer. by case_match.
  - rewrite Ha, IH by done. unfold deliver. cbn. rewrite <- app_assoc. do 2 f_equal.
    destruct (latency =? 0); [done|]. unfold wait_for, zlen. cbn -[Z.mul Z.of_nat]. f_equal. lia.
Qed.

Lemma pending_deliver c fragments : pending (deliver c fragments) = pending c ++ concat fragments.
Proof. unfold pending, deliver. cbn. by rewrite concat_app, app_assoc. Qed.

Lemma next_remainder_spec peer_alive incoming remainder :
  match next_remainder peer_alive incoming remainder with
  | Some (Ok (incoming', remainder')) =>
      remainder' <> [] /\ remainder ++ concat incoming = remainder' ++ concat incoming'
  | Some (Err e) => e = ChannelIsClosed /\ peer_alive = false /\ remainder ++ concat incoming = []
  | None => peer_alive = true /\ remainder ++ concat incoming = []
  end.
Proof.
  revert remainder. induction incoming as [|f incoming IH]; intros [|b remainder]; cbn; try done.
  - by destruct peer_alive.
  - specialize (IH f). cbn in IH. by destruct (next_remainder peer_alive incoming f) as [[[]|]|].
Qed.

Lemma transmit_spec (self peer : MemoryChannel) (l : bytes) :
  zlen l <= MAXIMUM_EMULATOR_TRANSMISSION_BYTES -> ep_alive peer = true ->
  exists self' peer', MemoryChannel_transmit self peer l = (Ok tt, self', peer')
    /\ pending peer' = pending peer ++ line_output (ep_faults self) l
    /\ pending self' = pending self ++ (if fp_echo (ep_faults self) then l else [])
    /\ ep_faults self' = clear_faults (ep_faults self)
    /\ ep_faults peer' = ep_faults peer
    /\ ep_alive self' = ep_alive self /\ ep_alive peer' = true.
Proof.
  intros Hl Ha. unfold MemoryChannel_transmit, line_output. rewrite (proj2 (Z.ltb_ge _ _)) by done.
  set (plan := ep_faults self). fold (clear_faults plan).
  set (self1 := if fp_echo plan then deliver (with_faults self (clear_faults plan)) [l]
                else with_faults self (clear_faults plan)).
  assert (Hs1 : pending self1 = pending self ++ (if fp_echo plan then l else [])
                /\ ep_faults self1 = clear_faults plan /\ ep_alive self1 = ep_alive self).
  { unfold self1. destruct (fp_echo plan); (split; [|done]).
    - rewrite pending_deliver. cbn. by rewrite app_nil_r.
    - by rewrite app_nil_r. }
  destruct Hs1 as (Hp1 & Hf1 & Ha1). destruct (fp_drop_next plan).
  - exists self1, peer. rewrite app_nil_r. by split_and!.
  - rewrite send_fragments_spec by done. do 2 eexists. split; [reflexivity|].
    rewrite pending_deliver, concat_chunks by lia.
    split; [by destruct (fp_corrupt_next plan)|].
    destruct (fp_latency plan =? 0); by split_and!.
Qed.

Lemma receive_spec (self peer : MemoryChannel) (capacity : Z) :
  0 < capacity ->
  match MemoryChannel_receive self peer capacity with
  | None => pending self = [] /\ ep_alive peer = true
  | Some (Err e, self') => e = ChannelIsClosed /\ pending self = [] /\ ep_alive peer = false
  | Some (Ok (count, data), self') =>
      data <> [] /\ count = zlen data /\ count <= capacity
      /\ pending self = data ++ pending self' /\ ep_faults self' = ep_faults self
      /\ ep_alive self' = ep_alive self
  end.
Proof.
  intros Hc. unfold MemoryChannel_receive. rewrite (proj2 (Z.eqb_neq _ _)) by lia.
  pose proof (next_remainder_spec (ep_alive peer) (ep_incoming self) (ep_remainder self)) as Hn.
  destruct (next_remainder _ _ _) as [[[incoming remainder]|e]|].
  - destruct Hn as [Hne Hp]. set (count := Z.min capacity (zlen remainder)).
    assert (Hcount : 1 <= count /\ (Z.to_nat count <= length remainder)%nat).
    { unfold count, zlen. destruct remainder; [done|]. cbn [length]. lia. }
    split_and!; [| | | |done|done].
    + intros E. apply (f_equal length) in E. rewrite length_take in E. cbn in E. lia.
    + unfold zlen. rewrite length_take. lia.
    + unfold count. lia.
    + unfold pending at 1. rewrite Hp. unfold pending. cbn.
      by rewrite app_assoc, take_drop.
  - destruct Hn as (-> & Hd & Hp). by split_and!.
  - destruct Hn as (Hd & Hp). by split_and!.
Qed.

(** The in-memory link is a pair of queues of bytes with exact faults. A transmission to a
    live peer appends, whatever the fragment size, exactly the bytes the plan makes of it:
    none when dropped, the noise and then the data, the last bit flipped when corrupted; it
    appends the data itself to the sender when echoing; one-shot faults are gone afterwards
    and the others stay. A receive takes a nonempty prefix of at most the buffer; it waits
    exactly when nothing is on the way and the peer is there, and reports the closing exactly
    when nothing is on the way and the peer is gone. *)
Theorem memory_channel_is_a_queue (self peer : MemoryChannel) (l : bytes) (capacity : Z) :
  zlen l <= MAXIMUM_EMULATOR_TRANSMISSION_BYTES -> ep_alive peer = true -> 0 < capacity ->
  (exists self' peer', MemoryChannel_transmit self peer l = (Ok tt, self', peer')
     /\ pending peer' = pending peer ++ line_output (ep_faults self) l
     /\ pending self' = pending self ++ (if fp_echo (ep_faults self) then l else [])
     /\ ep_faults self' = clear_faults (ep_faults self))
  /\ (forall peer_alive,
      let peer := mkEndpoint [] [] FaultPlan_default peer_alive 0 in
      match MemoryChannel_receive self peer capacity with
      | None => pending self = [] /\ peer_alive = true
      | Some (Err e, self') => e = ChannelIsClosed /\ pending self = [] /\ peer_alive = false
      | Some (Ok (count, data), self') =>
          data <> [] /\ count = zlen data /\ count <= capacity
          /\ pending self = data ++ pending self' /\ ep_faults self' = ep_faults self
      end).
Proof.
  intros Hl Ha Hc. split.
  - destruct (transmit_spec self peer l Hl Ha) as (self' & peer' & Ht & Hp & Hs & Hf & _).
    exists self', peer'. by split_and!.
  - intros peer_alive p. pose proof (receive_spec self p capacity Hc) as Hr.
    destruct (MemoryChannel_receive self p capacity) as [[[[count data]|e] self']|]; naive_solver.
Qed.

Lemma memory_channel_is_a_queue_witness :
  let noisy := with_faults fresh_endpoint (mkFaults false true true [7] (Some 2) 5) in
  exists self peer,
    MemoryChannel_transmit noisy fresh_endpoint [1; 2; 4] = (Ok tt, self, peer)
    /\ pending peer = [7; 1; 2; 5] /\ pending self = [1; 2; 4]
    /\ ep_faults self = mkFaults false true false [] (Some 2) 5.
Proof.
  intros noisy. destruct (memory_channel_is_a_queue noisy fresh_endpoint [1; 2; 4] 1)
    as [(self & peer & Ht & Hp & Hs & Hf) _]; [by vm_compute|done|done|].
  exists self, peer. rewrite Ht, Hp, Hs, Hf. by vm_compute.
Defined.

(** ** The device on a line

    A channel that delivers given fragments, closes after the last, and records what is
    sent. *)
Record Feed := mkFeed { feed_in : list bytes; feed_sent : list bytes }.

#[global] Instance Feed_channel : ByteChannel Feed := {
  bc_send c l := (Ok tt, mkFeed (feed_in c) (feed_sent c ++ [l]));
  bc_receive c capacity :=
    match feed_in c with
    | [] => (Err ChannelIsClosed, c)
    | f :: fragments =>
        let count := Z.min capacity (zlen f) in
        (Ok (count, take (Z.to_nat count) f),
         mkFeed (if drop (Z.to_nat count) f is [] then fragments
                 else drop (Z.to_nat count) f :: fragments) (feed_sent c))
    end;
  bc_flush c := (Ok tt, c);
}.

(** The requests for the device. *)
Definition answered (d : EmulatedDevice) (f : Frame) : bool :=
  bool_decide (frame_kind f = KindRequest) && accepts_address d (frame_address f).

(** The command a request asks for. *)
Definition requested (f : Frame) : Z :=
  if frame_wire_command f =? 31 then from_be_bytes (take 2 (frame_payload f))
  else frame_wire_command f.

(** What the device has to say to a command it knows. *)
Definition device_data (d : EmulatedDevice) (command : Z) : option bytes :=
  if command =? 0 then Some (identity_payload (ed_identity d))
  else if command =? 1 then Some (ed_primary_unit d :: to_be_bytes 4 (ed_primary_value d))
  else if command =? 2 then Some (to_be_bytes 4 (ed_loop_current d) ++ to_be_bytes 4 (ed_percent d))
  else if command =? 48 then Some (ed_additional_status d)
  else None.

Lemma length_identity_payload i : zlen (identity_payload i) <= 22.
Proof.
  unfold identity_payload, zlen. rewrite !length_app, length_drop, !length_to_be_bytes.
  repeat case_match; cbn [length app]; rewrite ?length_app, ?length_to_be_bytes; cbn [length]; lia.
Qed.

Lemma length_device_data d command :
  zlen (ed_additional_status d) <= 251 -> zlen (default [] (device_data d command)) <= 251.
Proof.
  intros Hs. unfold device_data. pose proof (length_identity_payload (ed_identity d)).
  repeat case_match; cbn [default from_option id]; try lia;
    unfold zlen; cbn [length]; rewrite ?length_app, ?length_to_be_bytes; lia.
Qed.

(** The answer, field by field. *)
Lemma respond_payload d f :
  let expanded := (frame_wire_command f =? 31) && (2 <=? zlen (frame_payload f)) in
  let command := if expanded then from_be_bytes (take 2 (frame_payload f)) else frame_wire_command f in
  frame_payload (respond d f)
    = [if device_data d command is Some _ then 0 else 64; ed_status d]
      ++ (if expanded then to_be_bytes 2 command else [])
      ++ default [] (device_data d command).
Proof.
  intros expanded command. unfold respond. fold expanded. fold command. cbn [frame_payload].
  unfold device_data.
  destruct (command =? 0), (command =? 1), (command =? 2), (command =? 48); done.
Qed.

Lemma respond_encodes d f :
  Frame_wf f -> zlen (ed_additional_status d) <= 251 ->
  Frame_encode (respond d f) = Ok (frame_encoding (respond d f)).
Proof.
  intros Hf Hs. apply Frame_encode_ok; [apply (wf_expansion_len f Hf)|].
  rewrite respond_payload. set (e := (_ && _)%bool). set (c := if e then _ else _).
  pose proof (length_device_data d c Hs). unfold zlen in *. rewrite !length_app. cbn [length].
  destruct e; rewrite ?length_to_be_bytes; cbn [length]; lia.
Qed.

Lemma respond_decodes d f :
  Frame_wf f -> (frame_wire_command f = 31 -> 2 <= zlen (frame_payload f)) ->
  DeviceReply_from_frame (respond d f)
    = Ok (mkReply (frame_address f) (CommandCode_new (requested f))
            (if device_data d (requested f) is Some _ then 0 else 64) (ed_status d)
            (default [] (device_data d (requested f))) false (frame_physical_layer f)
            (Z.max (ei_response_preambles (ed_identity d)) 2) (frame_expansion f)).
Proof.
  intros Hf Hx. unfold DeviceReply_from_frame. rewrite respond_payload. unfold requested.
  destruct (Z.eqb_spec (frame_wire_command f) 31) as [E|E].
  - specialize (Hx E). rewrite (proj2 (Z.leb_le _ _)) by done. cbn [andb].
    set (c := from_be_bytes _). unfold respond. cbn [frame_kind frame_wire_command].
    assert (Hc : is_u16 c).
    { pose proof (wf_payload f Hf) as Hp. unfold zlen in Hx. unfold c.
      destruct (frame_payload f) as [|a [|b rest]]; [cbn in Hx; lia..|].
      rewrite !Forall_cons_iff in Hp. destruct Hp as (Ha & Hb & _). change (take 2 (a :: b :: rest)) with [a; b].
      change (is_u16 (from_be_bytes [a; b])). pose proof (be_field_bound 2 [a; b]) as Hb2.
      unfold is_u16. apply Hb2; [by rewrite !Forall_cons_iff|done]. }
    pose proof (be_value 2 c Hc) as Hv. pose proof (length_to_be_bytes 2 c) as Hl.
    destruct (to_be_bytes 2 c) as [|x [|y [|]]]; try done.
    rewrite !(proj2 (Z.ltb_ge _ _)) by (unfold zlen; cbn [length app]; lia).
    rewrite E. cbn [Z.eqb Pos.eqb result_bind app nth drop]. by rewrite Hv.
  - cbn [andb app]. unfold respond. cbn [frame_kind frame_wire_command].
    rewrite !(proj2 (Z.ltb_ge _ _)) by (unfold zlen; cbn [length app]; lia).
    rewrite (proj2 (Z.eqb_neq _ _)) by done. by cbn.
Qed.

(** One read serves the frames it completes. *)
Lemma serve_events_spec d events c :
  zlen (ed_additional_status d) <= 251 ->
  Forall (fun e => match e with EventFrame f => Frame_wf f | EventRejected _ => True end) events ->
  serve_events d events c
    = (Ok tt, mkFeed (feed_in c)
                (feed_sent c
                 ++ map (fun f => frame_encoding (respond d f))
                      (List.filter (answered d)
                         (omap (fun e => if e is EventFrame f then Some f else None) events)))).
Proof.
  intros Hs. revert c. induction events as [|[f|r] events IH]; intros c He; cbn [serve_events].
  - cbn. rewrite app_nil_r. by destruct c.
  - apply Forall_cons_iff in He as [Hf He]. rewrite <- negb_andb. fold (answered d f).
    cbn [omap list_omap List.filter]. destruct (answered d f); cbn [negb]; [|by apply IH].
    rewrite respond_encodes by done. cbn [bc_send Feed_channel].
    rewrite IH by done. cbn [feed_in feed_sent map]. by rewrite <- app_assoc.
  - apply Forall_cons_iff in He as [_ He]. by apply IH.
Qed.

Lemma omap_frames (events : list DecodeEvent) frames :
  events = map EventFrame frames ->
  omap (fun e => if e is EventFrame f then Some f else None) events = frames.
Proof. intros ->. induction frames as [|f frames IH]; cbn; [done|]. by rewrite IH. Qed.

(** The loop serves what the decoder makes of the fragments. *)
Lemma run_loop_spec d fragments decoder sent :
  zlen (ed_additional_status d) <= 251 ->
  Forall (fun f => zlen f <= 512) fragments ->
  Forall (fun e => match e with EventFrame f => Frame_wf f | EventRejected _ => True end)
    (push_all decoder fragments).1 ->
  run_loop (S (length fragments)) d decoder (mkFeed fragments sent)
    = (Some (Ok tt),
       mkFeed [] (sent ++ map (fun f => frame_encoding (respond d f))
                    (List.filter (answered d)
                       (omap (fun e => if e is EventFrame f then Some f else None)
                          (push_all decoder fragments).1)))).
Proof.
  intros Hs. revert decoder sent. induction fragments as [|l fragments IH]; intros decoder sent Hl He.
  - cbn. by rewrite app_nil_r.
  - apply Forall_cons_iff in Hl as [Hl Hrest].
    change (run_loop (S (length (l :: fragments))) d decoder (mkFeed (l :: fragments) sent))
      with (let '(events, decoder) :=
              FrameDecoder_push decoder
                (take (Z.to_nat (Z.min 512 (zlen l))) (take (Z.to_nat (Z.min 512 (zlen l))) l)) in
            match serve_events d events
              (mkFeed (if drop (Z.to_nat (Z.min 512 (zlen l))) l is [] then fragments
                       else drop (Z.to_nat (Z.min 512 (zlen l))) l :: fragments) sent) with
            | (Err e, c) => (Some (Err e), c)
            | (Ok _, c) => run_loop (S (length fragments)) d decoder c
            end).
    rewrite Z.min_r by done. unfold zlen. rewrite Nat2Z.id, drop_all, !firstn_all.
    cbn [push_all] in He |- *.
    destruct (FrameDecoder_push decoder l) as [events decoder'].
    destruct (push_all decoder' fragments) as [events' decoder''] eqn:Ep. cbn [fst] in He |- *.
    apply Forall_app in He as [He He'].
    rewrite serve_events_spec by done. cbn [feed_in feed_sent].
    rewrite IH by (rewrite ?Ep; done). rewrite Ep. cbn [fst].
    by rewrite omap_app, List.filter_app, map_app, app_assoc.
Qed.

(** The emulated device answers a line completely. Given any number of well-formed
    frames encoded one after the other and cut into fragments anyhow (each at most the read
    buffer, none overflowing the decoder), the device serves to the end of the line without
    an error and sends exactly the encodings of its answers to the requests whose address it
    accepts, in order; and each answer decodes, at the host, to a reply for the command asked
    (through the expansion of command 31 too) from the same address, with the data of a
    command the device knows and code 0, or code 64 without data. *)
Theorem emulator_answers_requests (d : EmulatedDevice) (frames : list Frame)
    (fragments : list bytes) :
  zlen (ed_additional_status d) <= 251 ->
  Forall (transmittable DecodeLimits_default) frames ->
  encode_all frames = Ok (concat fragments) ->
  fits (FrameDecoder_new DecodeLimits_default) fragments = true ->
  Forall (fun l => zlen l <= 512) fragments ->
  exists answers,
    EmulatedDevice_run (S (length fragments)) d (mkFeed fragments [])
      = (Some (Ok tt), mkFeed [] answers)
    /\ Forall2 (fun f answer =>
         Frame_encode (respond d f) = Ok answer
         /\ ((frame_wire_command f = 31 -> 2 <= zlen (frame_payload f)) ->
             DeviceReply_from_frame (respond d f)
             = Ok (mkReply (frame_address f) (CommandCode_new (requested f))
                     (if device_data d (requested f) is Some _ then 0 else 64) (ed_status d)
                     (default [] (device_data d (requested f))) false (frame_physical_layer f)
                     (Z.max (ei_response_preambles (ed_identity d)) 2) (frame_expansion f))))
       (List.filter (answered d) frames) answers.
Proof.
  intros Hs Hall Henc Hfit Hl.
  rewrite (encode_all_ok DecodeLimits_default) in Henc by done. injection Henc as Hcat.
  assert (Hp : (push_all (FrameDecoder_new DecodeLimits_default) fragments).1 = map EventFrame frames).
  { rewrite <- (push_all_refines (S (length (concat fragments)))).
    - pose proof (decode_stream_encoded DecodeLimits_default frames Hall) as Hd.
      rewrite Hcat in Hd. unfold decode_stream in Hd. by rewrite Hd.
    - by apply FrameDecoder_new_ok.
    - by apply FrameDecoder_new_quiescent.
    - done.
    - cbn. lia. }
  assert (Hwf : Forall Frame_wf frames).
  { eapply Forall_impl; [exact Hall|]. by intros f []. }
  eexists. split.
  - unfold EmulatedDevice_run. rewrite run_loop_spec; [reflexivity|done|done|].
    rewrite Hp. apply Forall_map. exact Hwf.
  - rewrite (omap_frames _ _ Hp). cbn [app].
    assert (Hwf' : Forall Frame_wf (List.filter (answered d) frames)).
    { apply List.Forall_forall. intros f [Hin _]%List.filter_In. by eapply List.Forall_forall in Hwf. }
    clear -Hs Hwf'. induction Hwf' as [|f l Hf _ IH]; cbn [map]; constructor; [|done].
    split; [by apply respond_encodes|by apply respond_decodes].
Qed.

Definition example_identity : EmulatedIdentity :=
  mkEmulatedIdentity 0x26 0x2607 5 7 1 2 3 1 0 0x123456 5 4 9 0 0x26 1.

Definition example_device : EmulatedDevice :=
  mkEmulatedDevice (Polling 0 Primary) example_identity 39 0x42280000 0x41400000 0x42480000 0x10 [1; 2; 3].

Definition line_frames : list Frame :=
  [example_request; mkFrame 5 KindResponse Fsk (Polling 0 Primary) [] 0 [0; 0] None;
   mkFrame 5 KindRequest Fsk (Polling 0 Primary) [] 31 [0; 48] None].

Definition line_fragments : list bytes :=
  [[255; 255; 255; 255; 255; 2; 128; 0]; [0; 130; 255; 255; 255; 255; 255; 6; 128; 0; 2; 0; 0; 132];
   [255; 255; 255; 255; 255; 2; 128; 31; 2]; [0; 48; 175]].

Lemma line_frames_transmittable : Forall (transmittable DecodeLimits_default) line_frames.
Proof.
  unfold line_frames. rewrite !Forall_cons_iff.
  split_and!; try done; constructor; try done; constructor; cbn; solve_bytes.
Qed.

Lemma emulator_answers_requests_witness :
  exists first second,
    EmulatedDevice_run 5 example_device (mkFeed line_fragments [])
      = (Some (Ok tt), mkFeed [] [first; second])
    /\ Frame_encode (respond example_device example_request) = Ok first
    /\ (let? r := DeviceReply_from_frame (respond example_device example_request) ;;
        Ok (rep_data r)) = Ok (identity_payload example_identity).
Proof.
  destruct (emulator_answers_requests example_device line_frames line_fragments)
    as (answers & Hrun & Hf);
    [by vm_compute|exact line_frames_transmittable|by vm_compute..|repeat constructor; by vm_compute|].
  assert (Hl : List.filter (answered example_device) line_frames
               = [example_request; mkFrame 5 KindRequest Fsk (Polling 0 Primary) [] 31 [0; 48] None])
    by by vm_compute.
  rewrite Hl in Hf. clear Hl. apply Forall2_cons_inv_l in Hf as (a & rest & [Ha Hr] & Hf & ->).
  apply Forall2_cons_inv_l in Hf as (b & rest' & _ & Hf & ->).
  apply Forall2_nil_inv_l in Hf as ->. exists a, b. split; [exact Hrun|]. split; [exact Ha|].
  rewrite Hr; [reflexivity|]. intros E. vm_compute in E. discriminate E.
Defined.

(** ** The device's identification *)

(** The Rust types of the fields. *)
Record emulated_typed (i : EmulatedIdentity) : Prop := {
  et_manufacturer : is_u16 (ei_manufacturer_id i);
  et_type : is_u16 (ei_device_type i);
  et_request_preambles : is_u8 (ei_request_preambles i);
  et_universal : is_u8 (ei_universal_revision i);
  et_device_revision : is_u8 (ei_device_revision i);
  et_software : is_u8 (ei_software_revision i);
  et_hardware : is_u8 (ei_hardware_revision i);
  et_signaling : is_u8 (ei_physical_signaling i);
  et_flags : is_u8 (ei_flags i);
  et_device_id : is_u32 (ei_device_id i);
  et_response_preambles : is_u8 (ei_response_preambles i);
  et_variables : is_u8 (ei_maximum_device_variables i);
  et_counter : is_u16 (ei_configuration_change_counter i);
  et_status : is_u8 (ei_extended_status i);
  et_distributor : is_u16 (ei_private_label_distributor i);
  et_profile : is_u8 (ei_device_profile i);
}.

(** What a host makes of the identification. *)
Definition host_identity (i : EmulatedIdentity) : DeviceIdentity :=
  let from6 (x : Z) := if 6 <=? ei_universal_revision i then Some x else None in
  let from7 (x : Z) := if 7 <=? ei_universal_revision i then Some x else None in
  mkIdentity 0xfe
    (if 7 <=? ei_universal_revision i then ei_manufacturer_id i else ei_device_type i / 256)
    (if 7 <=? ei_universal_revision i then ei_device_type i else ei_device_type i mod 256)
    (ei_request_preambles i) (ei_universal_revision i) (ei_device_revision i)
    (ei_software_revision i) (ei_hardware_revision i mod 32) (ei_physical_signaling i mod 8)
    (ei_flags i) (ei_device_id i mod 2 ^ 24)
    (from6 (ei_response_preambles i)) (from6 (ei_maximum_device_variables i))
    (from6 (ei_configuration_change_counter i)) (from6 (ei_extended_status i))
    (from7 (ei_private_label_distributor i)) (from7 (ei_device_profile i)) [].

Lemma hardware_byte a b :
  is_u8 a -> is_u8 b ->
  Z.lor (Z.land (Z.shiftl (Z.land a 0x1f) 3) 0xff) (Z.land b 0x07) = a mod 32 * 8 + b mod 8.
Proof.
  intros Ha Hb.
  enough (0 <= Z.lor (Z.land (Z.shiftl (Z.land a 0x1f) 3) 0xff) (Z.land b 0x07)
          - (a mod 32 * 8 + b mod 8) <= 0) by lia.
  u8_decide2 a b Ha Hb.
Qed.

Lemma to_be_bytes_3_mod x : 0 <= x -> to_be_bytes 3 (x mod 2 ^ 24) = drop 1 (to_be_bytes 4 x).
Proof.
  intros H. cbn -[Z.div Z.modulo]. do 2 (f_equal; [Z.to_euclidean_division_equations; lia|]).
  f_equal. rewrite !Z.div_1_r. Z.to_euclidean_division_equations. lia.
Qed.

Lemma identity_payload_layout i :
  emulated_typed i -> identity_payload i = identity_layout (host_identity i).
Proof.
  intros []. unfold identity_payload, identity_layout, host_identity, has_expanded_type,
    has_preamble_fields.
  cbn [id_universal_revision id_device_type id_manufacturer_id id_request_preambles
    id_device_revision id_software_revision id_hardware_revision id_physical_signaling id_flags
    id_device_id id_response_preambles id_maximum_device_variables id_configuration_change_counter
    id_extended_status id_private_label_distributor id_device_profile id_extension].
  rewrite hardware_byte, to_be_bytes_3_mod by (unfold is_u32 in *; done || lia). rewrite app_nil_r.
  destruct (revision_bools (ei_universal_revision i)) as [[-> ->]|[(-> & -> & _)|[-> ->]]];
    cbn [default from_option id]; try rewrite (to_be_bytes_2 (ei_device_type i)) by done; done.
Qed.

Lemma host_identity_wf i :
  emulated_typed i -> 1 <= ei_request_preambles i -> identity_wf (host_identity i).
Proof.
  intros [] Hp. unfold host_identity. constructor;
    unfold has_expanded_type, has_preamble_fields, is_u8, is_u16, is_u32 in *;
    cbn -[Z.leb Z.div Z.modulo Z.pow];
    destruct (revision_bools (ei_universal_revision i)) as [[E6 E7]|[(E6 & E7 & _)|[E6 E7]]];
    rewrite ?E6, ?E7; cbn -[Z.div Z.modulo Z.pow]; try done;
    try (Z.to_euclidean_division_equations; lia).
Qed.

Lemma identity_payload_decodes i :
  emulated_typed i -> 1 <= ei_request_preambles i ->
  decode_identity_data (identity_payload i) = Ok (host_identity i).
Proof.
  intros Hi Hp. rewrite identity_payload_layout by done.
  apply decode_identity_layout; [by apply host_identity_wf|]. rewrite <- identity_payload_layout by done.
  pose proof (length_identity_payload i). unfold usize_len, isize_max in *. lia.
Qed.

Lemma legacy_address_type m t :
  0 <= m -> 0 <= t ->
  Z.lor (Z.land (Z.shiftl (Z.land m 0x3f) 8) 0xffff) (Z.land t 0xff) = m mod 64 * 256 + t mod 256.
Proof.
  intros Hm Ht. change 0x3f with (Z.ones 6). change 0xff with (Z.ones 8). change 0xffff with (Z.ones 16).
  rewrite !Z.land_ones by lia. change (2 ^ 6) with 64. change (2 ^ 8) with 256. change (2 ^ 16) with 65536.
  pose proof (Z.mod_pos_bound m 64 eq_refl). pose proof (Z.mod_pos_bound t 256 eq_refl).
  rewrite Z.mod_small by (rewrite Z.shiftl_mul_pow2 by lia; change (2 ^ 8) with 256; lia).
  rewrite lor_shiftl_add by lia. change (2 ^ 8) with 256. lia.
Qed.

Lemma accepts_unique d ty m :
  0 <= ty <= 0x3fff -> ei_device_id (ed_identity d) <= 0xffffff ->
  let i := ed_identity d in
  let expected := if 7 <=? ei_universal_revision i then ei_device_type i mod 16384
                  else ei_manufacturer_id i mod 64 * 256 + ei_device_type i mod 256 in
  emulated_typed i ->
  (accepts_address d (Unique ty (ei_device_id i) m) = true
   <-> Unique ty (ei_device_id i) m = ed_address d \/ ty = expected).
Proof.
  intros Hty Hid i expected [Hm Ht _ _ _ _ _ _ _ _ _ _ _ _ _ _].
  unfold accepts_address. fold i. unfold is_u16 in *.
  rewrite legacy_address_type by lia. change 0x3fff with (Z.ones 14). rewrite Z.land_ones by lia.
  change (2 ^ 14) with 16384. fold expected.
  assert (He : 0 <= expected <= 0x3fff).
  { unfold expected. destruct (7 <=? _); Z.to_euclidean_division_equations; lia. }
  unfold Address_unique. rewrite !(proj2 (Z.ltb_ge _ _)) by (unfold i in *; lia).
  cbn [Address_master]. repeat case_bool_decide; naive_solver.
Qed.

(** The long address the host builds, and when the device listens to it. *)
Lemma emulated_unique_address d m :
  let i := ed_identity d in
  emulated_typed i -> 1 <= ei_request_preambles i -> ei_device_id i <= 0xffffff ->
  exists ty, let a := Unique ty (ei_device_id i) m in
    0 <= ty <= 0x3fff /\ DeviceIdentity_unique_address (host_identity i) m = Ok a /\ Address_valid a
    /\ (accepts_address d a = true
        <-> a = ed_address d \/ 7 <= ei_universal_revision i
            \/ (ei_device_type i / 256) mod 64 = ei_manufacturer_id i mod 64).
Proof.
  intros i Hi Hp Hid. pose proof (host_identity_wf i Hi Hp) as Hwf.
  pose proof (address_type_range _ Hwf) as Hr.
  exists (DeviceIdentity_address_device_type (host_identity i)). intros a.
  assert (Hd : id_device_id (host_identity i) = ei_device_id i).
  { cbn -[Z.modulo Z.pow]. pose proof (et_device_id i Hi). unfold is_u32 in *.
    apply Z.mod_small. lia. }
  split; [done|split; [|split]].
  { unfold DeviceIdentity_unique_address, Address_unique. rewrite Hd.
    by rewrite !(proj2 (Z.ltb_ge _ _)) by lia. }
  { split; [done|]. pose proof (et_device_id i Hi). unfold is_u32 in *. lia. }
  etrans; [by apply accepts_unique|]. apply or_iff_compat_l. fold i.
  pose proof (et_manufacturer i Hi). pose proof (et_type i Hi). unfold is_u16 in *.
  unfold DeviceIdentity_address_device_type, host_identity.
  cbn -[Z.modulo Z.div Z.pow Z.leb Z.land Z.lor Z.shiftl].
  destruct (Z.leb_spec 7 (ei_universal_revision i)) as [E|E].
  + change 0x3fff with (Z.ones 14). rewrite Z.land_ones by lia. tauto.
  + rewrite legacy_address_type by (Z.to_euclidean_division_equations; lia).
    rewrite Z.mod_mod by lia. lia.
Qed.

(** C37. The emulated device's identification is exact at the host: the host decodes it to the
    device's own fields, those of revisions 6 and 7 exactly from those revisions on, and can
    always build the long address from it. From revision 7 on the device accepts the address
    so built under either master; before, it does exactly when that is the address it was
    configured with or the two ends agree on the manufacturer, which the identification takes from the high byte of the device type and the
    device's address from the manufacturer identifier. *)
Theorem emulated_identification (d : EmulatedDevice) (m : Master) :
  let i := ed_identity d in
  emulated_typed i -> 1 <= ei_request_preambles i -> ei_device_id i <= 0xffffff ->
  decode_identity_data (identity_payload i) = Ok (host_identity i)
  /\ exists a, DeviceIdentity_unique_address (host_identity i) m = Ok a
      /\ (accepts_address d a = true
          <-> a = ed_address d \/ 7 <= ei_universal_revision i
              \/ (ei_device_type i / 256) mod 64 = ei_manufacturer_id i mod 64).
Proof.
  intros i Hi Hp Hid. split.
  - by apply identity_payload_decodes.
  - destruct (emulated_unique_address d m Hi Hp Hid) as (ty & _ & Ha & _ & Hiff). eauto.
Qed.

Lemma example_identity_typed : emulated_typed example_identity.
Proof. constructor; by vm_compute. Qed.

Lemma emulated_identification_witness :
  decode_identity_data (identity_payload example_identity) = Ok (host_identity example_identity)
  /\ exists a, DeviceIdentity_unique_address (host_identity example_identity) Secondary = Ok a
      /\ accepts_address example_device a = true.
Proof.
  destruct (emulated_identification example_device Secondary) as (Hd & a & Ha & Hiff);
    [exact example_identity_typed|by vm_compute..|].
  split; [exact Hd|]. exists a. split; [exact Ha|]. apply Hiff. right. left. by vm_compute.
Defined.

(** A revision-5 device whose manufacturer is not the high byte of its type: the host reads
    its identification and the device ignores the address built from it. *)
Example identified_but_unreachable :
  let i := mkEmulatedIdentity 0x26 0x0007 5 5 1 2 3 1 0 0x123456 5 4 9 0 0x26 1 in
  let d := mkEmulatedDevice (Polling 0 Primary) i 39 0 0 0 0 [] in
  exists a,
    (let? h := decode_identity_data (identity_payload i) ;;
     result_map_err (fun _ => InvalidValue "address") (DeviceIdentity_unique_address h Primary)) = Ok a
    /\ accepts_address d a = false.
Proof. eexists. split; by vm_compute. Qed.
