(* ===== verification/Bench.v ===== *)
(** * A test bench: the link runner over the in-memory link to an emulated device

    The two ends of the crate joined as its integration tests join them: the runner
    (src/src/service/link.rs) on one endpoint of a [MemoryChannel], the emulated device
    (src/src/emulator.rs) on the other. The device's task runs after each transmission of
    the host until it has to wait again. The bench is for fault plans without latency, which
    [serving] asks for: [transmit] then does not sleep, a send completes at once whatever its
    deadline, what is sent is there, and time passes only by waiting. *)
From S2P Require Import Prelude Wire Decoder DecoderFacts DecoderSpec DecoderProps Catalog Codec.
From S2P Require Import Operation Identity OperationProps ReplyProps InspectProps QueueSet.
From S2P Require Import QueueRuns Burst Link LinkRunner Trace Emulator EmulatorProps.

(** An endpoint with its peer. *)
Record Line := mkLine { line_self : MemoryChannel; line_peer : MemoryChannel }.

(** A receive that has to wait ends with the deadline over it. *)
#[global] Instance line_channel : ByteChannel Line := {
  bc_send c l :=
    let '(r, self, peer) := MemoryChannel_transmit (line_self c) (line_peer c) l in
    (r, mkLine self peer);
  bc_receive c capacity :=
    match MemoryChannel_receive (line_self c) (line_peer c) capacity with
    | Some (r, self) => (r, mkLine self (line_peer c))
    | None => (Err (ChannelTimeout "receive"), c)
    end;
  bc_flush c := (Ok tt, c);
}.

(** [bn_ended] is what the device's task returned, if it did. *)
Record Bench := mkBench {
  bn_clock : Z;
  bn_host : MemoryChannel;
  bn_remote : MemoryChannel;
  bn_device : EmulatedDevice;
  bn_decoder : FrameDecoder;
  bn_ended : option (result ChannelError unit);
}.

Definition bench_new (d : EmulatedDevice) (host remote : FaultPlan) : Bench :=
  mkBench 0 (with_faults fresh_endpoint host) (with_faults fresh_endpoint remote) d
    (FrameDecoder_new DecodeLimits_default) None.

(** The task returns and drops its endpoint. *)
Definition end_task (b : Bench) (c : Line) (r : result ChannelError unit) : Bench :=
  mkBench (bn_clock b) (line_peer c)
    (mkEndpoint (ep_incoming (line_self c)) (ep_remainder (line_self c)) (ep_faults (line_self c))
       false (ep_waited (line_self c)))
    (bn_device b) (bn_decoder b) (Some r).

(** [EmulatedDevice::run] from one wait for input to the next. A read takes a byte at least,
    so one unit of fuel per byte on the way and one more is enough. *)
Fixpoint device_turn (fuel : nat) (b : Bench) : Bench :=
  match fuel, bn_ended b with
  | S fuel, None =>
      match MemoryChannel_receive (bn_remote b) (bn_host b) 512 with
      | None => b
      | Some (Err ChannelIsClosed, remote) => end_task b (mkLine remote (bn_host b)) (Ok tt)
      | Some (Err e, remote) => end_task b (mkLine remote (bn_host b)) (Err e)
      | Some (Ok (read, buffer), remote) =>
          let '(events, decoder) :=
            FrameDecoder_push (bn_decoder b) (take (Z.to_nat read) buffer) in
          match serve_events (bn_device b) events (mkLine remote (bn_host b)) with
          | (Err e, c) => end_task b c (Err e)
          | (Ok _, c) =>
              device_turn fuel
                (mkBench (bn_clock b) (line_peer c) (line_self c) (bn_device b) decoder None)
          end
      end
  | _, _ => b
  end.

Definition bench_send (b : Bench) (l : bytes) : result ChannelError unit * Bench :=
  let '(r, host, remote) := MemoryChannel_transmit (bn_host b) (bn_remote b) l in
  (r, device_turn (S (length (ep_remainder remote ++ concat (ep_incoming remote))))
        (mkBench (bn_clock b) host remote (bn_device b) (bn_decoder b) (bn_ended b))).

Definition bench_receive (b : Bench) (capacity : Z)
    : option (result ChannelError (Z * bytes)) * Bench :=
  match MemoryChannel_receive (bn_host b) (bn_remote b) capacity with
  | Some (r, host) =>
      (Some r, mkBench (bn_clock b) host (bn_remote b) (bn_device b) (bn_decoder b) (bn_ended b))
  | None => (None, b)
  end.

Definition bench_wait (b : Bench) (t : Z) : Bench :=
  mkBench (Z.max (bn_clock b) t) (bn_host b) (bn_remote b) (bn_device b) (bn_decoder b) (bn_ended b).

#[global] Instance bench_runtime : Runtime Bench := {
  rt_instant_max := u64_max;
  rt_now b := (bn_clock b, b);
  rt_system_now b := (bn_clock b, b);
  rt_send b _ l := let '(r, b) := bench_send b l in (Some r, b);
  rt_receive b deadline capacity :=
    match bench_receive b capacity with
    | (None, b) => (None, bench_wait b deadline)
    | answer => answer
    end;
  rt_idle b capacity := bench_receive b capacity;
  rt_sleep_until b t := bench_wait b t;
  rt_reply_closed _ _ := false;
}.

(** ** The bench at its far end: bytes on the line and the device's task

    What a decoder makes of bytes on their way to it, whatever the fragments; what the line
    makes of a transmission; and the device's turn: every request that reaches it is answered,
    in order, with what its line makes of the answer. *)

(** ** Frames on their way into a decoder *)

(** The decoder's next events are these frames, and no byte is left behind them. *)
Fixpoint delivers (d : FrameDecoder) (frames : list Frame) : Prop :=
  match frames with
  | [] => dec_bytes d = []
  | f :: frames => exists d', next_event d = (Some (EventFrame f), d') /\ delivers d' frames
  end.

(** The decoder makes these frames of the bytes still to come, which fit its buffer. *)
Record awaits (d : FrameDecoder) (frames : list Frame) (rest : bytes) : Prop := {
  aw_ok : decoder_ok d;
  aw_fits : zlen (dec_bytes d) + zlen rest <= buffer_capacity (dec_limits d);
  aw_few : (length frames < MAXIMUM_DECODE_EVENTS_PER_PUSH)%nat;
  aw_delivers : delivers (extend d rest) frames;
}.

Lemma drain_delivers b d frames rest :
  decoder_ok d -> (length frames < b)%nat -> delivers (extend d rest) frames ->
  exists seen todo d', frames = seen ++ todo
    /\ drain_events b d = (EventFrame <$> seen, d')
    /\ delivers (extend d' rest) todo /\ decoder_ok d' /\ dec_limits d' = dec_limits d
    /\ (length (dec_bytes d') <= length (dec_bytes d))%nat /\ quiescent d'.
Proof.
  revert d frames. induction b as [|b IH]; intros d frames Hok Hb Hd; [lia|].
  cbn [drain_events]. pose proof (next_event_ok d Hok) as Hok'.
  pose proof (next_event_limits d) as Hl. pose proof (next_event_length d) as Hlen.
  destruct (next_event d) as [[e|] d1] eqn:He; cbn [snd] in *.
  - pose proof (next_event_extend_Some d rest e d1 He) as Hx.
    destruct frames as [|f frames]; cbn [delivers] in Hd.
    + apply next_event_shrinks in Hx. rewrite Hd in Hx. cbn in Hx. lia.
    + destruct Hd as (d' & Hn & Hd). rewrite Hx in Hn. injection Hn as -> <-.
      destruct (IH d1 frames) as (seen & todo & d2 & -> & Hdr & Hd2 & Hok2 & Hl2 & Hlen2 & Hq);
        [done|cbn in Hb; lia|done|].
      exists (f :: seen), todo, d2. rewrite Hdr. split_and!; try done; [congruence|lia].
  - exists [], frames, d1. split_and!; try done.
    + destruct frames as [|f frames]; cbn [delivers] in *.
      * unfold extend in *. cbn in *. apply app_eq_nil in Hd as [E ->]. rewrite E in Hlen.
        destruct (dec_bytes d1); [done|cbn in Hlen; lia].
      * destruct Hd as (d' & Hn & Hd). exists d'.
        by rewrite <- (next_event_extend_None d rest d1 Hok He).
    + exact (next_event_quiescent d d1 Hok He).
Qed.

Lemma push_awaits d frames q rest :
  awaits d frames (q ++ rest) ->
  exists seen todo d', frames = seen ++ todo
    /\ FrameDecoder_push d q = (EventFrame <$> seen, d')
    /\ awaits d' todo rest /\ dec_limits d' = dec_limits d
    /\ (rest = [] -> todo = [] /\ dec_bytes d' = []).
Proof.
  intros [Hok Hfit Hfew Hd]. rewrite zlen_app in Hfit. pose proof (zlen_nonneg rest).
  rewrite <- extend_extend in Hd.
  assert (Hok1 : decoder_ok (extend d q)) by by destruct Hok.
  destruct (drain_delivers MAXIMUM_DECODE_EVENTS_PER_PUSH (extend d q) frames rest)
    as (seen & todo & d' & -> & Hdr & Hd' & Hok' & Hl & Hlen & Hq); [done..|].
  exists seen, todo, d'. rewrite length_app in Hfew. split_and!; try done.
  - unfold FrameDecoder_push. rewrite append_bounded_fits, Hdr by lia.
    rewrite length_fmap, (proj2 (Nat.eqb_neq _ _)) by lia. done.
  - split; [done| |lia|done].
    assert (E : dec_limits d' = dec_limits d) by done. rewrite E.
    unfold zlen in *. cbn [extend dec_bytes] in Hlen. rewrite length_app in Hlen. lia.
  - intros ->. rewrite extend_nil in Hd'. destruct todo as [|f todo]; [done|].
    destruct Hd' as (d2 & Hn & _). by rewrite Hq in Hn.
Qed.

(** Frames a decoder with these limits recovers from their encodings. *)
Definition recoverable (limits : DecodeLimits) (f : Frame) : Prop :=
  Frame_wf f /\ frame_repair f = None /\ minimum_preambles limits <= frame_preambles f.

(** A decoder with these limits finds the frame in these bytes, and finds it first, whatever
    comes behind. *)
Definition carries (limits : DecodeLimits) (l : bytes) (f : Frame) : Prop :=
  forall d rest, dec_limits d = limits -> dec_bytes d = l ++ rest ->
    exists d', next_event d = (Some (EventFrame f), d') /\ dec_bytes d' = rest
      /\ dec_limits d' = limits.

Lemma carries_encoded limits f : recoverable limits f -> carries limits (frame_encoding f) f.
Proof.
  intros (Hwf & Hr & Hp) d rest Hl Hb. rewrite next_event_unfold, Hb, Hl, analyze_encoded by done.
  eexists. split; [reflexivity|]. cbn. by rewrite drop_app_length.
Qed.

(** *** Bytes in front of a frame

    Bytes in which no frame can begin are passed over; those of them that look like preambles
    of the frame count as such, up to the limit of the count. *)
Definition with_preambles (f : Frame) (n : Z) : Frame :=
  mkFrame n (frame_kind f) (frame_physical_layer f) (frame_address f) (frame_expansion f)
    (frame_wire_command f) (frame_payload f) (frame_repair f).

Definition heard (prefix : bytes) (f : Frame) : Frame :=
  with_preambles f (Z.min 255 (frame_preambles f + Z.of_nat (trailing_ff prefix))).

Definition harmless (limits : DecodeLimits) (prefix : bytes) : Prop :=
  find_candidate prefix limits = None.

Lemma harmless_nil limits : harmless limits [].
Proof. done. Qed.

Lemma harmless_suffix limits a b : harmless limits (a ++ b) -> harmless limits b.
Proof. apply find_candidate_drop_None. Qed.

Lemma heard_nil f : Frame_wf f -> heard [] f = f.
Proof.
  intros [Hp _ _ _ _ _ _]. unfold heard, with_preambles, trailing_ff. cbn. unfold is_u8 in Hp.
  rewrite Z.add_0_r, Z.min_r by lia. by destruct f.
Qed.

Lemma heard_wf prefix f : Frame_wf f -> Frame_wf (heard prefix f).
Proof. intros []. split; try done. cbn. unfold is_u8 in *. lia. Qed.

Lemma trailing_ff_split l n :
  (n <= trailing_ff l)%nat -> l = take (length l - n) l ++ replicate n 0xff.
Proof.
  intros Hn. pose proof (trailing_ff_le l) as Hle.
  rewrite <- (take_drop (length l - n) l) at 1. f_equal.
  apply (nth_ext _ _ 0 0); rewrite length_drop, ?length_replicate; [lia|].
  intros i Hi. rewrite nth_skipn, nth_replicate_lt by lia. apply trailing_ff_nth; lia.
Qed.

Lemma trailing_ff_preambles l n : trailing_ff (l ++ replicate n 0xff) = (trailing_ff l + n)%nat.
Proof. rewrite trailing_ff_app, trailing_ff_replicate, length_replicate, Nat.eqb_refl. lia. Qed.

(** The first candidate is the delimiter of the frame. *)
Lemma find_candidate_prefixed limits prefix p d rest :
  harmless limits prefix -> minimum_preambles limits <= Z.of_nat p ->
  is_possible_delimiter d (checksum_policy limits) = true ->
  let run := ((trailing_ff prefix + p) `min` 255)%nat in
  find_candidate (prefix ++ replicate p 0xff ++ d :: rest) limits
    = Some (length prefix + p, length prefix + p - run, run)%nat.
Proof.
  intros Hh Hmin Hd run. set (l := prefix ++ _).
  assert (El : l = (prefix ++ replicate p 0xff) ++ d :: rest) by (unfold l; by rewrite <- app_assoc).
  assert (Hlen : length (prefix ++ replicate p 0xff) = (length prefix + p)%nat)
    by by rewrite length_app, length_replicate.
  assert (Hrun : run_before l (length prefix + p) = (trailing_ff prefix + p)%nat).
  { unfold run_before. rewrite El, take_app_le, take_ge by lia. apply trailing_ff_preambles. }
  apply find_candidate_Some. rewrite Hrun, El, nth_mid by done. rewrite length_app, Hlen. cbn [length].
  split_and!; [lia|done|lia|done|done|]. intros j Hj. rewrite <- El.
  destruct (decide (j < length prefix)%nat) as [Hp|Hp].
  - apply candidate_at_None_iff; [unfold l; rewrite length_app; lia|].
    unfold harmless in Hh. rewrite find_candidate_None in Hh. specialize (Hh j Hp).
    rewrite candidate_at_None_iff in Hh by lia. unfold l.
    by rewrite app_nth1, run_before_app_l by lia.
  - apply candidate_at_None_iff; [rewrite El, length_app; lia|].
    rewrite El, app_nth1, app_nth2, nth_replicate_lt by lia. by rewrite ff_not_delimiter.
Qed.

(** The bytes of a prefix and a frame, with the preambles the frame is heard with. *)
Lemma heard_encoding prefix f :
  Frame_wf f ->
  let run := ((trailing_ff prefix + Z.to_nat (frame_preambles f)) `min` 255)%nat in
  prefix ++ frame_encoding f
    = take (length prefix + Z.to_nat (frame_preambles f) - run) prefix ++ frame_encoding (heard prefix f)
  /\ Z.to_nat (frame_preambles (heard prefix f)) = run.
Proof.
  intros [Hp _ _ _ _ _ _] run. unfold is_u8 in Hp. pose proof (trailing_ff_le prefix).
  set (p := Z.to_nat (frame_preambles f)) in *.
  assert (Hr : Z.to_nat (frame_preambles (heard prefix f)) = run) by (cbn; lia). split; [|done].
  unfold frame_encoding. rewrite Hr. change (Frame_body (heard prefix f)) with (Frame_body f).
  rewrite !app_assoc. do 2 f_equal. fold p.
  rewrite (trailing_ff_split prefix (run - p)) at 1 by lia.
  replace (length prefix + p - run)%nat with (length prefix - (run - p))%nat by lia.
  rewrite <- app_assoc, <- replicate_add. do 2 f_equal. lia.
Qed.

Lemma carries_prefixed limits prefix f :
  harmless limits prefix -> recoverable limits f ->
  carries limits (prefix ++ frame_encoding f) (heard prefix f).
Proof.
  intros Hh (Hwf & Hr & Hp) d rest Hl Hb. destruct (heard_encoding prefix f Hwf) as [He Hrun].
  pose proof (wf_preambles _ Hwf) as Hpre. unfold is_u8 in Hpre.
  set (run := (_ `min` 255)%nat) in *. set (n := (length prefix + _ - run)%nat) in *.
  assert (Hrec : recoverable limits (heard prefix f)).
  { split_and!; [by apply heard_wf|done|cbn; lia]. }
  destruct (Frame_delimiter_byte_spec f) as (_ & Hk & _); [apply Hwf|].
  assert (Hc : find_candidate (dec_bytes d) limits
               = Some (length prefix + Z.to_nat (frame_preambles f), n, run)%nat).
  { rewrite Hb, <- app_assoc, (frame_encoding_split f rest). cbn [app].
    apply find_candidate_prefixed; [done|lia|by apply from_delimiter_possible; rewrite Hk]. }
  rewrite He in Hb. destruct (Nat.ltb_spec 0 n) as [Hn|Hn].
  - rewrite next_event_unfold. unfold analyze. rewrite Hl, Hc, (proj2 (Nat.ltb_lt _ _)) by done.
    apply carries_encoded; [done|done|]. cbn [FrameDecoder_discard dec_bytes].
    assert (Hlen : length (take n prefix) = n).
    { rewrite length_take. unfold n, run. pose proof (trailing_ff_le prefix). lia. }
    rewrite Hb, Nat.min_l by (rewrite !length_app; lia).
    rewrite <- app_assoc, drop_app_le, drop_ge by lia. done.
  - assert (E0 : n = 0%nat) by lia. rewrite E0 in Hb.
    by apply (carries_encoded limits (heard prefix f) Hrec).
Qed.

(** *** A series of messages *)

Lemma delivers_carried d ls frames :
  Forall2 (carries (dec_limits d)) ls frames -> dec_bytes d = concat ls -> delivers d frames.
Proof.
  intros Hf. remember (dec_limits d) as limits eqn:Hl. symmetry in Hl. revert d Hl.
  induction Hf as [|l f ls frames Hc Hf IH]; intros d Hl Hb; [done|].
  destruct (Hc d (concat ls) Hl Hb) as (d' & Hn & Hb' & Hl'). exists d'. auto.
Qed.

Lemma awaits_carried d ls frames :
  decoder_ok d -> dec_bytes d = [] -> Forall2 (carries (dec_limits d)) ls frames ->
  zlen (concat ls) <= buffer_capacity (dec_limits d) ->
  (length frames < MAXIMUM_DECODE_EVENTS_PER_PUSH)%nat ->
  awaits d frames (concat ls).
Proof.
  intros Hok Hb Hf Hfit Hfew. split; [done|by rewrite Hb|done|].
  apply (delivers_carried _ ls); [done|]. cbn. by rewrite Hb.
Qed.

(** ** The device at its end *)

(** The Rust types of the fields. *)
Record device_typed (d : EmulatedDevice) : Prop := {
  dt_identity : emulated_typed (ed_identity d);
  dt_unit : is_u8 (ed_primary_unit d);
  dt_value : is_u32 (ed_primary_value d);
  dt_loop : is_u32 (ed_loop_current d);
  dt_percent : is_u32 (ed_percent d);
  dt_status : is_u8 (ed_status d);
  dt_additional : all_u8 (ed_additional_status d);
  dt_additional_length : zlen (ed_additional_status d) <= 251;
}.

Lemma identity_payload_u8 i : emulated_typed i -> all_u8 (identity_payload i).
Proof.
  intros []. unfold identity_payload. rewrite hardware_byte by done.
  assert (is_u8 (ei_hardware_revision i mod 32 * 8 + ei_physical_signaling i mod 8)).
  { unfold is_u8. Z.to_euclidean_division_equations. lia. }
  repeat first
    [ apply to_be_bytes_u8 | apply Forall_drop, to_be_bytes_u8 | apply Forall_app; split
    | apply Forall_cons_iff; split | case_match | done | unfold is_u8; lia ].
Qed.

Lemma device_data_u8 d command :
  device_typed d -> all_u8 (default [] (device_data d command)).
Proof.
  intros []. unfold device_data. repeat case_match; cbn [default from_option id].
  - by apply identity_payload_u8.
  - apply Forall_cons_iff. split; [done|apply to_be_bytes_u8].
  - apply Forall_app. split; apply to_be_bytes_u8.
  - done.
  - done.
Qed.

Lemma respond_wf d f : device_typed d -> Frame_wf f -> Frame_wf (respond d f).
Proof.
  intros Hd Hf. pose proof (respond_encodes d f Hf (dt_additional_length d Hd)) as He.
  apply Frame_encode_Ok_inv in He as (_ & Hlen & _).
  destruct Hf. constructor; try done.
  - cbn. pose proof (et_response_preambles _ (dt_identity d Hd)). unfold is_u8 in *. lia.
  - rewrite respond_payload. set (e := (_ && _)%bool). set (c := if e then _ else _).
    repeat (apply Forall_app; split).
    + rewrite !Forall_cons_iff. split_and!; [|apply Hd|done]. by destruct (device_data d c).
    + destruct e; [apply to_be_bytes_u8|done].
    + by apply device_data_u8.
Qed.

Lemma encoding_length f : Frame_wf f -> zlen (frame_encoding f) <= MAX_ENCODED_FRAME_SIZE.
Proof.
  intros Hf. apply (encoding_bounded f); [done|]. apply Frame_encode_ok; apply Hf.
Qed.

Lemma encoding_nonempty f : frame_encoding f <> [].
Proof. intros E. apply (f_equal length) in E. rewrite length_frame_encoding in E. cbn in E. lia. Qed.

(** What one endpoint says of another that differs in its input at most. *)
Definition same_end (c c' : MemoryChannel) : Prop :=
  ep_faults c' = ep_faults c /\ ep_alive c' = ep_alive c.

(** *** What the device says

    Its answers as they come out of the line, whose one-shot faults spend themselves on the
    first of them. *)
Fixpoint spoken (d : EmulatedDevice) (plan : FaultPlan) (frames : list Frame) : bytes :=
  match frames with
  | [] => []
  | f :: frames =>
      if answered d f
      then line_output plan (frame_encoding (respond d f)) ++ spoken d (clear_faults plan) frames
      else spoken d plan frames
  end.

Definition plan_after (d : EmulatedDevice) (plan : FaultPlan) (frames : list Frame) : FaultPlan :=
  if existsb (answered d) frames then clear_faults plan else plan.

Lemma clear_clear plan : clear_faults (clear_faults plan) = clear_faults plan.
Proof. done. Qed.

Lemma plan_after_app d plan a b :
  plan_after d plan (a ++ b) = plan_after d (plan_after d plan a) b.
Proof. unfold plan_after. rewrite existsb_app. by destruct (existsb _ a), (existsb _ b). Qed.

Lemma spoken_app d plan a b :
  spoken d plan (a ++ b) = spoken d plan a ++ spoken d (plan_after d plan a) b.
Proof.
  revert plan. induction a as [|f a IH]; intros plan; [done|]. cbn [app spoken].
  unfold plan_after. cbn [existsb]. destruct (answered d f); cbn [orb].
  - rewrite IH, <- app_assoc. do 2 f_equal. unfold plan_after. rewrite clear_clear.
    by destruct (existsb _ a).
  - apply IH.
Qed.

Lemma serve_line d frames remote host :
  device_typed d -> Forall Frame_wf frames -> fp_echo (ep_faults remote) = false ->
  ep_alive host = true ->
  exists remote' host',
    serve_events d (EventFrame <$> frames) (mkLine remote host) = (Ok tt, mkLine remote' host')
    /\ pending remote' = pending remote
    /\ pending host' = pending host ++ spoken d (ep_faults remote) frames
    /\ ep_faults remote' = plan_after d (ep_faults remote) frames
    /\ ep_alive remote' = ep_alive remote /\ same_end host host'.
Proof.
  intros Hd Hf. revert remote host.
  induction Hf as [|f frames Hf Hfs IH]; intros remote host He Ha; cbn [fmap list_fmap serve_events].
  - exists remote, host. unfold same_end. cbn. by rewrite app_nil_r.
  - rewrite <- negb_andb. fold (answered d f). cbn [spoken]. unfold plan_after. cbn [existsb].
    destruct (answered d f); cbn [negb orb]; [|by apply IH].
    rewrite respond_encodes by (done || apply Hd). cbn [bc_send line_channel line_self line_peer].
    destruct (transmit_spec remote host (frame_encoding (respond d f)))
      as (r1 & h1 & -> & Hh & Hr & Er & Eh & Ar & Ah); [|done|].
    { pose proof (encoding_length _ (respond_wf d f Hd Hf)).
      unfold MAX_ENCODED_FRAME_SIZE, MAXIMUM_EMULATOR_TRANSMISSION_BYTES in *. lia. }
    rewrite He, app_nil_r in Hr.
    destruct (IH r1 h1) as (r2 & h2 & Hs & Hr2 & Hh2 & Er2 & Ar2 & [Eh3 Eh4]); [by rewrite Er|done|].
    exists r2, h2. unfold same_end. split_and!; [done|congruence| | |congruence..].
    + by rewrite Hh2, Hh, Er, <- app_assoc.
    + rewrite Er2, Er. unfold plan_after. by destruct (existsb _ frames).
Qed.

(** The device's task is waiting for, or working on, what is on the way to it, over a line
    without latency. *)
Record serving (b : Bench) : Prop := {
  sg_running : bn_ended b = None;
  sg_device : device_typed (bn_device b);
  sg_host : ep_alive (bn_host b) = true;
  sg_remote : ep_alive (bn_remote b) = true;
  sg_no_echo : fp_echo (ep_faults (bn_remote b)) = false;
  sg_instant : fp_latency (ep_faults (bn_host b)) = 0 /\ fp_latency (ep_faults (bn_remote b)) = 0;
}.

(** What does not change from one state of a serving bench to the next. *)
Definition same_bench (b b' : Bench) : Prop :=
  serving b' /\ bn_device b' = bn_device b /\ bn_clock b' = bn_clock b
  /\ dec_limits (bn_decoder b') = dec_limits (bn_decoder b).

Lemma device_turn_spec fuel b frames :
  serving b -> Forall Frame_wf frames ->
  awaits (bn_decoder b) frames (pending (bn_remote b)) ->
  (pending (bn_remote b) = [] -> frames = [] /\ dec_bytes (bn_decoder b) = []) ->
  (length (pending (bn_remote b)) < fuel)%nat ->
  let b' := device_turn fuel b in
  same_bench b b' /\ pending (bn_remote b') = []
  /\ pending (bn_host b')
     = pending (bn_host b) ++ spoken (bn_device b) (ep_faults (bn_remote b)) frames
  /\ ep_faults (bn_host b') = ep_faults (bn_host b)
  /\ ep_faults (bn_remote b') = plan_after (bn_device b) (ep_faults (bn_remote b)) frames
  /\ decoder_ok (bn_decoder b') /\ dec_bytes (bn_decoder b') = [].
Proof.
  revert b frames. induction fuel as [|fuel IH]; intros b frames Hb Hf Haw Hend Hfuel; [lia|].
  pose proof Hb as [Hrun Hd Hh Hr Hne [Lh Lr]]. cbn [device_turn]. rewrite Hrun.
  pose proof (receive_spec (bn_remote b) (bn_host b) 512 ltac:(lia)) as Hrec.
  destruct (MemoryChannel_receive _ _ 512) as [[[[count data]|e] remote]|].
  - destruct Hrec as (Hdata & -> & Hle & Hp & Efr & Ear).
    unfold zlen. rewrite Nat2Z.id, firstn_all. rewrite Hp in Haw.
    destruct (push_awaits _ _ _ _ Haw) as (seen & todo & dec & -> & Hpush & Haw' & Hlim & Hlast).
    rewrite Hpush. apply Forall_app in Hf as [Hf1 Hf2].
    destruct (serve_line (bn_device b) seen remote (bn_host b))
      as (r2 & h2 & -> & Hr2 & Hh2 & Er1 & Er2 & [Eh1 Eh2]); [done|done|by rewrite Efr|done|].
    cbn [line_self line_peer]. rewrite Efr in Er1, Hh2.
    set (b1 := mkBench (bn_clock b) h2 r2 (bn_device b) dec None).
    assert (Hb1 : serving b1).
    { split; cbn; try congruence; rewrite ?Er1; unfold plan_after; destruct (existsb _ seen); cbn;
        rewrite ?Eh1; done. }
    destruct (IH b1 todo) as ((Hs & Hdv & Hcl & Hl2) & Hp1 & Hp2 & Fh & Fr & Hok & Hbytes);
      [done|done|cbn; by rewrite Hr2|cbn; rewrite Hr2; exact Hlast| |].
    { cbn. rewrite Hr2. rewrite Hp, length_app in Hfuel. destruct data; [done|]. cbn in Hfuel. lia. }
    cbn [b1 bn_device bn_clock bn_host bn_decoder bn_remote] in *.
    unfold same_bench. split_and!; try done; [congruence| |congruence|].
    + by rewrite Hp2, Hh2, Er1, spoken_app, <- app_assoc.
    + by rewrite Fr, Er1, plan_after_app.
  - destruct Hrec as (_ & _ & Hx). congruence.
  - destruct Hrec as (Hp & _). destruct (Hend Hp) as [-> Hbytes]. destruct Haw.
    unfold same_bench. cbn [spoken]. rewrite app_nil_r. by split_and!.
Qed.

(** Nothing is on the way, and the device's decoder is empty. *)
Record quiet (b : Bench) : Prop := {
  qt_serving : serving b;
  qt_host : pending (bn_host b) = [];
  qt_remote : pending (bn_remote b) = [];
  qt_decoder : decoder_ok (bn_decoder b);
  qt_bytes : dec_bytes (bn_decoder b) = [];
}.

(** ** A transmission of the host

    The frames the device makes of what comes out of the line, and what comes back. *)
Lemma bench_send_spec b l frames :
  quiet b -> zlen l <= MAXIMUM_EMULATOR_TRANSMISSION_BYTES -> Forall Frame_wf frames ->
  awaits (bn_decoder b) frames (line_output (ep_faults (bn_host b)) l) ->
  (line_output (ep_faults (bn_host b)) l = [] -> frames = []) ->
  exists b', bench_send b l = (Ok tt, b') /\ same_bench b b' /\ pending (bn_remote b') = []
    /\ pending (bn_host b')
       = (if fp_echo (ep_faults (bn_host b)) then l else [])
         ++ spoken (bn_device b) (ep_faults (bn_remote b)) frames
    /\ ep_faults (bn_host b') = clear_faults (ep_faults (bn_host b))
    /\ ep_faults (bn_remote b') = plan_after (bn_device b) (ep_faults (bn_remote b)) frames
    /\ decoder_ok (bn_decoder b') /\ dec_bytes (bn_decoder b') = [].
Proof.
  intros [Hs Hh Hr Hok Hb] Hlen Hf Haw Hnone. unfold bench_send.
  pose proof Hs as [Hrun Hd Hha Hra Hne [Lh Lr]].
  destruct (transmit_spec (bn_host b) (bn_remote b) l)
    as (host & remote & -> & Hp & Hph & Eh1 & Er1 & Eh2 & Er2); [done..|].
  rewrite Hr in Hp. rewrite Hh in Hph. cbn [app] in Hp, Hph. fold (pending remote).
  set (b1 := mkBench (bn_clock b) host remote (bn_device b) (bn_decoder b) (bn_ended b)).
  eexists. split; [reflexivity|].
  destruct (device_turn_spec (S (length (pending remote))) b1 frames)
    as ((Hs' & Hdv & Hcl & Hl) & Hp1 & Hp2 & Fh & Fr & Hok' & Hb').
  - split; cbn; try congruence. by rewrite Eh1, Er1.
  - done.
  - cbn. by rewrite Hp.
  - cbn. rewrite Hp. auto.
  - cbn. lia.
  - cbn [b1 bn_device bn_clock bn_host bn_decoder bn_remote] in *. unfold same_bench.
    rewrite Er1 in Hp2, Fr. split_and!; try done; [by rewrite Hp2, Hph|congruence].
Qed.
