(* ===== verification/BenchProps.v ===== *)
(** * The bench: a request reaches the device and its answer comes back

    The runner at its end of the line: an exchange over a line that echoes, loses a
    transmission or puts noise before it, and an exchange nobody answers. *)
From S2P Require Import Prelude Wire Decoder DecoderFacts DecoderSpec DecoderProps Catalog Codec.
From S2P Require Import Operation OperationProps Identity ReplyProps QueueSet QueueRuns.
From S2P Require Import Burst BurstProps Link LinkRunner.
From S2P Require Import InspectProps ExchangeProps Trace Emulator EmulatorProps Bench.

(** ** The host at its end *)

Section Host.
Context {S C : Type} `{Semaphore S} `{Mpsc C}.
Implicit Types l : LinkRunner Bench S C.

(** The runner with more effects, its line and its decoder. *)
Definition host_at l (added : list Effect) (e : Bench) (d : FrameDecoder) : LinkRunner Bench S C :=
  mkRunner e (added ++ ln_effects l) (ln_queues l)
    (ln_counters l) d (ln_read_buffer l) (ln_burst_hub l) (ln_channel_usable l)
    (ln_maximum_coalesced l) (ln_late_response_guard l).

Lemma host_at_add l xs ys e d e' d' :
  host_at (host_at l xs e d) ys e' d' = host_at l (ys ++ xs) e' d'.
Proof. unfold host_at. cbn. by rewrite app_assoc. Qed.

(** What is broadcast for some echoes. *)
Definition echo_events (id : Z) (echoes : list Frame) : list Effect :=
  replicate (length echoes) (Broadcast (LinkEchoDiscarded id)).

Lemma echo_events_app id a b : echo_events id (a ++ b) = echo_events id b ++ echo_events id a.
Proof. unfold echo_events. by rewrite length_app, Nat.add_comm, replicate_add. Qed.

Lemma handle_echoes l id req echoes events :
  Forall (fun f => is_echo f req = true) echoes ->
  handle_events l id req ((EventFrame <$> echoes) ++ events)
    = handle_events (host_at l (echo_events id echoes) (ln_env l) (ln_decoder l)) id req events.
Proof.
  intros He. revert l. induction He as [|f echoes Hf He IH]; intros l; [by destruct l|].
  cbn [fmap list_fmap app handle_events]. rewrite Hf, IH.
  change (broadcast l (LinkEchoDiscarded id))
    with (host_at l (echo_events id [f]) (ln_env l) (ln_decoder l)).
  rewrite host_at_add, <- echo_events_app. done.
Qed.

Lemma handle_reply l id req resp reply events :
  is_echo resp req = false -> DeviceReply_from_frame resp = Ok reply ->
  rep_burst reply = false -> matches_request reply req = true ->
  handle_events l id req (EventFrame resp :: events) = (Some reply, l).
Proof. intros He Hr Hb Hm. cbn [handle_events]. by rewrite He, Hr, Hb, Hm. Qed.

Definition set_host (b : Bench) (host : MemoryChannel) : Bench :=
  mkBench (bn_clock b) host (bn_remote b) (bn_device b) (bn_decoder b) (bn_ended b).

(** A frame that answers a request, with the reply in it. *)
Definition replies (req resp : Frame) (reply : DeviceReply) : Prop :=
  is_echo resp req = false /\ DeviceReply_from_frame resp = Ok reply
  /\ rep_burst reply = false /\ matches_request reply req = true.

(** What the frames still to come make of a reception: the reply in the last of them, or the
    timeout. *)
Definition reception (b : Bench) (deadline : Z) (answer : option (Frame * DeviceReply))
    : result ExchangeError DeviceReply * Bench :=
  match answer with
  | Some (_, reply) => (Ok reply, b)
  | None => (Err ExResponseTimeout, bench_wait b deadline)
  end.

Lemma receive_loop_bench fuel l id req deadline echoes answer :
  ep_alive (bn_remote (ln_env l)) = true -> 0 < ln_read_buffer l ->
  match answer with Some (resp, reply) => replies req resp reply | None => True end ->
  Forall (fun f => is_echo f req = true) echoes ->
  awaits (ln_decoder l) (echoes ++ option_list (fst <$> answer)) (pending (bn_host (ln_env l))) ->
  (pending (bn_host (ln_env l)) = [] ->
   echoes = [] /\ answer = None /\ dec_bytes (ln_decoder l) = []) ->
  (length (pending (bn_host (ln_env l))) < fuel)%nat ->
  exists host d,
    let '(r, b) := reception (set_host (ln_env l) host) deadline answer in
    receive_loop fuel l id req deadline = (Some r, host_at l (echo_events id echoes) b d)
    /\ pending host = [] /\ same_end (bn_host (ln_env l)) host
    /\ decoder_ok d /\ dec_bytes d = [] /\ dec_limits d = dec_limits (ln_decoder l).
Proof.
  intros Hra Hbuf Hans. revert l echoes Hra Hbuf.
  induction fuel as [|fuel IH]; intros l echoes Hra Hbuf Hec Haw Hend Hfuel; [lia|].
  cbn [receive_loop rt_receive bench_runtime]. unfold bench_receive.
  pose proof (receive_spec (bn_host (ln_env l)) (bn_remote (ln_env l)) (ln_read_buffer l) Hbuf) as Hrec.
  destruct (MemoryChannel_receive _ _ _) as [[[[count data]|e] host]|].
  - destruct Hrec as (Hdata & -> & Hle & Hp & Ef & Ea). fold (set_host (ln_env l) host).
    assert (Hz : 0 < zlen data) by (destruct data; [done|unfold zlen; cbn; lia]).
    rewrite (proj2 (Z.eqb_neq _ _)) by lia. cbn [ln_read_buffer with_env].
    rewrite (proj2 (Z.ltb_ge _ _)) by done. cbn [ln_decoder with_env].
    unfold zlen at 1. rewrite Nat2Z.id, firstn_all. rewrite Hp in Haw.
    destruct (push_awaits _ _ _ _ Haw) as (seen & todo & d & Heq & -> & Haw' & Hlim & Hlast).
    change (with_decoder (with_env l (set_host (ln_env l) host)) d)
      with (host_at l [] (set_host (ln_env l) host) d).
    assert (Hsplit : (exists echoes', echoes = seen ++ echoes'
                        /\ todo = echoes' ++ option_list (fst <$> answer))
                     \/ (exists resp reply, answer = Some (resp, reply)
                        /\ seen = echoes ++ [resp] /\ todo = [])).
    { destruct answer as [[resp reply]|]; cbn [option_list fmap option_fmap option_map fst] in *.
      - destruct todo as [|t todo _] using rev_ind.
        + right. exists resp, reply. rewrite app_nil_r in Heq. done.
        + left. rewrite app_assoc in Heq. apply app_inj_tail in Heq as [-> ->]. by exists todo.
      - left. exists todo. rewrite app_nil_r in Heq. by rewrite app_nil_r. }
    destruct Hsplit as [(echoes' & -> & ->)|(resp & reply & -> & -> & ->)].
    + apply Forall_app in Hec as [Hec1 Hec2].
      rewrite <- (app_nil_r (EventFrame <$> seen)), handle_echoes by done. cbn [handle_events].
      rewrite host_at_add, app_nil_r. cbn [host_at ln_env ln_decoder].
      set (l1 := host_at l (echo_events id seen) (set_host (ln_env l) host) d).
      destruct (IH l1 echoes') as (host2 & d2 & Hl); [done|done|done|done| | |].
      * cbn. intros Hx. destruct (Hlast Hx) as [[-> Hy]%app_eq_nil Hz'].
        by destruct answer as [[]|].
      * cbn. rewrite Hp, length_app in Hfuel. unfold zlen in Hz. lia.
      * exists host2, d2. cbn [l1 host_at ln_env ln_decoder] in Hl.
        change (set_host (set_host (ln_env l) host) host2) with (set_host (ln_env l) host2) in Hl.
        destruct (reception _ _ _) as [r b]. destruct Hl as (Hl & Hp2 & [E1 E2] & Hok2 & Hb2 & Hl2).
        fold l1. rewrite Hl. unfold l1. rewrite host_at_add, <- echo_events_app.
        cbn in E1, E2. unfold same_end. split_and!; try done; congruence.
    + destruct Hans as (He & Hr & Hb & Hm). rewrite fmap_app, handle_echoes by done.
      cbn [fmap list_fmap]. rewrite (handle_reply _ _ _ _ reply) by done.
      rewrite host_at_add, app_nil_r. cbn [host_at ln_env ln_decoder].
      destruct Haw' as [Hok _ _ Hd]. cbn in Hd. apply app_eq_nil in Hd as [Hd Hrest].
      exists host, d. by split_and!.
  - destruct Hrec as (_ & _ & Hx). congruence.
  - destruct Hrec as (Hx & _). destruct (Hend Hx) as (-> & -> & Hb).
    exists (bn_host (ln_env l)), (ln_decoder l). cbn [reception].
    assert (Es : set_host (ln_env l) (bn_host (ln_env l)) = ln_env l) by by destruct (ln_env l).
    rewrite Es. destruct Haw as [Hok _ _ _]. by split_and!.
Qed.
End Host.

(** ** A request and its answer *)

(** What the device says to a request, and what is heard of it behind some noise. *)
Definition device_reply (d : EmulatedDevice) (r : Request) : DeviceReply :=
  let data := device_data d (CommandCode_get (req_command r)) in
  mkReply (req_address r) (req_command r) (if data is Some _ then 0 else 64) (ed_status d)
    (default [] data) false (req_physical_layer r)
    (Z.max (ei_response_preambles (ed_identity d)) 2) (req_frame_expansion r).

Definition heard_reply (noise : bytes) (r : DeviceReply) : DeviceReply :=
  mkReply (rep_address r) (rep_command r) (rep_response_code r) (rep_device_status r) (rep_data r)
    (rep_burst r) (rep_physical_layer r)
    (Z.min 255 (rep_response_preambles r + Z.of_nat (trailing_ff noise))) (rep_frame_expansion r).

(** A request both decoders can follow, behind the prefix and the noise before it. *)
Record bench_job (b : Bench) (limits : DecodeLimits) (job : Job) : Prop := {
  bj_typed : Request_typed (job_request job);
  bj_valid : Request_validate (job_request job) = Ok tt;
  bj_command : CommandCode_get (req_command (job_request job)) <> 31;
  bj_device : minimum_preambles (dec_limits (bn_decoder b)) <= req_preambles (job_request job);
  bj_host : minimum_preambles limits <= req_preambles (job_request job);
  bj_device_prefix :
    harmless (dec_limits (bn_decoder b))
      (fp_noise_prefix (ep_faults (bn_host b)) ++ job_transmit_prefix job);
  bj_host_prefix : harmless limits (job_transmit_prefix job);
  bj_device_room :
    zlen (fp_noise_prefix (ep_faults (bn_host b))) + zlen (job_transmit_prefix job)
      + MAX_ENCODED_FRAME_SIZE <= buffer_capacity (dec_limits (bn_decoder b));
  bj_host_room :
    zlen (job_transmit_prefix job) + zlen (fp_noise_prefix (ep_faults (bn_remote b)))
      + 2 * MAX_ENCODED_FRAME_SIZE <= buffer_capacity limits;
  bj_prefix : zlen (job_transmit_prefix job) <= MAXIMUM_TRANSMIT_PREFIX;
}.

(** The frame of a request. *)
Record job_frame (job : Job) (f : Frame) : Prop := {
  jf_frame : Request_to_frame (job_request job) = Ok f;
  jf_wf : Frame_wf f;
  jf_repair : frame_repair f = None;
  jf_kind : frame_kind f = KindRequest;
  jf_preambles : frame_preambles f = req_preambles (job_request job);
  jf_requested : requested f = CommandCode_get (req_command (job_request job));
  jf_logical : logical_command f = req_command (job_request job);
  jf_address : frame_address f = req_address (job_request job);
  jf_layer : frame_physical_layer f = req_physical_layer (job_request job);
  jf_expansion : frame_expansion f = req_frame_expansion (job_request job);
  jf_expanded : frame_wire_command f = 31 -> 2 <= zlen (frame_payload f);
}.

Lemma bench_frame job :
  Request_typed (job_request job) -> Request_validate (job_request job) = Ok tt ->
  CommandCode_get (req_command (job_request job)) <> 31 ->
  exists f, job_frame job f.
Proof.
  set (r := job_request job). intros Ht Hv H31.
  assert (Hf : Request_to_frame r = Ok (request_frame r)).
  { rewrite Request_to_frame_spec by apply Ht. by rewrite Hv. }
  destruct (request_frame_command r _ (rqt_command r Ht) H31 Hf) as (Hl & Ha & Hp & He).
  assert (Hx : frame_wire_command (request_frame r) = 31 -> 2 <= zlen (frame_payload (request_frame r))).
  { intros E. destruct (Z.leb_spec 2 (zlen (frame_payload (request_frame r)))) as [|Hlt]; [done|].
    unfold logical_command in Hl. rewrite E, (proj2 (Z.leb_gt _ _)) in Hl by done. cbn in Hl.
    exfalso. apply H31. by rewrite <- Hl. }
  exists (request_frame r). split; try done; [by eapply request_frame_wf|].
  unfold requested. fold r. rewrite <- Hl. unfold logical_command.
  destruct (Z.eqb_spec (frame_wire_command (request_frame r)) 31) as [E|E]; [|done].
  by rewrite (proj2 (Z.leb_le _ _)) by auto.
Qed.

Lemma is_echo_heard prefix f : frame_kind f = KindRequest -> is_echo (heard prefix f) f = true.
Proof.
  intros Hk. unfold is_echo. cbn. rewrite Z.eqb_refl, !bool_decide_true by done. done.
Qed.

Lemma respond_heard d prefix f : respond d (heard prefix f) = respond d f.
Proof. done. Qed.

Lemma answered_heard d prefix f : answered d (heard prefix f) = answered d f.
Proof. done. Qed.

Lemma from_frame_heard noise f reply :
  DeviceReply_from_frame f = Ok reply ->
  DeviceReply_from_frame (heard noise f) = Ok (heard_reply noise reply).
Proof.
  unfold DeviceReply_from_frame. cbn [heard with_preambles frame_kind frame_payload frame_address
    frame_wire_command frame_physical_layer frame_expansion frame_preambles].
  destruct (match frame_kind f with KindResponse | KindBurst => false | _ => true end); [done|].
  destruct (_ <? 2); [done|]. destruct (_ =? 31); [destruct (_ <? 4); [done|]|]; cbn [result_bind];
    by intros [= <-].
Qed.

(** The device's answer is the reply, also behind noise. *)
Lemma respond_replies d job f noise :
  job_frame job f -> device_typed d ->
  replies f (heard noise (respond d f)) (heard_reply noise (device_reply d (job_request job))).
Proof.
  intros [Hf Hwf Hrep Hk Hpr Hrq Hlog Ha Hph Hex Hx] Hd. unfold replies. split_and!.
  - unfold is_echo. by rewrite bool_decide_false.
  - apply from_frame_heard. rewrite respond_decodes by done. unfold device_reply.
    rewrite Hrq, Ha, Hph, Hex. by destruct (req_command (job_request job)).
  - done.
  - unfold matches_request. cbn [heard_reply device_reply rep_command rep_address
      rep_physical_layer rep_frame_expansion]. by rewrite Hlog, Ha, Hph, Hex, !bool_decide_true.
Qed.

Lemma heard_reply_nil d r :
  device_typed d -> heard_reply [] (device_reply d r) = device_reply d r.
Proof.
  intros Hd. pose proof (et_response_preambles _ (dt_identity d Hd)) as Hp. unfold is_u8 in Hp.
  unfold heard_reply, device_reply, trailing_ff. cbn -[Z.max Z.min].
  by rewrite Z.add_0_r, Z.min_r by lia.
Qed.

(** ** One attempt *)

(** Plans whose one-shot faults are as they were or spent. *)
Definition faded (plan plan' : FaultPlan) : Prop := plan' = plan \/ plan' = clear_faults plan.

Lemma plan_after_faded d plan frames : faded plan (plan_after d plan frames).
Proof. unfold plan_after, faded. destruct (existsb _ _); auto. Qed.

Lemma faded_trans a b c : faded a b -> faded b c -> faded a c.
Proof. unfold faded. intros [-> | ->] [-> | ->]; auto. Qed.

Lemma faded_fields a b :
  faded a b ->
  fp_echo b = fp_echo a /\ (fp_corrupt_next a = false -> fp_corrupt_next b = false)
  /\ (fp_noise_prefix b = fp_noise_prefix a \/ fp_noise_prefix b = []).
Proof. intros [-> | ->]; cbn; auto. Qed.

(** The same line and device, at another time and with other faults spent. *)
Record same_line (b b' : Bench) : Prop := {
  sl_device : bn_device b' = bn_device b;
  sl_limits : dec_limits (bn_decoder b') = dec_limits (bn_decoder b);
  sl_host : faded (ep_faults (bn_host b)) (ep_faults (bn_host b'));
  sl_remote : faded (ep_faults (bn_remote b)) (ep_faults (bn_remote b'));
}.

Lemma same_line_refl b : same_line b b.
Proof. split; [done|done|by left|by left]. Qed.

Lemma same_line_trans a b c : same_line a b -> same_line b c -> same_line a c.
Proof. intros [] []. split; [congruence|congruence|by eapply faded_trans|by eapply faded_trans]. Qed.

Lemma bench_job_later b b' limits job :
  same_line b b' -> bench_job b limits job -> bench_job b' limits job.
Proof.
  intros [Hd Hl Hh Hr] [J1 J2 J3 J4 J5 J6 J7 J8 J9 J10].
  destruct (faded_fields _ _ Hh) as (_ & _ & Nh), (faded_fields _ _ Hr) as (_ & _ & Nr).
  pose proof (zlen_nonneg (fp_noise_prefix (ep_faults (bn_host b)))).
  pose proof (zlen_nonneg (fp_noise_prefix (ep_faults (bn_remote b)))).
  split; rewrite ?Hl; try done.
  - destruct Nh as [-> | ->]; [done|]. cbn [app]. by apply harmless_suffix in J6.
  - destruct Nh as [-> | ->]; [done|]. change (zlen []) with 0. lia.
  - destruct Nr as [-> | ->]; [done|]. change (zlen []) with 0. lia.
Qed.

(** A transmission of this frame brings no answer. *)
Definition lost (b : Bench) (f : Frame) : bool :=
  fp_drop_next (ep_faults (bn_host b)) || negb (answered (bn_device b) f)
  || fp_drop_next (ep_faults (bn_remote b)).

Section Exchange.
Context {S C : Type} `{Semaphore S} `{Mpsc C}.
Implicit Types l : LinkRunner Bench S C.

(** A runner with nothing left over, on a quiet line that corrupts nothing. *)
Record ready l : Prop := {
  rd_line : quiet (ln_env l);
  rd_buffer : 0 < ln_read_buffer l;
  rd_decoder : decoder_ok (ln_decoder l);
  rd_bytes : dec_bytes (ln_decoder l) = [];
  rd_preambles : minimum_preambles (dec_limits (ln_decoder l))
                 <= Z.max (ei_response_preambles (ed_identity (bn_device (ln_env l)))) 2;
  rd_host_plan : fp_corrupt_next (ep_faults (bn_host (ln_env l))) = false;
  rd_remote_plan : fp_corrupt_next (ep_faults (bn_remote (ln_env l))) = false;
  rd_noise : harmless (dec_limits (ln_decoder l)) (fp_noise_prefix (ep_faults (bn_remote (ln_env l))));
}.

Lemma ready_later l xs b d :
  ready l -> same_line (ln_env l) b -> quiet b -> decoder_ok d -> dec_bytes d = [] ->
  dec_limits d = dec_limits (ln_decoder l) -> ready (host_at l xs b d).
Proof.
  intros [] [Hd Hl Hh Hr] Hq Hok Hb Hlim.
  destruct (faded_fields _ _ Hh) as (_ & Ch & _), (faded_fields _ _ Hr) as (_ & Cr & Nr).
  split; cbn; rewrite ?Hlim, ?Hd; auto. destruct Nr as [-> | ->]; done.
Qed.

(** The effects of one attempt, the latest first. *)
Definition attempt_effects (echo : bool) (job : Job) (f : Frame) : list Effect :=
  (if echo then [Broadcast (LinkEchoDiscarded (job_id job))] else [])
  ++ [Transmit (job_transmit_prefix job ++ frame_encoding f)].

Lemma bench_attempt_send l job f :
  ready l -> bench_job (ln_env l) (dec_limits (ln_decoder l)) job -> job_frame job f ->
  let b := ln_env l in
  let encoded := job_transmit_prefix job ++ frame_encoding f in
  exists b', bench_send b encoded = (Ok tt, b') /\ same_bench b b' /\ same_line b b'
    /\ pending (bn_remote b') = []
    /\ pending (bn_host b')
       = (if fp_echo (ep_faults (bn_host b)) then encoded else [])
         ++ (if lost b f then []
             else fp_noise_prefix (ep_faults (bn_remote b)) ++ frame_encoding (respond (bn_device b) f))
    /\ ep_faults (bn_host b') = clear_faults (ep_faults (bn_host b))
    /\ ep_faults (bn_remote b')
       = (if fp_drop_next (ep_faults (bn_host b)) || negb (answered (bn_device b) f)
          then ep_faults (bn_remote b) else clear_faults (ep_faults (bn_remote b)))
    /\ decoder_ok (bn_decoder b') /\ dec_bytes (bn_decoder b') = [].
Proof.
  intros [Hq _ _ _ _ Hch Hcr _] [_ _ _ Jd _ Jdp _ Jdr _ Jp] [Hf Hwf Hrep Hk Hpr _ _ _ _ _ _] b encoded.
  fold b in Hq, Hch, Hcr, Jd, Jdp, Jdr. pose proof (encoding_length f Hwf) as Hlen.
  set (noise := fp_noise_prefix (ep_faults (bn_host b))) in *.
  set (frames := if fp_drop_next (ep_faults (bn_host b)) then []
                 else [heard (noise ++ job_transmit_prefix job) f]).
  assert (Hout : line_output (ep_faults (bn_host b)) encoded
                 = if fp_drop_next (ep_faults (bn_host b)) then []
                   else (noise ++ job_transmit_prefix job) ++ frame_encoding f).
  { unfold line_output, encoded. rewrite Hch. by rewrite <- app_assoc. }
  assert (Haw : awaits (bn_decoder b) frames (line_output (ep_faults (bn_host b)) encoded)).
  { rewrite Hout. unfold frames. destruct (fp_drop_next _).
    - apply (awaits_carried (bn_decoder b) [] []); try apply Hq; [done| |by apply Nat.ltb_lt].
      change (zlen (concat [])) with 0. pose proof (zlen_nonneg noise).
      pose proof (zlen_nonneg (job_transmit_prefix job)). unfold MAX_ENCODED_FRAME_SIZE in *. lia.
    - rewrite <- (app_nil_r (_ ++ frame_encoding f)).
      apply (awaits_carried (bn_decoder b) [_] [_]); try apply Hq; [| |by apply Nat.ltb_lt].
      + constructor; [|done]. apply carries_prefixed; [done|]. split_and!; [done|done|congruence].
      + cbn [concat]. rewrite app_nil_r, !zlen_app. lia. }
  destruct (bench_send_spec b encoded frames Hq) as (b' & Hsend & Hsame & Hp & Hph & Fh & Fr & Hok & Hb).
  { unfold encoded. rewrite zlen_app.
    unfold MAXIMUM_TRANSMIT_PREFIX, MAX_ENCODED_FRAME_SIZE, MAXIMUM_EMULATOR_TRANSMISSION_BYTES in *. lia. }
  { unfold frames. destruct (fp_drop_next _); [done|]. constructor; [by apply heard_wf|done]. }
  { done. }
  { rewrite Hout. unfold frames. destruct (fp_drop_next _); [done|].
    intros [_ E]%app_eq_nil. by apply encoding_nonempty in E. }
  exists b'. split; [done|]. split; [done|]. destruct Hsame as (_ & Hdv & _ & Hlim).
  split_and!; try done.
  - split; [done|done|by right|]. rewrite Fr. apply plan_after_faded.
  - rewrite Hph. f_equal. unfold lost, frames, line_output.
    destruct (fp_drop_next (ep_faults (bn_host b))); cbn [orb spoken]; [done|].
    rewrite answered_heard, respond_heard. destruct (answered _ f); cbn [negb orb]; [|done].
    unfold line_output. rewrite Hcr, app_nil_r. by destruct (fp_drop_next _).
  - rewrite Fr. unfold frames, plan_after.
    destruct (fp_drop_next (ep_faults (bn_host b))); cbn [orb existsb]; [done|].
    rewrite answered_heard. by destruct (answered _ f).
Qed.

(** The frames the host makes of what comes back: the echo, if any, and the answer. *)
Definition attempt_echoes (b : Bench) (job : Job) (f : Frame) : list Frame :=
  if fp_echo (ep_faults (bn_host b)) then [heard (job_transmit_prefix job) f] else [].

Definition attempt_answer (b : Bench) (job : Job) (f : Frame) : option (Frame * DeviceReply) :=
  if lost b f then None
  else
    let noise := fp_noise_prefix (ep_faults (bn_remote b)) in
    Some (heard noise (respond (bn_device b) f),
          heard_reply noise (device_reply (bn_device b) (job_request job))).

Lemma attempt_awaits l job f input :
  ready l -> bench_job (ln_env l) (dec_limits (ln_decoder l)) job -> job_frame job f ->
  let b := ln_env l in
  input = (if fp_echo (ep_faults (bn_host b)) then job_transmit_prefix job ++ frame_encoding f else [])
          ++ (if lost b f then []
              else fp_noise_prefix (ep_faults (bn_remote b)) ++ frame_encoding (respond (bn_device b) f)) ->
  awaits (ln_decoder l)
    (attempt_echoes b job f ++ option_list (fst <$> attempt_answer b job f)) input
  /\ (input = [] -> attempt_echoes b job f = [] /\ attempt_answer b job f = None)
  /\ zlen input <= buffer_capacity (dec_limits (ln_decoder l)).
Proof.
  intros [Hq _ Hok Hbytes Hpre _ _ Hnoise] [_ _ _ _ Jh _ Jhp _ Jhr _]
    [_ Hwf Hrep _ Hpr _ _ _ _ _ _] b Hin.
  fold b in Hq, Hpre, Hnoise, Jhr. pose proof (sg_device b (qt_serving b Hq)) as Hd.
  set (d := bn_device b) in *. set (noise := fp_noise_prefix (ep_faults (bn_remote b))) in *.
  unfold attempt_echoes, attempt_answer. fold d noise.
  set (echo := fp_echo (ep_faults (bn_host b))) in *.
  set (encoded := job_transmit_prefix job ++ frame_encoding f) in *.
  set (ls := (if echo then [encoded] else [])
             ++ (if lost b f then [] else [noise ++ frame_encoding (respond d f)])).
  assert (Hls : input = concat ls).
  { rewrite Hin. unfold ls. rewrite concat_app. f_equal.
    - by destruct echo; cbn; rewrite ?app_nil_r.
    - by destruct (lost b f); cbn; rewrite ?app_nil_r. }
  pose proof (encoding_length f Hwf) as Hlen1.
  pose proof (encoding_length (respond d f) (respond_wf d f Hd Hwf)) as Hlen2.
  assert (Hlen : zlen input <= buffer_capacity (dec_limits (ln_decoder l))).
  { rewrite Hin. unfold encoded. pose proof (zlen_nonneg noise).
    pose proof (zlen_nonneg (job_transmit_prefix job)). unfold MAX_ENCODED_FRAME_SIZE in *.
    destruct echo, (lost b f); rewrite ?zlen_app; change (zlen []) with 0; lia. }
  split_and!; [| |done].
  - rewrite Hls. apply awaits_carried; [done|done| |by rewrite <- Hls|].
    + apply Forall2_app.
      * destruct echo; constructor; [|done]. apply carries_prefixed; [done|].
        split_and!; [done|done|congruence].
      * destruct (lost b f); constructor; [|done]. apply carries_prefixed; [done|].
        split_and!; [by apply respond_wf|done|done].
    + apply Nat.ltb_lt. by destruct echo, (lost b f).
  - rewrite Hin. intros [E1 E2]%app_eq_nil.
    destruct echo; [by apply app_eq_nil in E1 as [_ E1%encoding_nonempty]|].
    destruct (lost b f); [done|by apply app_eq_nil in E2 as [_ E2%encoding_nonempty]].
Qed.

(** One attempt of an exchange: the reply, or the timeout at its deadline; the line is quiet
    again, and its faults are spent on what went through it. *)
Lemma bench_attempt fuel l job f deadline :
  ready l -> bench_job (ln_env l) (dec_limits (ln_decoder l)) job -> job_frame job f ->
  (Z.to_nat (buffer_capacity (dec_limits (ln_decoder l))) < fuel)%nat ->
  let b := ln_env l in
  exists b' d,
    exchange_once fuel l (job_id job) f (job_transmit_prefix job ++ frame_encoding f) deadline
    = (Some (if lost b f then Err ExResponseTimeout
             else Ok (heard_reply (fp_noise_prefix (ep_faults (bn_remote b)))
                        (device_reply (bn_device b) (job_request job)))),
       host_at l (attempt_effects (fp_echo (ep_faults (bn_host b))) job f) b' d)
    /\ same_line b b' /\ quiet b'
    /\ bn_clock b' = (if lost b f then Z.max (bn_clock b) deadline else bn_clock b)
    /\ ep_faults (bn_host b') = clear_faults (ep_faults (bn_host b))
    /\ ep_faults (bn_remote b')
       = (if fp_drop_next (ep_faults (bn_host b)) || negb (answered (bn_device b) f)
          then ep_faults (bn_remote b) else clear_faults (ep_faults (bn_remote b)))
    /\ decoder_ok d /\ dec_bytes d = [] /\ dec_limits d = dec_limits (ln_decoder l).
Proof.
  intros Hr Hj Hf Hfuel b.
  destruct (bench_attempt_send l job f Hr Hj Hf)
    as (b1 & Hsend & (Hs1 & Hd1 & Hc1 & Hl1) & Hline & Hp1 & Hph & Fh & Fr & Hok1 & Hb1).
  destruct (attempt_awaits l job f _ Hr Hj Hf Hph) as (Haw & Hnone & Hlen).
  fold b in Hsend, Hs1, Hd1, Hc1, Hl1, Hline, Hph, Fh, Fr, Haw, Hnone.
  set (encoded := job_transmit_prefix job ++ frame_encoding f) in *.
  set (l1 := effect (with_env l b1) (Transmit encoded)).
  destruct (receive_loop_bench fuel l1 (job_id job) f deadline (attempt_echoes b job f)
              (attempt_answer b job f)) as (host & dec & Hloop).
  - apply Hs1.
  - apply Hr.
  - unfold attempt_answer. destruct (lost b f); [done|]. apply respond_replies; [done|apply Hr].
  - unfold attempt_echoes. destruct (fp_echo _); [|done].
    constructor; [by apply is_echo_heard, Hf|done].
  - done.
  - cbn [l1 effect with_env ln_env ln_decoder]. intros E. destruct (Hnone E). by destruct Hr.
  - cbn. unfold zlen in Hlen. lia.
  - set (b2 := set_host b1 host).
    assert (Hq2 : pending host = [] -> same_end (bn_host b1) host -> quiet b2).
    { intros E [E1 E2]. destruct Hs1. split; try done. split; cbn; rewrite ?E1, ?E2; done. }
    assert (Heff : forall b3, host_at l1 (echo_events (job_id job) (attempt_echoes b job f)) b3 dec
                    = host_at l (attempt_effects (fp_echo (ep_faults (bn_host b))) job f) b3 dec).
    { intros b3. unfold host_at, attempt_effects, echo_events, attempt_echoes. cbn.
      by destruct (fp_echo _). }
    unfold exchange_once. cbn [rt_send bench_runtime]. fold b. rewrite Hsend. fold l1.
    cbn [l1 effect with_env ln_env ln_decoder] in Hloop. fold b2 in Hloop. fold l1 in Hloop.
    unfold attempt_answer in Hloop. destruct (lost b f); cbn [reception] in Hloop;
      destruct Hloop as (-> & Hp & [E1 E2] & Hokd & Hbd & Hld); rewrite Heff.
    + exists (bench_wait b2 deadline), dec. destruct (Hq2 Hp (conj E1 E2)) as [[] ? ? ? ?].
      split_and!; try done; cbn; try congruence. destruct Hline. split; cbn; try done. by rewrite E1.
    + exists b2, dec. pose proof (Hq2 Hp (conj E1 E2)).
      split_and!; try done; cbn; try congruence. destruct Hline. split; cbn; try done. by rewrite E1.
Qed.

(** *** The loop over the attempts *)

Definition attempt_deadline (job : Job) (clock : Z) : Z :=
  Z.min (default (job_deadline job)
           (instant_checked_add u64_max clock (rp_response_timeout (job_policy job))))
    (job_deadline job).

Definition next_attempt (a : Attempts) : Attempts :=
  mkAttempts (saturating_add u8_max (at_number a) 1) (saturating_add u8_max (at_transport a) 1)
    (at_busy a) (at_delayed a).

Definition retry_effect (job : Job) (a : Attempts) : Effect :=
  Broadcast (LinkRetrying (job_id job) (saturating_add u8_max (at_number a) 1) CauseTransport).

(** What an exchange on the bench needs from pass to pass. *)
Record exchanging l (fuel : nat) (job : Job) (f : Frame) : Prop := {
  xg_ready : ready l;
  xg_job : bench_job (ln_env l) (dec_limits (ln_decoder l)) job;
  xg_frame : job_frame job f;
  xg_fuel : (Z.to_nat (buffer_capacity (dec_limits (ln_decoder l))) < fuel)%nat;
}.

(** The runner after a pass, with what has become of the line. *)
Record passed l (b : Bench) (d : FrameDecoder) : Prop := {
  pd_line : same_line (ln_env l) b;
  pd_quiet : quiet b;
  pd_decoder : decoder_ok d;
  pd_bytes : dec_bytes d = [];
  pd_limits : dec_limits d = dec_limits (ln_decoder l);
}.

Lemma passed_exchanging l fuel job f xs b d :
  exchanging l fuel job f -> passed l b d -> exchanging (host_at l xs b d) fuel job f.
Proof.
  intros [Hr Hj Hf Hfuel] [Hl Hq Hok Hb Hlim].
  split; cbn [host_at ln_env ln_decoder]; rewrite ?Hlim; [by apply ready_later|by eapply bench_job_later|done..].
Qed.

Lemma passed_trans l xs b d b' d' :
  passed l b d -> passed (host_at l xs b d) b' d' -> passed l b' d'.
Proof.
  intros [L1 _ _ _ E1] [L2 Q2 D2 B2 E2]. cbn in *.
  split; [by eapply same_line_trans|done|done|done|congruence].
Qed.

Lemma loop_pass attempts fuel l job f limit a :
  exchanging l fuel job f ->
  let b := ln_env l in
  let encoded := job_transmit_prefix job ++ frame_encoding f in
  let seen := attempt_effects (fp_echo (ep_faults (bn_host b))) job f in
  exists b' d, passed l b' d
    /\ bn_clock b' = (if lost b f then Z.max (bn_clock b) (attempt_deadline job (bn_clock b))
                      else bn_clock b)
    /\ ep_faults (bn_host b') = clear_faults (ep_faults (bn_host b))
    /\ ep_faults (bn_remote b')
       = (if fp_drop_next (ep_faults (bn_host b)) || negb (answered (bn_device b) f)
          then ep_faults (bn_remote b) else clear_faults (ep_faults (bn_remote b)))
    /\ exchange_loop (Datatypes.S attempts) fuel l job f encoded limit a
       = if lost b f then
           if at_transport a <? limit then
             let l := host_at l (retry_effect job a :: seen) b' d in
             if job_deadline job <=? bn_clock b' then (Some (Err ExDeadline), l)
             else exchange_loop attempts fuel l job f encoded limit (next_attempt a)
           else (Some (Err ExResponseTimeout), host_at l seen b' d)
         else
           (Some (Ok (heard_reply (fp_noise_prefix (ep_faults (bn_remote b)))
                        (device_reply (bn_device b) (job_request job)))),
            host_at l seen b' d).
Proof.
  intros [Hr Hj Hf Hfuel] b encoded seen.
  destruct (bench_attempt fuel l job f (attempt_deadline job (bn_clock b)) Hr Hj Hf Hfuel)
    as (b' & d & Hx & Hl & Hq & Hc & Fh & Fr & Hok & Hb & Hlim).
  fold b in Hx, Hl, Hc, Fh, Fr. fold encoded seen in Hx.
  exists b', d. split_and!; try done.
  cbn [exchange_loop]. unfold now. cbn [rt_now bench_runtime]. fold b.
  replace (with_env l b) with l by (unfold b; by destruct l).
  change (Z.min (default _ _) _) with (attempt_deadline job (bn_clock b)). rewrite Hx.
  unfold after_attempt. destruct (lost b f).
  - cbn [is_retryable_transport_error andb]. destruct (at_transport a <? limit); [|done].
    cbn [rt_now bench_runtime broadcast effect host_at ln_env]. done.
  - cbn [heard_reply device_reply rep_response_code].
    by destruct (device_data _ _).
Qed.
(** *** Losses *)

(** The transmissions the line still loses, and the noise before the answer behind them. *)
Definition losses (b : Bench) : Z :=
  Z.b2z (fp_drop_next (ep_faults (bn_host b))) + Z.b2z (fp_drop_next (ep_faults (bn_remote b))).

Definition last_noise (b : Bench) : bytes :=
  if fp_drop_next (ep_faults (bn_remote b)) then [] else fp_noise_prefix (ep_faults (bn_remote b)).

Lemma losses_range b : 0 <= losses b <= 2.
Proof. unfold losses. by do 2 destruct (fp_drop_next _). Qed.

Lemma lost_spec b f :
  answered (bn_device b) f = true -> lost b f = (0 <? losses b).
Proof. intros Ha. unfold lost, losses. rewrite Ha. by do 2 destruct (fp_drop_next _). Qed.

(** A lost transmission leaves one loss less. *)
Lemma losses_spent b b' :
  0 < losses b -> ep_faults (bn_host b') = clear_faults (ep_faults (bn_host b)) ->
  ep_faults (bn_remote b')
    = (if fp_drop_next (ep_faults (bn_host b)) || negb true
       then ep_faults (bn_remote b) else clear_faults (ep_faults (bn_remote b))) ->
  losses b' = losses b - 1 /\ last_noise b' = last_noise b.
Proof.
  intros Hpos Fh Fr. unfold losses, last_noise in *. rewrite Fh, Fr. cbn [fp_drop_next clear_faults negb].
  destruct (fp_drop_next (ep_faults (bn_host b))), (fp_drop_next (ep_faults (bn_remote b))) eqn:Er;
    cbn in *; rewrite ?Er; try done; lia.
Qed.

Lemma attempt_deadline_early job clock :
  clock + rp_response_timeout (job_policy job) < job_deadline job -> job_deadline job <= u64_max ->
  attempt_deadline job clock = clock + rp_response_timeout (job_policy job).
Proof.
  intros Hc Hd. unfold attempt_deadline, instant_checked_add. rewrite (proj2 (Z.leb_le _ _)) by lia.
  cbn. lia.
Qed.

(** The effects of an exchange that is repeated [n] times. *)
Fixpoint loss_effects (n : nat) (echo : bool) (job : Job) (f : Frame) (a : Attempts) : list Effect :=
  match n with
  | O => attempt_effects echo job f
  | Datatypes.S n =>
      loss_effects n echo job f (next_attempt a) ++ retry_effect job a :: attempt_effects echo job f
  end.

(** One transmission more than retries. *)
Lemma loss_effects_count n echo job f a :
  count is_transmit (loss_effects n echo job f a) = Z.of_nat n + 1
  /\ count (is_retry CauseTransport) (loss_effects n echo job f a) = Z.of_nat n.
Proof.
  revert a. induction n as [|n IH]; intros a; cbn [loss_effects]; [by destruct echo|].
  destruct (IH (next_attempt a)) as [H1 H2].
  change (retry_effect job a :: ?xs) with ([retry_effect job a] ++ xs). rewrite !count_app, H1, H2.
  assert (E : count is_transmit (attempt_effects echo job f) = 1
              /\ count (is_retry CauseTransport) (attempt_effects echo job f) = 0) by by destruct echo.
  destruct E as [-> ->]. change (count is_transmit [retry_effect job a]) with 0.
  change (count (is_retry CauseTransport) [retry_effect job a]) with 1. lia.
Qed.

Lemma exchange_loop_losses fuel job f limit l attempts a :
  exchanging l fuel job f -> answered (bn_device (ln_env l)) f = true ->
  0 <= at_transport a <= limit -> limit <= u8_max ->
  losses (ln_env l) < Z.of_nat attempts -> 0 <= rp_response_timeout (job_policy job) ->
  bn_clock (ln_env l) + losses (ln_env l) * rp_response_timeout (job_policy job) < job_deadline job ->
  job_deadline job <= u64_max ->
  let b := ln_env l in
  let spare := limit - at_transport a in
  exists b' d,
    exchange_loop attempts fuel l job f (job_transmit_prefix job ++ frame_encoding f) limit a
    = (Some (if losses b <=? spare
             then Ok (heard_reply (last_noise b) (device_reply (bn_device b) (job_request job)))
             else Err ExResponseTimeout),
       host_at l (loss_effects (Z.to_nat (Z.min (losses b) spare))
                    (fp_echo (ep_faults (bn_host b))) job f a) b' d)
    /\ passed l b' d
    /\ bn_clock b'
       = bn_clock b + Z.min (losses b) (spare + 1) * rp_response_timeout (job_policy job).
Proof.
  remember (Z.to_nat (losses (ln_env l))) as n eqn:En. revert l attempts a En.
  induction n as [|n IH]; intros l attempts a En Hx Ha Hat Hlim Hatt Hrt Hclock Hdead b spare;
    fold b in En, Ha, Hatt, Hclock;
    (destruct attempts as [|attempts]; [pose proof (losses_range b); lia|]);
    destruct (loop_pass attempts fuel l job f limit a Hx) as (b1 & d1 & Hp1 & Hc1 & Fh & Fr & Hloop);
    fold b in Hc1, Fh, Fr, Hloop; rewrite Hloop; rewrite lost_spec in Hc1 |- * by done;
    pose proof (pd_line _ _ _ Hp1) as [Hd1 _ _ _]; fold b in Hd1.
  - assert (E0 : losses b = 0) by (pose proof (losses_range b); lia). rewrite E0 in Hc1 |- *. cbn [Z.ltb Z.compare] in *.
    rewrite (proj2 (Z.leb_le 0 spare)) by (unfold spare; lia).
    exists b1, d1. split_and!; [|done|lia]. rewrite Z.min_l by (unfold spare; lia).
    unfold last_noise. assert (E : fp_drop_next (ep_faults (bn_remote b)) = false).
    { unfold losses in E0. destruct (fp_drop_next (ep_faults (bn_remote b))); [|done].
        by destruct (fp_drop_next (ep_faults (bn_host b))). }
    by rewrite E.
  - assert (Hpos : 0 < losses b) by lia. rewrite (proj2 (Z.ltb_lt _ _)) in Hc1 |- * by done.
    assert (Hnext : bn_clock b + rp_response_timeout (job_policy job) < job_deadline job) by nia.
    rewrite Ha in Fr. destruct (losses_spent b b1 Hpos Fh Fr) as [E1 En1].
    rewrite attempt_deadline_early in Hc1 by lia.
    destruct (Z.ltb_spec (at_transport a) limit) as [Hlt|Hge].
    + rewrite (proj2 (Z.leb_gt _ _)) by lia.
      set (l1 := host_at l _ b1 d1).
      assert (Et : at_transport (next_attempt a) = at_transport a + 1).
      { cbn. unfold saturating_add. lia. }
      destruct (IH l1 attempts (next_attempt a)) as (b2 & d2 & E2 & Hp2 & Hcl2);
        cbn [l1 host_at ln_env]; rewrite ?E1, ?Et, ?Hd1; try done; try lia; try nia.
      { by apply passed_exchanging. }
      cbn [l1 host_at ln_env] in E2, Hcl2. rewrite ?E1, ?Et, ?En1, ?Hd1, ?Fh in E2.
      rewrite E1, Et in Hcl2. exists b2, d2. split_and!; [|by eapply passed_trans|unfold spare; nia].
      rewrite E2. unfold l1. rewrite host_at_add. f_equal.
      * do 2 f_equal. destruct (Z.leb_spec (losses b - 1) (limit - (at_transport a + 1))),
          (Z.leb_spec (losses b) spare); unfold spare in *; (done || lia).
      * f_equal. cbn [fp_echo clear_faults].
        replace (Z.to_nat (Z.min (losses b) spare))
          with (Datatypes.S (Z.to_nat (Z.min (losses b - 1) (limit - (at_transport a + 1)))))
          by (unfold spare; lia). done.
    + rewrite (proj2 (Z.leb_gt (losses b) spare)) by (unfold spare; lia).
      exists b1, d1. rewrite Z.min_r by (unfold spare; lia).
      replace (Z.to_nat spare) with 0%nat by (unfold spare; lia).
      split_and!; [done|done|unfold spare; nia].
Qed.
(** *** Silence *)

Definition unanswered (e : ExchangeError) : Prop := e = ExResponseTimeout \/ e = ExDeadline.

Lemma exchange_loop_silent fuel job f limit attempts l a :
  exchanging l fuel job f -> answered (bn_device (ln_env l)) f = false ->
  0 <= at_transport a <= limit -> limit <= u8_max ->
  limit - at_transport a < Z.of_nat attempts -> bn_clock (ln_env l) <= job_deadline job ->
  exists b' d added e,
    exchange_loop attempts fuel l job f (job_transmit_prefix job ++ frame_encoding f) limit a
    = (Some (Err e), host_at l added b' d)
    /\ passed l b' d /\ unanswered e
    /\ bn_clock (ln_env l) <= bn_clock b' <= job_deadline job.
Proof.
  revert l a. induction attempts as [|attempts IH]; intros l a Hx Ha Hat Hlim Hatt Hclock; [lia|].
  set (b := ln_env l) in *.
  destruct (loop_pass attempts fuel l job f limit a Hx) as (b1 & d1 & Hp1 & Hc1 & _ & _ & Hloop).
  fold b in Hc1, Hloop. rewrite Hloop.
  assert (Hlost : lost b f = true).
  { unfold lost. rewrite Ha. cbn [negb]. by rewrite orb_true_r. }
  rewrite Hlost in Hc1 |- *.
  assert (Hd : bn_clock b <= bn_clock b1 <= job_deadline job).
  { rewrite Hc1. unfold attempt_deadline. lia. }
  destruct (Z.ltb_spec (at_transport a) limit) as [Hlt|Hge].
  - cbn zeta. destruct (Z.leb_spec (job_deadline job) (bn_clock b1)).
    + eexists b1, d1, _, _. split_and!; [done|done|by right|lia|lia].
    + set (l1 := host_at l _ b1 d1).
      assert (Et : at_transport (next_attempt a) = at_transport a + 1).
      { cbn. unfold saturating_add. lia. }
      pose proof (pd_line _ _ _ Hp1) as [Hd1 _ _ _]. fold b in Hd1.
      destruct (IH l1 (next_attempt a)) as (b2 & d2 & added & e & E2 & Hp2 & He & Hc2);
        cbn [l1 host_at ln_env]; rewrite ?Et, ?Hd1; try done; try lia.
      { by apply passed_exchanging. }
      cbn [l1 host_at ln_env] in Hc2. eexists b2, d2, _, e.
      rewrite E2. unfold l1. rewrite host_at_add.
      split_and!; [done|by eapply passed_trans|done|lia|lia].
  - eexists b1, d1, _, _. split_and!; [done|done|by left|lia|lia].
Qed.

(** *** Exchanges *)

Lemma exchange_starts attempts fuel l job f :
  job_frame job f -> bn_clock (ln_env l) < job_deadline job ->
  exchange attempts fuel l job
  = exchange_loop attempts fuel l job f (job_transmit_prefix job ++ frame_encoding f)
      (transport_limit job) (mkAttempts 1 0 0 0).
Proof.
  intros Hf Hc. unfold exchange, now. cbn [rt_now bench_runtime].
  rewrite (proj2 (Z.leb_gt _ _)) by done. replace (with_env l (ln_env l)) with l by by destruct l.
  unfold encode_job. rewrite (jf_frame _ _ Hf). cbn [result_map_err result_bind].
  rewrite Frame_encode_ok by apply (jf_wf _ _ Hf). fold (frame_encoding f). cbn [result_map_err result_bind].
  destruct (bool_decide_reflect (job_transmit_prefix job = [])) as [->|_]; done.
Qed.

Lemma transport_limit_range job :
  is_u8 (rp_transport_retries (job_policy job)) -> 0 <= transport_limit job <= u8_max.
Proof. unfold transport_limit, is_u8, u8_max. case_match; lia. Qed.

(** A request the device answers. *)
Record answered_job l (job : Job) : Prop := {
  aj_job : bench_job (ln_env l) (dec_limits (ln_decoder l)) job;
  aj_address : accepts_address (bn_device (ln_env l)) (req_address (job_request job)) = true;
  aj_retries : is_u8 (rp_transport_retries (job_policy job));
  aj_timeout : 0 <= rp_response_timeout (job_policy job);
  aj_clock : bn_clock (ln_env l) + losses (ln_env l) * rp_response_timeout (job_policy job)
             < job_deadline job;
  aj_deadline : job_deadline job <= u64_max;
}.

Lemma job_answered d job f :
  job_frame job f -> answered d f = accepts_address d (req_address (job_request job)).
Proof.
  intros Hf. unfold answered. by rewrite (jf_kind _ _ Hf), (jf_address _ _ Hf), bool_decide_true.
Qed.

Lemma bench_exchange attempts fuel l job :
  ready l -> answered_job l job ->
  (Z.to_nat (buffer_capacity (dec_limits (ln_decoder l))) < fuel)%nat ->
  losses (ln_env l) < Z.of_nat attempts ->
  let b := ln_env l in
  exists b' d f, job_frame job f
    /\ exchange attempts fuel l job
       = (Some (if losses b <=? transport_limit job
                then Ok (heard_reply (last_noise b) (device_reply (bn_device b) (job_request job)))
                else Err ExResponseTimeout),
          host_at l (loss_effects (Z.to_nat (Z.min (losses b) (transport_limit job)))
                       (fp_echo (ep_faults (bn_host b))) job f (mkAttempts 1 0 0 0)) b' d)
    /\ passed l b' d
    /\ bn_clock b' = bn_clock b + Z.min (losses b) (transport_limit job + 1)
                                  * rp_response_timeout (job_policy job).
Proof.
  intros Hr [Hj Ha Hu Hrt Hc Hd] Hfuel Hatt b.
  destruct (bench_frame job) as (f & Hf); [apply Hj..|].
  pose proof (transport_limit_range job Hu). pose proof (losses_range b).
  rewrite (exchange_starts attempts fuel l job f Hf) by (fold b in Hc |- *; nia).
  destruct (exchange_loop_losses fuel job f (transport_limit job) l attempts (mkAttempts 1 0 0 0))
    as (b' & d & E & Hp & Hcl); cbn [at_transport] in *; try done; try lia.
  { by rewrite (job_answered _ job). }
  rewrite Z.sub_0_r in *. by exists b', d, f.
Qed.

Lemma bench_silence attempts fuel l job :
  ready l -> bench_job (ln_env l) (dec_limits (ln_decoder l)) job ->
  accepts_address (bn_device (ln_env l)) (req_address (job_request job)) = false ->
  is_u8 (rp_transport_retries (job_policy job)) -> bn_clock (ln_env l) < job_deadline job ->
  (Z.to_nat (buffer_capacity (dec_limits (ln_decoder l))) < fuel)%nat ->
  transport_limit job < Z.of_nat attempts ->
  exists b' d added e,
    exchange attempts fuel l job = (Some (Err e), host_at l added b' d)
    /\ passed l b' d /\ unanswered e /\ bn_clock (ln_env l) <= bn_clock b' <= job_deadline job.
Proof.
  intros Hr Hj Ha Hu Hc Hfuel Hatt. destruct (bench_frame job) as (f & Hf); [apply Hj..|].
  pose proof (transport_limit_range job Hu). rewrite (exchange_starts attempts fuel l job f Hf) by done.
  apply exchange_loop_silent; cbn [at_transport]; try done; try lia.
  by rewrite (job_answered _ job).
Qed.
(** A plan without pending faults. *)
Definition calm (plan : FaultPlan) : Prop :=
  fp_drop_next plan = false /\ fp_corrupt_next plan = false /\ fp_noise_prefix plan = [].

Lemma calm_faded plan plan' : calm plan -> faded plan plan' -> plan' = plan.
Proof. destruct plan. intros (Hd & Hc & Hn) [-> | ->]; [done|]. cbn in *. by subst. Qed.

Lemma calm_exchange attempts fuel l job :
  ready l -> calm (ep_faults (bn_host (ln_env l))) -> calm (ep_faults (bn_remote (ln_env l))) ->
  answered_job l job ->
  (Z.to_nat (buffer_capacity (dec_limits (ln_decoder l))) < fuel)%nat ->
  let b := ln_env l in
  exists b' d f, job_frame job f
    /\ exchange (Datatypes.S attempts) fuel l job
       = (Some (Ok (device_reply (bn_device b) (job_request job))),
          host_at l (attempt_effects (fp_echo (ep_faults (bn_host b))) job f) b' d)
    /\ passed l b' d /\ bn_clock b' = bn_clock b.
Proof.
  intros Hr (Dh & _ & Nh) (Dr & _ & Nr) Hj Hfuel b. fold b in Dh, Nh, Dr, Nr.
  assert (E0 : losses b = 0) by (unfold losses; by rewrite Dh, Dr).
  destruct (bench_exchange (Datatypes.S attempts) fuel l job Hr Hj Hfuel) as (b' & d & f & Hf & E & Hp & Hc).
  { fold b. lia. }
  fold b in E, Hp, Hc. pose proof (transport_limit_range job (aj_retries _ _ Hj)).
  unfold last_noise in E. rewrite E0, Dr, Nr in E. rewrite E0 in Hc.
  rewrite (proj2 (Z.leb_le _ _)), heard_reply_nil, Z.min_l in E by (apply Hr || lia).
  exists b', d, f. split_and!; [done|done|done|]. rewrite Hc. rewrite Z.min_l by lia. lia.
Qed.

Fixpoint exchange_all (attempts fuel : nat) l (jobs : list Job)
    : list (option (result ExchangeError DeviceReply)) * LinkRunner Bench S C :=
  match jobs with
  | [] => ([], l)
  | job :: jobs =>
      let '(r, l) := exchange attempts fuel l job in
      let '(rs, l) := exchange_all attempts fuel l jobs in (r :: rs, l)
  end.

Lemma answered_job_later l xs b d job :
  passed l b d -> bn_clock b = bn_clock (ln_env l) -> losses b <= losses (ln_env l) ->
  answered_job l job -> answered_job (host_at l xs b d) job.
Proof.
  intros [Hl _ _ _ Hlim] Hc Hn [Hj Ha Hu Hrt Hcl Hd].
  split; cbn [host_at ln_env ln_decoder]; rewrite ?Hlim, ?(sl_device _ _ Hl); try done.
  - by eapply bench_job_later.
  - rewrite Hc. nia.
Qed.

(** End to end: over the in-memory link to an emulated device, whatever the fragment
    sizes in both directions, the size of the read buffer, the wake prefixes, and whether the
    line echoes, the link runner answers every request of a sequence with exactly what the
    device has to say to its command, in one transmission each, without a retry and without
    waiting; the echo is recognised and announced; and the line, both decoders and the device
    are afterwards as before. *)
Theorem bench_answers_every_request (attempts fuel : nat) l (jobs : list Job) :
  ready l -> calm (ep_faults (bn_host (ln_env l))) -> calm (ep_faults (bn_remote (ln_env l))) ->
  Forall (answered_job l) jobs ->
  (Z.to_nat (buffer_capacity (dec_limits (ln_decoder l))) < fuel)%nat ->
  exists b d frames,
    exchange_all (Datatypes.S attempts) fuel l jobs
      = ((fun job => Some (Ok (device_reply (bn_device (ln_env l)) (job_request job)))) <$> jobs,
         host_at l (concat (rev (zip_with (attempt_effects (fp_echo (ep_faults (bn_host (ln_env l)))))
                                   jobs frames))) b d)
    /\ Forall2 (fun job f => Request_to_frame (job_request job) = Ok f) jobs frames
    /\ passed l b d /\ bn_clock b = bn_clock (ln_env l).
Proof.
  intros Hr Ch Cr Hjobs Hfuel. revert l Hr Ch Cr Hjobs Hfuel.
  induction jobs as [|job jobs IH]; intros l Hr Ch Cr Hjobs Hfuel; cbn [exchange_all].
  - exists (ln_env l), (ln_decoder l), []. destruct Hr. split_and!; try done; [by destruct l|].
    split; try done. apply same_line_refl.
  - apply Forall_cons_iff in Hjobs as [Hj Hjobs].
    destruct (calm_exchange attempts fuel l job Hr Ch Cr Hj Hfuel) as (b1 & d1 & f & Hf & -> & Hp1 & Hc1).
    pose proof Hp1 as [[Hd1 Hlim1 Fh1 Fr1] Hq1 Hok1 Hb1 Hl1].
    apply calm_faded in Fh1 as Eh1; [|done]. apply calm_faded in Fr1 as Er1; [|done].
    set (l1 := host_at l _ b1 d1).
    destruct (IH l1) as (b2 & d2 & frames & -> & Hfs & Hp2 & Hc2); cbn [l1 host_at ln_env ln_decoder];
      rewrite ?Eh1, ?Er1, ?Hl1; try done.
    { apply ready_later; try done. }
    { eapply Forall_impl; [exact Hjobs|]. intros j. apply answered_job_later; [done|done|].
      unfold losses. by rewrite Eh1, Er1. }
    exists b2, d2, (f :: frames). cbn [l1 host_at ln_env] in *. rewrite Hd1.
    split_and!; [|by constructor; [apply Hf|]|by eapply passed_trans|congruence].
    cbn [fmap list_fmap zip_with rev]. unfold l1. rewrite host_at_add, concat_app. cbn [concat].
    by rewrite app_nil_r.
Qed.

(** C10. Lost transmissions are repeated, and nothing else is. Over a line without latency that
    loses the next transmission of the host, the next one of the device or both, and puts noise
    before them, a request is answered with what the device has to say exactly when its retry
    limit, which is none for an action, covers the losses; it is transmitted once more for each
    loss covered, announced as a transport retry, waits out the response timeout of each loss and
    is otherwise answered at once; beyond the limit it fails with the response timeout. *)
Theorem lost_transmissions_are_repeated (attempts fuel : nat) l (job : Job) :
  ready l -> answered_job l job ->
  (Z.to_nat (buffer_capacity (dec_limits (ln_decoder l))) < fuel)%nat ->
  losses (ln_env l) < Z.of_nat attempts ->
  let b := ln_env l in
  exists b' d added,
    exchange attempts fuel l job
    = (Some (if losses b <=? transport_limit job
             then Ok (heard_reply (last_noise b) (device_reply (bn_device b) (job_request job)))
             else Err ExResponseTimeout), host_at l added b' d)
    /\ count is_transmit added = 1 + Z.min (losses b) (transport_limit job)
    /\ count (is_retry CauseTransport) added = Z.min (losses b) (transport_limit job)
    /\ bn_clock b' = bn_clock b + Z.min (losses b) (transport_limit job + 1)
                                  * rp_response_timeout (job_policy job)
    /\ passed l b' d.
Proof.
  intros Hr Hj Hfuel Hatt b.
  destruct (bench_exchange attempts fuel l job Hr Hj Hfuel Hatt) as (b' & d & f & Hf & E & Hp & Hc).
  fold b in E, Hc. eexists b', d, _. split; [exact E|].
  pose proof (transport_limit_range job (aj_retries _ _ Hj)). pose proof (losses_range b).
  destruct (loss_effects_count (Z.to_nat (Z.min (losses b) (transport_limit job)))
              (fp_echo (ep_faults (bn_host b))) job f (mkAttempts 1 0 0 0)) as [-> ->].
  split_and!; [lia|lia|done|done].
Qed.
End Exchange.

(** An echoing line cut into three and five bytes, read seven bytes at a time; its plans. *)
Definition bench_runner_with (host remote : FaultPlan) : LinkRunner Bench CountingSemaphore ListChannel :=
  mkRunner (bench_new example_device host remote)
    [] (QueueSet_new []) Counters_default (FrameDecoder_new DecodeLimits_default) 7 None true 64
    DEFAULT_LATE_RESPONSE_GUARD.

Definition bench_runner : LinkRunner Bench CountingSemaphore ListChannel :=
  bench_runner_with (mkFaults false true false [] (Some 3) 0) (mkFaults false false false [] (Some 5) 0).

(** The next transmission of each end is lost; noise stands before those of the device. *)
Definition lossy_runner : LinkRunner Bench CountingSemaphore ListChannel :=
  bench_runner_with (mkFaults true true false [] (Some 3) 0) (mkFaults true false false [0; 170] (Some 5) 0).

(** Requests with a wake prefix. *)
Definition bench_request_with (policy : RetryPolicy) (id command : Z) : Job :=
  mkJob id (Request_new (Polling 0 Primary) (CommandCode_new command) []) [0; 170; 85; 255] policy
    (8 * NANOS_PER_SECOND) (Some id).

Definition bench_request : Z -> Z -> Job := bench_request_with RetryPolicy_default.

Lemma example_device_typed : device_typed example_device.
Proof. split; [exact example_identity_typed|by vm_compute..| |by vm_compute]. cbn. solve_bytes. Qed.

Lemma bench_runner_ready host remote :
  fp_echo remote = false -> fp_corrupt_next host = false -> fp_corrupt_next remote = false ->
  fp_latency host = 0 -> fp_latency remote = 0 ->
  harmless DecodeLimits_default (fp_noise_prefix remote) ->
  ready (bench_runner_with host remote).
Proof.
  intros He Hh Hr Lh Lr Hn. split; try done.
  split; [|done|done|by apply FrameDecoder_new_ok|done].
  by split; [done|exact example_device_typed|..].
Qed.

Lemma bench_request_ok host remote policy id command :
  is_u8 command -> command <> 31 -> fp_noise_prefix host = [] -> zlen (fp_noise_prefix remote) <= 64 ->
  is_u8 (rp_transport_retries policy) -> 0 <= rp_response_timeout policy <= 2 * NANOS_PER_SECOND ->
  answered_job (bench_runner_with host remote) (bench_request_with policy id command).
Proof.
  unfold is_u8. intros Hc H31 Hh Hr Hu Ht. split; try done.
  - split; cbn [bench_runner_with ln_env ln_decoder]; try done.
    + split; cbn; try done; [unfold is_u16; lia].
    + apply Request_validate_Ok; [done|]. unfold CommandCode_is_expanded. cbn. unfold u8_max.
      rewrite (proj2 (Z.ltb_ge _ _)) by lia. done.
    + cbn. by rewrite Hh.
    + cbn. rewrite Hh. by vm_compute.
    + cbn -[MAX_ENCODED_FRAME_SIZE zlen clamp] in *. change (zlen [0; 170; 85; 255]) with 4.
      etrans; [apply Zplus_le_compat_r, Zplus_le_compat_l, Hr|]. by vm_compute.
  - apply Ht.
  - cbn. pose proof (losses_range (bench_new example_device host remote)).
    unfold NANOS_PER_SECOND in *. nia.
Qed.

Lemma bench_answers_every_request_witness :
  (exchange_all 1 (Z.to_nat 4097) bench_runner
     [bench_request 1 0; bench_request 2 48; bench_request 3 99]).1
  = (fun r => Some (Ok (device_reply example_device r)))
      <$> [job_request (bench_request 1 0); job_request (bench_request 2 48);
           job_request (bench_request 3 99)].
Proof.
  destruct (bench_answers_every_request 0 (Z.to_nat 4097) bench_runner
              [bench_request 1 0; bench_request 2 48; bench_request 3 99])
    as (b & d & frames & E & _); [by apply bench_runner_ready|done|done| |by apply Nat.ltb_lt|by rewrite E].
  apply Forall_cons_iff; split; [|apply Forall_cons_iff; split; [|apply Forall_cons_iff; split; [|done]]];
    apply bench_request_ok; (done || lia).
Defined.

Lemma lost_transmissions_are_repeated_witness :
  let fuel := Z.to_nat 4097 in
  let policy := mkRetry 2 0 0 0 1000000 (8 * NANOS_PER_SECOND) in
  (exchange 3 fuel lossy_runner (bench_request_with policy 1 0)).1
    = Some (Ok (device_reply example_device (job_request (bench_request 1 0))))
  /\ (exchange 3 fuel lossy_runner (bench_request 1 0)).1 = Some (Err ExResponseTimeout).
Proof.
  intros fuel policy. split.
  - destruct (lost_transmissions_are_repeated 3 fuel lossy_runner (bench_request_with policy 1 0))
      as (b & d & added & E & _); [by apply bench_runner_ready|by apply bench_request_ok|
                                   by apply Nat.ltb_lt|done|by rewrite E].
  - destruct (lost_transmissions_are_repeated 3 fuel lossy_runner (bench_request 1 0))
      as (b & d & added & E & _); [by apply bench_runner_ready|by apply bench_request_ok|
                                   by apply Nat.ltb_lt|done|by rewrite E].
Defined.
