(* ===== verification/System.v ===== *)
(** * A working link: client, runner and device together

    The client handle ([LinkClient]), the runner's task ([LinkRunner::run]) and the emulated
    device of the bench as one world, in which a task of the application waits for one request
    at a time. The client and the runner share their queues and counters: the state passes
    them from one to the other. The runner's task runs from one wait to the next whenever
    something is put in its queues. *)
From stdpp Require Import gmap.
From S2P Require Import Prelude Wire Decoder Catalog Codec Operation QueueSet Burst Link LinkRunner.
From S2P Require Import Trace Emulator Bench Service Client.

Section System.
Context {S C : Type} `{Semaphore S} `{Mpsc C}.

(** [sy_ticket] numbers the reply channels; [sy_fuel] bounds the reads of one reception and
    the jobs of one turn. *)
Record System := mkSystem {
  sy_client : LinkClient S;
  sy_runner : LinkRunner Bench S C;
  sy_cursor : QueueCursor;
  sy_ticket : Z;
  sy_fuel : nat;
}.

Definition sy_clock (s : System) : Z := bn_clock (ln_env (sy_runner s)).

(** The runner with the queues and counters as the client left them, and the converse. *)
Definition to_runner (c : LinkClient S) (l : LinkRunner Bench S C) : LinkRunner Bench S C :=
  LinkRunner.with_queues (LinkRunner.with_counters l (cl_counters c)) (cl_queues c).

Definition to_client (l : LinkRunner Bench S C) (c : LinkClient S) : LinkClient S :=
  Link.with_queues (Link.with_counters c (ln_counters l)) (ln_queues l).

(** [LinkRunner::run] until it waits for input, or for good; [jobs] bounds its passes. *)
Fixpoint runner_turn (jobs attempts fuel : nat) (l : LinkRunner Bench S C) (cursor : QueueCursor)
    : LinkRunner Bench S C * QueueCursor :=
  match jobs with
  | O => (l, cursor)
  | Datatypes.S jobs =>
      match next_job fuel l cursor with
      | (None, l, cursor) => (l, cursor)
      | (Some None, l, cursor) => (fail_pending_jobs l, cursor)
      | (Some (Some (queue, entry)), l, cursor) =>
          match serve_job attempts fuel l queue entry with
          | None => (l, cursor)
          | Some l =>
              if ln_channel_usable l then runner_turn jobs attempts fuel l cursor
              else (fail_pending_jobs l, cursor)
          end
      end
  end.

(** What came over a reply channel. *)
Fixpoint find_answer (ticket : Z) (effects : list Effect) : option (result ExchangeError DeviceReply) :=
  match effects with
  | [] => None
  | Answer t r :: effects => if t =? ticket then Some r else find_answer ticket effects
  | _ :: effects => find_answer ticket effects
  end.

(** The attempts a policy allows, and one. *)
Definition policy_attempts (p : RetryPolicy) : nat :=
  Z.to_nat (1 + rp_transport_retries p + rp_busy_retries p + rp_delayed_response_polls p).

(** The wait for capacity: the runner is waiting, so nobody frees any before the deadline. *)
Definition system_admit (s : System) (c : LinkClient S) (job : Job) (queue : QueueId) (i : nat)
    : result StartError Z * LinkClient S * LinkRunner Bench S C :=
  match LinkClient_start_poll c job queue i false with
  | (Some r, c) => (r, c, sy_runner s)
  | (None, c) =>
      let l := LinkRunner.with_env (sy_runner s) (bench_wait (ln_env (sy_runner s)) (job_deadline job)) in
      match LinkClient_start_poll c job queue i true with
      | (Some r, c) => (r, c, l)
      | (None, c) => (Err StartDeadline, c, l)
      end
  end.

(** [LinkClient::request_with_prefix]: start, and wait for the answer. *)
Definition system_request (s : System) (request : Request) (prefix : bytes) (queue : QueueId)
    (policy : RetryPolicy) : result ExchangeError DeviceReply * System :=
  let t := sy_clock s in
  let '(started, c) :=
    LinkClient_start_begin (sy_client s) request prefix queue policy rt_instant_max t t (sy_ticket s) in
  match started with
  | Err e =>
      (Err (start_to_exchange_error e),
       mkSystem c (to_runner c (sy_runner s)) (sy_cursor s) (sy_ticket s + 1) (sy_fuel s))
  | Ok (job, queue, i) =>
      let '(admitted, c, l) := system_admit s c job queue i in
      let l := to_runner c l in
      match admitted with
      | Err e =>
          (Err (start_to_exchange_error e), mkSystem c l (sy_cursor s) (sy_ticket s + 1) (sy_fuel s))
      | Ok _ =>
          let '(l, cursor) :=
            runner_turn (sy_fuel s) (policy_attempts policy) (sy_fuel s) l (sy_cursor s) in
          (PendingReply_wait (find_answer (sy_ticket s) (ln_effects l)),
           mkSystem (to_client l c) l cursor (sy_ticket s + 1) (sy_fuel s))
      end
  end.

Definition system_sleep (s : System) (duration : Z) : System :=
  let l := sy_runner s in
  mkSystem (sy_client s) (LinkRunner.with_env l (bench_wait (ln_env l) (sy_clock s + duration)))
    (sy_cursor s) (sy_ticket s) (sy_fuel s).

(** The link as the services above it use it; the defaults are those of the builder. *)
#[global] Instance system_service : Service System := {
  sv_request_with_prefix := system_request;
  sv_default_queue := QueueId_DEFAULT;
  sv_default_retry := RetryPolicy_default;
  sv_now s := (sy_clock s, s);
  sv_sleep := system_sleep;
}.

(** A link as [build_link] makes it. *)
Definition system_new (b : Bench) (config : LinkConfig) (options : LinkRuntimeOptions) (fuel : nat)
    : System :=
  let '(c, l) := build_link b config options in mkSystem c l QueueCursor_new 0 fuel.
End System.

Arguments System : clear implicits.
