(* ===== verification/SystemProps.v ===== *)
(** * A working link: every request is answered by the device or by its silence

    The link between two requests is in a steady state: the queues are empty, the runner waits,
    nothing is on the line. A request from a steady state passes the admission, the queue, the
    runner and the line, comes back with what the device says, and leaves the link steady. *)
From stdpp Require Import gmap.
From S2P Require Import Prelude Wire Decoder DecoderFacts DecoderSpec Catalog Codec Operation OperationProps.
From S2P Require Import QueueSet QueueRuns QueueSched Burst BurstProps Link LinkRunner LinkProps.
From S2P Require Import ExchangeProps Trace Emulator EmulatorProps Bench BenchProps.
From S2P Require Import Service Client System.

(** ** The queues *)

Section Queues.
Context {S : Type} `{SemaphoreLaws S}.
Implicit Types q : QueueSet Job S.

(** A slot with nothing in it and room. *)
Record idle_slot (s : QueueSlot Job S) : Prop := {
  is_entries : slot_entries s = [];
  is_queued : slot_queued s = 0;
  is_open : sem_is_closed (slot_permits s) = false;
  is_room : 0 < sem_available (slot_permits s);
}.

Record idle q : Prop := {
  id_index : forall i d, set_indices q !! QueueId_get d = Some i ->
               exists s, set_slots q !! i = Some s /\ slot_id s = d;
  id_slots : forall i s, set_slots q !! i = Some s -> idle_slot s;
  id_input : set_input_closed q = false;
  id_runner : set_runner_closed q = false;
}.

(** One slot of an idle set replaced. *)
Definition with_slot q (i : nat) (s : QueueSlot Job S) : QueueSet Job S :=
  with_slots q (<[i := s]> (set_slots q)).

Lemma with_slot_update q i f s :
  (i < length (set_slots q))%nat ->
  update_slot (with_slot q i s) i f = with_slot q i (f s).
Proof.
  intros Hi. rewrite (update_slot_insert _ _ _ s); [|by apply list_lookup_insert_eq].
  unfold with_slot, with_slots. cbn. by rewrite list_insert_insert_eq.
Qed.

Lemma idle_with_slot q i s s' :
  idle q -> set_slots q !! i = Some s -> idle_slot s' -> slot_id s' = slot_id s ->
  idle (with_slot q i s').
Proof.
  intros [Hix Hsl Hin Hru] Hs Hs' Hid. pose proof (lookup_lt_Some _ _ _ Hs) as Hlt.
  split; cbn; try done.
  - intros j d Hj. destruct (Hix j d Hj) as (t & Ht & Ed). destruct (decide (j = i)) as [->|Hne].
    + exists s'. rewrite list_lookup_insert_eq by done. split; [done|congruence].
    + exists t. by rewrite list_lookup_insert_ne by done.
  - intros j t. destruct (decide (j = i)) as [->|Hne].
    + rewrite list_lookup_insert_eq by done. by intros [= <-].
    + rewrite list_lookup_insert_ne by done. apply Hsl.
Qed.

(** A slot that holds one job, and the slot after the job has left it. *)
Definition holding (s : QueueSlot Job S) (permits : S) (job : Job) : QueueSlot Job S :=
  mkSlot (slot_id s) (slot_capacity s) (slot_priority_word s) permits 1 [job].

Definition released (s : QueueSlot Job S) (permits : S) : QueueSlot Job S :=
  mkSlot (slot_id s) (slot_capacity s) (slot_priority_word s) (sem_release permits) 0 [].

Lemma idle_push q i s job :
  idle q -> set_slots q !! i = Some s ->
  exists permits, QueueSet_push_poll q i job false = (Some (Ok tt), with_slot q i (holding s permits job))
    /\ idle_slot (released s permits).
Proof.
  intros [Hix Hsl Hin Hru] Hs. destruct (Hsl i s Hs) as [He Hq Ho Ha].
  pose proof (lookup_lt_Some _ _ _ Hs) as Hlt.
  destruct (sem_acquire_ok (slot_permits s) Ho Ha) as (permits & Hacq & Hav & Hop).
  exists permits. unfold QueueSet_push_poll. rewrite Hs, Hacq. unfold QueueSet_finish_push.
  assert (E : update_slot q i (with_permits permits) = with_slot q i (with_permits permits s)).
  { by apply update_slot_insert. }
  rewrite E. cbn [with_slot with_slots set_runner_closed]. rewrite Hru.
  fold (with_slots q (<[i := with_permits permits s]> (set_slots q))).
  fold (with_slot q i (with_permits permits s)). rewrite !with_slot_update by done. split.
  - unfold queued_add, push_back, holding, with_queued, with_entries. cbn. by rewrite He, Hq.
  - split; cbn; try done; [by rewrite sem_release_closed|rewrite sem_release_available; lia].
Qed.

(** The only job of the set is the one that is popped. *)
Lemma idle_pop q i s permits job cursor :
  idle q -> set_slots q !! i = Some s -> cursor_ok (length (set_slots q)) cursor ->
  exists cursor',
    QueueSet_pop_scheduled (with_slot q i (holding s permits job)) cursor
      = (Some (slot_id s, job), with_slot q i (with_entries (holding s permits job) []), cursor')
    /\ cursor_ok (length (set_slots q)) cursor'.
Proof.
  intros [Hix Hsl Hin Hru] Hs Hc. pose proof (lookup_lt_Some _ _ _ Hs) as Hlt.
  set (q1 := with_slot q i (holding s permits job)).
  assert (Hi1 : set_slots q1 !! i = Some (holding s permits job)) by by apply list_lookup_insert_eq.
  assert (Hother : forall j t, set_slots q1 !! j = Some t -> slot_entries t <> [] -> j = i).
  { intros j t Ht Hne. destruct (decide (j = i)) as [|Hji]; [done|]. exfalso. cbn in Ht.
    rewrite list_lookup_insert_ne in Ht by done. by destruct (Hsl j t Ht). }
  assert (Hcount : counted (set_slots q1)).
  { intros j t Ht. destruct (decide (j = i)) as [->|Hji]; [by simplify_eq|]. cbn in Ht.
    rewrite list_lookup_insert_ne in Ht by done. destruct (Hsl j t Ht) as [-> -> _ _]. done. }
  assert (Hlen : length (set_slots q1) = length (set_slots q)) by apply length_insert.
  pose proof (pop_scheduled_spec q1 cursor Hcount ltac:(by rewrite Hlen)) as Hp. rewrite Hlen in Hp.
  destruct (QueueSet_pop_scheduled q1 cursor) as [[[[id item]|] q'] cursor'].
  - destruct Hp as (Hc' & j & t & rest & Ht & Hid & He & -> & _).
    assert (j = i) as -> by (apply (Hother j t Ht); by rewrite He). simplify_eq. cbn in He.
    simplify_eq. exists cursor'. split; [|done]. f_equal. f_equal.
    unfold with_slot, with_slots. cbn. by rewrite list_insert_insert_eq.
  - destruct Hp as (_ & _ & Hnone). by specialize (Hnone i _ Hi1).
Qed.

Lemma idle_pop_none q cursor :
  idle q -> cursor_ok (length (set_slots q)) cursor ->
  exists cursor', QueueSet_pop_scheduled q cursor = (None, q, cursor')
    /\ cursor_ok (length (set_slots q)) cursor'.
Proof.
  intros [Hix Hsl Hin Hru] Hc.
  assert (Hcount : counted (set_slots q)).
  { intros j t Ht. destruct (Hsl j t Ht) as [-> -> _ _]. done. }
  pose proof (pop_scheduled_spec q cursor Hcount Hc) as Hp.
  destruct (QueueSet_pop_scheduled q cursor) as [[[[id item]|] q'] cursor'].
  - destruct Hp as (_ & j & t & rest & Ht & _ & He & _). destruct (Hsl j t Ht). congruence.
  - destruct Hp as (Hc' & -> & _). by exists cursor'.
Qed.

(** The end of the entry: the slot is idle again. *)
Lemma idle_finish q i s permits job :
  idle q -> set_slots q !! i = Some s -> set_indices q !! QueueId_get (slot_id s) = Some i ->
  QueueSet_finish_entry (with_slot q i (with_entries (holding s permits job) [])) (slot_id s) job
    = (job, with_slot q i (released s permits)).
Proof.
  intros Hq Hs Hix. pose proof (lookup_lt_Some _ _ _ Hs) as Hlt.
  unfold QueueSet_finish_entry, QueueSet_slot_index. cbn [with_slot with_slots set_indices]. rewrite Hix.
  cbn [ok_or]. fold (with_slots q (<[i := with_entries (holding s permits job) []]> (set_slots q))).
  fold (with_slot q i (with_entries (holding s permits job) [])). rewrite !with_slot_update by done. done.
Qed.
End Queues.

(** ** The runner serves one job *)

(** What a link to this device answers a request with. *)
Definition device_says (d : EmulatedDevice) (request : Request)
    (r : result ExchangeError DeviceReply) : Prop :=
  if accepts_address d (req_address request) then r = Ok (device_reply d request)
  else exists e, r = Err e /\ unanswered e.

Lemma quiet_wait b t : quiet b -> quiet (bench_wait b t).
Proof. by intros [[] ? ? ? ?]. Qed.

Lemma quiet_receive b capacity : quiet b -> 0 < capacity -> bench_receive b capacity = (None, b).
Proof.
  intros [[_ _ _ Ha _ _] Hh _ _ _] Hc. unfold bench_receive.
  pose proof (receive_spec (bn_host b) (bn_remote b) capacity Hc) as Hrec.
  destruct (MemoryChannel_receive _ _ _) as [[[[n data]|e] host]|]; [| |done].
  - destruct Hrec as (Hd & _ & _ & Hp & _). rewrite Hh in Hp. by destruct data.
  - destruct Hrec as (_ & _ & Hx). congruence.
Qed.

Section Serve.
Context {S C : Type} `{SemaphoreLaws S} `{Mpsc C}.
Implicit Types l : LinkRunner Bench S C.

(** [ready] is about the line, the decoder and the read buffer. *)
Lemma ready_ext l l' :
  ln_env l' = ln_env l -> ln_decoder l' = ln_decoder l -> ln_read_buffer l' = ln_read_buffer l ->
  ready l -> ready l'.
Proof. intros E1 E2 E3 []. split; rewrite ?E1, ?E2, ?E3; done. Qed.

(** What serving leaves as it was. *)
Record kept l l' : Prop := {
  kp_line : same_line (ln_env l) (ln_env l');
  kp_limits : dec_limits (ln_decoder l') = dec_limits (ln_decoder l);
  kp_buffer : ln_read_buffer l' = ln_read_buffer l;
  kp_usable : ln_channel_usable l' = ln_channel_usable l;
  kp_coalesced : ln_maximum_coalesced l' = ln_maximum_coalesced l;
  kp_guard : ln_late_response_guard l' = ln_late_response_guard l;
}.

Lemma kept_trans l1 l2 l3 : kept l1 l2 -> kept l2 l3 -> kept l1 l3.
Proof. intros [] []. split; [by eapply same_line_trans|congruence..]. Qed.

(** A calm line: the device's answer, or nothing until the deadline. *)
Lemma calm_outcome attempts fuel l job :
  ready l -> calm (ep_faults (bn_host (ln_env l))) -> calm (ep_faults (bn_remote (ln_env l))) ->
  bench_job (ln_env l) (dec_limits (ln_decoder l)) job ->
  is_u8 (rp_transport_retries (job_policy job)) -> 0 <= rp_response_timeout (job_policy job) ->
  bn_clock (ln_env l) < job_deadline job -> job_deadline job <= u64_max ->
  (Z.to_nat (buffer_capacity (dec_limits (ln_decoder l))) < fuel)%nat ->
  rp_transport_retries (job_policy job) < Z.of_nat attempts ->
  exists b' d added r, exchange attempts fuel l job = (Some r, host_at l added b' d)
    /\ passed l b' d /\ device_says (bn_device (ln_env l)) (job_request job) r
    /\ bn_clock (ln_env l) <= bn_clock b' <= job_deadline job
    /\ (accepts_address (bn_device (ln_env l)) (req_address (job_request job)) = true ->
        bn_clock b' = bn_clock (ln_env l) /\ is_ok r = true).
Proof.
  intros Hr Ch Cr Hj Hu Hrt Hc Hd Hfuel Hatt. unfold device_says.
  assert (Hlim : transport_limit job < Z.of_nat attempts).
  { unfold transport_limit. unfold is_u8 in Hu. case_match; lia. }
  destruct (accepts_address _ _) eqn:Ha.
  - destruct attempts as [|attempts]; [unfold is_u8 in Hu; lia|].
    assert (E0 : losses (ln_env l) = 0) by (destruct Ch as [Dh _], Cr as [Dr _]; unfold losses; by rewrite Dh, Dr).
    destruct (calm_exchange attempts fuel l job Hr Ch Cr) as (b' & d & f & _ & E & Hp & Hcl);
      [split; try done; rewrite E0; lia|done|].
    eexists b', d, _, _. split_and!; [exact E|done|done|lia|lia|done].
  - destruct (bench_silence attempts fuel l job) as (b' & d & added & e & E & Hp & He & Hcl); try done.
    exists b', d, added, (Err e). split_and!; eauto; (lia || done).
Qed.

Lemma no_followers l queue leader :
  idle (ln_queues l) -> take_coalescible_followers l queue leader = ([], l).
Proof.
  intros [_ Hsl _ _]. unfold take_coalescible_followers. case_match; [done|].
  cbn [take_followers]. destruct (zlen [] <? _); [|done].
  unfold QueueSet_pop_from, pop_front_at. destruct (QueueSet_slot_index _ _) as [i|]; [|done].
  destruct (set_slots (ln_queues l) !! i) as [s|] eqn:Hs; [|done]. by destruct (Hsl i s Hs) as [-> _ _ _].
Qed.

(** The runner with the queues after the end of the entry, the exchange begun. *)
Definition started l (q : QueueSet Job S) (job : Job) : LinkRunner Bench S C :=
  let l := with_queues l q in
  broadcast (with_counters l (count_started (ln_counters l)))
    (LinkStarted (job_id job) (req_command (job_request job))).

Lemma serve_job_alone attempts fuel l queue job ticket q r l2 :
  QueueSet_finish_entry (ln_queues l) queue job = (job, q) -> idle q ->
  job_reply job = Some ticket -> bn_clock (ln_env l) < job_deadline job ->
  exchange attempts fuel (started l q job) job = (Some r, l2) ->
  serve_job attempts fuel l queue job
  = match r with
    | Ok value => Some (effect (mark_completed l2 (job_id job)) (Answer ticket (Ok value)))
    | Err e =>
        let l3 := effect (mark_failed l2 (job_id job) e) (Answer ticket (Err e)) in
        match e with
        | ExResponseTimeout => if ln_channel_usable l3 then drain_late_responses fuel l3 else Some l3
        | _ => Some l3
        end
    end.
Proof.
  intros Hf Hq Ht Hc Hx. unfold serve_job. rewrite Hf, Ht. cbn [rt_reply_closed bench_runtime].
  unfold now. cbn [rt_now bench_runtime with_queues ln_env]. rewrite (proj2 (Z.leb_gt _ _)) by done.
  change (with_env (with_queues l q) (ln_env l)) with (with_queues l q).
  rewrite no_followers by done. fold (started l q job). rewrite Hx.
  destruct r as [value|e]; [done|]. unfold requeue_followers. cbn [rev app foldl].
  replace (with_queues l2 (ln_queues l2)) with l2 by by destruct l2. done.
Qed.

(** Nothing comes late on a quiet line. *)
Lemma drain_quiet fuel l :
  quiet (ln_env l) -> 0 < ln_read_buffer l -> 0 <= ln_late_response_guard l ->
  exists b, drain_late_responses (Datatypes.S fuel) l = Some (with_env l b)
    /\ same_line (ln_env l) b /\ quiet b
    /\ bn_clock (ln_env l) <= bn_clock b <= bn_clock (ln_env l) + ln_late_response_guard l.
Proof.
  intros Hq Hb Hg. unfold drain_late_responses. replace (with_env l (ln_env l)) with l by by destruct l.
  assert (Hsame : Some l = Some (with_env l (ln_env l))) by (f_equal; by destruct l).
  pose proof (same_line_refl (ln_env l)) as Hl.
  destruct (_ =? 0); [exists (ln_env l); split_and!; (done || lia)|].
  unfold now. cbn [rt_now bench_runtime]. replace (with_env l (ln_env l)) with l by by destruct l.
  unfold instant_checked_add. destruct (_ <=? _); [|exists (ln_env l); split_and!; (done || lia)].
  cbn [drain_loop rt_receive bench_runtime]. rewrite quiet_receive by done.
  eexists. split; [reflexivity|]. split_and!; [by destruct Hl; split|by apply quiet_wait|cbn; lia..].
Qed.

Lemma next_job_waits fuel l cursor :
  idle (ln_queues l) -> quiet (ln_env l) -> 0 < ln_read_buffer l ->
  cursor_ok (length (set_slots (ln_queues l))) cursor ->
  exists cursor', next_job fuel l cursor = (None, l, cursor')
    /\ cursor_ok (length (set_slots (ln_queues l))) cursor'.
Proof.
  intros Hi Hq Hb. revert cursor. induction fuel as [|fuel IH]; intros cursor Hc; [by exists cursor|].
  destruct (idle_pop_none _ _ Hi Hc) as (cursor1 & E & Hc1). cbn [next_job]. rewrite E, (id_input _ Hi).
  cbn [rt_idle bench_runtime]. rewrite quiet_receive by done.
  replace (with_env l (ln_env l)) with l by by destruct l. by apply IH.
Qed.
(** A job that a calm bench can serve. *)
Record servable l (attempts fuel : nat) (job : Job) : Prop := {
  sb_ready : ready l;
  sb_host_plan : calm (ep_faults (bn_host (ln_env l)));
  sb_remote_plan : calm (ep_faults (bn_remote (ln_env l)));
  sb_job : bench_job (ln_env l) (dec_limits (ln_decoder l)) job;
  sb_retries : is_u8 (rp_transport_retries (job_policy job));
  sb_timeout : 0 <= rp_response_timeout (job_policy job);
  sb_clock : bn_clock (ln_env l) < job_deadline job;
  sb_deadline : job_deadline job <= u64_max;
  sb_fuel : (Z.to_nat (buffer_capacity (dec_limits (ln_decoder l))) < fuel)%nat;
  sb_attempts : rp_transport_retries (job_policy job) < Z.of_nat attempts;
  sb_usable : ln_channel_usable l = true;
  sb_guard : 0 <= ln_late_response_guard l;
}.

(** What the runner has done with a job, with its queues as they are now. *)
Record served l (job : Job) (ticket : Z) (q : QueueSet Job S) l' : Prop := {
  sd_kept : kept l l';
  sd_ready : ready l';
  sd_queues : ln_queues l' = q;
  sd_answer : exists r, find_answer ticket (ln_effects l') = Some r
                /\ device_says (bn_device (ln_env l)) (job_request job) r;
  sd_clock : bn_clock (ln_env l) <= bn_clock (ln_env l')
             <= job_deadline job + ln_late_response_guard l;
  sd_instant : accepts_address (bn_device (ln_env l)) (req_address (job_request job)) = true ->
               bn_clock (ln_env l') = bn_clock (ln_env l);
}.

(** The runner that has answered, before and after the late responses are drained. *)
Lemma served_answer l job ticket q l1 xs b d r event counters :
  ready l -> passed l b d -> device_says (bn_device (ln_env l)) (job_request job) r ->
  bn_clock (ln_env l) <= bn_clock b <= job_deadline job -> 0 <= ln_late_response_guard l ->
  (accepts_address (bn_device (ln_env l)) (req_address (job_request job)) = true ->
   bn_clock b = bn_clock (ln_env l)) ->
  l1 = host_at (started l q job) xs b d ->
  served l job ticket q (effect (broadcast (with_counters l1 counters) event) (Answer ticket r)).
Proof.
  intros Hr Hp Hs Hc Hg Hi ->. pose proof Hp as [Hl Hq Hok Hb Hlim].
  split; cbn; try done.
  - eapply (ready_ext (host_at l xs b d)); [done..|]. by apply ready_later.
  - exists r. by rewrite Z.eqb_refl.
  - lia.
Qed.

Lemma served_drained l job ticket q l1 fuel :
  served l job ticket q l1 -> 0 <= ln_late_response_guard l ->
  bn_clock (ln_env l1) <= job_deadline job ->
  accepts_address (bn_device (ln_env l)) (req_address (job_request job)) = false ->
  exists l2, drain_late_responses (Datatypes.S fuel) l1 = Some l2 /\ served l job ticket q l2.
Proof.
  intros [Hk Hr Hq Ha Hc _] Hg Hd Hno.
  assert (Eg : ln_late_response_guard l1 = ln_late_response_guard l) by apply Hk.
  destruct (drain_quiet fuel l1) as (b & E & Hl & Hqb & Hcb); [apply Hr|apply Hr|lia|].
  exists (with_env l1 b). split; [done|]. split; cbn; try done; [| |lia|congruence].
  - eapply kept_trans; [exact Hk|]. by split.
  - replace (with_env l1 b) with (host_at l1 [] b (ln_decoder l1)) by by destruct l1.
    apply ready_later; try done; apply Hr.
Qed.

Lemma serve_job_bench attempts fuel l q job ticket queue :
  servable l attempts fuel job -> job_reply job = Some ticket ->
  QueueSet_finish_entry (ln_queues l) queue job = (job, q) -> idle q ->
  exists l', serve_job attempts fuel l queue job = Some l' /\ served l job ticket q l'.
Proof.
  intros [Hr Ch Cr Hj Hu Hrt Hc Hd Hfuel Hatt Hus Hg] Ht Hf Hq.
  destruct (calm_outcome attempts fuel (started l q job) job) as (b & d & added & r & Hx & Hp & Hs & Hcl & Hi);
    try done.
  { by eapply (ready_ext l). }
  rewrite (serve_job_alone attempts fuel l queue job ticket q r _ Hf Hq Ht Hc Hx).
  cbn [started broadcast effect with_counters with_queues ln_env] in Hs, Hcl, Hi.
  assert (Hi' : accepts_address (bn_device (ln_env l)) (req_address (job_request job)) = true ->
                bn_clock b = bn_clock (ln_env l)) by (intros Ha; by apply Hi).
  assert (Hp' : passed l b d) by by destruct Hp.
  destruct r as [value|e].
  - eexists. split; [reflexivity|]. by eapply served_answer.
  - set (l3 := effect _ _).
    assert (H3 : served l job ticket q l3) by by eapply served_answer.
    destruct e; try (by exists l3).
    cbn zeta. destruct (ln_channel_usable l3); [|by exists l3]. destruct fuel as [|fuel]; [lia|].
    apply served_drained; [done|done|apply Hcl|].
    destruct (accepts_address (bn_device (ln_env l)) _) eqn:Ha; [|done]. by destruct (Hi eq_refl).
Qed.

(** ** A turn of the runner *)

Lemma runner_turn_serves jobs attempts fuel l q i s permits job ticket cursor :
  idle q -> set_slots q !! i = Some s -> set_indices q !! QueueId_get (slot_id s) = Some i ->
  idle_slot (released s permits) -> ln_queues l = with_slot q i (holding s permits job) ->
  cursor_ok (length (set_slots q)) cursor -> job_reply job = Some ticket ->
  servable l attempts fuel job ->
  exists l' cursor', runner_turn (Datatypes.S (Datatypes.S jobs)) attempts fuel l cursor = (l', cursor')
    /\ served l job ticket (with_slot q i (released s permits)) l'
    /\ cursor_ok (length (set_slots q)) cursor'.
Proof.
  intros Hq Hs Hix Hrel Hl Hcur Ht Hsv.
  destruct (idle_pop q i s permits job cursor Hq Hs Hcur) as (cursor1 & Hpop & Hc1).
  assert (Hq' : idle (with_slot q i (released s permits))) by by eapply idle_with_slot.
  set (l1 := with_queues l (with_slot q i (with_entries (holding s permits job) []))).
  assert (Hsv1 : servable l1 attempts fuel job).
  { destruct Hsv. split; try done. by eapply (ready_ext l). }
  assert (Hfuel : exists k, fuel = Datatypes.S k).
  { destruct fuel as [|k]; [destruct Hsv; lia|by exists k]. }
  destruct Hfuel as [k ->]. cbn [runner_turn]. cbn [next_job]. rewrite Hl, Hpop. fold l1.
  destruct (serve_job_bench attempts (Datatypes.S k) l1 (with_slot q i (released s permits)) job ticket (slot_id s))
    as (l2 & -> & Hsd); [done|done|by apply idle_finish|done|].
  assert (Hsd' : served l job ticket (with_slot q i (released s permits)) l2).
  { destruct Hsd as [[] ? ? ? ? ?]. by split; [split|..]. }
  pose proof Hsd' as [Hk Hr2 Hq2 _ _ _].
  rewrite (kp_usable _ _ Hk), (sb_usable _ _ _ _ Hsv).
  assert (Hlen : length (set_slots (ln_queues l2)) = length (set_slots q)).
  { rewrite Hq2. apply length_insert. }
  destruct (next_job_waits (Datatypes.S k) l2 cursor1) as (cursor2 & E & Hc2');
    [by rewrite Hq2|apply Hr2|apply Hr2|by rewrite Hlen|].
  cbn [next_job] in E. rewrite E. exists l2, cursor2. rewrite Hlen in Hc2'. by split_and!.
Qed.
End Serve.

(** ** A request *)

Lemma retry_policy_fits p now :
  1 <= rp_response_timeout p <= MAXIMUM_RETRY_DURATION ->
  1 <= rp_total_timeout p <= MAXIMUM_RETRY_DURATION ->
  0 <= rp_retry_delay p <= MAXIMUM_RETRY_DURATION -> now + MAXIMUM_RETRY_DURATION <= u64_max ->
  RetryPolicy_validate_runtime p u64_max now = Ok tt.
Proof.
  intros Hr Ht Hd Hn. unfold RetryPolicy_validate_runtime, RetryPolicy_validate, instant_checked_add.
  rewrite !(proj2 (Z.eqb_neq _ _)), !(proj2 (Z.ltb_ge _ _)) by lia. cbn [result_bind].
  by rewrite !(proj2 (Z.leb_le _ _)) by lia.
Qed.

(** What is looked at of a call when its job is on the line. *)
Definition call_job (c : Call) : Job :=
  mkJob 0 (call_request c) (call_prefix c) (call_policy c) 0 None.

Lemma bench_job_same b limits job job' :
  job_request job' = job_request job -> job_transmit_prefix job' = job_transmit_prefix job ->
  bench_job b limits job -> bench_job b limits job'.
Proof. intros E1 E2 []. split; rewrite ?E1, ?E2; done. Qed.

Section Request.
Context {S C : Type} `{SemaphoreLaws S} `{Mpsc C}.
Implicit Types s : System S C.

(** The state of a link between two requests. *)
Record steady s : Prop := {
  ss_ready : ready (sy_runner s);
  ss_host_plan : calm (ep_faults (bn_host (ln_env (sy_runner s))));
  ss_remote_plan : calm (ep_faults (bn_remote (ln_env (sy_runner s))));
  ss_idle : idle (ln_queues (sy_runner s));
  ss_shared : cl_queues (sy_client s) = ln_queues (sy_runner s);
  ss_cursor : cursor_ok (length (set_slots (ln_queues (sy_runner s)))) (sy_cursor s);
  ss_usable : ln_channel_usable (sy_runner s) = true;
  ss_guard : 0 <= ln_late_response_guard (sy_runner s) <= MAXIMUM_LATE_RESPONSE_GUARD;
  ss_fuel : (Z.to_nat (buffer_capacity (dec_limits (ln_decoder (sy_runner s)))) < sy_fuel s)%nat;
  ss_jobs : (2 <= sy_fuel s)%nat;
}.

(** What no request changes. *)
Record alike s s' : Prop := {
  al_line : same_line (ln_env (sy_runner s)) (ln_env (sy_runner s'));
  al_limits : dec_limits (ln_decoder (sy_runner s')) = dec_limits (ln_decoder (sy_runner s));
  al_queues : set_indices (cl_queues (sy_client s')) = set_indices (cl_queues (sy_client s));
  al_policy : cl_command_policy (sy_client s') = cl_command_policy (sy_client s);
  al_routing : cl_command_routing (sy_client s') = cl_command_routing (sy_client s);
  al_guard : ln_late_response_guard (sy_runner s') = ln_late_response_guard (sy_runner s);
}.

Lemma alike_refl s : alike s s.
Proof. split; try done. apply same_line_refl. Qed.

Lemma alike_trans s1 s2 s3 : alike s1 s2 -> alike s2 s3 -> alike s1 s3.
Proof. intros [] []. split; [by eapply same_line_trans|congruence..]. Qed.

(** A call the link takes: a queue for it, a command its policy admits, a retry policy within
    the limits, and a request both ends can follow. *)
Record admissible s (c : Call) : Prop := {
  ad_queue : exists queue,
    LinkClient_resolve_queue (sy_client s) (call_request c) (call_queue c) = Ok queue
    /\ CommandPolicy_admits (cl_command_policy (sy_client s))
         (mkContext (call_request c) (resolved_safety (call_request c))
            (catalog_safety (call_request c)) queue) = true;
  ad_job : bench_job (ln_env (sy_runner s)) (dec_limits (ln_decoder (sy_runner s))) (call_job c);
  ad_response : 1 <= rp_response_timeout (call_policy c) <= MAXIMUM_RETRY_DURATION;
  ad_total : 1 <= rp_total_timeout (call_policy c) <= MAXIMUM_RETRY_DURATION;
  ad_delay : 0 <= rp_retry_delay (call_policy c) <= MAXIMUM_RETRY_DURATION;
  ad_transport : is_u8 (rp_transport_retries (call_policy c));
  ad_busy : is_u8 (rp_busy_retries (call_policy c));
  ad_delayed : is_u8 (rp_delayed_response_polls (call_policy c));
}.

Lemma resolve_queue_ext (c c' : LinkClient S) request queue :
  set_indices (cl_queues c') = set_indices (cl_queues c) ->
  cl_command_routing c' = cl_command_routing c ->
  LinkClient_resolve_queue c' request queue = LinkClient_resolve_queue c request queue.
Proof. intros E1 E2. unfold LinkClient_resolve_queue, QueueSet_contains. by rewrite E1, E2. Qed.

Lemma admissible_later s s' c : alike s s' -> admissible s c -> admissible s' c.
Proof.
  intros [Hl Hlim Hq Hp Hr _] [(queue & Hres & Hadm) Hj ? ? ? ? ? ?]. split; try done.
  - exists queue. by rewrite (resolve_queue_ext _ _ _ _ Hq Hr), Hp.
  - rewrite Hlim. by eapply bench_job_later.
Qed.

Lemma resolve_queue_known (c : LinkClient S) request requested queue :
  LinkClient_resolve_queue c request requested = Ok queue ->
  exists i, QueueSet_slot_index (cl_queues c) queue = Ok i.
Proof.
  unfold LinkClient_resolve_queue, QueueSet_slot_index.
  destruct (QueueSet_contains _ requested); cbn [negb]; [|done].
  destruct (QueueSet_contains _ (CommandRouting_route _ _)) eqn:E; cbn [negb]; [|done].
  intros [= <-]. apply bool_decide_eq_true in E as [i Hi]. exists i. by rewrite Hi.
Qed.

(** The admission of a call from a steady state: the job waits in an idle set. *)
Definition call_admitted s (c : Call) (job : Job) (l : LinkRunner Bench S C) : Prop :=
  exists queue i slot permits client,
    LinkClient_start_begin (sy_client s) (call_request c) (call_prefix c) (call_queue c)
      (call_policy c) u64_max (sy_clock s) (sy_clock s) (sy_ticket s) = (Ok (job, queue, i), client.1)
    /\ system_admit s client.1 job queue i = (Ok (job_id job), client.2, sy_runner s)
    /\ l = to_runner client.2 (sy_runner s)
    /\ set_slots (ln_queues (sy_runner s)) !! i = Some slot
    /\ set_indices (ln_queues (sy_runner s)) !! QueueId_get (slot_id slot) = Some i
    /\ idle_slot (released slot permits)
    /\ ln_queues l = with_slot (ln_queues (sy_runner s)) i (holding slot permits job)
    /\ cl_command_policy client.2 = cl_command_policy (sy_client s)
    /\ cl_command_routing client.2 = cl_command_routing (sy_client s).

Lemma admission s (c : Call) :
  steady s -> admissible s c -> sy_clock s + MAXIMUM_RETRY_DURATION <= u64_max ->
  exists id,
    let job := mkJob id (call_request c) (call_prefix c) (call_policy c)
                 (sy_clock s + rp_total_timeout (call_policy c)) (Some (sy_ticket s)) in
    exists l, call_admitted s c job l.
Proof.
  intros Hs [(queue & Hres & Hadm) Hj Hr Ht Hd _ _ _] Hc.
  pose proof Hs as [_ _ _ Hidle Hsh _ _ _ _ _]. set (q := ln_queues (sy_runner s)) in *.
  destruct (resolve_queue_known _ _ _ _ Hres) as [i Hi]. rewrite Hsh in Hi.
  assert (Hix : set_indices q !! QueueId_get queue = Some i).
  { unfold QueueSet_slot_index in Hi. destruct (set_indices q !! _); cbn in Hi; by simplify_eq. }
  destruct (id_index _ Hidle i queue Hix) as (slot & Hslot & Hid).
  set (c1 := Link.with_counters (sy_client s) (take_id (cl_counters (sy_client s)))).
  set (id := fetch_add (cnt_next_id (cl_counters (sy_client s)))). exists id. intros job.
  destruct (idle_push q i slot job Hidle Hslot) as (permits & Hpush & Hrel).
  set (c2 := emit (Link.with_queues c1 (with_slot q i (holding slot permits job)))
               (LinkQueued id (req_command (call_request c)) queue)).
  exists (to_runner c2 (sy_runner s)), queue, i, slot, permits, (c1, c2). cbn [fst snd].
  rewrite Hid. split_and!; try done.
  - unfold LinkClient_start_begin. rewrite Hres. unfold LinkClient_make_job.
    pose proof (bj_valid _ _ _ Hj : Request_validate (call_request c) = Ok tt) as Hv.
    rewrite (retry_policy_fits _ _ Hr Ht Hd Hc), Hv, Hadm. cbn [negb].
    rewrite (proj2 (Z.ltb_ge _ _)) by apply (bj_prefix _ _ _ Hj). unfold instant_checked_add.
    rewrite (proj2 (Z.leb_le _ _)) by lia. fold c1. unfold QueueSet_push_begin.
    change (cl_queues c1) with (cl_queues (sy_client s)). rewrite Hsh. fold q. rewrite Hi.
    cbn [result_map_err result_bind]. by rewrite (id_runner _ Hidle).
  - unfold system_admit, LinkClient_start_poll.
    change (cl_queues c1) with (cl_queues (sy_client s)). rewrite Hsh. fold q. by rewrite Hpush.
Qed.
(** The longest a request can take: the largest deadline and guard against late responses. *)
Definition REQUEST_TIME : Z := MAXIMUM_RETRY_DURATION + MAXIMUM_LATE_RESPONSE_GUARD.

Lemma calm_same plan plan' : calm plan -> faded plan plan' -> calm plan'.
Proof. intros Hc Hf. by rewrite (calm_faded _ _ Hc Hf). Qed.

(** A link whose runner has served a job is steady again. *)
Lemma steady_served s c job ticket l l' q cursor :
  steady s -> served l job ticket q l' -> idle q ->
  length (set_slots q) = length (set_slots (ln_queues (sy_runner s))) ->
  cursor_ok (length (set_slots (ln_queues (sy_runner s)))) cursor ->
  ln_env l = ln_env (sy_runner s) -> ln_decoder l = ln_decoder (sy_runner s) ->
  ln_channel_usable l = ln_channel_usable (sy_runner s) ->
  ln_late_response_guard l = ln_late_response_guard (sy_runner s) ->
  steady (mkSystem (to_client l' c) l' cursor (sy_ticket s + 1) (sy_fuel s)).
Proof.
  intros [Hr Ch Cr Hi Hsh Hcur Hus Hg Hf Hj] [Hk Hr' Hq' _ _ _] Hq Hlen Hc E1 E2 E3 E4.
  pose proof (kp_line _ _ Hk) as [_ _ Fh Fr]. rewrite E1 in Fh, Fr.
  split; cbn [sy_runner sy_client sy_cursor sy_fuel]; try done.
  - exact (calm_same _ _ Ch Fh).
  - exact (calm_same _ _ Cr Fr).
  - by rewrite Hq'.
  - by rewrite Hq', Hlen.
  - by rewrite (kp_usable _ _ Hk), E3.
  - by rewrite (kp_guard _ _ Hk), E4.
  - by rewrite (kp_limits _ _ Hk), E2.
Qed.

(** The time a request may take: the total timeout of its policy and the guard of the link
    against late responses, or none when the device listens to its address. *)
Definition takes s (c : Call) (elapsed : Z) : Prop :=
  0 <= elapsed <= rp_total_timeout (call_policy c) + ln_late_response_guard (sy_runner s)
  /\ (accepts_address (bn_device (ln_env (sy_runner s))) (req_address (call_request c)) = true -> elapsed = 0).

Lemma system_request_spec s (c : Call) :
  steady s -> admissible s c -> sy_clock s + MAXIMUM_RETRY_DURATION <= u64_max ->
  exists r s',
    sv_request_with_prefix s (call_request c) (call_prefix c) (call_queue c) (call_policy c) = (r, s')
    /\ device_says (bn_device (ln_env (sy_runner s))) (call_request c) r
    /\ steady s' /\ alike s s' /\ takes s c (sy_clock s' - sy_clock s).
Proof.
  intros Hs Ha Hc.
  destruct (admission s c Hs Ha Hc)
    as (id & l & queue & i & slot & permits & [c1 c2] & Hb & Hadm & El & Hslot & Hix & Hrel & Hlq & Ep & Er).
  cbn [fst snd] in *. set (job := mkJob _ _ _ _ _ _) in *.
  pose proof Hs as [Hr Ch Cr Hidle Hsh Hcur Hus Hg Hf Hj].
  pose proof Ha as [_ Hbj Hrt Htt _ Hut Hub Hud].
  set (q := ln_queues (sy_runner s)) in *.
  assert (Hsv : servable l (policy_attempts (call_policy c)) (sy_fuel s) job).
  { subst l. split; try done.
    - by eapply (ready_ext (sy_runner s)).
    - by eapply bench_job_same; [..|exact Hbj].
    - cbn. lia.
    - cbn. unfold sy_clock. lia.
    - cbn. lia.
    - cbn. unfold policy_attempts. unfold is_u8 in *. lia.
    - apply Hg. }
  destruct (sy_fuel s) as [|[|jobs]] eqn:Efuel; [lia|lia|].
  destruct (runner_turn_serves jobs (policy_attempts (call_policy c)) (Datatypes.S (Datatypes.S jobs)) l q i slot
              permits job (sy_ticket s) (sy_cursor s)) as (l' & cursor' & Hturn & Hsd & Hc'); try done.
  pose proof Hsd as [Hk _ Hq' (r & Hans & Hsay) Hcl Hi].
  exists r, (mkSystem (to_client l' c2) l' cursor' (sy_ticket s + 1) (sy_fuel s)). split_and!.
  - cbn [sv_request_with_prefix system_service]. unfold system_request.
    cbn [rt_instant_max bench_runtime]. rewrite Hb, Hadm, <- El, Efuel, Hturn. by rewrite Hans.
  - subst l. done.
  - eapply steady_served; try done; [by eapply idle_with_slot|apply length_insert|by subst l..].
  - split; cbn [sy_runner sy_client to_client Link.with_queues Link.with_counters cl_queues
                cl_command_policy cl_command_routing]; try done.
    + subst l. by destruct Hk.
    + rewrite (kp_limits _ _ Hk). by subst l.
    + rewrite Hq', Hsh. done.
    + rewrite (kp_guard _ _ Hk). by subst l.
  - subst l. cbn in Hcl, Hi. unfold takes, sy_clock in *. cbn [sy_runner].
    split; [lia|]. intros Hacc. rewrite (Hi Hacc). lia.
Qed.

Lemma takes_bounded s c elapsed :
  steady s -> admissible s c -> takes s c elapsed -> 0 <= elapsed <= REQUEST_TIME.
Proof.
  intros Hs Ha [Ht _]. pose proof (ss_guard _ Hs). pose proof (ad_total _ _ Ha). unfold REQUEST_TIME. lia.
Qed.

Lemma system_answers s (c : Call) :
  steady s -> admissible s c -> sy_clock s + MAXIMUM_RETRY_DURATION <= u64_max ->
  exists r s',
    sv_request_with_prefix s (call_request c) (call_prefix c) (call_queue c) (call_policy c) = (r, s')
    /\ device_says (bn_device (ln_env (sy_runner s))) (call_request c) r
    /\ steady s' /\ alike s s' /\ sy_clock s <= sy_clock s' <= sy_clock s + REQUEST_TIME.
Proof.
  intros Hs Ha Hc. destruct (system_request_spec s c Hs Ha Hc) as (r & s' & E & Hr & Hs' & Ha' & Ht).
  exists r, s'. pose proof (takes_bounded s c _ Hs Ha Ht). split_and!; (done || lia).
Qed.

Lemma takes_later s s' c elapsed : alike s s' -> takes s' c elapsed -> takes s c elapsed.
Proof.
  intros Ha [Ht Hi]. unfold takes. rewrite <- (al_guard _ _ Ha), <- (sl_device _ _ (al_line _ _ Ha)). done.
Qed.

Lemma system_sleeps s duration :
  steady s -> 0 <= duration ->
  steady (sv_sleep s duration) /\ alike s (sv_sleep s duration)
  /\ sy_clock (sv_sleep s duration) = sy_clock s + duration.
Proof.
  intros [Hr Ch Cr Hidle Hsh Hcur Hus Hg Hf Hj] Hd. pose proof (rd_line _ Hr) as Hq.
  set (b := bench_wait (ln_env (sy_runner s)) (sy_clock s + duration)).
  assert (Hl : same_line (ln_env (sy_runner s)) b).
  { destruct (same_line_refl (ln_env (sy_runner s))). by split. }
  assert (E : with_env (sy_runner s) b = host_at (sy_runner s) [] b (ln_decoder (sy_runner s)))
    by by destruct (sy_runner s).
  split_and!.
  - split; try done. cbn [sv_sleep system_service system_sleep sy_runner]. fold b. rewrite E.
    apply ready_later; try done; [by apply quiet_wait|apply Hr|apply Hr].
  - by split.
  - cbn. unfold sy_clock. cbn. lia.
Qed.
(** ** A new link *)

Lemma idle_new definitions default :
  validate_layout definitions default = Ok tt -> Forall (fun c => 0 < qc_capacity c) definitions ->
  idle (QueueSet_new definitions : QueueSet Job S)
  /\ (0 < length (set_slots (QueueSet_new definitions : QueueSet Job S)))%nat.
Proof.
  intros V Hcap.
  assert (Hok : world_ok (start definitions : World (T:=Job) (S:=S))).
  { eapply start_ok; [exact V|]. eapply Forall_impl; [exact Hcap|]. intros c. cbn. lia. }
  pose proof (world_index _ Hok) as Hix. cbn [start w_set] in Hix. split.
  - split; [|  |done|done].
    + intros i d Hi. apply Hix in Hi. rewrite list_lookup_fmap in Hi.
      apply fmap_Some in Hi as (t & Ht & ->). by exists t.
    + intros i t Ht. cbn in Ht. rewrite list_lookup_fmap in Ht. apply fmap_Some in Ht as (c & Hc & ->).
      rewrite Forall_lookup in Hcap. specialize (Hcap i c Hc). split; cbn; try done.
      * apply sem_new_open.
      * rewrite sem_new_available; lia.
  - cbn. rewrite length_map. unfold validate_layout in V.
    destruct definitions; [done|cbn; lia].
Qed.

(** A link between its construction and its first request is steady. *)
Lemma system_new_steady b config options fuel :
  validate_layout (ro_queue_layout options) (ro_default_queue options) = Ok tt ->
  Forall (fun c => 0 < qc_capacity c) (ro_queue_layout options) ->
  LinkConfig_validate config = Ok tt -> config_typed config ->
  0 <= ro_late_response_guard options <= MAXIMUM_LATE_RESPONSE_GUARD ->
  quiet b -> calm (ep_faults (bn_host b)) -> calm (ep_faults (bn_remote b)) ->
  Z.max 1 (minimum_preambles (lc_decoder config))
    <= Z.max (ei_response_preambles (ed_identity (bn_device b))) 2 ->
  (Z.to_nat (buffer_capacity (lc_decoder config)) + 1 < fuel)%nat ->
  steady (system_new b config options fuel).
Proof.
  intros V Hcap Hval Hty Hg Hq Ch Cr Hp Hf. destruct (idle_new _ _ V Hcap) as [Hidle Hlen].
  apply LinkConfig_validate_Ok in Hval as (_ & Hbuf & Hmin & _ & Hdec & Hmax); [|done].
  destruct Hty as (_ & _ & T3 & T4). unfold MAXIMUM_LINK_DECODER_BUFFER, is_u8 in *.
  assert (Hpos : 1 <= buffer_capacity (lc_decoder config)).
  { unfold required_decoder_capacity, MAX_ENCODED_FRAME_SIZE, u8_max in *. lia. }
  assert (El : dec_limits (FrameDecoder_new (lc_decoder config)) = lc_decoder config).
  { destruct (lc_decoder config) as [cap pre pol]. cbn in *. unfold clamp. f_equal; lia. }
  unfold system_new. cbn [build_link]. split; cbn [sy_runner sy_client sy_cursor sy_fuel]; try done.
  - split; cbn [ln_env ln_read_buffer ln_decoder]; rewrite ?El; try done; try lia; try apply Ch; try apply Cr.
    + apply FrameDecoder_new_ok. lia.
    + by destruct Cr as (_ & _ & ->).
  - cbn [ln_decoder]. rewrite El. lia.
  - lia.
Qed.

(** ** Every request is answered for the device *)

(** Requests one after the other, each answer with the time until the link is ready again. *)
Fixpoint run_calls s (calls : list Call)
    : list (result ExchangeError DeviceReply * Z) * System S C :=
  match calls with
  | [] => ([], s)
  | c :: calls =>
      let '(r, s1) :=
        sv_request_with_prefix s (call_request c) (call_prefix c) (call_queue c) (call_policy c) in
      let '(rs, s2) := run_calls s1 calls in ((r, sy_clock s1 - sy_clock s) :: rs, s2)
  end.

(** C2. The link refines the device. For a client, its queues, the runner and an emulated
    device behind a line without latency, of any fragmentation and echoing or not, every
    request of a sequence, with its wake prefix, on any of the queues and under any retry policy
    the link accepts, is answered with exactly what the device has to say to its command when
    the device listens to its address, and otherwise with a missing response; it is never lost,
    refused or answered for another request. A request the device listens to takes no time; any
    other is answered and the link ready again no later than the total timeout of that request's
    own policy and the link's guard against late responses after it was made; and the link is
    as ready after it as before. *)
Theorem link_answers_for_the_device s (calls : list Call) :
  steady s -> Forall (admissible s) calls ->
  sy_clock s + zlen calls * REQUEST_TIME <= u64_max ->
  let '(rs, s') := run_calls s calls in
  Forall2 (fun c r => device_says (bn_device (ln_env (sy_runner s))) (call_request c) r.1
                      /\ takes s c r.2) calls rs
  /\ steady s' /\ alike s s'
  /\ sy_clock s <= sy_clock s' <= sy_clock s + zlen calls * REQUEST_TIME.
Proof.
  revert s. induction calls as [|c calls IH]; intros s Hs Ha Hc; cbn [run_calls].
  { change (zlen []) with 0. split_and!; [done|done|apply alike_refl|lia|lia]. }
  apply Forall_cons_iff in Ha as [Ha Has]. pose proof (zlen_nonneg calls). rewrite zlen_cons in *.
  assert (Ht : 0 <= REQUEST_TIME /\ MAXIMUM_RETRY_DURATION <= REQUEST_TIME) by by vm_compute.
  destruct (system_request_spec s c Hs Ha) as (r & s1 & -> & Hr & Hs1 & Ha1 & Hc1); [nia|].
  pose proof (takes_bounded s c _ Hs Ha Hc1).
  specialize (IH s1 Hs1). destruct (run_calls s1 calls) as [rs s2].
  destruct IH as (Hrs & Hs2 & Ha2 & Hc2); [|lia|].
  { eapply Forall_impl; [exact Has|]. intros c'. by apply admissible_later. }
  rewrite (sl_device _ _ (al_line _ _ Ha1)) in Hrs.
  split_and!; [|done|by eapply alike_trans|lia|lia]. constructor; [done|].
  eapply Forall2_impl; [exact Hrs|]. intros c' r' [? ?]. split; [done|]. by eapply takes_later.
Qed.
End Request.

(** A link with its defaults to a device behind an echoing line cut into three and five bytes. *)
Definition example_bench : Bench :=
  bench_new example_device (mkFaults false true false [] (Some 3) 0) (mkFaults false false false [] (Some 5) 0).

Definition example_options : LinkRuntimeOptions :=
  mkRuntimeOptions 512 64 [mkQueueConfig QueueId_DEFAULT 256 (Weighted 1)] QueueId_DEFAULT
    RetryPolicy_default DEFAULT_LATE_RESPONSE_GUARD CommandPolicy_allow_all
    CommandRouting_preserve_requested.

Definition example_system : System CountingSemaphore ListChannel :=
  system_new example_bench LinkConfig_default example_options (Z.to_nat 4098).

Lemma example_options_default : default_runtime_options LinkConfig_default = Some example_options.
Proof. reflexivity. Qed.

Lemma example_system_steady : steady example_system.
Proof.
  apply system_new_steady; try done; [by repeat constructor| |by apply Nat.ltb_lt].
  split; try done. by split; [done|exact example_device_typed|..].
Qed.

Definition example_call (node command : Z) : Call :=
  (Request_new (Polling node Primary) (CommandCode_new command) [], [0; 255], QueueId_DEFAULT,
   RetryPolicy_default).

Lemma example_call_admissible node command :
  0 <= node <= 63 -> is_u8 command -> command <> 31 -> admissible example_system (example_call node command).
Proof.
  intros Hn Hc H31. unfold is_u8 in Hc. split; try done.
  - by exists QueueId_DEFAULT.
  - split; try done.
    + split; cbn; try done. unfold is_u16. lia.
    + apply Request_validate_Ok; [done|]. unfold CommandCode_is_expanded. cbn. unfold u8_max.
      rewrite (proj2 (Z.ltb_ge _ _)) by lia. done.
Qed.

Lemma link_answers_for_the_device_witness :
  let rs := (run_calls example_system [example_call 0 48; example_call 7 0]).1 in
  device_says example_device (call_request (example_call 0 48)) (nth 0 rs (Err ExRunnerStopped, 0)).1
  /\ device_says example_device (call_request (example_call 7 0)) (nth 1 rs (Err ExRunnerStopped, 0)).1
  /\ takes example_system (example_call 7 0) (nth 1 rs (Err ExRunnerStopped, 0)).2.
Proof.
  pose proof (link_answers_for_the_device example_system [example_call 0 48; example_call 7 0]
                example_system_steady) as Ht.
  destruct (run_calls example_system _) as [rs s'].
  destruct Ht as (Hf & _); [|by vm_compute|].
  { apply Forall_cons_iff; split; [|apply Forall_cons_iff; split; [|done]];
      apply example_call_admissible; (done || lia). }
  inversion Hf as [|x r1 xs rs1 E1 Hf1]; subst. inversion Hf1 as [|y r2 ys rs2 E2 Hf2]; subst.
  split; [exact (proj1 E1)|exact E2].
Defined.
