(* ===== verification/RunBench.v ===== *)
(** * A run of the runner on the bench answers for the device

    Any number of requests waits in any of the queues, some of them equal. The runner takes them
    by priority, coalesces the equal ones, exchanges and answers: over a calm line every waiter is
    given what the device has to say to its own request. *)
From stdpp Require Import gmap.
From S2P Require Import Prelude Wire Decoder DecoderFacts DecoderSpec Catalog Codec Operation OperationProps.
From S2P Require Import QueueSet QueueRuns QueueSched Burst BurstProps Link LinkRunner LinkProps.
From S2P Require Import ExchangeProps RunMoves RunProps Trace Emulator EmulatorProps Bench BenchProps.
From S2P Require Import Service Client System SystemProps.

(** ** The counters of the queues *)

Section Tally.
Context {S : Type} `{Semaphore S}.
Implicit Types q : QueueSet Job S.

(** Every counter is the number of entries, with [n] more held of the queue at [i]. *)
Definition tally q (i : nat) (n : Z) : Prop :=
  forall j s, set_slots q !! j = Some s ->
    slot_queued s = zlen (slot_entries s) + (if decide (j = i) then n else 0)
    /\ slot_queued s <= usize_max.

Lemma tally_zero q i j : tally q i 0 -> tally q j 0.
Proof.
  intros Ht k s Hs. destruct (Ht k s Hs) as [-> Hb]. split; [by repeat case_decide|done].
Qed.

Lemma tally_checked q :
  Forall (fun s => slot_queued s = zlen (slot_entries s) /\ slot_queued s <= usize_max) (set_slots q) ->
  tally q 0 0.
Proof. rewrite Forall_lookup. intros Hf j s Hs. destruct (Hf j s Hs). case_decide; lia. Qed.

Lemma tally_counted q i : tally q i 0 -> counted (set_slots q).
Proof. intros Ht j s Hs. destruct (Ht j s Hs) as [-> _]. case_decide; lia. Qed.

Lemma tally_update q i f n n' :
  tally q i n ->
  (forall s, slot_queued s = zlen (slot_entries s) + n -> slot_queued s <= usize_max ->
     slot_queued (f s) = zlen (slot_entries (f s)) + n' /\ slot_queued (f s) <= usize_max) ->
  tally (update_slot q i f) i n'.
Proof.
  intros Ht Hf j s Hs. cbn in Hs. destruct (decide (j = i)) as [->|Hne].
  - rewrite list_lookup_alter_eq in Hs. apply fmap_Some in Hs as (t & Hl & ->).
    destruct (Ht i t Hl) as [E Hb]. rewrite decide_True in E by done. by apply Hf.
  - rewrite list_lookup_alter_ne in Hs by done. destruct (Ht j s Hs) as [E Hb].
    by rewrite decide_False in E.
Qed.

Lemma tally_pop_at q i n id x slots' :
  tally q i n -> pop_front_at (set_slots q) i = Some (id, x, slots') -> tally (with_slots q slots') i (n + 1).
Proof.
  intros Ht Hp. destruct (pop_front_at_inv _ _ _ _ _ Hp) as (s & rest & Hs & _ & He & ->).
  pose proof (lookup_lt_Some _ _ _ Hs) as Hlt. intros j t Htj. cbn in Htj.
  destruct (decide (j = i)) as [->|Hne].
  - rewrite list_lookup_insert_eq in Htj by done. simplify_eq. destruct (Ht i s Hs) as [E Hb].
    rewrite decide_True in E by done. cbn. rewrite E, He in *. unfold zlen in *. cbn [length] in *. lia.
  - rewrite list_lookup_insert_ne in Htj by done. destruct (Ht j t Htj) as [E Hb].
    by rewrite decide_False in E.
Qed.

Lemma tally_pop q queue i n x q' :
  QueueSet_slot_index q queue = Ok i -> tally q i n -> QueueSet_pop_from q queue = (Some x, q') ->
  tally q' i (n + 1).
Proof.
  intros Hi Ht. unfold QueueSet_pop_from. rewrite Hi.
  destruct (pop_front_at (set_slots q) i) as [[[id y] slots']|] eqn:Hp; [|done]. intros [= _ <-].
  by eapply tally_pop_at.
Qed.

Lemma tally_push q queue i n x :
  QueueSet_slot_index q queue = Ok i -> tally q i (n + 1) -> tally (QueueSet_push_front q queue x) i n.
Proof.
  intros Hi Ht. unfold QueueSet_push_front. rewrite Hi. eapply tally_update; [exact Ht|].
  intros s E Hb. cbn. rewrite E in *. unfold zlen in *. cbn [length]. lia.
Qed.

Lemma tally_finish q queue i n x :
  QueueSet_slot_index q queue = Ok i -> 0 <= n -> tally q i (n + 1) ->
  tally (QueueSet_finish_entry q queue x).2 i n.
Proof.
  intros Hi Hn Ht. unfold QueueSet_finish_entry. rewrite Hi. cbn [snd].
  eapply tally_update; [eapply (tally_update _ _ _ _ (n + 1)); [exact Ht|done]|].
  intros s E Hb. pose proof (zlen_nonneg (slot_entries s)). cbn. rewrite E in *.
  rewrite Z.mod_small by (unfold usize_max, u64_max in *; lia). lia.
Qed.

Lemma tally_scheduled q cursor queue x q' cursor' :
  tally q 0 0 -> well_indexed q -> QueueSet_pop_scheduled q cursor = (Some (queue, x), q', cursor') ->
  exists i, QueueSet_slot_index q' queue = Ok i /\ tally q' i 1.
Proof.
  intros Ht Hx.
  assert (Hdone : forall i id y slots', pop_front_at (set_slots q) i = Some (id, y, slots') ->
    exists k, QueueSet_slot_index (with_slots q slots') id = Ok k /\ tally (with_slots q slots') k 1).
  { intros i id y slots' Hp. exists i. split.
    - destruct (pop_front_at_inv _ _ _ _ _ Hp) as (s & rest & Hs & <- & _).
      unfold QueueSet_slot_index. cbn. by rewrite (Hx i s Hs).
    - apply (tally_pop_at q i 0 id y); [by eapply tally_zero|done]. }
  unfold QueueSet_pop_scheduled. pose proof (pop_strict_cursor (set_slots q) cursor) as Hs.
  destruct (pop_strict (set_slots q) cursor) as [[[[id y] slots']|] c1].
  - destruct Hs as (i & s & r & _ & _ & Hp & _). intros [= <- <- <- _]. by eapply Hdone.
  - destruct (pop_weighted (set_slots q) c1) as [[[[id y] slots']|] c2] eqn:Ew; [|done].
    apply pop_weighted_popped in Ew as [i Hp]. intros [= <- <- <- _]. by eapply Hdone.
Qed.
End Tally.

(** ** What serving may do *)

Section Line.
Context {S C : Type} `{SemaphoreLaws S} `{Mpsc C}.
Implicit Types l : LinkRunner Bench S C.

(** The device listens to the request of a job. *)
Definition addressed (d : EmulatedDevice) (job : Job) : Prop :=
  accepts_address d (req_address (job_request job)) = true.

(** An answer to one of the jobs: what the device says to its request, or, from its deadline on,
    that it is late. *)
Definition rightly (d : EmulatedDevice) (clock : Z) (jobs : list Job) (x : Effect) : Prop :=
  match x with
  | Answer ticket r =>
      exists job, job ∈ jobs /\ job_reply job = Some ticket
        /\ (device_says d (job_request job) r \/ (r = Err ExDeadline /\ job_deadline job <= clock))
  | _ => True
  end.

Lemma rightly_later d t t' jobs x : t <= t' -> rightly d t jobs x -> rightly d t' jobs x.
Proof.
  intros Ht. destruct x; try done. intros (job & Hj & Hr & Hs). exists job. split_and!; try done.
  destruct Hs as [?|[-> ?]]; [by left|right; split; [done|lia]].
Qed.

Record progressed (jobs : list Job) l l' : Prop := {
  pg_kept : kept l l';
  pg_ready : ready l';
  pg_clock : bn_clock (ln_env l) <= bn_clock (ln_env l');
  pg_still : Forall (addressed (bn_device (ln_env l))) jobs -> bn_clock (ln_env l') = bn_clock (ln_env l);
  pg_effects : exists xs, ln_effects l' = xs ++ ln_effects l
    /\ Forall (rightly (bn_device (ln_env l)) (bn_clock (ln_env l')) jobs) xs;
}.

Lemma progressed_trans jobs l1 l2 l3 :
  progressed jobs l1 l2 -> progressed jobs l2 l3 -> progressed jobs l1 l3.
Proof.
  intros [K1 R1 C1 S1 (xs & E1 & F1)] [K2 R2 C2 S2 (ys & E2 & F2)].
  rewrite (sl_device _ _ (kp_line _ _ K1)) in S2, F2.
  split; [by eapply kept_trans|done|lia| |].
  - intros Ha. rewrite (S2 Ha). by apply S1.
  - exists (ys ++ xs). rewrite E2, E1, app_assoc. split; [done|]. apply Forall_app. split; [done|].
    eapply Forall_impl; [exact F1|]. intros x. by apply rightly_later.
Qed.

(** The same line and host, with more effects. *)
Record beside l l' : Prop := {
  bs_env : ln_env l' = ln_env l;
  bs_decoder : ln_decoder l' = ln_decoder l;
  bs_buffer : ln_read_buffer l' = ln_read_buffer l;
  bs_usable : ln_channel_usable l' = ln_channel_usable l;
  bs_coalesced : ln_maximum_coalesced l' = ln_maximum_coalesced l;
  bs_guard : ln_late_response_guard l' = ln_late_response_guard l;
}.

Lemma progressed_beside jobs l l' xs :
  ready l -> beside l l' -> ln_effects l' = xs ++ ln_effects l ->
  Forall (rightly (bn_device (ln_env l)) (bn_clock (ln_env l)) jobs) xs -> progressed jobs l l'.
Proof.
  intros Hr [E1 E2 E3 E4 E5 E6] Ex Hx. split; rewrite ?E1; try done.
  - split; rewrite ?E1, ?E2; try done. apply same_line_refl.
  - by eapply (ready_ext l).
  - by exists xs.
Qed.

Lemma progressed_refl jobs l : ready l -> progressed jobs l l.
Proof. intros Hr. by apply (progressed_beside _ _ _ []). Qed.

(** ** Followers *)

(** What is known of a follower. *)
Definition follows (leader : Job) (jobs : list Job) (job : Job) : Prop :=
  job ∈ jobs /\ job_request job = job_request leader.

Lemma coalesced_request leader job :
  requests_can_coalesce leader job = true -> job_request job = job_request leader.
Proof. unfold requests_can_coalesce. rewrite !andb_true_iff, !bool_decide_eq_true. tauto. Qed.

Lemma take_progress fuel queue leader jobs i : forall l fs,
  ready l -> QueueSet_slot_index (ln_queues l) queue = Ok i -> tally (ln_queues l) i (zlen fs) ->
  (forall job, job ∈ waiting_jobs (ln_queues l) -> job ∈ jobs) -> Forall (follows leader jobs) fs ->
  let '(fs', l') := take_followers fuel l queue leader fs in
  progressed jobs l l' /\ QueueSet_slot_index (ln_queues l') queue = Ok i
  /\ tally (ln_queues l') i (zlen fs') /\ Forall (follows leader jobs) fs'.
Proof.
  induction fuel as [|fuel IH]; intros l fs Hr Hi Ht Hw Hfs; cbn [take_followers];
    [by split_and!; [apply progressed_refl|..]|].
  destruct (zlen fs <? _); [|by split_and!; [apply progressed_refl|..]].
  destruct (QueueSet_pop_from (ln_queues l) queue) as [[x|] q] eqn:Ep;
    [|by split_and!; [apply progressed_refl|..]].
  pose proof (tally_pop _ _ _ _ _ _ Hi Ht Ep) as Htq.
  destruct (pop_from_conserves _ _ _ _ Ep) as (Hperm & Hf & _).
  assert (Hiq : QueueSet_slot_index q queue = Ok i) by (unfold QueueSet_slot_index in *; by rewrite (fr_index _ _ Hf)).
  assert (Hx : x ∈ jobs /\ forall job, job ∈ waiting_jobs q -> job ∈ jobs).
  { split; [apply Hw|intros job Hj; apply Hw]; rewrite Hperm; [left|by right]. }
  destruct Hx as [Hx Hw']. destruct (requests_can_coalesce leader x) eqn:Ec.
  - destruct (abandoned l x).
    + rewrite finish_pair. set (l1 := mark_cancelled _ _).
      assert (Hp : progressed jobs l l1) by (by apply (progressed_beside _ _ _ [Broadcast (LinkCancelled (job_id x))]); [..|repeat constructor]).
      specialize (IH l1 fs (pg_ready _ _ _ Hp)).
      destruct (take_followers fuel l1 queue leader fs) as [fs' l'].
      destruct IH as (Hp' & H1' & H2' & H3'); try done.
      * unfold l1. cbn. by rewrite index_finish.
      * unfold l1. cbn. apply tally_finish; [done|apply zlen_nonneg|done].
      * intros job. unfold l1. cbn. destruct (finish_conserves q queue x) as (-> & _). apply Hw'.
      * split_and!; [by eapply progressed_trans|done..].
    + set (l1 := broadcast _ _).
      assert (Hp : progressed jobs l l1) by (by apply (progressed_beside _ _ _ [Broadcast (LinkCoalesced (job_id x) (job_id leader))]); [..|repeat constructor]).
      specialize (IH l1 (fs ++ [x]) (pg_ready _ _ _ Hp)).
      destruct (take_followers fuel l1 queue leader (fs ++ [x])) as [fs' l'].
      destruct IH as (Hp' & H1' & H2' & H3'); try done.
      * rewrite zlen_app. exact Htq.
      * apply Forall_app. split; [done|]. apply Forall_singleton. split; [done|by apply coalesced_request].
      * split_and!; [by eapply progressed_trans|done..].
  - split_and!; try done.
    + by apply (progressed_beside _ _ _ []).
    + cbn. unfold QueueSet_push_front. by rewrite Hiq.
    + cbn. by apply tally_push.
Qed.

Lemma coalesce_progress l queue leader jobs i :
  ready l -> QueueSet_slot_index (ln_queues l) queue = Ok i -> tally (ln_queues l) i 0 ->
  (forall job, job ∈ waiting_jobs (ln_queues l) -> job ∈ jobs) ->
  let '(fs, l') := take_coalescible_followers l queue leader in
  progressed jobs l l' /\ QueueSet_slot_index (ln_queues l') queue = Ok i
  /\ tally (ln_queues l') i (zlen fs) /\ Forall (follows leader jobs) fs.
Proof.
  intros Hr Hi Ht Hw. unfold take_coalescible_followers.
  destruct (_ || _); [by split_and!; [apply progressed_refl|..]|]. by apply take_progress.
Qed.

Lemma complete_progress queue leader value jobs i : forall fs l,
  ready l -> QueueSet_slot_index (ln_queues l) queue = Ok i -> tally (ln_queues l) i (zlen fs) ->
  Forall (follows leader jobs) fs ->
  device_says (bn_device (ln_env l)) (job_request leader) (Ok value) ->
  progressed jobs l (complete_followers l queue fs value)
  /\ tally (ln_queues (complete_followers l queue fs value)) i 0.
Proof.
  induction fs as [|x fs IH]; intros l Hr Hi Ht Hfs Hv; cbn [complete_followers];
    [by split; [apply progressed_refl|]|].
  apply Forall_cons in Hfs as [[Hx Ereq] Hfs]. rewrite finish_pair.
  set (q := (QueueSet_finish_entry (ln_queues l) queue x).2).
  assert (Hiq : QueueSet_slot_index q queue = Ok i) by (unfold q; by rewrite index_finish).
  assert (Htq : tally q i (zlen fs)).
  { apply tally_finish; [done|apply zlen_nonneg|]. replace (zlen fs + 1) with (zlen (x :: fs)); [done|].
    unfold zlen. cbn [length]. lia. }
  set (l1 := match job_reply x with Some _ => _ | None => _ end).
  assert (Hl1 : beside l l1 /\ ln_queues l1 = q /\ exists xs, ln_effects l1 = xs ++ ln_effects l
    /\ Forall (rightly (bn_device (ln_env l)) (bn_clock (ln_env l)) jobs) xs).
  { unfold l1. destruct (job_reply x) as [ticket|] eqn:Er;
      [|split_and!; [done|done|]; exists [Broadcast (LinkCancelled (job_id x))]; by repeat constructor].
    unfold now. cbn [rt_reply_closed rt_now bench_runtime with_queues ln_env].
    destruct (Z.leb_spec (job_deadline x) (bn_clock (ln_env l))) as [Hd|Hd];
      (split_and!; [done|done|]).
    - exists [Answer ticket (Err ExDeadline); Broadcast (LinkFailed (job_id x) (error_reason ExDeadline))].
      split; [done|]. constructor; [|by repeat constructor]. exists x. split_and!; [done|done|by right].
    - exists [Answer ticket (Ok value); Broadcast (LinkCompleted (job_id x))].
      split; [done|]. constructor; [|by repeat constructor]. exists x. rewrite Ereq. split_and!; [done|done|by left]. }
  destruct Hl1 as (Hb & Eq & xs & Ex & Hxs).
  assert (Hp : progressed jobs l l1) by by eapply progressed_beside.
  destruct (IH l1) as [Hp' Ht']; try done.
  - apply Hp.
  - by rewrite Eq.
  - by rewrite Eq.
  - by rewrite (bs_env _ _ Hb).
  - split; [by eapply progressed_trans|done].
Qed.

Lemma requeue_tally queue i : forall fs (q : QueueSet Job S),
  QueueSet_slot_index q queue = Ok i -> tally q i (zlen fs) ->
  tally (foldl (fun q follower => QueueSet_push_front q queue follower) q (rev fs)) i 0.
Proof.
  intros fs q Hi Ht. rewrite <- (rev_involutive fs) in Ht. unfold zlen in Ht. rewrite length_rev in Ht.
  revert q Hi Ht. induction (rev fs) as [|x xs IH]; intros q Hi Ht; cbn [foldl]; [done|]. apply IH.
  - unfold QueueSet_push_front. by rewrite Hi.
  - apply tally_push; [done|]. replace (Z.of_nat (length xs) + 1) with (Z.of_nat (length (x :: xs))); [done|].
    cbn [length]. lia.
Qed.

(** ** Serving one job *)

(** A runner at work on a calm line. *)
Record working l (fuel : nat) : Prop := {
  wk_ready : ready l;
  wk_host : calm (ep_faults (bn_host (ln_env l)));
  wk_remote : calm (ep_faults (bn_remote (ln_env l)));
  wk_usable : ln_channel_usable l = true;
  wk_guard : 0 <= ln_late_response_guard l;
  wk_fuel : (Z.to_nat (buffer_capacity (dec_limits (ln_decoder l))) < fuel)%nat;
}.

Lemma working_later jobs l l' fuel : working l fuel -> progressed jobs l l' -> working l' fuel.
Proof.
  intros [Hr Ch Cr Hu Hg Hf] [[Hl Hlim Hb Hus Hco Hgu] Hr' _ _ _].
  split; try done; [exact (calm_same _ _ Ch (sl_host _ _ Hl))|exact (calm_same _ _ Cr (sl_remote _ _ Hl))|..];
    by rewrite ?Hus, ?Hgu, ?Hlim.
Qed.

(** A request both decoders follow, with a policy within its ranges and the attempts for it. *)
Record carriable l (attempts : nat) (job : Job) : Prop := {
  ca_job : bench_job (ln_env l) (dec_limits (ln_decoder l)) job;
  ca_retries : is_u8 (rp_transport_retries (job_policy job));
  ca_timeout : 0 <= rp_response_timeout (job_policy job);
  ca_deadline : job_deadline job <= u64_max;
  ca_attempts : rp_transport_retries (job_policy job) < Z.of_nat attempts;
}.

Lemma carriable_later l l' attempts job : kept l l' -> carriable l attempts job -> carriable l' attempts job.
Proof.
  intros [Hl Hlim _ _ _ _] []. split; try done. rewrite Hlim. by eapply bench_job_later.
Qed.

Lemma exchange_progress attempts fuel l job jobs :
  working l fuel -> carriable l attempts job -> job ∈ jobs -> bn_clock (ln_env l) < job_deadline job ->
  exists r l', exchange attempts fuel l job = (Some r, l') /\ progressed jobs l l'
    /\ ln_queues l' = ln_queues l /\ device_says (bn_device (ln_env l)) (job_request job) r
    /\ (addressed (bn_device (ln_env l)) job -> is_ok r = true).
Proof.
  intros [Hr Ch Cr Hu Hg Hf] [Hj Hre Hti Hd Hat] Hin Hc.
  destruct (calm_outcome attempts fuel l job Hr Ch Cr Hj Hre Hti Hc Hd Hf Hat)
    as (b & d & added & r & E & [Hl Hq Hok Hb Hlim] & Hs & Hcl & Hacc).
  exists r, (host_at l added b d). split_and!; try done.
  - pose proof (aside_exchange attempts fuel l job) as (_ & xs & Ex & Hxs). rewrite E in Ex.
    cbn [snd host_at ln_effects] in Ex. apply app_inv_tail in Ex. subst xs.
    split; cbn [host_at ln_env ln_effects]; try done; [by apply ready_later|lia| |].
    + intros Ha. rewrite Forall_forall in Ha. apply Hacc, Ha, Hin.
    + exists added. split; [done|]. eapply Forall_impl; [exact Hxs|]. by intros [].
  - intros Ha. by apply Hacc.
Qed.

(** The answer to the leader, and what follows a failure. *)
Lemma refuse_progress fuel l queue fs entry ticket error jobs i :
  working l fuel -> entry ∈ jobs -> job_reply entry = Some ticket ->
  QueueSet_slot_index (ln_queues l) queue = Ok i -> tally (ln_queues l) i (zlen fs) ->
  device_says (bn_device (ln_env l)) (job_request entry) (Err error) ->
  ~ addressed (bn_device (ln_env l)) entry ->
  exists l',
    (let l := requeue_followers l queue fs in
     let l := effect (mark_failed l (job_id entry) error) (Answer ticket (Err error)) in
     match error with
     | ExResponseTimeout => if ln_channel_usable l then drain_late_responses fuel l else Some l
     | _ => Some l
     end) = Some l' /\ progressed jobs l l' /\ tally (ln_queues l') i 0.
Proof.
  intros Hw Hin Hrep Hi Ht Hs Hna. cbn zeta. set (l1 := effect _ _).
  assert (Hp1 : progressed jobs l l1).
  { eapply (progressed_beside _ _ _ [_; _]); [apply Hw|done|done|].
    constructor; [|by repeat constructor]. exists entry. split_and!; [done|done|by left]. }
  assert (Ht1 : tally (ln_queues l1) i 0) by by apply requeue_tally.
  pose proof (working_later _ _ _ _ Hw Hp1) as [Hr1 _ _ _ Hg1 Hf1].
  destruct fuel as [|fuel]; [lia|].
  destruct (drain_quiet fuel l1) as (b & Ed & Hl & Hq & Hc); [apply Hr1|apply Hr1|done|].
  assert (Hp2 : progressed jobs l (with_env l1 b)).
  { eapply progressed_trans; [exact Hp1|].
    replace (with_env l1 b) with (host_at l1 [] b (ln_decoder l1)) by by destruct l1.
    split; cbn [host_at ln_env ln_effects]; [by split|by apply ready_later; try apply Hr1|lia| |by exists []].
    intros Ha. exfalso. apply Hna. rewrite Forall_forall in Ha. by apply Ha. }
  destruct error; try (by exists l1). destruct (ln_channel_usable l1); [|by exists l1].
  exists (with_env l1 b). by rewrite Ed.
Qed.

Lemma coalesce_env l queue entry : ln_env (take_coalescible_followers l queue entry).2 = ln_env l.
Proof.
  pose proof (take_followers_env (Datatypes.S (length (entries_of (ln_queues l) queue))) queue entry l []) as E.
  unfold take_coalescible_followers. destruct (_ || _); [done|]. by destruct (take_followers _ _ _ _ _).
Qed.

Lemma serve_queued attempts fuel l queue entry jobs i :
  working l fuel -> carriable l attempts entry -> entry ∈ jobs ->
  (forall job, job ∈ waiting_jobs (ln_queues l) -> job ∈ jobs) ->
  QueueSet_slot_index (ln_queues l) queue = Ok i -> tally (ln_queues l) i 1 ->
  exists l', serve_job attempts fuel l queue entry = Some l' /\ progressed jobs l l'
    /\ tally (ln_queues l') i 0.
Proof.
  intros Hw Hca Hin Hjobs Hi Ht. unfold serve_job. rewrite finish_pair.
  set (q := (QueueSet_finish_entry (ln_queues l) queue entry).2). set (l1 := with_queues l q).
  assert (Hp1 : progressed jobs l l1) by (by apply (progressed_beside _ _ _ []); [apply Hw|..]).
  assert (Ht1 : tally q i 0) by (by apply tally_finish).
  assert (Hi1 : QueueSet_slot_index q queue = Ok i) by (unfold q; by rewrite index_finish).
  destruct (job_reply entry) as [ticket|] eqn:Er.
  2: { eexists. split; [done|]. split; [|done].
       by apply (progressed_beside _ _ _ [Broadcast (LinkCancelled (job_id entry))]); [apply Hw|..|repeat constructor]. }
  cbn [rt_reply_closed bench_runtime]. unfold now. cbn [rt_now bench_runtime].
  change (with_env l1 (ln_env l1)) with l1.
  destruct (Z.leb_spec (job_deadline entry) (bn_clock (ln_env l1))) as [Hd|Hd].
  { eexists. split; [done|]. split; [|done]. eapply (progressed_beside _ _ _ [_; _]); [apply Hw|done|done|].
    constructor; [|by repeat constructor]. exists entry. split_and!; [done|done|by right]. }
  pose proof (coalesce_progress l1 queue entry jobs i (pg_ready _ _ _ Hp1) Hi1 Ht1) as Hco.
  destruct (take_coalescible_followers l1 queue entry) as [fs l3] eqn:Eco.
  destruct Hco as (Hp3 & Hi3 & Ht3 & Hfs).
  { intros job. cbn. unfold q. destruct (finish_conserves (ln_queues l) queue entry) as (-> & _). apply Hjobs. }
  assert (E3 : ln_env l3 = ln_env l1) by by rewrite <- (coalesce_env l1 queue entry), Eco.
  cbn zeta. set (l4 := broadcast _ _).
  assert (Hp4 : progressed jobs l3 l4).
  { apply (progressed_beside _ _ _ [Broadcast (LinkStarted (job_id entry) (req_command (job_request entry)))]);
      [apply Hp3|done|done|by repeat constructor]. }
  pose proof (progressed_trans _ _ _ _ Hp1 (progressed_trans _ _ _ _ Hp3 Hp4)) as Hp. clear Hp1 Hp3 Hp4.
  pose proof (working_later _ _ _ _ Hw Hp) as Hw4.
  destruct (exchange_progress attempts fuel l4 entry jobs Hw4) as (r & l5 & -> & Hp5 & Eq5 & Hs & Hok);
    [by eapply carriable_later; [apply Hp|]|done|by change (ln_env l4) with (ln_env l3); rewrite E3|].
  pose proof (progressed_trans _ _ _ _ Hp Hp5) as Hp'. clear Hp.
  assert (Ed : bn_device (ln_env l5) = bn_device (ln_env l4)) by (by apply (sl_device _ _ (kp_line _ _ (pg_kept _ _ _ Hp5)))).
  rewrite <- Ed in Hs, Hok. change (ln_queues l3) with (ln_queues l4) in Hi3, Ht3. rewrite <- Eq5 in Hi3, Ht3.
  destruct r as [value|error].
  - set (l6 := effect _ _).
    assert (Hp6 : progressed jobs l5 l6).
    { eapply (progressed_beside _ _ _ [_; _]); [apply Hp5|done|done|].
      constructor; [|by repeat constructor]. exists entry. split_and!; [done|done|by left]. }
    destruct (complete_progress queue entry value jobs i fs l6) as [Hp7 Ht7]; try done; [apply Hp6|].
    eexists. split; [done|]. split; [|done]. eapply progressed_trans; [exact Hp'|]. by eapply progressed_trans.
  - destruct (refuse_progress fuel l5 queue fs entry ticket error jobs i) as (l' & El & Hp6 & Ht6); try done.
    { by eapply working_later. }
    { intros Ha. by specialize (Hok Ha). }
    exists l'. split; [exact El|]. split; [by eapply progressed_trans|done].
Qed.

(** ** The whole run *)

Lemma pending_none l :
  (forall i s, set_slots (ln_queues l) !! i = Some s -> slot_entries s = []) ->
  fail_pending_jobs l = with_queues l (QueueSet_close_runner (ln_queues l)).
Proof.
  intros Hs. unfold fail_pending_jobs. set (l1 := with_queues l _).
  assert (Hs1 : forall id, entries_of (ln_queues l1) id = []).
  { intros id. unfold entries_of, QueueSet_slot.
    destruct (QueueSet_slot_index (ln_queues l1) id) as [i|]; [|done]. cbn [result_bind].
    destruct (set_slots (ln_queues l1) !! i) as [s|] eqn:Es; [|done]. cbn.
    unfold l1, QueueSet_close_runner in Es. cbn in Es.
    destruct (set_runner_closed (ln_queues l)); [by eapply Hs|]. cbn in Es.
    rewrite list_lookup_fmap in Es. apply fmap_Some in Es as (t & Et & ->). exact (Hs i t Et). }
  induction (QueueSet_snapshots (ln_queues l1)) as [|snapshot snapshots IH]; [done|].
  cbn [foldl]. rewrite Hs1. exact IH.
Qed.

Lemma framed_length (q q' : QueueSet Job S) : framed q q' -> length (set_slots q') = length (set_slots q).
Proof. intros [_ Hids _]. apply (f_equal length) in Hids. by rewrite !length_fmap in Hids. Qed.

Lemma run_line attempts fuel jobs n : forall l cursor,
  working l fuel -> well_indexed (ln_queues l) -> set_input_closed (ln_queues l) = true ->
  cursor_ok (length (set_slots (ln_queues l))) cursor -> tally (ln_queues l) 0 0 ->
  Forall (carriable l attempts) (waiting_jobs (ln_queues l)) ->
  (forall job, job ∈ waiting_jobs (ln_queues l) -> job ∈ jobs) ->
  (length (waiting_jobs (ln_queues l)) < n)%nat ->
  exists l', run n attempts fuel l cursor = Some l' /\ progressed jobs l l'.
Proof.
  induction n as [|n IH]; intros l cursor Hw Hx Hin Hcur Ht Hca Hj Hn; [lia|]. cbn [run].
  destruct fuel as [|fuel]; [destruct Hw; lia|]. cbn [next_job].
  pose proof (pop_scheduled_spec (ln_queues l) cursor (tally_counted _ _ Ht) Hcur) as Hpop.
  destruct (QueueSet_pop_scheduled (ln_queues l) cursor) as [[[[queue entry]|] q] c1] eqn:Ep.
  2: { destruct Hpop as (_ & _ & Hempty). rewrite Hin, (pending_none l Hempty). eexists. split; [done|].
       by apply (progressed_beside _ _ _ []); [apply Hw|..]. }
  destruct Hpop as [Hc1 _]. destruct (tally_scheduled _ _ _ _ _ _ Ht Hx Ep) as (i & Hi & Hti).
  apply pop_scheduled_conserves in Ep as (Hperm & Fq & Hpr). specialize (Hpr Hx).
  rewrite Hperm in Hca, Hn. apply Forall_cons in Hca as [He Hca]. cbn [length] in Hn.
  assert (Hj1 : entry ∈ jobs /\ forall job, job ∈ waiting_jobs q -> job ∈ jobs).
  { split; [|intros job Hq]; apply Hj; rewrite Hperm; [left|by right]. }
  destruct Hj1 as [Hje Hjq]. set (l1 := with_queues l q).
  assert (Hp1 : progressed jobs l l1) by (by apply (progressed_beside _ _ _ []); [apply Hw|..]).
  pose proof (working_later _ _ _ _ Hw Hp1) as Hw1.
  destruct (serve_queued attempts (Datatypes.S fuel) l1 queue entry jobs i Hw1) as (l2 & Es & Hp2 & Ht2);
    [by eapply carriable_later; [apply Hp1|]|done..|].
  rewrite Es. pose proof (working_later _ _ _ _ Hw1 Hp2) as Hw2. rewrite (wk_usable _ _ Hw2).
  destruct (serve_waiting attempts _ l1 queue entry l2 Hpr Es) as (Hs & Fs).
  pose proof (framed_trans _ _ _ Fq Fs) as F2. pose proof (submseteq_length _ _ Hs) as Hlen.
  destruct (IH l2 c1) as (l' & Er & Hp'); try done.
  - by eapply framed_well_indexed.
  - by rewrite (fr_input _ _ F2).
  - by rewrite (framed_length _ _ F2).
  - by eapply tally_zero.
  - rewrite Forall_forall in Hca |- *. intros job Hq.
    eapply carriable_later; [|apply Hca; by eapply elem_of_submseteq].
    eapply kept_trans; [apply Hp1|apply Hp2].
  - intros job Hq. apply Hjq. by eapply elem_of_submseteq.
  - cbn in Hlen. lia.
  - exists l'. split; [done|]. eapply progressed_trans; [exact Hp1|]. by eapply progressed_trans.
Qed.

(** C5. The queues answer for the device. Whatever requests wait in whatever queues when the last
    client goes, with any priorities and equal ones among them, a runner over a calm line without
    latency, of any fragmentation and echoing or not, stops with empty queues; every waiter has
    been given exactly one answer, and that answer is what the device has to say to the waiter's
    own request, a missing response when the device does not listen to its address, or the
    deadline when it had passed. When the device listens to all of them no time passes, so that
    every request that was not late is answered by the device. *)
Theorem queued_requests_are_answered (n attempts fuel : nat) l cursor :
  let jobs := waiting_jobs (ln_queues l) in
  let d := bn_device (ln_env l) in
  working l fuel -> well_indexed (ln_queues l) -> set_input_closed (ln_queues l) = true ->
  cursor_ok (length (set_slots (ln_queues l))) cursor -> tally (ln_queues l) 0 0 ->
  Forall (carriable l attempts) jobs -> (length jobs < n)%nat ->
  exists l' added, run n attempts fuel l cursor = Some l'
    /\ waiting_jobs (ln_queues l') = [] /\ ln_effects l' = added ++ ln_effects l
    /\ (added ≫= answered_tickets) ≡ₚ omap job_reply jobs
    /\ (forall ticket r, Answer ticket r ∈ added ->
         exists job, job ∈ jobs /\ job_reply job = Some ticket
           /\ (device_says d (job_request job) r
               \/ (r = Err ExDeadline /\ job_deadline job <= bn_clock (ln_env l'))))
    /\ (Forall (addressed d) jobs -> bn_clock (ln_env l') = bn_clock (ln_env l)).
Proof.
  intros jobs d Hw Hx Hin Hcur Ht Hca Hn.
  destruct (run_line attempts fuel jobs n l cursor Hw Hx Hin Hcur Ht Hca) as (l' & Er & Hp); [done|done|].
  pose proof Hp as [_ _ _ Hstill (added & Ex & Hxs)]. exists l', added. split_and!; try done.
  - by eapply run_emptied.
  - pose proof (answered_once (E := Bench) (fun _ _ => eq_refl)) as Hset.
    destruct (moves_run Permutation answered_tickets (fun job => option_list (job_reply job))
                n attempts fuel l cursor l' Hx Er) as [Hm _].
    unfold carried in Hm. rewrite (run_emptied n attempts fuel l cursor l' Hx Er), Ex in Hm. cbn in Hm.
    rewrite !app_nil_r, bind_option, bind_app in Hm.
    rewrite (Permutation_app_comm (added ≫= _)) in Hm. by apply Permutation_app_inv_l in Hm.
  - intros ticket r Ha. rewrite Forall_forall in Hxs. exact (Hxs _ Ha).
Qed.
End Line.

(** ** Witness

    Two equal requests, one for an address nobody listens to, and one in a strict queue. *)
Definition bench_waiting (id node command : Z) : Job :=
  mkJob id (call_request (example_call node command)) [] RetryPolicy_default (8 * NANOS_PER_SECOND) (Some id).

Definition bench_jobs : list Job :=
  [bench_waiting 1 0 48; bench_waiting 2 0 48; bench_waiting 3 7 0; bench_waiting 4 0 1].

Definition bench_queues : QueueSet Job CountingSemaphore :=
  let q := QueueSet_new [mkQueueConfig QueueId_DEFAULT 4 (Weighted 1); mkQueueConfig run_urgent 4 (StrictRank 1)] in
  let q := (QueueSet_try_push q QueueId_DEFAULT (bench_waiting 1 0 48)).2 in
  let q := (QueueSet_try_push q QueueId_DEFAULT (bench_waiting 2 0 48)).2 in
  let q := (QueueSet_try_push q QueueId_DEFAULT (bench_waiting 3 7 0)).2 in
  QueueSet_close_input (QueueSet_try_push q run_urgent (bench_waiting 4 0 1)).2.

Definition bench_start : LinkRunner Bench CountingSemaphore ListChannel :=
  with_queues (sy_runner example_system) bench_queues.

Lemma bench_start_working : working bench_start (Z.to_nat 4098).
Proof.
  destruct example_system_steady as [Hr Ch Cr _ _ _ Hu Hg Hf _]. split; try done.
  by eapply (ready_ext (sy_runner example_system)).
Qed.

Lemma bench_waiting_carriable id node command :
  0 <= node <= 63 -> is_u8 command -> command <> 31 -> carriable bench_start 12 (bench_waiting id node command).
Proof.
  intros Hn Hc H31. pose proof (example_call_admissible node command Hn Hc H31) as Ha. split; try done.
  destruct (ad_job _ _ Ha) as [B1 B2 B3 B4 B5 B6 B7 B8 B9 B10]. split; try done.
Qed.

Lemma bench_queues_indexed : well_indexed bench_queues.
Proof.
  intros [|[|i]] s; vm_compute; intros Hs; [| |discriminate]; injection Hs as <-; reflexivity.
Defined.

Lemma bench_queues_tally : tally bench_queues 0 0.
Proof. apply tally_checked. apply (bool_decide_unpack _). vm_compute. exact I. Qed.

Lemma queued_requests_are_answered_witness :
  exists l' added, run 5 12 (Z.to_nat 4098) bench_start QueueCursor_new = Some l'
    /\ (added ≫= answered_tickets) ≡ₚ [1; 2; 3; 4]
    /\ forall r, Answer 2 r ∈ added -> exists job, job ∈ bench_jobs /\ job_reply job = Some 2
         /\ (device_says example_device (job_request job) r
             \/ (r = Err ExDeadline /\ job_deadline job <= bn_clock (ln_env l'))).
Proof.
  destruct (queued_requests_are_answered 5 12 (Z.to_nat 4098) bench_start QueueCursor_new)
    as (l' & added & Hr & _ & _ & Ht & Ha & _).
  - exact bench_start_working.
  - exact bench_queues_indexed.
  - reflexivity.
  - vm_compute. split; [lia|split; discriminate].
  - exact bench_queues_tally.
  - change (waiting_jobs (ln_queues bench_start)) with bench_jobs. unfold bench_jobs.
    repeat (apply Forall_cons; split; [apply bench_waiting_carriable; unfold is_u8; lia|]). constructor.
  - vm_compute. lia.
  - exists l', added. split; [exact Hr|]. split; [exact Ht|]. intros r. exact (Ha 2 r).
Defined.

(** The strict queue first, the two equal requests by one exchange, the unknown address last. *)
Example bench_run_outcomes :
  option_map (fun l => omap (fun x => match x with Answer t r => Some (t, is_ok r) | _ => None end)
                         (rev (ln_effects l)))
    (run 5 12 (Z.to_nat 4098) bench_start QueueCursor_new)
  = Some [(4, true); (1, true); (2, true); (3, false)].
Proof. vm_compute. reflexivity. Qed.
