(* ===== verification/SystemDiscovery.v ===== *)
(** * Discovery over a working link finds the device that is there

    The services meet the system: a link with an emulated device at its end keeps the contract
    the services are proved against, so that a scan of the line comes back with the device,
    decoded to its own fields, exactly when its address is one the scan asks. *)
From stdpp Require Import gmap.
From S2P Require Import Prelude Wire Decoder DecoderFacts DecoderSpec Catalog Codec Operation OperationProps Identity.
From S2P Require Import QueueSet QueueRuns QueueSched Burst BurstProps Link LinkRunner LinkProps.
From S2P Require Import ExchangeProps Trace Emulator EmulatorProps Bench BenchProps.
From S2P Require Import Service Client System SystemProps Profile ProfileProps Discovery DiscoveryProps.
From S2P Require Import DiscoveryLink.

(** ** The system keeps the contract *)

Section Contract.
Context {S C : Type} `{SemaphoreLaws S} `{Mpsc C}.
Implicit Types s : System S C.

Definition system_inv s (n : Z) (s' : System S C) : Prop :=
  steady s' /\ alike s s' /\ sy_clock s <= sy_clock s' <= sy_clock s + n * REQUEST_TIME.

Definition system_says s (c : Call) (r : result ExchangeError DeviceReply) : Prop :=
  device_says (bn_device (ln_env (sy_runner s))) (call_request c) r.

Lemma system_contract s steps :
  sy_clock s + steps * REQUEST_TIME <= u64_max ->
  LinkContract (System S C) steps MAXIMUM_PROFILE_DURATION (system_inv s) (admissible s) (system_says s).
Proof.
  intros Hb. assert (Ht : MAXIMUM_RETRY_DURATION <= REQUEST_TIME /\ MAXIMUM_PROFILE_DURATION <= REQUEST_TIME)
    by by vm_compute. destruct Ht as [Ht1 Ht2].
  assert (Hstep : forall n, n < steps -> n * REQUEST_TIME + REQUEST_TIME <= steps * REQUEST_TIME).
  { intros n Hn. assert (0 <= REQUEST_TIME) by by vm_compute. nia. }
  split.
  - intros n s1 c Hn (Hs & Ha & Hc) Hadm. specialize (Hstep n Hn).
    destruct (system_answers s1 c Hs (admissible_later _ _ _ Ha Hadm)) as (r & s2 & E & Hr & Hs2 & Ha2 & Hc2);
      [lia|].
    exists r, s2. split; [done|]. split.
    + unfold system_says. by rewrite <- (sl_device _ _ (al_line _ _ Ha)).
    + split; [done|]. split; [by eapply alike_trans|lia].
  - intros n s1 d Hn (Hs & Ha & Hc) Hd. destruct (system_sleeps s1 d Hs) as (Hs2 & Ha2 & Hc2); [lia|].
    split; [done|]. split; [by eapply alike_trans|]. rewrite Hc2. lia.
  - intros n m s1 Hnm (Hs & Ha & Hc). split; [done|]. split; [done|].
    assert (0 <= REQUEST_TIME) by by vm_compute. nia.
Qed.
End Contract.

(** ** What a scan needs of the link *)

Lemma discovery_retry_fields base timeout allow :
  rp_transport_retries (discovery_retry base timeout allow)
    = (if allow then rp_transport_retries base else 0)
  /\ rp_busy_retries (discovery_retry base timeout allow) = rp_busy_retries base
  /\ rp_delayed_response_polls (discovery_retry base timeout allow) = rp_delayed_response_polls base
  /\ rp_retry_delay (discovery_retry base timeout allow) = rp_retry_delay base
  /\ rp_response_timeout (discovery_retry base timeout allow) = timeout.
Proof. done. Qed.

Section Discovery.
Context {S C : Type} `{SemaphoreLaws S} `{Mpsc C}.
Implicit Types s : System S C.

(** The link takes requests for identification on the queue of the scan, with the preambles,
    the wake prefix and the timeouts of the profile. *)
Record scannable s (profile : LineProfile) (master : Master) (options : DiscoveryOptions)
    (timings : option AddressTimings) : Prop := {
  sn_queue : forall request, req_command request = CommandCode_new 0 -> exists queue,
    LinkClient_resolve_queue (sy_client s) request (do_queue options) = Ok queue
    /\ CommandPolicy_admits (cl_command_policy (sy_client s))
         (mkContext request (resolved_safety request) (catalog_safety request) queue) = true;
  sn_preambles : forall preambles,
    preambles = lp_discovery_preambles profile
    \/ (exists node, do_preamble_hints options !! Polling node master = Some preambles) ->
    Z.max (minimum_preambles (dec_limits (bn_decoder (ln_env (sy_runner s)))))
      (minimum_preambles (dec_limits (ln_decoder (sy_runner s)))) <= preambles <= u8_max;
  sn_wake : harmless (dec_limits (bn_decoder (ln_env (sy_runner s)))) (lp_wake_prefix profile)
            /\ harmless (dec_limits (ln_decoder (sy_runner s))) (lp_wake_prefix profile)
            /\ zlen (lp_wake_prefix profile) <= MAXIMUM_TRANSMIT_PREFIX;
  sn_room : zlen (lp_wake_prefix profile) + MAX_ENCODED_FRAME_SIZE
              <= buffer_capacity (dec_limits (bn_decoder (ln_env (sy_runner s))))
            /\ zlen (lp_wake_prefix profile) + 2 * MAX_ENCODED_FRAME_SIZE
                 <= buffer_capacity (dec_limits (ln_decoder (sy_runner s)));
  sn_timeouts : forall timeout allow, scan_timeout profile timings timeout ->
    1 <= timeout <= MAXIMUM_RETRY_DURATION
    /\ 1 <= rp_total_timeout (discovery_retry (do_retry options) timeout allow)
         <= MAXIMUM_RETRY_DURATION;
  sn_delay : 0 <= rp_retry_delay (do_retry options) <= MAXIMUM_RETRY_DURATION;
  sn_retries : is_u8 (rp_transport_retries (do_retry options))
               /\ is_u8 (rp_busy_retries (do_retry options))
               /\ is_u8 (rp_delayed_response_polls (do_retry options));
}.

Lemma probe_typed node master preambles :
  0 <= node <= 63 -> is_u8 preambles ->
  let request := Request_with_preambles (Request_new (Polling node master) (CommandCode_new 0) []) preambles in
  Request_typed request /\ Request_validate request = Ok tt.
Proof.
  intros Hn Hp request. split; [by split; try done; cbn; lia|].
  by apply Request_validate_Ok.
Qed.

Lemma scan_calls_admissible s profile master options timings c :
  steady s -> scannable s profile master options timings ->
  scan_call profile master options timings c -> admissible s c.
Proof.
  intros Hs [Hq Hp (Hw1 & Hw2 & Hw3) (Hr1 & Hr2) Ht Hd (Hu1 & Hu2 & Hu3)]
    (node & preambles & prefix & timeout & allow & -> & Hn & Hpre & Hprefix & Htime).
  destruct (Ht timeout allow Htime) as [Htt Htot].
  assert (Hpr : Z.max (minimum_preambles (dec_limits (bn_decoder (ln_env (sy_runner s)))))
                  (minimum_preambles (dec_limits (ln_decoder (sy_runner s)))) <= preambles <= u8_max).
  { apply Hp. destruct Hpre; [by left|right; by exists node]. }
  pose proof (ok_minimum _ (rd_decoder _ (ss_ready _ Hs))) as Hmin.
  pose proof (zlen_nonneg (lp_wake_prefix profile)).
  assert (Hnoise : fp_noise_prefix (ep_faults (bn_host (ln_env (sy_runner s)))) = []
                   /\ fp_noise_prefix (ep_faults (bn_remote (ln_env (sy_runner s)))) = []).
  { split; apply Hs. }
  destruct Hnoise as [Nh Nr].
  destruct (probe_typed node master preambles Hn) as [Hty Hval]; [unfold is_u8, u8_max in *; lia|].
  split; unfold call_policy; cbn [snd]; try done.
  - by apply Hq.
  - split; unfold call_job, call_request, call_prefix; cbn [fst snd job_request job_transmit_prefix];
      rewrite ?Nh, ?Nr; change (zlen []) with 0; try done; cbn [req_preambles Request_with_preambles app];
      destruct Hprefix as [-> | ->]; change (zlen []) with 0; (done || lia).
  - by destruct allow.
Qed.

(** What the device's answer says to a scan. *)
Lemma device_identifies d request :
  device_typed d -> 1 <= ei_request_preambles (ed_identity d) ->
  req_command request = CommandCode_new 0 ->
  op_decode_reply mkReadDeviceIdentity (device_reply d request) = Ok (host_identity (ed_identity d)).
Proof.
  intros Hd Hp Hc. cbn -[identity_payload decode_identity_data device_reply].
  unfold device_reply. rewrite Hc. cbn -[identity_payload decode_identity_data].
  rewrite identity_payload_decodes by (done || apply Hd). done.
Qed.

Lemma accepts_polling d node master :
  accepts_address d (Polling node master) = bool_decide (ed_address d = Polling node master).
Proof.
  unfold accepts_address. case_bool_decide as E; [by rewrite bool_decide_true|].
  rewrite bool_decide_false by congruence. cbn [Address_master].
  unfold Address_unique. repeat case_match; simplify_eq; try done; by apply bool_decide_false.
Qed.
(** An answer of the link to a probe, as the scan reads it. *)
Lemma answer_read s profile master options (e : Answered) :
  steady s -> 1 <= ei_request_preambles (ed_identity (bn_device (ln_env (sy_runner s)))) ->
  probe_ok profile master options e.1 -> system_says s e.1 e.2 ->
  let d := bn_device (ln_env (sy_runner s)) in
  answer_identity e
    = (if bool_decide (call_address e.1 = ed_address d)
       then Some (ed_address d, host_identity (ed_identity d)) else None)
  /\ answer_error e = None.
Proof.
  intros Hs Hp (node & preambles & timeout & allow & Ec & _) Hsay d.
  pose proof (sg_device _ (qt_serving _ (rd_line _ (ss_ready _ Hs)))) as Hd. fold d in Hd, Hp.
  unfold system_says, device_says in Hsay. fold d in Hsay. unfold answer_identity, answer_error, call_address.
  assert (Er : call_request e.1
               = Request_with_preambles (Request_new (Polling node master) (CommandCode_new 0) []) preambles)
    by (unfold call_request; by rewrite Ec).
  rewrite Er in Hsay |- *. cbn [req_address Request_with_preambles Request_new] in *.
  rewrite accepts_polling in Hsay.
  destruct (bool_decide_reflect (ed_address d = Polling node master)) as [Ea|Ea].
  - rewrite Hsay, device_identifies, bool_decide_true by done. by rewrite Ea.
  - destruct Hsay as (x & -> & [-> | ->]); by rewrite bool_decide_false by congruence.
Qed.

(** The readings of a log in which no identified address is asked again. *)
Lemma omap_settled (log : list Answered) a found :
  settled log ->
  Forall (fun e : Answered => answer_identity e
            = if bool_decide (call_address e.1 = a) then Some (a, found) else None) log ->
  omap answer_identity log
  = if bool_decide (a ∈ (fun e : Answered => call_address e.1) <$> log) then [(a, found)] else [].
Proof.
  induction log as [|e log IH]; intros Hs Hf; [done|].
  apply Forall_cons_iff in Hf as [He Hf]. destruct Hs as [Hs1 Hs]. cbn [omap list_omap].
  specialize (IH Hs Hf). rewrite He in *.
  destruct (bool_decide_reflect (call_address e.1 = a)) as [Ea|Ea].
  - rewrite bool_decide_true; [|rewrite <- Ea; by left].
    specialize (Hs1 a found eq_refl). rewrite Forall_forall in Hs1. f_equal.
    change (omap answer_identity log = []). rewrite IH, bool_decide_false; [done|].
    intros (e' & Ea' & He')%list_elem_of_fmap. by apply (Hs1 e' He').
  - etrans; [exact IH|]. rewrite fmap_cons.
    erewrite bool_decide_ext; [reflexivity|]. rewrite elem_of_cons. naive_solver.
Qed.

(** The scan asks exactly the addresses of the line. *)
Lemma asked_addresses profile master options log report a :
  explained profile master options log report ->
  a ∈ ((fun e : Answered => call_address e.1) <$> log)
  <-> a ∈ ((fun node => Polling node master) <$> line_addresses (lp_modules profile)).
Proof.
  intros Hex. split; intros (x & Ex & Hx)%list_elem_of_fmap.
  - pose proof (ex_probes _ _ _ _ _ Hex) as Hpr. rewrite Forall_forall in Hpr.
    destruct (Hpr x Hx) as (node & preambles & timeout & allow & Ec & Hn & _).
    apply list_elem_of_fmap. exists node. split; [|done]. rewrite Ex.
    unfold call_address, call_request. by rewrite Ec.
  - destruct (ex_covered _ _ _ _ _ Hex x Hx) as [(e & He & Ee)%calls_to_pos _].
    apply list_elem_of_fmap. exists e. split; [congruence|done].
Qed.

(** A report of a line with one device. *)
Lemma explained_one profile master options log report a found :
  explained profile master options log report ->
  Forall (fun e : Answered =>
    answer_identity e = (if bool_decide (call_address e.1 = a) then Some (a, found) else None)
    /\ answer_error e = None) log ->
  (fun x => (dd_address x, dd_identity x)) <$> dr_devices report
    = (if bool_decide (a ∈ (fun node => Polling node master) <$> line_addresses (lp_modules profile))
       then [(a, found)] else [])
  /\ dr_errors report = []
  /\ ((exists node, node ∈ line_addresses (lp_modules profile) /\ Polling node master <> a) ->
      dr_passes_completed report = do_passes options).
Proof.
  intros Hex Hread. pose proof (asked_addresses _ _ _ _ _ a Hex) as Hiff.
  assert (Hpairs := ex_devices _ _ _ _ _ Hex). rewrite (omap_settled log a found) in Hpairs;
    [|apply Hex|eapply Forall_impl; [exact Hread|naive_solver]].
  split_and!.
  - rewrite Hpairs. erewrite bool_decide_ext; [reflexivity|exact Hiff].
  - rewrite (ex_errors _ _ _ _ _ Hex). clear - Hread. induction Hread as [|e l [_ He] _ IH]; [done|].
    cbn. by rewrite He.
  - intros (node & Hn & Hne). destruct (ex_passes _ _ _ _ _ Hex) as [_ Hle].
    destruct (Z.lt_ge_cases (dr_passes_completed report) (do_passes options)) as [Hlt|]; [|lia].
    pose proof (ex_complete _ _ _ _ _ Hex Hlt node Hn) as Hin.
    change (dd_address <$> dr_devices report)
      with ((fun x => (dd_address x, dd_identity x).1) <$> dr_devices report) in Hin.
    rewrite (list_fmap_compose (fun x => (dd_address x, dd_identity x)) fst), Hpairs in Hin.
    case_bool_decide; [|by apply elem_of_nil in Hin]. by apply list_elem_of_singleton in Hin.
Qed.

(** C1. Discovery is right, end to end. On a link between a client with its queues, the runner and
    an emulated device behind a line without latency, of any fragmentation and echoing or not, a
    scan reports no error, and the device with its own identification exactly when its polling
    address, and its master's, are among those the profile reaches; it reports nothing else. All
    passes are made unless every address of the line is the device's; and the link is afterwards
    ready for the next request, within the time the scan may take. *)
Theorem discovery_finds_the_device s (profile : LineProfile) (master : Master)
    (options : DiscoveryOptions) (timings : option AddressTimings) :
  let d := bn_device (ln_env (sy_runner s)) in
  let budget := scan_steps profile options * REQUEST_TIME in
  steady s -> scannable s profile master options timings ->
  scan_waits MAXIMUM_PROFILE_DURATION profile options timings ->
  1 <= do_passes options <= u8_max -> 1 <= ei_request_preambles (ed_identity d) ->
  sy_clock s + budget <= u64_max ->
  let '(report, s') := discover_validated profile master options timings s in
  (fun x => (dd_address x, dd_identity x)) <$> dr_devices report
    = (if bool_decide (ed_address d ∈ (fun node => Polling node master)
                                        <$> line_addresses (lp_modules profile))
       then [(ed_address d, host_identity (ed_identity d))] else [])
  /\ dr_errors report = []
  /\ ((exists node, node ∈ line_addresses (lp_modules profile) /\ Polling node master <> ed_address d) ->
      dr_passes_completed report = do_passes options)
  /\ steady s' /\ alike s s' /\ sy_clock s <= sy_clock s' <= sy_clock s + budget.
Proof.
  intros d budget Hs Hscan Hw Hp Hpre Hb.
  pose proof (system_contract s (scan_steps profile options) Hb) as Hct.
  pose proof (unwatch_discovery profile master options timings (mkWatched s [] [])) as Hun.
  destruct (discover_validated profile master options timings (mkWatched s [] [])) as [report w] eqn:Ed.
  cbn [wd_world] in Hun. rewrite Hun.
  assert (Hinv : watched_inv (system_inv s) (system_says s) 0 (mkWatched s [] [])).
  { split; [|done]. split; [done|]. split; [apply alike_refl|cbn; lia]. }
  destruct (discovery_contract (steps := scan_steps profile options) profile master options timings
              (fun c => scan_calls_admissible s profile master options timings c Hs Hscan) Hw
              0 (mkWatched s [] [])) as [(Hs' & Ha & Hc) Hlog]; [lia|lia|exact Hinv|].
  rewrite Ed in Hs', Ha, Hc, Hlog. cbn [snd] in *.
  destruct (discovery_explained _ _ _ _ _ _ _ Hp Ed) as (log & El & Hex).
  cbn [wd_log] in El. rewrite app_nil_r in El.
  assert (Hsays : Forall (fun e : Answered => system_says s e.1 e.2) log).
  { rewrite El in Hlog. by apply Forall_rev in Hlog; rewrite rev_involutive in Hlog. }
  destruct (explained_one profile master options log report (ed_address d) (host_identity (ed_identity d)) Hex)
    as (H1' & H2' & H3').
  { apply Forall_forall. intros e He. pose proof (ex_probes _ _ _ _ _ Hex) as Hpr.
    rewrite Forall_forall in Hpr, Hsays. by eapply answer_read; eauto. }
  split_and!; try done; [lia|unfold budget; lia].
Qed.
End Discovery.

(** A line of three addresses with a wake prefix, a hint for the second, and two passes. *)
Definition example_profile : LineProfile :=
  mkLineProfile [76] TimingProfile_default [ModuleWindow_new 0 (mkWindow 0 2)] 20 [0; 170; 85].

Lemma example_scannable : scannable example_system example_profile Primary demo_options None.
Proof.
  split; try done.
  - intros request _. by exists QueueId_DEFAULT.
  - intros preambles [-> | (node & Hn)]; [done|]. cbn [do_preamble_hints demo_options
      DiscoveryOptions_with_preamble_hints] in Hn.
    apply lookup_insert_Some in Hn as [[_ <-] | [_ Hn]]; [done|]. done.
  - intros timeout allow [-> | [-> | (t & node & timing & Ht & _)]]; [by destruct allow..|done].
Qed.

Lemma discovery_finds_the_device_witness :
  let '(report, _) := discover_validated example_profile Primary demo_options None example_system in
  (fun x => (dd_address x, dd_identity x)) <$> dr_devices report
    = [(Polling 0 Primary, host_identity example_identity)]
  /\ dr_errors report = [] /\ dr_passes_completed report = 2.
Proof.
  pose proof (discovery_finds_the_device example_system example_profile Primary demo_options None
                example_system_steady example_scannable) as Ht.
  destruct (discover_validated example_profile Primary demo_options None example_system) as [report s'].
  destruct Ht as (Hd & He & Hp & _); [by split|done|done|by vm_compute|].
  split_and!; [exact Hd|exact He|]. apply Hp. exists 1. split; [|done].
  apply (bool_decide_unpack _). by vm_compute.
Defined.
