(* ===== verification/SystemSession.v ===== *)
(** * Sessions, snapshots and recovery over a working link

    Identification at the polling address, the long address learned from it, and typed
    operations over that address: the values that come back are the device's own. A snapshot
    collects them, and recovery tells a device that came back from one that took its place. *)
From stdpp Require Import gmap.
From S2P Require Import Prelude Wire Decoder DecoderFacts DecoderSpec Catalog Codec CodecProps Operation Text Chars OperationProps.
From S2P Require Import Identity Process Information ReplyProps QueueSet QueueRuns QueueSched Burst BurstProps.
From S2P Require Import Link LinkRunner LinkProps ExchangeProps Trace Emulator EmulatorProps Bench.
From S2P Require Import BenchProps Service Session Health HealthProps Client Services System SystemProps SystemDiscovery.

Section Session.
Context {S C : Type} `{SemaphoreLaws S} `{Mpsc C}.
Implicit Types s : System S C.

(** The link takes every request on this queue under this policy, and both ends can follow two
    preambles. *)
Record serves s (queue : QueueId) (policy : RetryPolicy) : Prop := {
  sr_queue : forall request, exists routed,
    LinkClient_resolve_queue (sy_client s) request queue = Ok routed
    /\ CommandPolicy_admits (cl_command_policy (sy_client s))
         (mkContext request (resolved_safety request) (catalog_safety request) routed) = true;
  sr_response : 1 <= rp_response_timeout policy <= MAXIMUM_RETRY_DURATION;
  sr_total : 1 <= rp_total_timeout policy <= MAXIMUM_RETRY_DURATION;
  sr_delay : 0 <= rp_retry_delay policy <= MAXIMUM_RETRY_DURATION;
  sr_transport : is_u8 (rp_transport_retries policy);
  sr_busy : is_u8 (rp_busy_retries policy);
  sr_delayed : is_u8 (rp_delayed_response_polls policy);
  sr_preambles : Z.max (minimum_preambles (dec_limits (bn_decoder (ln_env (sy_runner s)))))
                   (minimum_preambles (dec_limits (ln_decoder (sy_runner s)))) <= 2;
  sr_device_room : MAX_ENCODED_FRAME_SIZE
                   <= buffer_capacity (dec_limits (bn_decoder (ln_env (sy_runner s))));
  sr_host_room : 2 * MAX_ENCODED_FRAME_SIZE <= buffer_capacity (dec_limits (ln_decoder (sy_runner s)));
}.

Lemma serves_later s s' queue policy : alike s s' -> serves s queue policy -> serves s' queue policy.
Proof.
  intros [Hl Hlim Hq Hp Hr] [Hqueue ? ? ? ? ? ? ? ? ?].
  split; rewrite ?Hlim, ?(sl_limits _ _ Hl); try done. intros request.
  destruct (Hqueue request) as (routed & Hres & Hadm). exists routed.
  by rewrite (resolve_queue_ext _ _ _ _ Hq Hr), Hp.
Qed.

(** A request of a session. *)
Record plain (r : Request) : Prop := {
  pn_typed : Request_typed r;
  pn_valid : Request_validate r = Ok tt;
  pn_command : CommandCode_get (req_command r) <> 31;
  pn_preambles : 2 <= req_preambles r;
}.

Lemma plain_admissible s queue policy r :
  steady s -> serves s queue policy -> plain r -> admissible s (r, [], queue, policy).
Proof.
  intros Hs [Hq ? ? ? ? ? ? Hp Hd Hh] [Ht Hv Hc Hpr]. split; try done.
  assert (Nh : fp_noise_prefix (ep_faults (bn_host (ln_env (sy_runner s)))) = []) by apply Hs.
  assert (Nr : fp_noise_prefix (ep_faults (bn_remote (ln_env (sy_runner s)))) = []) by apply Hs.
  split; unfold call_job, call_request, call_prefix; cbn [fst snd job_request job_transmit_prefix];
    rewrite ?Nh, ?Nr; change (zlen []) with 0; (done || lia).
Qed.

(** The answer of a link to a request of a session. *)
Lemma plain_says s queue policy r :
  steady s -> serves s queue policy -> plain r -> sy_clock s + REQUEST_TIME <= u64_max ->
  exists answer s', LinkClient_request s r queue policy = (answer, s')
    /\ device_says (bn_device (ln_env (sy_runner s))) r answer
    /\ steady s' /\ alike s s' /\ sy_clock s <= sy_clock s' <= sy_clock s + REQUEST_TIME.
Proof.
  intros Hs Hsv Hp Hc. pose proof (plain_admissible s queue policy r Hs Hsv Hp) as Hadm.
  assert (MAXIMUM_RETRY_DURATION <= REQUEST_TIME) by by vm_compute.
  destruct (system_answers s _ Hs Hadm) as (answer & s' & E & Hrest); [lia|].
  by exists answer, s'.
Qed.

(** A request to an address the device listens to. *)
Lemma plain_request s queue policy r :
  steady s -> serves s queue policy -> plain r ->
  accepts_address (bn_device (ln_env (sy_runner s))) (req_address r) = true ->
  sy_clock s + REQUEST_TIME <= u64_max ->
  exists s', LinkClient_request s r queue policy
      = (Ok (device_reply (bn_device (ln_env (sy_runner s))) r), s')
    /\ steady s' /\ alike s s' /\ sy_clock s' <= sy_clock s + REQUEST_TIME.
Proof.
  intros Hs Hsv Hp Ha Hc.
  destruct (plain_says s queue policy r) as (answer & s' & E & Hr & Hs' & Ha' & Hc'); try done.
  unfold device_says in Hr. rewrite Ha in Hr. subst answer. exists s'. split_and!; (done || lia).
Qed.

(** ** Operations of a session *)

(** An operation that asks a command without data, under the default request of the trait. *)
Definition bare_request (address : Address) (command : CommandCode) (safety : OperationSafety)
    (preambles : Z) : Request :=
  Request_with_preambles
    (Request_with_retry_safety (Request_new address command []) safety) preambles.

Lemma bare_plain address command safety preambles :
  Address_valid address -> is_u8 (CommandCode_get command) -> CommandCode_get command <> 31 ->
  2 <= preambles <= u8_max -> plain (bare_request address command safety preambles).
Proof.
  intros Ha Hc H31 Hp. unfold is_u8, u8_max in *. split; try (cbn; lia).
  - split; cbn; try done; unfold is_u16, is_u8; lia.
  - apply Request_validate_Ok; [done|]. unfold CommandCode_is_expanded. cbn. unfold u8_max.
    rewrite (proj2 (Z.ltb_ge _ _)) by lia. done.
Qed.

(** What an operation makes of the device's answer. *)
Lemma session_execute_plain {Op Output} `{Operation Op Output} (op : Op) s queue policy session request :
  let d := bn_device (ln_env (sy_runner s)) in
  DeviceSession_request session op = Ok request -> plain request ->
  steady s -> serves s queue policy -> accepts_address d (req_address request) = true ->
  sy_clock s + REQUEST_TIME <= u64_max ->
  exists s', DeviceSession_execute s session op queue policy
      = (result_map_err SessionOperation (op_decode_reply op (device_reply d request)), s')
    /\ steady s' /\ alike s s' /\ sy_clock s' <= sy_clock s + REQUEST_TIME.
Proof.
  intros d Hreq Hp Hs Hsv Hacc Hc. unfold DeviceSession_execute. rewrite Hreq.
  destruct (plain_request s queue policy request) as (s' & E & Hrest); try done.
  exists s'. rewrite E. done.
Qed.

(** What an operation without data makes of it. *)
Lemma session_execute_bare {Op Output} `{Operation Op Output} (op : Op) s queue policy session safety :
  let address := sp_address (ds_profile session) in
  let preambles := sp_request_preambles (ds_profile session) in
  op_request op address
    = Ok (Request_with_retry_safety (Request_new address (op_command op) []) safety) ->
  steady s -> serves s queue policy ->
  Address_valid address -> is_u8 (CommandCode_get (op_command op)) ->
  CommandCode_get (op_command op) <> 31 -> 2 <= preambles <= u8_max ->
  accepts_address (bn_device (ln_env (sy_runner s))) address = true ->
  sy_clock s + REQUEST_TIME <= u64_max ->
  exists s', DeviceSession_execute s session op queue policy
      = (result_map_err SessionOperation
           (op_decode_reply op (device_reply (bn_device (ln_env (sy_runner s)))
              (bare_request address (op_command op) safety preambles))), s')
    /\ steady s' /\ alike s s' /\ sy_clock s' <= sy_clock s + REQUEST_TIME.
Proof.
  intros address preambles Hreq Hs Hsv Ha Hc H31 Hp Hacc Hcl.
  apply session_execute_plain; try done; [|by apply bare_plain].
  unfold DeviceSession_request. fold address. by rewrite Hreq.
Qed.

(** ** The device's values as the host decodes them *)

Lemma primary_value_read unit value :
  is_u32 value -> decode_primary_value (unit :: to_be_bytes 4 value) = Ok (mkPrimaryValue unit value).
Proof.
  intros Hv. unfold decode_primary_value, read_all. rewrite reader_new_at, read_u8_at. cbn [result_bind].
  rewrite <- (app_nil_r (to_be_bytes 4 value)) at 1.
  rewrite read_f32_at; [|unfold usize_len, zlen; rewrite !length_app, length_to_be_bytes; done
                        |apply length_to_be_bytes].
  cbn [result_bind]. rewrite finish_at. cbn [result_bind]. rewrite be_value; [done|].
  unfold is_u32 in Hv. lia.
Qed.

Lemma loop_signal_read milliamps percent :
  is_u32 milliamps -> is_u32 percent ->
  decode_loop_signal (to_be_bytes 4 milliamps ++ to_be_bytes 4 percent)
  = Ok (mkLoopSignal milliamps percent).
Proof.
  intros Hm Hp. unfold decode_loop_signal, read_all. rewrite reader_new_at.
  rewrite read_f32_at; [|unfold usize_len, zlen; rewrite !length_app, !length_to_be_bytes; done
                        |apply length_to_be_bytes].
  cbn [result_bind]. rewrite <- (app_nil_r (to_be_bytes 4 percent)) at 1.
  rewrite read_f32_at; [|unfold usize_len, zlen; rewrite !length_app, !length_to_be_bytes; done
                        |apply length_to_be_bytes].
  cbn [result_bind]. rewrite finish_at. cbn [result_bind].
  rewrite !be_value; [done|unfold is_u32 in *; lia..].
Qed.
(** The device's answer to a command of its own, read by the operation of that command. *)
Lemma device_reads d address safety preambles :
  device_typed d ->
  op_decode_reply mkReadPrimaryValue (device_reply d (bare_request address (CommandCode_new 1) safety preambles))
    = Ok (mkPrimaryValue (ed_primary_unit d) (ed_primary_value d))
  /\ op_decode_reply mkReadLoopSignal (device_reply d (bare_request address (CommandCode_new 2) safety preambles))
    = Ok (mkLoopSignal (ed_loop_current d) (ed_percent d))
  /\ op_decode_reply mkReadAdditionalStatus
       (device_reply d (bare_request address (CommandCode_new 48) safety preambles))
    = Ok (mkAdditionalStatus (ed_additional_status d)).
Proof.
  intros []. split_and!; cbn -[decode_primary_value decode_loop_signal to_be_bytes].
  - by rewrite primary_value_read.
  - by rewrite loop_signal_read.
  - done.
Qed.

(** The session addresses the device, with preambles a frame can carry. *)
Record speaks_for (session : DeviceSession) (d : EmulatedDevice) : Prop := {
  sf_address : Address_valid (sp_address (ds_profile session));
  sf_accepted : accepts_address d (sp_address (ds_profile session)) = true;
  sf_preambles : 2 <= sp_request_preambles (ds_profile session) <= u8_max;
}.

Lemma identified_session d master :
  device_typed d -> 1 <= ei_request_preambles (ed_identity d) ->
  ei_device_id (ed_identity d) <= 0xffffff ->
  7 <= ei_universal_revision (ed_identity d)
  \/ (ei_device_type (ed_identity d) / 256) mod 64 = ei_manufacturer_id (ed_identity d) mod 64 ->
  exists session, forall node,
    DeviceSession_from_identity (Polling node master) (host_identity (ed_identity d)) = Ok session
    /\ sp_identity (ds_profile session) = host_identity (ed_identity d)
    /\ speaks_for session d
    /\ exists ty, 0 <= ty <= 0x3fff
        /\ sp_address (ds_profile session) = Unique ty (ei_device_id (ed_identity d)) master.
Proof.
  intros Hd Hp Hid Hrev. pose proof (dt_identity d Hd) as Hi.
  destruct (emulated_unique_address d master Hi Hp Hid) as (ty & Hty & Ha & Hv & Hacc).
  set (a := Unique ty _ master) in *.
  exists (mkDeviceSession (mkSessionProfile (host_identity (ed_identity d)) a
            (Z.max (id_request_preambles (host_identity (ed_identity d))) 2))).
  intros node. unfold DeviceSession_from_identity. rewrite Ha. cbn [result_map_err result_bind].
  pose proof (et_request_preambles _ Hi) as Hu. split_and!; try done; [|by exists ty].
  split; try done; [apply Hacc; by right|].
  cbn -[Z.max]. unfold is_u8, u8_max in *. lia.
Qed.

(** The device type in the long address of a device: its expanded type from revision 7 on, and
    its manufacturer and type before. *)
Definition long_address (i : EmulatedIdentity) (master : Master) : Address :=
  Unique (if 7 <=? ei_universal_revision i then ei_device_type i mod 16384
          else ei_manufacturer_id i mod 64 * 256 + ei_device_type i mod 256) (ei_device_id i) master.

(** Identification at the polling address gives a session that speaks for the device. *)
Lemma system_identifies s (node : Z) (master : Master) (policy : RetryPolicy) :
  let d := bn_device (ln_env (sy_runner s)) in
  let i := ed_identity d in
  steady s -> serves s QueueId_DEFAULT policy -> ed_address d = Polling node master ->
  0 <= node <= 63 -> 1 <= ei_request_preambles i -> ei_device_id i <= 0xffffff ->
  7 <= ei_universal_revision i \/ (ei_device_type i / 256) mod 64 = ei_manufacturer_id i mod 64 ->
  sy_clock s + REQUEST_TIME <= u64_max ->
  exists session s1,
    DeviceSession_identify s (Polling node master) policy = (Ok session, s1)
    /\ sp_identity (ds_profile session) = host_identity i
    /\ sp_address (ds_profile session) = long_address i master /\ speaks_for session d
    /\ steady s1 /\ alike s s1 /\ sy_clock s1 <= sy_clock s + REQUEST_TIME.
Proof.
  intros d i Hs Hsv Haddr Hn Hp Hid Hrev Hc.
  pose proof (sg_device _ (qt_serving _ (rd_line _ (ss_ready _ Hs)))) as Hd. fold d in Hd.
  destruct (identified_session d master Hd Hp Hid Hrev) as (session & Hses).
  destruct (Hses node) as (Hfrom & Hident & Hf & ty & Hty & Ety).
  destruct (plain_request s QueueId_DEFAULT policy
              (bare_request (Polling node master) (CommandCode_new 0) ReadOnly 5))
    as (s1 & E1 & Hrest); try done.
  { fold d. cbn. by rewrite accepts_polling, bool_decide_true. }
  fold d in E1. exists session, s1. split_and!; try done; try apply Hrest.
  2: { pose proof (sf_accepted _ _ Hf) as Hacc. rewrite Ety in Hacc |- *.
       apply accepts_unique in Hacc as [E| ->]; [|done|done|done|apply Hd]. by rewrite Haddr in E. }
  unfold DeviceSession_identify, LinkClient_execute.
  change (op_request mkReadDeviceIdentity (Polling node master))
    with (Ok (E := OperationError) (bare_request (Polling node master) (CommandCode_new 0) ReadOnly 5)).
  cbn [sv_default_queue system_service]. rewrite E1. cbn [call_bind].
  rewrite device_identifies by done. cbn [result_map_err call_map_err fst snd call_bind]. by rewrite Hfrom.
Qed.

(** C3. A session speaks for its device. Over a working link without latency, identification at
    the polling address of a device of revision 7 or later, or of an earlier one whose
    manufacturer identifier agrees with the high byte of its device type, with a device identifier
    of 24 bits and at least one preamble asked for, yields a session with the device's own
    identification and its long address: the address of its type and device identifier, which the
    device listens to. The session's reading of the primary variable, of the loop signal and of
    the additional status, the three commands besides identification that the device knows, then
    return exactly the values the device holds: its primary variable with its unit, its loop
    current with the percentage, its additional status. *)
Theorem session_reads_the_device s (node : Z) (master : Master) (policy : RetryPolicy) :
  let d := bn_device (ln_env (sy_runner s)) in
  let i := ed_identity d in
  steady s -> serves s QueueId_DEFAULT policy -> ed_address d = Polling node master ->
  0 <= node <= 63 -> 1 <= ei_request_preambles i -> ei_device_id i <= 0xffffff ->
  7 <= ei_universal_revision i \/ (ei_device_type i / 256) mod 64 = ei_manufacturer_id i mod 64 ->
  sy_clock s + 4 * REQUEST_TIME <= u64_max ->
  exists session s1 s2 s3 s4,
    DeviceSession_identify s (Polling node master) policy = (Ok session, s1)
    /\ sp_identity (ds_profile session) = host_identity i
    /\ sp_address (ds_profile session) = long_address i master
    /\ accepts_address d (sp_address (ds_profile session)) = true
    /\ DeviceSession_execute s1 session mkReadPrimaryValue QueueId_DEFAULT policy
       = (Ok (mkPrimaryValue (ed_primary_unit d) (ed_primary_value d)), s2)
    /\ DeviceSession_execute s2 session mkReadLoopSignal QueueId_DEFAULT policy
       = (Ok (mkLoopSignal (ed_loop_current d) (ed_percent d)), s3)
    /\ DeviceSession_execute s3 session mkReadAdditionalStatus QueueId_DEFAULT policy
       = (Ok (mkAdditionalStatus (ed_additional_status d)), s4)
    /\ steady s4 /\ alike s s4.
Proof.
  intros d i Hs Hsv Haddr Hn Hp Hid Hrev Hc.
  pose proof (sg_device _ (qt_serving _ (rd_line _ (ss_ready _ Hs)))) as Hd. fold d in Hd.
  assert (Ht : 0 <= REQUEST_TIME) by by vm_compute.
  destruct (system_identifies s node master policy)
    as (session & s1 & E1 & Hident & Hlong & Hf & Hs1 & Ha1 & Hc1); try done; [lia|].
  destruct Hf as [Hv Hacc Hpr].
  pose proof (sl_device _ _ (al_line _ _ Ha1)) as Ed1. fold d in Ed1, Hacc.
  pose proof (serves_later _ _ _ _ Ha1 Hsv) as Hsv1.
  destruct (session_execute_bare mkReadPrimaryValue s1 QueueId_DEFAULT policy session ReadOnly)
    as (s2 & E2 & Hs2 & Ha2 & Hc2); rewrite ?Ed1; try done; [lia|].
  pose proof (sl_device _ _ (al_line _ _ Ha2)) as Ed2. rewrite Ed1 in Ed2, E2.
  pose proof (serves_later _ _ _ _ Ha2 Hsv1) as Hsv2.
  destruct (session_execute_bare mkReadLoopSignal s2 QueueId_DEFAULT policy session ReadOnly)
    as (s3 & E3 & Hs3 & Ha3 & Hc3); rewrite ?Ed2; try done; [lia|].
  pose proof (sl_device _ _ (al_line _ _ Ha3)) as Ed3. rewrite Ed2 in Ed3, E3.
  pose proof (serves_later _ _ _ _ Ha3 Hsv2) as Hsv3.
  destruct (session_execute_bare mkReadAdditionalStatus s3 QueueId_DEFAULT policy session ReadOnly)
    as (s4 & E4 & Hs4 & Ha4 & Hc4); rewrite ?Ed3; try done; [lia|]. rewrite Ed3 in E4.
  destruct (device_reads d (sp_address (ds_profile session)) ReadOnly
              (sp_request_preambles (ds_profile session)) Hd) as (R1 & R2 & R3).
  exists session, s1, s2, s3, s4. split_and!; [done|done|done|done|..].
  - rewrite E2. cbn [op_command ReadPrimaryValue_Operation default_operation]. by rewrite R1.
  - rewrite E3. cbn [op_command ReadLoopSignal_Operation default_operation]. by rewrite R2.
  - rewrite E4. cbn [op_command ReadAdditionalStatus_Operation default_operation]. by rewrite R3.
  - done.
  - by eapply alike_trans, alike_trans, alike_trans.
Qed.
(** ** Snapshots *)

(** A field of a snapshot, with what the device answers its command. *)
Lemma capture_reads {Op A} `{Operation Op A} display (requested : bool) (command : Z)
    (op : Op) s session d :
  let address := sp_address (ds_profile session) in
  op_command op = CommandCode_new command -> is_u8 command -> command <> 31 ->
  op_request op address
    = Ok (Request_with_retry_safety (Request_new address (op_command op) []) ReadOnly) ->
  steady s -> serves s QueueId_DEFAULT RetryPolicy_default ->
  bn_device (ln_env (sy_runner s)) = d -> speaks_for session d ->
  sy_clock s + REQUEST_TIME <= u64_max ->
  exists s', capture_if display requested command session op s
      = (if requested then
           capture display (CommandCode_new command)
             (result_map_err SessionOperation
                (op_decode_reply op (device_reply d
                   (bare_request address (CommandCode_new command) ReadOnly
                      (sp_request_preambles (ds_profile session))))))
         else NotRequested, s')
    /\ steady s' /\ serves s' QueueId_DEFAULT RetryPolicy_default /\ alike s s'
    /\ bn_device (ln_env (sy_runner s')) = d /\ sy_clock s' <= sy_clock s + REQUEST_TIME.
Proof.
  intros address Hop Hc H31 Hreq Hs Hsv Hd [Hv Hacc Hp] Hcl. unfold capture_if. rewrite Hop in Hreq.
  assert (Ht : 0 <= REQUEST_TIME) by by vm_compute.
  destruct requested; [|exists s; split_and!; (done || apply alike_refl || lia)].
  destruct (session_execute_bare op s QueueId_DEFAULT RetryPolicy_default session ReadOnly)
    as (s' & E & Hs' & Ha & Hc'); rewrite ?Hop, ?Hd; try done.
  change (DeviceSession_execute_default s session op)
    with (DeviceSession_execute s session op QueueId_DEFAULT RetryPolicy_default).
  rewrite E, Hop, Hd. exists s'. split_and!; try done; [by eapply serves_later|].
  by rewrite (sl_device _ _ (al_line _ _ Ha)).
Qed.

(** The field of a command the device does not know. *)
Definition refused_field {A} (display : SessionError -> text) (d : EmulatedDevice) (command : Z)
    : SnapshotField A :=
  FieldError (mkSnapshotError (CommandCode_new command)
                (display (SessionOperation (DeviceStatus 64 (ed_status d))))).

Definition when {A} (requested : bool) (f : SnapshotField A) : SnapshotField A :=
  if requested then f else NotRequested.

(** The snapshot of a device. *)
Definition device_snapshot (display : SessionError -> text) (captured_at : Z)
    (profile : SessionProfile) (options : SnapshotOptions) (d : EmulatedDevice) : DeviceSnapshot :=
  mkDeviceSnapshot captured_at profile
    (when (so_process_values options)
       (FieldValue (mkPrimaryValue (ed_primary_unit d) (ed_primary_value d))))
    (when (so_process_values options) (FieldValue (mkLoopSignal (ed_loop_current d) (ed_percent d))))
    (when (so_process_values options) (refused_field display d 3))
    (when (so_tags options) (refused_field display d 13))
    (when (so_tags options)
       (if id_universal_revision (sp_identity profile) <? 6
        then Unsupported "long tag requires HART 6 or newer" else refused_field display d 20))
    (when (so_diagnostics options) (FieldValue (mkAdditionalStatus (ed_additional_status d)))).

(** C13. A snapshot shows the device. Over a working link without latency, the snapshot of a
    session holds in every group that was asked for what the device holds: its primary variable,
    loop signal and additional status as values, and for the commands the device does not know the
    refusal it answered with, response code 64 beside its status byte. The long tag is not asked
    of a device before revision 6, a group that was not asked for stays empty, and no failure of
    one field keeps the fields after it from being read. *)
Theorem snapshot_shows_the_device s display (captured_at : Z) session options :
  let d := bn_device (ln_env (sy_runner s)) in
  steady s -> serves s QueueId_DEFAULT RetryPolicy_default -> speaks_for session d ->
  sy_clock s + 6 * REQUEST_TIME <= u64_max ->
  exists s',
    DeviceSession_snapshot display captured_at session options s
    = (device_snapshot display captured_at (ds_profile session) options d, s')
    /\ steady s' /\ alike s s'.
Proof.
  intros d Hs Hsv Hf Hc. assert (Ht : 0 <= REQUEST_TIME) by by vm_compute.
  pose proof (sg_device _ (qt_serving _ (rd_line _ (ss_ready _ Hs)))) as Hd. fold d in Hd.
  destruct (device_reads d (sp_address (ds_profile session)) ReadOnly
              (sp_request_preambles (ds_profile session)) Hd) as (R1 & R2 & R48).
  unfold DeviceSession_snapshot, capture_snapshot, device_snapshot.
  destruct (capture_reads display (so_process_values options) 1 mkReadPrimaryValue s session d)
    as (s1 & -> & Hs1 & Hv1 & A1 & D1 & C1); try done; [lia|].
  destruct (capture_reads display (so_process_values options) 2 mkReadLoopSignal s1 session d)
    as (s2 & -> & Hs2 & Hv2 & A2 & D2 & C2); try done; [lia|].
  destruct (capture_reads display (so_process_values options) 3 mkReadDynamicValues s2 session d)
    as (s3 & -> & Hs3 & Hv3 & A3 & D3 & C3); try done; [lia|].
  destruct (capture_reads display (so_tags options) 13 mkReadTagDescriptorDate s3 session d)
    as (s4 & -> & Hs4 & Hv4 & A4 & D4 & C4); try done; [lia|].
  set (old := id_universal_revision (sp_identity (ds_profile session)) <? 6).
  destruct (capture_reads display (so_tags options && negb old) 20 mkReadLongTag s4 session d)
    as (s5 & E5 & Hs5 & Hv5 & A5 & D5 & C5); try done; [lia|].
  destruct (capture_reads display (so_diagnostics options) 48 mkReadAdditionalStatus s5 session d)
    as (s6 & E6 & Hs6 & Hv6 & A6 & D6 & C6); try done; [lia|].
  exists s6. split_and!; [|done|repeat (eapply alike_trans; [eassumption|]); apply alike_refl].
  revert E5. rewrite R1, R2. unfold when.
  destruct (so_tags options), old; cbn [negb andb]; intros E5; try injection E5 as <-.
  all: rewrite ?E5, E6, R48; reflexivity.
Qed.

(** ** Recovery and campaigns *)

(** Two identifications of one device. *)
Definition one_device (i j : DeviceIdentity) : Prop :=
  id_manufacturer_id i = id_manufacturer_id j
  /\ DeviceIdentity_address_device_type i = DeviceIdentity_address_device_type j
  /\ id_device_id i = id_device_id j.

#[global] Instance one_device_dec i j : Decision (one_device i j).
Proof. unfold one_device. apply _. Defined.

Lemma same_device_spec i j : same_device i j = bool_decide (one_device i j).
Proof.
  apply eq_iff_eq_true. rewrite bool_decide_eq_true. unfold same_device, one_device.
  rewrite !andb_true_iff, !Z.eqb_eq. tauto.
Qed.

(** What recovery reports of a known device on the line of [d]. *)
Definition recovered (d : EmulatedDevice) (k : KnownDevice) (r : Address * RecoveryStatus) : Prop :=
  let found := host_identity (ed_identity d) in
  r.1 = kd_address k
  /\ if accepts_address d (kd_address k)
     then r.2 = if bool_decide (one_device found (kd_identity k)) then Restored found else Replaced found
     else exists e, r.2 = Unavailable e /\ unanswered e.

Lemma identity_execute s address retry :
  let d := bn_device (ln_env (sy_runner s)) in
  steady s -> serves s QueueId_DEFAULT retry -> 1 <= ei_request_preambles (ed_identity d) ->
  Address_valid address -> sy_clock s + REQUEST_TIME <= u64_max ->
  exists answer s',
    LinkClient_execute s address mkReadDeviceIdentity QueueId_DEFAULT retry = (answer, s')
    /\ (if accepts_address d address then answer = Ok (host_identity (ed_identity d))
        else exists e, answer = Err e /\ unanswered e)
    /\ steady s' /\ alike s s' /\ sy_clock s' <= sy_clock s + REQUEST_TIME.
Proof.
  intros d Hs Hsv Hp Hv Hc.
  pose proof (sg_device _ (qt_serving _ (rd_line _ (ss_ready _ Hs)))) as Hd. fold d in Hd.
  destruct (plain_says s QueueId_DEFAULT retry (bare_request address (CommandCode_new 0) ReadOnly 5))
    as (answer & s' & E & Hr & Hs' & Ha & Hc'); try done.
  unfold LinkClient_execute. change (op_request mkReadDeviceIdentity address)
    with (Ok (E := OperationError) (bare_request address (CommandCode_new 0) ReadOnly 5)).
  cbv beta iota. rewrite E. unfold device_says in Hr. fold d in Hr.
  change (req_address (bare_request address (CommandCode_new 0) ReadOnly 5)) with address in Hr.
  destruct (accepts_address d address).
  - subst answer. cbn [call_bind]. rewrite device_identifies by done.
    eexists _, s'. split_and!; (done || lia).
  - destruct Hr as (e & -> & Hu). eexists _, s'. split_and!; try done; [by exists e|lia].
Qed.

(** C15. Recovery recognises the device. Asked for the devices it knew before, in whatever order
    and with whatever repetition, a working link without latency reports every known address once
    and in order: where the device listens, as restored when the manufacturer, the device type and
    the device identifier it answers with are the known ones, and as replaced, with the
    identification that was found, when another device took the address; everywhere else as
    unavailable because nobody answered. *)
Theorem recovery_recognises_the_device s (known : list KnownDevice) (retry : RetryPolicy) :
  let d := bn_device (ln_env (sy_runner s)) in
  steady s -> serves s QueueId_DEFAULT retry -> 1 <= ei_request_preambles (ed_identity d) ->
  Forall (fun k => Address_valid (kd_address k)) known ->
  sy_clock s + zlen known * REQUEST_TIME <= u64_max ->
  exists report s', reconcile_devices s known retry = (report, s')
    /\ Forall2 (recovered d) known report /\ steady s' /\ alike s s'.
Proof.
  intros d Hs Hsv Hp Hv Hc. unfold reconcile_devices.
  enough (Hgen : forall acc, exists report s', reconcile_loop known retry s acc = (acc ++ report, s')
            /\ Forall2 (recovered d) known report /\ steady s' /\ alike s s') by apply (Hgen []).
  assert (Ed : bn_device (ln_env (sy_runner s)) = d) by done. clearbody d.
  assert (Ht : 0 <= REQUEST_TIME) by by vm_compute.
  revert s Hs Hsv Hc Ed. induction Hv as [|k known Hk _ IH]; intros s Hs Hsv Hc Ed acc; cbn [reconcile_loop].
  { exists [], s. rewrite app_nil_r. split_and!; try done. apply alike_refl. }
  rewrite zlen_cons in Hc. pose proof (zlen_nonneg known).
  destruct (identity_execute s (kd_address k) retry)
    as (answer & s1 & E & Hans & Hs1 & Ha1 & Hc1); rewrite ?Ed; try done; [nia|].
  rewrite Ed in Hans. cbn [sv_default_queue system_service]. rewrite E.
  destruct (IH s1) with (acc := acc ++ [(kd_address k,
      match answer with
      | Ok found => if same_device found (kd_identity k) then Restored found else Replaced found
      | Err e => Unavailable e
      end)]) as (report & s' & E' & Hrep & Hs' & Ha'); try done;
    [by eapply serves_later|lia|by rewrite (sl_device _ _ (al_line _ _ Ha1))|].
  rewrite E', <- app_assoc. eexists _, s'. split_and!; try done; [|by eapply alike_trans].
  constructor; [|done]. split; [done|]. cbn [snd].
  destruct (accepts_address d (kd_address k)); [subst answer; by rewrite same_device_spec|].
  destruct Hans as (e & -> & Hu). by exists e.
Qed.

(** What a campaign reports of a case on the line of [d]. *)
Definition judged (d : EmulatedDevice) (c : VerificationCase) (r : CaseResult) : Prop :=
  cr_name r = vc_name c /\ 0 <= cr_elapsed r <= REQUEST_TIME
  /\ if accepts_address d (req_address (vc_request c))
     then cr_passed r = case_matches (vc_expectation c) (device_reply d (vc_request c)) /\ cr_error r = None
     else cr_passed r = false /\ exists e, cr_error r = Some e /\ unanswered e.

(** A campaign judges the device. Over a working link every case is carried out once and in
    order and reported under its own name; a case for an address the device listens to passes
    exactly when its expectation holds of the device's answer, a case for any other address
    fails because nobody answered, and the time reported for a case is the time it took, never
    more than a request's deadline and the guard against late responses. *)
Theorem campaign_judges_the_device s (cases : list VerificationCase) :
  let d := bn_device (ln_env (sy_runner s)) in
  steady s ->
  Forall (fun c => plain (vc_request c) /\ serves s QueueId_DEFAULT (vc_retry c)) cases ->
  0 <= sy_clock s -> sy_clock s + zlen cases * REQUEST_TIME <= u64_max ->
  exists report s', run_campaign s cases = (report, s')
    /\ Forall2 (judged d) cases report /\ steady s' /\ alike s s'.
Proof.
  intros d Hs Hcases Hz Hc. unfold run_campaign.
  enough (Hgen : forall acc, exists report s', campaign_loop cases s acc = (acc ++ report, s')
            /\ Forall2 (judged d) cases report /\ steady s' /\ alike s s') by apply (Hgen []).
  assert (Ed : bn_device (ln_env (sy_runner s)) = d) by done. clearbody d.
  assert (Ht : 0 <= REQUEST_TIME) by by vm_compute.
  revert s Hs Hcases Hz Hc Ed. induction cases as [|c cases IH]; intros s Hs Hcases Hz Hc Ed acc;
    cbn [campaign_loop].
  { exists [], s. rewrite app_nil_r. split_and!; try done. apply alike_refl. }
  rewrite zlen_cons in Hc. pose proof (zlen_nonneg cases).
  apply Forall_cons_iff in Hcases as [[Hp Hsv] Hcases].
  destruct (plain_says s QueueId_DEFAULT (vc_retry c) (vc_request c))
    as (answer & s1 & E & Hans & Hs1 & Ha1 & Hc1); try done; [nia|].
  rewrite Ed in Hans. cbn [sv_default_queue sv_now system_service]. rewrite E.
  pose (r := mkCaseResult (vc_name c) (saturating_sub (sy_clock s1) (sy_clock s))
    (if answer is Ok reply then case_matches (vc_expectation c) reply else false)
    (if answer is Err e then Some e else None)).
  destruct (IH s1) with (acc := acc ++ [r])
    as (report & s' & E' & Hrep & Hs' & Ha'); try done; [|lia|lia|..].
  { eapply Forall_impl; [exact Hcases|]. intros c' [? ?]. split; [done|]. by eapply serves_later. }
  { by rewrite (sl_device _ _ (al_line _ _ Ha1)). }
  exists (r :: report), s'. split_and!; [|constructor; [|exact Hrep]|done|by eapply alike_trans].
  { rewrite <- app_assoc in E'. etrans; [|exact E']. by destruct answer. }
  split; [done|]. unfold r. cbn [cr_elapsed cr_passed cr_error]. split; [unfold saturating_sub; lia|].
  unfold device_says in Hans. destruct (accepts_address d (req_address (vc_request c))); [by subst answer|].
  destruct Hans as (e & -> & Hu). eauto.
Qed.
(** ** Managed sessions *)

(** Options that validation accepts, over durations. *)
Record health_ready (m : ManagedDeviceSession) : Prop := {
  hr_valid : DeviceHealthOptions_validate (md_options m) = Ok tt;
  hr_adaptive : forall a, ho_adaptive (md_options m) = Some a -> 0 <= ad_minimum a /\ 0 <= ad_maximum a;
}.

(** The short first attempt is a request the link takes. *)
Lemma serves_fast s queue policy m state command fast :
  serves s queue policy -> health_ready m ->
  adaptive_timeout (md_options m) state command policy = Some fast ->
  serves s queue (fast_policy policy fast).
Proof.
  intros [] [Hv Ha] Ef. destruct (adaptive_timeout_spec _ _ _ _ _ Ef) as (_ & _ & Hlt).
  assert (1 <= fast).
  { revert Ef. unfold adaptive_timeout. destruct (_ || _); [done|].
    destruct (ho_adaptive (md_options m)) as [a|] eqn:Ea; [|done].
    destruct (hs_learned_response state) as [learned|]; [|done]. destruct (_ <? _); [|done].
    intros [= <-]. destruct (Ha a eq_refl). revert Hv.
    unfold DeviceHealthOptions_validate, AdaptiveTiming_validate. rewrite Ea.
    destruct (_ <? ho_cooldown _); [done|]. cbn [result_bind].
    destruct (Z.eqb_spec (ad_minimum a) 0), (Z.eqb_spec (ad_maximum a) 0); cbn [orb]; try done.
    intros _. unfold clamp. repeat case_match; lia. }
  split; cbn; (done || lia).
Qed.

(** The health of a device that has answered: no outage counts, and there is no cooldown. *)
Definition answering (before after : HealthState) (ok : bool) : Prop :=
  hs_consecutive_transport_failures after = 0 /\ hs_cooldown_until after = None
  /\ hs_successes after = (if ok then saturating_add u64_max (hs_successes before) 1 else hs_successes before)
  /\ hs_failures after = (if ok then hs_failures before else saturating_add u64_max (hs_failures before) 1)
  /\ hs_adaptive_fallbacks after = hs_adaptive_fallbacks before.

(** C14. A managed session speaks for its device, and a device that answers is never cooled
    down. Over a working link without latency, a managed execution outside a cooldown, of any
    operation whose request is valid, goes to an address the device listens to and does not use
    command 31, makes of the device's answer what the operation makes of it, a value or the
    device's refusal; either counts once in the health of the device, clears the outages seen
    before and leaves no cooldown. Since the line has no latency the answer comes within any
    timeout the session may have learned, so the short first attempt is the only one. *)
Theorem managed_session_reads_the_device {Op Output} `{Operation Op Output} (op : Op) s queue policy
    (instant_max : Z) (m : ManagedDeviceSession) (bypass : bool) (state : HealthState) request :
  let d := bn_device (ln_env (sy_runner s)) in
  let answer := op_decode_reply op (device_reply d request) in
  DeviceSession_request (md_session m) op = Ok request -> plain request ->
  steady s -> serves s queue policy -> accepts_address d (req_address request) = true ->
  health_ready m -> check_cooldown (md_state m) bypass (sy_clock s) = (Ok tt, state) ->
  sy_clock s + REQUEST_TIME <= u64_max ->
  exists after s',
    md_execute_inner instant_max s m op queue policy bypass
    = (result_map_err (fun e => ManagedSession (SessionOperation e)) answer, md_with m after, s')
    /\ answering (md_state m) after (is_ok answer) /\ steady s' /\ alike s s'.
Proof.
  intros d answer Hreq Hp Hs Hsv Hacc Hm Hcool Hc.
  assert (Hst : hs_successes state = hs_successes (md_state m) /\ hs_failures state = hs_failures (md_state m)
                /\ hs_adaptive_fallbacks state = hs_adaptive_fallbacks (md_state m)).
  { revert Hcool. unfold check_cooldown. repeat case_match; by intros [= <-]. }
  destruct Hst as (E1 & E2 & E3). unfold md_execute_inner.
  assert (Eb : (if bypass then (0, s) else sv_now s) = (if bypass then 0 else sy_clock s, s)) by by destruct bypass.
  rewrite Eb. assert (Ec : check_cooldown (md_state m) bypass (if bypass then 0 else sy_clock s) = (Ok tt, state))
    by by destruct bypass.
  rewrite Ec. cbn [sv_now system_service md_with md_state md_options md_session].
  assert (Hex : forall policy', serves s queue policy' -> exists s',
    DeviceSession_execute s (md_session m) op queue policy' = (result_map_err SessionOperation answer, s')
    /\ steady s' /\ alike s s').
  { intros policy' Hsv'. destruct (session_execute_plain op s queue policy' (md_session m) request)
      as (s' & E & Hs' & Ha' & _); try done. by exists s'. }
  destruct (adaptive_timeout (md_options m) state (op_command op) policy) as [fast|] eqn:Ef.
  - destruct (Hex _ (serves_fast s queue policy m state (op_command op) fast Hsv Hm Ef)) as (s' & -> & Hs' & Ha').
    destruct answer as [value|e]; cbn [result_map_err is_response_timeout];
      [|unfold md_record_failure; cbn [is_transport_outage andb]];
      eexists _, s'; (split; [reflexivity|]); unfold answering; split_and!;
      (done || (cbn -[saturating_add]; congruence)).
  - destruct (Hex policy Hsv) as (s' & -> & Hs' & Ha'). unfold md_finish.
    destruct answer as [value|e]; cbn [result_map_err];
      [|unfold md_record_failure; cbn [is_transport_outage andb]];
      eexists _, s'; (split; [reflexivity|]); unfold answering; split_and!;
      (done || (cbn -[saturating_add]; congruence)).
Qed.
End Session.

Lemma example_serves : serves example_system QueueId_DEFAULT RetryPolicy_default.
Proof. split; try done. intros request. by exists QueueId_DEFAULT. Qed.

Lemma session_reads_the_device_witness :
  exists session s1 s2,
    DeviceSession_identify example_system (Polling 0 Primary) RetryPolicy_default = (Ok session, s1)
    /\ sp_identity (ds_profile session) = host_identity example_identity
    /\ sp_address (ds_profile session) = Unique 0x2607 0x123456 Primary
    /\ DeviceSession_execute s1 session mkReadPrimaryValue QueueId_DEFAULT RetryPolicy_default
       = (Ok (mkPrimaryValue 39 0x42280000), s2).
Proof.
  destruct (session_reads_the_device example_system 0 Primary RetryPolicy_default
              example_system_steady example_serves)
    as (session & s1 & s2 & s3 & s4 & E1 & Hi & Hl & _ & E2 & _);
    [reflexivity|lia|by vm_compute|by vm_compute|left; by vm_compute|by vm_compute|].
  exists session, s1, s2. split_and!; [exact E1|exact Hi|exact Hl|exact E2].
Defined.

Lemma example_identified :
  exists session s1,
    DeviceSession_identify example_system (Polling 0 Primary) RetryPolicy_default = (Ok session, s1)
    /\ sp_identity (ds_profile session) = host_identity example_identity
    /\ sp_address (ds_profile session) = long_address example_identity Primary
    /\ speaks_for session example_device /\ steady s1 /\ alike example_system s1
    /\ sy_clock s1 <= sy_clock example_system + REQUEST_TIME.
Proof.
  apply (system_identifies example_system 0 Primary RetryPolicy_default
           example_system_steady example_serves);
    [reflexivity|lia|by vm_compute|by vm_compute|left; by vm_compute|by vm_compute].
Qed.

Lemma snapshot_shows_the_device_witness :
  exists session s1 s2 snapshot,
    DeviceSession_identify example_system (Polling 0 Primary) RetryPolicy_default = (Ok session, s1)
    /\ DeviceSession_snapshot (fun _ => [63]) 7 session SnapshotOptions_FULL s1 = (snapshot, s2)
    /\ sn_primary_value snapshot = FieldValue (mkPrimaryValue 39 0x42280000)
    /\ sn_long_tag snapshot = FieldError (mkSnapshotError (CommandCode_new 20) [63]).
Proof.
  destruct example_identified as (session & s1 & E1 & Hi & _ & Hf & Hs1 & Ha1 & Hc1).
  pose proof (sl_device _ _ (al_line _ _ Ha1)) as Ed.
  destruct (snapshot_shows_the_device s1 (fun _ => [63]) 7 session SnapshotOptions_FULL Hs1
              (serves_later _ _ _ _ Ha1 example_serves)) as (s2 & E2 & _).
  - rewrite Ed. exact Hf.
  - apply (Z.le_trans _ (sy_clock example_system + REQUEST_TIME + 6 * REQUEST_TIME)); [lia|by vm_compute].
  - exists session, s1, s2, (device_snapshot (fun _ => [63]) 7 (ds_profile session) SnapshotOptions_FULL
        example_device).
    rewrite Ed in E2. split_and!; [exact E1|exact E2|reflexivity|].
    unfold device_snapshot. cbn [sn_long_tag]. rewrite Hi. reflexivity.
Defined.

(** A device known by another serial number at the device's address, and the device itself at
    an address where nobody is. *)
Definition example_known : list KnownDevice :=
  [mkKnownDevice (Polling 0 Primary) (host_identity example_identity);
   mkKnownDevice (Polling 0 Primary)
     (host_identity (mkEmulatedIdentity 0x26 0x2607 5 7 1 2 3 1 0 0x123457 5 4 9 0 0x26 1));
   mkKnownDevice (Polling 7 Primary) (host_identity example_identity)].

Lemma recovery_recognises_the_device_witness :
  exists e s',
    reconcile_devices example_system example_known RetryPolicy_default
    = ([(Polling 0 Primary, Restored (host_identity example_identity));
        (Polling 0 Primary, Replaced (host_identity example_identity));
        (Polling 7 Primary, Unavailable e)], s')
    /\ unanswered e.
Proof.
  destruct (recovery_recognises_the_device example_system example_known RetryPolicy_default
              example_system_steady example_serves) as (report & s' & E & Hf & _);
    [by vm_compute|by repeat constructor|by vm_compute|].
  apply Forall2_cons_inv_l in Hf as ([a1 r1] & l1 & [A1 R1] & Hf & ->).
  apply Forall2_cons_inv_l in Hf as ([a2 r2] & l2 & [A2 R2] & Hf & ->).
  apply Forall2_cons_inv_l in Hf as ([a3 r3] & l3 & [A3 (e & R3 & Hu)] & Hf & ->).
  apply Forall2_nil_inv_l in Hf as ->. cbn in A1, A2, A3, R3.
  change (r1 = Restored (host_identity example_identity)) in R1.
  change (r2 = Replaced (host_identity example_identity)) in R2.
  exists e, s'. subst. split; [exact E|exact Hu].
Defined.

Definition example_case (node : Z) (expectation : CaseExpectation) : VerificationCase :=
  mkCase [99] (Request_new (Polling node Primary) (CommandCode_new 48) []) expectation
    RetryPolicy_default.

Lemma campaign_judges_the_device_witness :
  cr_passed <$> (run_campaign example_system
    [example_case 0 (mkCaseExpectation [0] (Some [1; 2]));
     example_case 0 (mkCaseExpectation [0] (Some [9]));
     example_case 3 (mkCaseExpectation [0] None)]).1 = [true; false; false].
Proof.
  destruct (campaign_judges_the_device example_system
    [example_case 0 (mkCaseExpectation [0] (Some [1; 2]));
     example_case 0 (mkCaseExpectation [0] (Some [9]));
     example_case 3 (mkCaseExpectation [0] None)] example_system_steady)
    as (report & s' & E & Hf & _); [|by vm_compute|by vm_compute|].
  { repeat (apply Forall_cons_iff; split); try done; (split; [|exact example_serves]).
    all: split; try done; by split. }
  rewrite E.
  apply Forall2_cons_inv_l in Hf as (r1 & l1 & (_ & _ & P1 & _) & Hf & ->).
  apply Forall2_cons_inv_l in Hf as (r2 & l2 & (_ & _ & P2 & _) & Hf & ->).
  apply Forall2_cons_inv_l in Hf as (r3 & l3 & (_ & _ & P3 & _) & Hf & ->).
  apply Forall2_nil_inv_l in Hf as ->. cbn [fst fmap list_fmap]. by rewrite P1, P2, P3.
Defined.

(** A session that has learned a response time of a quarter of a second, one outage behind. *)
Definition example_health : HealthState :=
  mkHealthState 4 1 1 0 0 None (Some (250 * 1000000)) 2 1.

Lemma managed_session_reads_the_device_witness :
  exists session s1 s2 after,
    DeviceSession_identify example_system (Polling 0 Primary) RetryPolicy_default = (Ok session, s1)
    /\ md_execute u64_max s1 (mkManaged session DeviceHealthOptions_default example_health)
         mkReadPrimaryValue QueueId_DEFAULT RetryPolicy_default
       = (Ok (mkPrimaryValue 39 0x42280000), mkManaged session DeviceHealthOptions_default after, s2)
    /\ answering example_health after true.
Proof.
  destruct example_identified as (session & s1 & E1 & Hi & _ & Hf & Hs1 & Ha1 & Hc1).
  pose proof (sl_device _ _ (al_line _ _ Ha1)) as Ed.
  pose proof Hf as [Hv Hacc Hp].
  destruct (managed_session_reads_the_device mkReadPrimaryValue s1 QueueId_DEFAULT RetryPolicy_default
              u64_max (mkManaged session DeviceHealthOptions_default example_health) false example_health
              (bare_request (sp_address (ds_profile session)) (CommandCode_new 1) ReadOnly
                 (sp_request_preambles (ds_profile session)))) as (after & s2 & E2 & Ha & _).
  - reflexivity.
  - apply bare_plain; [exact Hv|unfold is_u8; cbn; lia|cbn; lia|exact Hp].
  - exact Hs1.
  - exact (serves_later _ _ _ _ Ha1 example_serves).
  - rewrite Ed. exact Hacc.
  - split; [reflexivity|]. intros a Ea. injection Ea as <-. split; vm_compute; discriminate.
  - reflexivity.
  - apply (Z.le_trans _ (sy_clock example_system + REQUEST_TIME + REQUEST_TIME)); [lia|by vm_compute].
  - exists session, s1, s2, after. rewrite Ed in E2, Ha.
    split_and!; [exact E1|exact E2|exact Ha].
Defined.
