(* ===== verification/Ports.v ===== *)
(** * Serial and TCP ports (src/src/channel/serial.rs, tcp.rs; [connect] of src/src/ip.rs)

    The channels over a native stream, and the checks and settings of opening one. What the
    operating system and tokio do is the class [NativeStream] and, for a socket, the class
    [Socket]; an I/O error is known by whether it is [TimedOut]. *)
From S2P Require Import Prelude Chars Wire Decoder Catalog Codec Operation QueueSet Link LinkRunner.
From S2P Require Import Ip Trace TraceProps Emulator EmulatorProps Bench.

(** [write_all], [flush] and [read] into a buffer of the given size. *)
Class NativeStream (N : Type) := {
  ns_write_all : N -> bytes -> result bool unit * N;
  ns_flush : N -> result bool unit * N;
  ns_read : N -> Z -> result bool bytes * N;
}.

Section Stream.
Context {N : Type} `{NativeStream N}.

(** [send], [receive] and [flush] are the same for both ports. *)
Definition port_send (s : N) (l : bytes) : result ChannelError unit * N :=
  match ns_write_all s l with
  | (Err e, s) => (Err (ChannelIo e), s)
  | (Ok _, s) =>
      match ns_flush s with
      | (Err e, s) => (Err (ChannelIo e), s)
      | (Ok _, s) => (Ok tt, s)
      end
  end.

Definition port_receive (s : N) (capacity : Z) : result ChannelError (Z * bytes) * N :=
  match ns_read s capacity with
  | (Err e, s) => (Err (ChannelIo e), s)
  | (Ok data, s) =>
      if zlen data =? 0 then (Err ChannelIsClosed, s) else (Ok (zlen data, data), s)
  end.

Definition port_flush (s : N) : result ChannelError unit * N :=
  match ns_flush s with
  | (Err e, s) => (Err (ChannelIo e), s)
  | (Ok _, s) => (Ok tt, s)
  end.
End Stream.

(** ** Serial ports *)

(** A path is the bytes of an [OsString]. *)
Record SerialOptions := mkSerialOptions { so_path : bytes; so_baud_rate : Z }.

Definition SerialOptions_new (path : bytes) : SerialOptions := mkSerialOptions path 1200.
Definition SerialOptions_with_baud_rate (o : SerialOptions) (baud_rate : Z) : SerialOptions :=
  mkSerialOptions (so_path o) baud_rate.

(** The well-formed UTF-8 sequences, of which [to_str] accepts exactly the concatenations. *)
Fixpoint is_utf8 (fuel : nat) (l : bytes) : bool :=
  let continues := forallb (in_range 0x80 0xbf) in
  match fuel, l with
  | _, [] => true
  | O, _ => false
  | S fuel, a :: l =>
      if in_range 0 0x7f a then is_utf8 fuel l
      else
        match l with
        | b :: l =>
            if in_range 0xc2 0xdf a then continues [b] && is_utf8 fuel l
            else
              match l with
              | c :: l =>
                  let second :=
                    if a =? 0xe0 then in_range 0xa0 0xbf b
                    else if a =? 0xed then in_range 0x80 0x9f b
                    else in_range 0x80 0xbf b in
                  if in_range 0xe0 0xef a then second && continues [c] && is_utf8 fuel l
                  else
                    match l with
                    | d :: l =>
                        let second :=
                          if a =? 0xf0 then in_range 0x90 0xbf b
                          else if a =? 0xf4 then in_range 0x80 0x8f b
                          else in_range 0x80 0xbf b in
                        in_range 0xf0 0xf4 a && second && continues [c; d] && is_utf8 fuel l
                    | [] => false
                    end
              | [] => false
              end
        | [] => false
        end
  end.

Definition path_string (path : bytes) : result ChannelError bytes :=
  if is_utf8 (length path) path then Ok path
  else Err (ChannelConfiguration "serial-port path is not valid UTF-8").

Record SerialChannel (N : Type) := mkSerialChannel { sp_stream : N }.
Arguments mkSerialChannel {N} sp_stream.
Arguments sp_stream {N} s.

(** [open_native_async] is the driver, given the port and the speed and set to eight data
    bits, odd parity, one stop bit and no flow control. *)
Definition SerialChannel_open {N} (open_native_async : bytes -> Z -> option N)
    (options : SerialOptions) : result ChannelError (SerialChannel N) :=
  let? path := path_string (so_path options) ;;
  let? stream := ok_or (open_native_async path (so_baud_rate options)) ChannelSerial ;;
  Ok (mkSerialChannel stream).

#[global] Instance serial_channel {N} `{NativeStream N} : ByteChannel (SerialChannel N) := {
  bc_send c l := let '(r, s) := port_send (sp_stream c) l in (r, mkSerialChannel s);
  bc_receive c capacity :=
    let '(r, s) := port_receive (sp_stream c) capacity in (r, mkSerialChannel s);
  bc_flush c := let '(r, s) := port_flush (sp_stream c) in (r, mkSerialChannel s);
}.

(** ** TCP *)

Definition DEFAULT_CONNECT_TIMEOUT : Z := 10 * NANOS_PER_SECOND.
Definition MAXIMUM_TCP_CONFIGURATION_DURATION : Z := 24 * 3600 * NANOS_PER_SECOND.

Record TcpOptions := mkTcpOptions { to_no_delay : bool; to_keepalive : option Z }.

Definition TcpOptions_default : TcpOptions := mkTcpOptions true (Some (30 * NANOS_PER_SECOND)).
Definition TcpOptions_with_no_delay (o : TcpOptions) (no_delay : bool) : TcpOptions :=
  mkTcpOptions no_delay (to_keepalive o).
Definition TcpOptions_with_keepalive (o : TcpOptions) (keepalive : option Z) : TcpOptions :=
  mkTcpOptions (to_no_delay o) keepalive.

Definition TcpOptions_validate (o : TcpOptions) : result ChannelError unit :=
  match to_keepalive o with
  | Some keepalive =>
      return_if keepalive =? 0
        err ChannelConfiguration "TCP keepalive interval must be greater than zero" ;;
      return_if MAXIMUM_TCP_CONFIGURATION_DURATION <? keepalive
        err ChannelConfiguration "TCP keepalive interval exceeds the supported limit" ;;
      Ok tt
  | None => Ok tt
  end.

Class Socket (N : Type) := {
  sk_set_nodelay : N -> bool -> result bool unit * N;
  sk_set_keepalive : N -> bool -> result bool unit * N;
  (** [TcpKeepalive] with its time and interval. *)
  sk_set_tcp_keepalive : N -> Z -> Z -> result bool unit * N;
}.

Record TcpChannel (N : Type) := mkTcpChannel { tc_stream : N }.
Arguments mkTcpChannel {N} tc_stream.
Arguments tc_stream {N} t.

Definition TcpChannel_from_stream {N} (stream : N) : TcpChannel N := mkTcpChannel stream.

Definition socket_step {N} (step : result bool unit * N) (next : N -> result ChannelError (TcpChannel N))
    : result ChannelError (TcpChannel N) :=
  match step with (Err e, _) => Err (ChannelIo e) | (Ok _, s) => next s end.

(** [connect] is [TcpStream::connect] under a timeout, [None] when it elapses. *)
Definition TcpChannel_connect_with_timeout {N} `{Socket N}
    (connect : Z -> option (result bool N)) (options : TcpOptions) (connect_timeout : Z)
    : result ChannelError (TcpChannel N) :=
  let? _ := TcpOptions_validate options ;;
  return_if connect_timeout =? 0
    err ChannelConfiguration "TCP connect timeout must be greater than zero" ;;
  return_if MAXIMUM_TCP_CONFIGURATION_DURATION <? connect_timeout
    err ChannelConfiguration "TCP connect timeout exceeds the supported limit" ;;
  match connect connect_timeout with
  | None => Err (ChannelTimeout "connect")
  | Some (Err e) => Err (ChannelIo e)
  | Some (Ok stream) =>
      socket_step (sk_set_nodelay stream (to_no_delay options)) (fun stream =>
      match to_keepalive options with
      | Some interval =>
          socket_step (sk_set_keepalive stream true) (fun stream =>
          socket_step (sk_set_tcp_keepalive stream interval interval) (fun stream =>
          Ok (mkTcpChannel stream)))
      | None =>
          socket_step (sk_set_keepalive stream false) (fun stream => Ok (mkTcpChannel stream))
      end)
  end.

Definition TcpChannel_connect {N} `{Socket N} (connect : Z -> option (result bool N))
    (options : TcpOptions) : result ChannelError (TcpChannel N) :=
  TcpChannel_connect_with_timeout connect options DEFAULT_CONNECT_TIMEOUT.

#[global] Instance tcp_channel {N} `{NativeStream N} : ByteChannel (TcpChannel N) := {
  bc_send c l := let '(r, s) := port_send (tc_stream c) l in (r, mkTcpChannel s);
  bc_receive c capacity :=
    let '(r, s) := port_receive (tc_stream c) capacity in (r, mkTcpChannel s);
  bc_flush c := let '(r, s) := port_flush (tc_stream c) in (r, mkTcpChannel s);
}.

(** ** HART-IP *)

Definition IpSession_connect {N} `{Socket N} (connect : Z -> option (result bool N))
    : result IpError (IpSession N) :=
  match connect (to_io IpTimeouts_default) with
  | None => Err (IpTimeout "connect")
  | Some (Err e) => Err (IpIo e)
  | Some (Ok stream) =>
      match sk_set_nodelay stream true with
      | (Err e, _) => Err (IpIo e)
      | (Ok _, stream) => Ok (IpSession_new stream)
      end
  end.

(** ** The contract of byte channels, and who keeps it *)

(** What [ByteChannel] (src/src/channel/mod.rs) asks of [receive]: a nonempty chunk that fits
    the buffer, or an error. *)
Class ChannelContract (C : Type) `{ByteChannel C} := {
  cc_receive : forall (c c' : C) (capacity count : Z) (data : bytes),
    0 < capacity -> bc_receive c capacity = (Ok (count, data), c') ->
    count = zlen data /\ 0 < count <= capacity;
}.

(** What tokio promises of a read. *)
Class LawfulStream (N : Type) `{NativeStream N} := {
  ls_read : forall (s s' : N) (capacity : Z) (data : bytes),
    ns_read s capacity = (Ok data, s') -> zlen data <= capacity;
}.

Lemma port_receive_contract {N} `{LawfulStream N} (s s' : N) (capacity count : Z) (data : bytes) :
  port_receive s capacity = (Ok (count, data), s') -> count = zlen data /\ 0 < count <= capacity.
Proof.
  unfold port_receive. destruct (ns_read s capacity) as [[l|e] s1] eqn:E; [|done].
  apply ls_read in E. destruct (Z.eqb_spec (zlen l) 0); [done|]. intros [= <- <- <-].
  pose proof (zlen_nonneg l). lia.
Qed.

#[global] Instance tcp_contract {N} `{LawfulStream N} : ChannelContract (TcpChannel N).
Proof.
  split. intros c c' capacity count data _. cbn.
  destruct (port_receive (tc_stream c) capacity) as [r s] eqn:E. intros [= -> _].
  by eapply port_receive_contract.
Qed.

#[global] Instance serial_contract {N} `{LawfulStream N} : ChannelContract (SerialChannel N).
Proof.
  split. intros c c' capacity count data _. cbn.
  destruct (port_receive (sp_stream c) capacity) as [r s] eqn:E. intros [= -> _].
  by eapply port_receive_contract.
Qed.

#[global] Instance line_contract : ChannelContract Line.
Proof.
  split. intros [self peer] c' capacity count data Hc. cbn.
  pose proof (receive_spec self peer capacity Hc) as Hr.
  destruct (MemoryChannel_receive self peer capacity) as [[[[n l]|e] self']|]; [|done|done].
  intros [= -> -> _]. destruct Hr as (Hne & -> & Hle & _). split; [done|].
  destruct data; [done|]. unfold zlen in *. cbn [length] in *. lia.
Qed.

#[global] Instance recording_contract {C} `{ChannelContract C} (now : Z) :
  ChannelContract (RecordingChannel C) (H := recording_at now).
Proof.
  split. intros c c' capacity count data Hc. cbn. unfold RecordingChannel_receive.
  destruct (bc_receive (rc_inner c) capacity) as [[[n l]|e] inner] eqn:E; [|done].
  apply cc_receive in E; [|done]. destruct (capacity <? n); [done|]. by intros [= <- <- _].
Qed.

(** A replay keeps the contract when its scenario provides no empty chunk. *)
Lemma replay_contract (c c' : ReplayChannel) (capacity count : Z) (data : bytes) :
  Forall (fun s => s <> Provide []) (rp_steps c) -> 0 < capacity ->
  bc_receive c capacity = (Ok (count, data), c') ->
  count = zlen data /\ 0 < count <= capacity.
Proof.
  assert (Ht : forall c, rp_pending c <> [] -> 0 < capacity ->
             take_pending c capacity = (Ok (count, data), c') ->
             count = zlen data /\ 0 < count <= capacity).
  { intros [steps l] Hne Hc [= <- <- _]. cbn in *. unfold zlen. rewrite length_take.
    destruct l; [done|]. cbn [length]. lia. }
  intros Hs Hc. cbn. unfold ReplayChannel_receive. rewrite (proj2 (Z.eqb_neq _ _)) by lia.
  case_bool_decide; [|by apply Ht].
  destruct (rp_steps c) as [|[l|l|] steps]; try done.
  apply Forall_cons_iff in Hs as [Hl _]. apply Ht; [|done]. cbn. congruence.
Qed.

(** An empty chunk of a scenario is received as zero bytes. *)
Example empty_chunk_is_received :
  (bc_receive (mkReplay [Provide []; Provide [1]] []) 16).1 = Ok (0, []).
Proof. reflexivity. Qed.

(** Opening a TCP channel succeeds exactly with admissible settings and a socket that
    accepts them, and the channel is over that socket. *)
Lemma connect_exact {N} `{Socket N} (connect : Z -> option (result bool N)) options timeout channel :
  0 <= timeout -> (forall k, to_keepalive options = Some k -> 0 <= k) ->
  TcpChannel_connect_with_timeout connect options timeout = Ok channel <->
  0 < timeout <= MAXIMUM_TCP_CONFIGURATION_DURATION
  /\ (forall k, to_keepalive options = Some k -> 0 < k <= MAXIMUM_TCP_CONFIGURATION_DURATION)
  /\ exists s0 s1 s2, connect timeout = Some (Ok s0)
     /\ sk_set_nodelay s0 (to_no_delay options) = (Ok tt, s1)
     /\ match to_keepalive options with
        | Some k => sk_set_keepalive s1 true = (Ok tt, s2)
                    /\ sk_set_tcp_keepalive s2 k k = (Ok tt, tc_stream channel)
        | None => s2 = tc_stream channel /\ sk_set_keepalive s1 false = (Ok tt, s2)
        end.
Proof.
  intros Ht Hk. unfold TcpChannel_connect_with_timeout, TcpOptions_validate, socket_step.
  destruct channel as [s]. cbn [tc_stream]. split.
  - intros E. destruct (to_keepalive options) as [k|]; cbn [result_bind] in E.
    + specialize (Hk k eq_refl).
      destruct (Z.eqb_spec k 0), (Z.ltb_spec MAXIMUM_TCP_CONFIGURATION_DURATION k); try done.
      cbn [result_bind] in E.
      destruct (Z.eqb_spec timeout 0), (Z.ltb_spec MAXIMUM_TCP_CONFIGURATION_DURATION timeout); try done.
      destruct (connect timeout) as [[s0|]|]; try done.
      destruct (sk_set_nodelay s0 _) as [[[]|] s1] eqn:E1; try done.
      destruct (sk_set_keepalive s1 true) as [[[]|] s2] eqn:E2; try done.
      destruct (sk_set_tcp_keepalive s2 k k) as [[[]|] s3] eqn:E3; try done.
      injection E as ->. split_and!; [lia|done|intros ? [= <-]; lia|]. by exists s0, s1, s2.
    + destruct (Z.eqb_spec timeout 0), (Z.ltb_spec MAXIMUM_TCP_CONFIGURATION_DURATION timeout); try done.
      destruct (connect timeout) as [[s0|]|]; try done.
      destruct (sk_set_nodelay s0 _) as [[[]|] s1] eqn:E1; try done.
      destruct (sk_set_keepalive s1 false) as [[[]|] s2] eqn:E2; try done.
      injection E as ->. split_and!; [lia|done|done|]. by exists s0, s1, s.
  - intros (Hlim & Hka & s0 & s1 & s2 & E0 & E1 & E2).
    destruct (to_keepalive options) as [k|]; cbn [result_bind].
    + specialize (Hka k eq_refl). destruct E2 as [E2 E3].
      rewrite !(proj2 (Z.eqb_neq _ _)), !(proj2 (Z.ltb_ge _ _)) by lia. cbn [result_bind].
      by rewrite E0, E1, E2, E3.
    + destruct E2 as [-> E2].
      rewrite !(proj2 (Z.eqb_neq _ _)), !(proj2 (Z.ltb_ge _ _)) by lia.
      by rewrite E0, E1, E2.
Qed.
