(* ===== verification/Cli.v ===== *)
(** * The command-line tool (src/src/bin/hart-link.rs)

    [main] and [execute] of the parsed arguments; what it prints is a value of [CliOutput], the pretty
    printing of reports being Rust's. The arguments are the bytes of the strings where the
    code looks at bytes. *)
From S2P Require Import Prelude Chars Wire Decoder DecoderSpec Catalog Codec Operation.
From S2P Require Import OperationProps Inspect InspectProps.

Inductive CliCommand :=
  | CliInspectHex (value : bytes)
  | CliInspectBase64 (value : text)
  | CliInspectExchange (request response : bytes)
  | CliBuild (address command : Z) (data : bytes).

Inductive CliOutput :=
  | PrintFrame (report : FrameReport)
  | PrintExchange (report : ExchangeReport)
  | PrintLine (line : bytes).

(** The error texts: a message of the inspection, a fixed one, or one formatted from a value. *)
Inductive CliError :=
  | CliIssue (m : IssueMessage)
  | CliOddDigits
  | CliInvalidDigit (index : Z)
  | CliWire (e : WireError)
  | CliOperation (e : OperationError).

Definition nibble (byte : Z) : option Z :=
  if in_range 48 57 byte then Some (byte - 48)
  else if in_range 97 102 byte then Some (byte - 97 + 10)
  else if in_range 65 70 byte then Some (byte - 65 + 10)
  else None.

(** The map over the pairs, collected up to the first error; the shift is on a [u8]. *)
Fixpoint collect_pairs (index : Z) (compact : bytes) : result CliError bytes :=
  match compact with
  | a :: b :: compact =>
      let? high := ok_or (nibble a) (CliInvalidDigit index) ;;
      let? low := ok_or (nibble b) (CliInvalidDigit index) ;;
      let? rest := collect_pairs (index + 1) compact ;;
      Ok (Z.lor (Z.land (Z.shiftl high 4) 0xff) low :: rest)
  | _ => Ok []
  end.

Definition decode_hex (value : bytes) : result CliError bytes :=
  let compact := List.filter (fun byte => negb (is_ascii_whitespace byte)) value in
  return_if negb (zlen compact mod 2 =? 0) err CliOddDigits ;;
  collect_pairs 0 compact.

(** [{byte:02X}]. *)
Definition hex_digit (n : Z) : Z := if n <? 10 then 48 + n else 55 + n.
Definition encode_hex (l : bytes) : bytes :=
  concat (map (fun byte => [hex_digit (byte / 16); hex_digit (byte mod 16)]) l).

Section Execute.
Context (base64_decode : text -> option bytes).

Definition issue {A} (r : result InspectionIssue A) : result CliError A :=
  result_map_err (fun i => CliIssue (iss_message i)) r.

Definition cli_execute (command : CliCommand) : result CliError CliOutput :=
  match command with
  | CliInspectHex value =>
      let? report := issue (inspect_hex value) ;;
      Ok (PrintFrame report)
  | CliInspectBase64 value =>
      let? report := issue (inspect_base64 base64_decode value) ;;
      Ok (PrintFrame report)
  | CliInspectExchange request response =>
      let? request := decode_hex request ;;
      let? response := decode_hex response ;;
      let? report := issue (inspect_exchange request response) ;;
      Ok (PrintExchange report)
  | CliBuild address command data =>
      let? address := result_map_err CliWire (Address_polling address Primary) ;;
      let? data := decode_hex data ;;
      let? l :=
        result_map_err CliOperation
          (let? frame := Request_to_frame (Request_new address (CommandCode_new command) data) ;;
           result_map_err OpWire (Frame_encode frame)) ;;
      Ok (PrintLine (encode_hex l))
  end.

(** The parser of the arguments ends the process itself, with a code of its own, when there is
    no command in them. *)
Inductive ExitCode := ExitSuccess | ExitFailure | ExitParser (code : Z).

(** What the process printed: a report on the output, a message on the error stream. *)
Inductive Printed :=
  | PrintedNothing
  | Stdout (output : CliOutput)
  | Stderr (message : CliError).

Definition cli_main {A} (parse : A -> Z + CliCommand) (arguments : A) : ExitCode * Printed :=
  match parse arguments with
  | inl code => (ExitParser code, PrintedNothing)
  | inr command =>
      match cli_execute command with
      | Ok output => (ExitSuccess, Stdout output)
      | Err message => (ExitFailure, Stderr message)
      end
  end.
End Execute.

(** ** The command-line tool: properties *)

Lemma hex_digit_nibble n :
  0 <= n < 16 -> hex_nibble (hex_digit n) = Some n /\ is_ascii_whitespace (hex_digit n) = false.
Proof.
  intros Hn. unfold hex_digit, hex_nibble, is_ascii_whitespace, in_range.
  destruct (Z.ltb_spec n 10).
  - rewrite !(proj2 (Z.leb_le _ _)) by lia. cbn [andb]. split; [f_equal; lia|].
    by rewrite !(proj2 (Z.eqb_neq _ _)) by lia.
  - rewrite (proj2 (Z.leb_gt (55 + n) 57)), (proj2 (Z.leb_gt 97 (55 + n))) by lia.
    rewrite !andb_false_r, andb_false_l, !(proj2 (Z.leb_le _ _)) by lia. cbn [andb].
    split; [f_equal; lia|]. by rewrite !(proj2 (Z.eqb_neq _ _)) by lia.
Qed.

(** What is printed are the digits of the bytes and nothing else. *)
Lemma encode_hex_pairs l :
  all_u8 l -> hex_digits (encode_hex l) = encode_hex l /\ hex_pairs (encode_hex l) l.
Proof.
  induction 1 as [|b l Hb _ [IH1 IH2]]; [by split; [|constructor]|].
  unfold encode_hex, hex_digits in *. cbn [map concat app List.filter].
  unfold is_u8 in Hb.
  destruct (hex_digit_nibble (b / 16)) as [H1 W1]; [Z.to_euclidean_division_equations; lia|].
  destruct (hex_digit_nibble (b mod 16)) as [H2 W2]; [Z.to_euclidean_division_equations; lia|].
  rewrite W1, W2. cbn [negb]. rewrite IH1. split; [done|].
  replace b with (b / 16 * 16 + b mod 16) at 3 by (Z.to_euclidean_division_equations; lia).
  by constructor.
Qed.

Lemma collect_pairs_run index digits l : hex_pairs digits l -> collect_pairs index digits = Ok l.
Proof.
  intros Hp. revert index. induction Hp as [|a b hi lo digits l Ha Hb _ IH]; intros index; [done|].
  cbn [collect_pairs]. change nibble with hex_nibble. rewrite Ha, Hb. cbn [ok_or result_bind].
  rewrite IH. cbn [result_bind]. by rewrite hex_join by (by eapply hex_nibble_range).
Qed.

Lemma decode_hex_run value l : hex_pairs (hex_digits value) l -> decode_hex value = Ok l.
Proof.
  intros Hp. unfold decode_hex. fold (hex_digits value).
  rewrite (proj2 (hex_pairs_bytes _ _ Hp)), Z.mul_comm, Z_mod_mult. cbn.
  by apply collect_pairs_run.
Qed.

Lemma decode_hex_u8 value l : decode_hex value = Ok l -> all_u8 l.
Proof.
  unfold decode_hex. destruct (negb _); [done|]. generalize 0.
  generalize (List.filter (fun byte => negb (is_ascii_whitespace byte)) value). intros compact index.
  revert index l. remember (length compact) as n eqn:Hn.
  revert compact Hn. induction n as [n IH] using lt_wf_ind. intros compact -> index l.
  destruct compact as [|a [|b compact]]; cbn [collect_pairs]; [by intros [= <-]..|].
  change nibble with hex_nibble.
  destruct (hex_nibble a) as [hi|] eqn:Ha; [|done]. destruct (hex_nibble b) as [lo|] eqn:Hb; [|done].
  cbn [ok_or result_bind]. intros H. apply result_bind_Ok in H as (rest & Hr & [= <-]).
  apply hex_nibble_range in Ha, Hb. constructor; [|eapply IH; [|reflexivity|exact Hr]; cbn; lia].
  rewrite hex_join by done. unfold is_u8. lia.
Qed.

(** A printed line reads back as the bytes it shows. *)
Lemma hex_roundtrip l : all_u8 l -> decode_hex (encode_hex l) = Ok l.
Proof. intros Hl. destruct (encode_hex_pairs l Hl) as [E Hp]. apply decode_hex_run. by rewrite E. Qed.

(** What the tool builds it can inspect: the line printed for a short address, a command and
    its data is reported, by the same tool, as a request to that address with that command
    and that much data; and it is built exactly when the address is in range, the data is
    hexadecimal and fits one frame. *)
Theorem built_frames_inspect (base64_decode : text -> option bytes) (address command : Z)
    (text l : bytes) :
  is_u8 address -> is_u16 command -> command <> 31 -> decode_hex text = Ok l -> zlen l <= isize_max ->
  match cli_execute base64_decode (CliBuild address command text) with
  | Ok output =>
      exists line report, output = PrintLine line
        /\ cli_execute base64_decode (CliInspectHex line) = Ok (PrintFrame report)
        /\ fr_kind report = KindRequest /\ fr_address report = Polling address Primary
        /\ fr_command report = CommandCode_new command /\ fr_data_length report = zlen l
  | Err _ => 63 < address \/ 255 < zlen l + (if 255 <? command then 2 else 0)
  end.
Proof.
  intros Ha Hc H31 Hl Hmax. cbn [cli_execute]. unfold Address_polling.
  destruct (Z.ltb_spec 63 address); [by left|]. cbn [result_map_err result_bind].
  rewrite Hl. cbn [result_bind]. set (r := Request_new (Polling address Primary) (CommandCode_new command) l).
  destruct (Request_to_frame r) as [f|e] eqn:Hf.
  - assert (Ht : Request_typed r).
    { split; cbn; try done; [unfold is_u8 in *; lia|by eapply decode_hex_u8]. }
    pose proof (request_frame_wf r f Ht Hf) as Hwf.
    cbn [result_bind]. rewrite Frame_encode_ok by apply Hwf. fold (frame_encoding f).
    cbn [result_map_err result_bind].
    assert (He : Frame_encode f = Ok (frame_encoding f)) by (apply Frame_encode_ok; apply Hwf).
    destruct (inspect_request r f Hmax Hc H31 Hf) as (rep & Hi & Hk & Hcmd & Haddr & Hlen & _).
    assert (Hpf : frame_preambles f = 5 /\ frame_repair f = None).
    { apply Request_to_frame_Ok in Hf as (-> & _); [done|done]. }
    destruct Hpf as [Hp5 Hrep].
    assert (Hu : all_u8 (frame_encoding f)).
    { unfold frame_encoding. pose proof (Frame_body_u8 f Hwf) as Hb. rewrite !Forall_app. split_and!.
      - apply Forall_replicate. by vm_compute.
      - done.
      - constructor; [by apply xor_checksum_u8|done]. }
    destruct (encode_hex_pairs _ Hu) as [Ed Hpairs].
    exists (encode_hex (frame_encoding f)), rep. split; [done|].
    assert (Hx : inspect_hex (encode_hex (frame_encoding f)) = Ok rep).
    { apply (proj1 hex_and_exchange_inspection). split.
      - pose proof (encoding_bounded f _ Hwf He). rewrite (proj2 (hex_pairs_bytes _ _ Hpairs)).
        unfold MAXIMUM_INSPECTION_TEXT_BYTES. pose proof (zlen_nonneg (frame_encoding f)). lia.
      - exists (frame_encoding f). rewrite Ed. split; [done|].
        rewrite (inspect_encoded f) by (done || lia). done. }
    rewrite Hx. by split_and!.
  - cbn [result_bind result_map_err]. right.
    rewrite Request_to_frame_spec in Hf by done.
    destruct (Request_validate r) as [[]|] eqn:Hv; [done|].
    destruct (Z.leb_spec (zlen l + (if 255 <? command then 2 else 0)) 255) as [Hle|]; [|done].
    assert (Hok : Request_validate r = Ok tt); [|congruence].
    apply Request_validate_Ok; [done|]. done.
Qed.

Lemma built_frames_inspect_witness :
  exists line report,
    cli_execute (fun _ => None) (CliBuild 3 0x1234 [48; 97; 32; 70; 70]) = Ok (PrintLine line)
    /\ cli_execute (fun _ => None) (CliInspectHex line) = Ok (PrintFrame report)
    /\ fr_data_length report = 2.
Proof.
  pose proof (built_frames_inspect (fun _ => None) 3 0x1234 [48; 97; 32; 70; 70] [10; 255]) as Hb.
  assert (H : is_u8 3 /\ is_u16 0x1234 /\ 0x1234 <> 31) by (unfold is_u8, is_u16; lia).
  specialize (Hb (proj1 H) (proj1 (proj2 H)) (proj2 (proj2 H)) eq_refl ltac:(by vm_compute)).
  destruct (cli_execute (fun _ => None) (CliBuild 3 0x1234 [48; 97; 32; 70; 70])) as [o|e] eqn:E;
    [|vm_compute in E; discriminate E].
  destruct Hb as (line & report & -> & Hi & _ & _ & _ & Hd). by exists line, report.
Defined.

(** An odd number of digits is an error and nothing else is printed. *)
Example odd_digits_fail :
  cli_main (fun _ => None) inr (CliBuild 3 48 [48; 97; 32; 70])
  = (ExitFailure, Stderr CliOddDigits).
Proof. reflexivity. Qed.
